(** * Address book of hw_m2_se.py: fields, records, the book and the
      upcoming-birthday query

    The development embeds the classes [Field], [Phone], [Birthday],
    [Record] and [AddressBook] of [hw_m2_se.py] together with the parts of
    the Python library they call ([str.isdigit], [datetime.strptime],
    [date.replace], [date.weekday], date arithmetic, [copy.deepcopy]).

    A record and a book are modelled twice: as values, where a method maps
    the record to the record after it (this is where the claims on single
    records and on the query are settled), and as objects in a store with
    references, where aliasing and [copy.deepcopy] can be stated. The last
    section shows that the methods on the store do to the record read off
    the store what the methods on values do.

    Layout: all definitions first (strings, exceptions, calendar, parsing,
    the classes on values, the classes on an object store), then the facts
    about them. *)

From Stdlib Require Import ZArith NArith Lia Ascii String.
From stdpp Require Import base tactics option list gmap.

#[local] Open Scope Z_scope.

(* ===================================================================== *)
(** ** Python strings                                                     *)
(* ===================================================================== *)

(** A Python [str] is a sequence of Unicode code points. *)
Definition codepoint := N.
Definition pystr := list codepoint.

(** An ASCII literal read as a [str]. *)
Definition pystr_of (s : string) : pystr :=
  (fun a => N_of_ascii a) <$> list_ascii_of_string s.

(** Code points of Unicode category Nd come in runs of ten, '0' first;
    these are the zeros of every run (Unicode 14.0, the database of
    CPython 3.11). *)
Definition decimal_zeros : list N :=
  [ 0x30; 0x660; 0x6f0; 0x7c0; 0x966; 0x9e6; 0xa66; 0xae6; 0xb66; 0xbe6;
    0xc66; 0xce6; 0xd66; 0xde6; 0xe50; 0xed0; 0xf20; 0x1040; 0x1090;
    0x17e0; 0x1810; 0x1946; 0x19d0; 0x1a80; 0x1a90; 0x1b50; 0x1bb0;
    0x1c40; 0x1c50; 0xa620; 0xa8d0; 0xa900; 0xa9d0; 0xa9f0; 0xaa50;
    0xabf0; 0xff10; 0x104a0; 0x10d30; 0x11066; 0x110f0; 0x11136; 0x111d0;
    0x112f0; 0x11450; 0x114d0; 0x11650; 0x116c0; 0x11730; 0x118e0;
    0x11950; 0x11c50; 0x11d50; 0x11da0; 0x16a60; 0x16ac0; 0x16b50;
    0x1d7ce; 0x1d7d8; 0x1d7e2; 0x1d7ec; 0x1d7f6; 0x1e140; 0x1e2f0;
    0x1e950; 0x1fbf0 ]%N.

(** Code points with Numeric_Type=Digit that are not decimal: superscripts,
    subscripts, circled and parenthesized digits and the like. *)
Definition other_digit_ranges : list (N * N) :=
  [ (0xb2, 0xb3); (0xb9, 0xb9); (0x1369, 0x1371); (0x19da, 0x19da);
    (0x2070, 0x2070); (0x2074, 0x2079); (0x2080, 0x2089); (0x2460, 0x2468);
    (0x2474, 0x247c); (0x2488, 0x2490); (0x24ea, 0x24ea); (0x24f5, 0x24fd);
    (0x24ff, 0x24ff); (0x2776, 0x277e); (0x2780, 0x2788); (0x278a, 0x2792);
    (0x10a40, 0x10a43); (0x10e60, 0x10e68); (0x11052, 0x1105a);
    (0x1f100, 0x1f10a) ]%N.

Definition in_range (lo hi c : N) : bool := ((lo <=? c) && (c <=? hi))%N.

(** [unicodedata.decimal]: the value of a decimal digit. *)
Definition decimal_value (c : codepoint) : option Z :=
  (fun z => Z.of_N (c - z)) <$> List.find (fun z => in_range z (z + 9) c) decimal_zeros.

(** [Py_UNICODE_ISDECIMAL], which is also the class [\d] of [re] on [str]. *)
Definition char_isdecimal (c : codepoint) : bool :=
  match decimal_value c with Some _ => true | None => false end.

(** [Py_UNICODE_ISDIGIT]. *)
Definition char_isdigit (c : codepoint) : bool :=
  char_isdecimal c || existsb (fun r => in_range (fst r) (snd r) c) other_digit_ranges.

(** [str.isdigit]: every character is a digit and there is at least one. *)
Definition isdigit (s : pystr) : bool :=
  match s with
  | [] => false
  | _ => forallb char_isdigit s
  end.

(** [len] *)
Definition len (s : pystr) : Z := Z.of_nat (length s).

(** The characters '0'..'9'. *)
Definition ascii_digit (c : codepoint) : bool := in_range 0x30 0x39 c.

(* ===================================================================== *)
(** ** Exceptions and results                                             *)
(* ===================================================================== *)

(** The [ValueError]s that can reach a caller, by what raised them. *)
Inductive value_error :=
  | PhoneFormat        (* 'The number must consist of numbers only and 10 digits!' *)
  | BirthdayFormat     (* "Invalid date format. Use DD.MM.YYYY" *)
  | OldNumberNotFound  (* 'Old number not found!' *)
  | TimeDataMismatch   (* "time data %r does not match format %r" *)
  | UnconvertedData    (* "unconverted data remains: %s" *)
  | InvalidLiteral     (* int(): "invalid literal for int() with base 10" *)
  | YearOutOfRange     (* date(): 'year must be in 1..9999' *)
  | MonthOutOfRange    (* date(): 'month must be in 1..12' *)
  | DayOutOfRange      (* date(): 'day must be in 1..%d' *)
  | NotInList.         (* list.remove(x): "x not in list" *)

Inductive exn :=
  | ValueError (why : value_error)
  | OverflowError      (* date + timedelta: "result out of range" *)
  | AttributeError.    (* an attribute or method that the object lacks *)

Inductive result (A : Type) :=
  | Ok (a : A)
  | Raise (e : exn).
Arguments Ok {A} a.
Arguments Raise {A} e.

#[global] Instance result_ret : MRet result := fun A a => Ok a.
#[global] Instance result_bind : MBind result := fun A B f m =>
  match m with
  | Ok a => f a
  | Raise e => Raise e
  end.

(** The error kinds of the specification. *)
Definition InvalidFormat_phone : exn := ValueError PhoneFormat.
Definition InvalidFormat_birthday : exn := ValueError BirthdayFormat.
Definition NotFound : exn := ValueError OldNumberNotFound.

#[global] Instance value_error_eq_dec : EqDecision value_error.
Proof. solve_decision. Defined.
#[global] Instance exn_eq_dec : EqDecision exn.
Proof. solve_decision. Defined.

(* ===================================================================== *)
(** ** The proleptic Gregorian calendar of [datetime]                     *)
(* ===================================================================== *)

Definition MINYEAR : Z := 1.
Definition MAXYEAR : Z := 9999.
Definition MAXORDINAL : Z := 3652059.

Definition DAYS_IN_MONTH : list Z :=
  [-1; 31; 28; 31; 30; 31; 30; 31; 31; 30; 31; 30; 31].
Definition DAYS_BEFORE_MONTH : list Z :=
  [-1; 0; 31; 59; 90; 120; 151; 181; 212; 243; 273; 304; 334].

(** Indexing a table with an index known to be in range. *)
Definition tbl (t : list Z) (i : Z) : Z := nth (Z.to_nat i) t 0.

Definition is_leap (year : Z) : bool :=
  (year mod 4 =? 0) && (negb (year mod 100 =? 0) || (year mod 400 =? 0)).

Definition days_before_year (year : Z) : Z :=
  let y := year - 1 in
  y * 365 + y / 4 - y / 100 + y / 400.

Definition days_in_month (year month : Z) : Z :=
  if (month =? 2) && is_leap year then 29 else tbl DAYS_IN_MONTH month.

Definition days_before_month (year month : Z) : Z :=
  tbl DAYS_BEFORE_MONTH month + Z.b2z ((2 <? month) && is_leap year).

Definition ymd2ord (year month day : Z) : Z :=
  days_before_year year + days_before_month year month + day.

Definition DI400Y : Z := Eval cbv in days_before_year 401.
Definition DI100Y : Z := Eval cbv in days_before_year 101.
Definition DI4Y : Z := Eval cbv in days_before_year 5.

Definition ord2ymd (n : Z) : Z * Z * Z :=
  let n := n - 1 in
  let n400 := n / DI400Y in
  let n := n mod DI400Y in
  let year := n400 * 400 + 1 in
  let n100 := n / DI100Y in
  let n := n mod DI100Y in
  let n4 := n / DI4Y in
  let n := n mod DI4Y in
  let n1 := n / 365 in
  let n := n mod 365 in
  let year := year + (n100 * 100 + n4 * 4 + n1) in
  if (n1 =? 4) || (n100 =? 4) then (year - 1, 12, 31)
  else
    let leapyear := (n1 =? 3) && (negb (n4 =? 24) || (n100 =? 3)) in
    let month := Z.shiftr (n + 50) 5 in
    let preceding := tbl DAYS_BEFORE_MONTH month + Z.b2z ((2 <? month) && leapyear) in
    if n <? preceding then
      let month := month - 1 in
      let preceding :=
        preceding - (tbl DAYS_IN_MONTH month + Z.b2z ((month =? 2) && leapyear)) in
      (year, month, n - preceding + 1)
    else (year, month, n - preceding + 1).

(** A [datetime.date]. *)
Record date := mkdate { year : Z; month : Z; day : Z }.

#[global] Instance date_eq_dec : EqDecision date.
Proof. solve_decision. Defined.

(** [_check_date_fields]: what the constructor [date(year, month, day)]
    accepts. *)
Definition check_date_fields (year month day : Z) : result (Z * Z * Z) :=
  if negb ((MINYEAR <=? year) && (year <=? MAXYEAR)) then
    Raise (ValueError YearOutOfRange)
  else if negb ((1 <=? month) && (month <=? 12)) then
    Raise (ValueError MonthOutOfRange)
  else
    let dim := days_in_month year month in
    if negb ((1 <=? day) && (day <=? dim)) then Raise (ValueError DayOutOfRange)
    else Ok (year, month, day).

(** The constructor [date(year, month, day)]. *)
Definition date_new (year month day : Z) : result date :=
  '(y, m, d) ← check_date_fields year month day;
  mret (mkdate y m d).

(** Every [date] object was built by the constructor. *)
Definition valid_date (d : date) : bool :=
  match date_new (year d) (month d) (day d) with
  | Ok _ => true
  | Raise _ => false
  end.

Definition toordinal (self : date) : Z :=
  ymd2ord (year self) (month self) (day self).

Definition fromordinal (n : Z) : date :=
  let '(y, m, d) := ord2ymd n in mkdate y m d.

(** [date.replace(year=...)] *)
Definition replace_year (self : date) (new_year : Z) : result date :=
  date_new new_year (month self) (day self).

(** [date.__lt__]: comparison of the tuples (year, month, day). *)
Definition date_lt (a b : date) : bool :=
  (year a <? year b)
  || ((year a =? year b)
      && ((month a <? month b) || ((month a =? month b) && (day a <? day b)))).

(** [date + timedelta(days=n)] *)
Definition date_add_days (self : date) (days : Z) : result date :=
  let o := toordinal self + days in
  if (0 <? o) && (o <=? MAXORDINAL) then Ok (fromordinal o)
  else Raise OverflowError.

(** [(a - b).days] *)
Definition days_between (a b : date) : Z := toordinal a - toordinal b.

(** [date.weekday]: Monday is 0, Sunday is 6. *)
Definition weekday (self : date) : Z := (toordinal self + 6) mod 7.

(** *** Formatting with ['%d.%m.%Y'] *)

Definition digit_char (d : Z) : codepoint := Z.to_N (48 + d).

Definition two_digits (n : Z) : pystr :=
  [digit_char (n / 10); digit_char (n mod 10)].

(** [%Y] is the C library's: the decimal numeral of the year, which has
    four digits from the year 1000 on (below that, glibc does not pad). *)
Definition year_digits (y : Z) : pystr :=
  if y <? 10 then [digit_char y]
  else if y <? 100 then two_digits y
  else if y <? 1000 then digit_char (y / 100) :: two_digits (y mod 100)
  else two_digits (y / 100) ++ two_digits (y mod 100).

Definition dot : codepoint := 46%N.

(** [d.strftime('%d.%m.%Y')] *)
Definition strftime (d : date) : pystr :=
  two_digits (day d) ++ [dot] ++ two_digits (month d) ++ [dot] ++ year_digits (year d).

(* ===================================================================== *)
(** ** [datetime.strptime(value, "%d.%m.%Y")]                             *)
(* ===================================================================== *)

(** The regular expressions that [_strptime] builds are made of character
    classes, sequences and ordered alternatives. *)
Inductive regex :=
  | Chr (p : codepoint -> bool)
  | Seq (a b : regex)
  | Alt (a b : regex).

(** Backtracking matching at the start of [s]: every way to match, as
    (matched text, remaining text), in the order [re] tries them. *)
Fixpoint re_match (r : regex) (s : pystr) : list (pystr * pystr) :=
  match r with
  | Chr p =>
      match s with
      | c :: s' => if p c then [([c], s')] else []
      | [] => []
      end
  | Seq a b =>
      '(x, s1) ← re_match a s;
      '(y, s2) ← re_match b s1;
      mret (x ++ y, s2)
  | Alt a b => re_match a s ++ re_match b s
  end.

Definition lit (c : codepoint) : regex := Chr (N.eqb c).
Definition cls (lo hi : codepoint) : regex := Chr (in_range lo hi).
Definition re_digit : regex := Chr char_isdecimal.

(** [(?P<d>3[0-1]|[1-2]\d|0[1-9]|[1-9]| [1-9])] *)
Definition re_d : regex :=
  Alt (Seq (lit 0x33%N) (cls 0x30%N 0x31%N))
 (Alt (Seq (cls 0x31%N 0x32%N) re_digit)
 (Alt (Seq (lit 0x30%N) (cls 0x31%N 0x39%N))
 (Alt (cls 0x31%N 0x39%N)
      (Seq (lit 0x20%N) (cls 0x31%N 0x39%N))))).

(** [(?P<m>1[0-2]|0[1-9]|[1-9])] *)
Definition re_m : regex :=
  Alt (Seq (lit 0x31%N) (cls 0x30%N 0x32%N))
 (Alt (Seq (lit 0x30%N) (cls 0x31%N 0x39%N))
      (cls 0x31%N 0x39%N)).

(** [(?P<Y>\d\d\d\d)] *)
Definition re_Y : regex :=
  Seq re_digit (Seq re_digit (Seq re_digit re_digit)).

(** All matches of the pattern of ["%d.%m.%Y"], with the groups d, m and Y
    and the text left after the match. *)
Definition format_regex_matches (s : pystr) : list (pystr * pystr * pystr * pystr) :=
  '(d, s) ← re_match re_d s;
  '(_, s) ← re_match (lit dot) s;
  '(m, s) ← re_match re_m s;
  '(_, s) ← re_match (lit dot) s;
  '(y, s) ← re_match re_Y s;
  mret (d, m, y, s).

(** [format_regex.match(data_string)]: the first match, if any. *)
Definition format_regex_match (s : pystr) : option (pystr * pystr * pystr * pystr) :=
  head (format_regex_matches s).

(** [int(s)] on the texts a group can hold: leading blanks are skipped and
    the rest are decimal digits (signs and underscores, which [int] also
    takes, cannot be matched by the groups above). *)
Fixpoint int_digits (acc : Z) (s : pystr) : option Z :=
  match s with
  | [] => Some acc
  | c :: s' =>
      match decimal_value c with
      | Some v => int_digits (acc * 10 + v) s'
      | None => None
      end
  end.

Fixpoint skip_blanks (s : pystr) : pystr :=
  match s with
  | c :: s' => if (c =? 0x20)%N then skip_blanks s' else s
  | [] => []
  end.

Definition py_int (s : pystr) : result Z :=
  match skip_blanks s with
  | [] => Raise (ValueError InvalidLiteral)
  | s' =>
      match int_digits 0 s' with
      | Some n => Ok n
      | None => Raise (ValueError InvalidLiteral)
      end
  end.

(** [datetime.strptime(data_string, "%d.%m.%Y").date()] *)
Definition strptime (data_string : pystr) : result date :=
  match format_regex_match data_string with
  | None => Raise (ValueError TimeDataMismatch)
  | Some (d, m, y, rest) =>
      match rest with
      | _ :: _ => Raise (ValueError UnconvertedData)
      | [] =>
          day ← py_int d;
          month ← py_int m;
          year ← py_int y;
          date_new year month day
      end
  end.

(* ===================================================================== *)
(** ** Fields                                                             *)
(* ===================================================================== *)

(** An instance of [Field] or of one of its subclasses. *)
Record Field := mkField { value : pystr }.

#[global] Instance Field_eq_dec : EqDecision Field.
Proof. solve_decision. Defined.

(** [Name(value)] *)
Definition Name (value : pystr) : result Field := Ok (mkField value).

(** [Phone(value)] *)
Definition Phone (value : pystr) : result Field :=
  if negb (isdigit value && (len value =? 10)) then Raise (ValueError PhoneFormat)
  else Ok (mkField value).

(** [Birthday(value)]: a [ValueError] of [strptime] is replaced by the
    class's own. *)
Definition Birthday (value : pystr) : result Field :=
  match strptime value with
  | Ok _ => Ok (mkField value)
  | Raise (ValueError _) => Raise (ValueError BirthdayFormat)
  | Raise e => Raise e
  end.

(* ===================================================================== *)
(** ** Records, as values                                                 *)
(* ===================================================================== *)

Module ContactRecord.

(** The attributes of an instance of the class [Record]. *)
Record t := mk { name : Field; phones : list Field; birthday : option Field }.

(** A method runs on [self], may change it and returns or raises. *)
Definition M (A : Type) : Type := t -> result A * t.

Definition ret {A} (a : A) : M A := fun self => (Ok a, self).
Definition raise {A} (e : exn) : M A := fun self => (Raise e, self).
Definition bind {A B} (m : M A) (k : A -> M B) : M B := fun self =>
  match m self with
  | (Ok a, self') => k a self'
  | (Raise e, self') => (Raise e, self')
  end.
(** Evaluating an expression that may raise, such as a constructor. *)
Definition lift {A} (r : result A) : M A := fun self => (r, self).
Definition get : M t := fun self => (Ok self, self).
Definition put (s : t) : M unit := fun _ => (Ok tt, s).

#[global] Instance M_ret : MRet M := @ret.
#[global] Instance M_bind : MBind M := fun A B k m => bind m k.

(** [Record(name)] *)
Definition init (name : pystr) : t :=
  {| name := mkField name; phones := []; birthday := None |}.

(** [self.birthday = Birthday(birthday)] *)
Definition add_birthday (birthday : pystr) : M unit :=
  b ← lift (Birthday birthday);
  self ← get;
  put {| name := name self; phones := phones self; birthday := Some b |}.

(** [self.phones.append(Phone(phone))] *)
Definition add_phone (phone : pystr) : M unit :=
  p ← lift (Phone phone);
  self ← get;
  put {| name := name self; phones := phones self ++ [p]; birthday := birthday self |}.

(** [result = list(filter(...)); return result[0] if len(result) > 0 else None] *)
Definition find_phone (phone_value : pystr) : M (option Field) :=
  self ← get;
  let result := filter (fun phone => value phone = phone_value) (phones self) in
  mret (match result with p :: _ => Some p | [] => None end).

(** [list.remove(x)]: drops the first item equal to [x]. *)
Fixpoint list_remove (x : Field) (l : list Field) : list Field :=
  match l with
  | [] => []
  | y :: l' => if decide (y = x) then l' else y :: list_remove x l'
  end.

Definition remove_phone (phone_value : pystr) : M unit :=
  phone_to_remove ← find_phone phone_value;
  match phone_to_remove with
  | Some p =>
      self ← get;
      put {| name := name self; phones := list_remove p (phones self);
             birthday := birthday self |}
  | None => mret tt
  end.

Definition edit_phone (old_phone_val new_phone_val : pystr) : M unit :=
  phone_to_edit ← find_phone old_phone_val;
  match phone_to_edit with
  | Some _ =>
      _ ← add_phone new_phone_val;
      remove_phone old_phone_val
  | None => raise NotFound
  end.

(** [self.birthday.value] *)
Definition value_birthday : M pystr :=
  self ← get;
  match birthday self with
  | Some b => mret (value b)
  | None => raise AttributeError
  end.

(** For stating what the methods do: the first phone with a given value,
    and a record with its phones replaced. *)
Definition first_with (v : pystr) (l : list Field) : option Field :=
  head (filter (fun phone => value phone = v) l).

Definition set_phones (r : t) (ps : list Field) : t :=
  {| name := name r; phones := ps; birthday := birthday r |}.

End ContactRecord.

(* ===================================================================== *)
(** ** Python dictionaries with [str] keys                                *)
(* ===================================================================== *)

(** A [dict] keeps its items in insertion order; assigning to a key that
    is present keeps the key's place. *)
Definition pydict (V : Type) : Type := list (pystr * V).

Fixpoint dict_get {V} (k : pystr) (d : pydict V) : option V :=
  match d with
  | [] => None
  | (k', v) :: d' => if decide (k' = k) then Some v else dict_get k d'
  end.

Fixpoint dict_set {V} (k : pystr) (v : V) (d : pydict V) : pydict V :=
  match d with
  | [] => [(k, v)]
  | (k', v') :: d' =>
      if decide (k' = k) then (k', v) :: d' else (k', v') :: dict_set k v d'
  end.

Fixpoint dict_del {V} (k : pystr) (d : pydict V) : pydict V :=
  match d with
  | [] => []
  | (k', v') :: d' => if decide (k' = k) then d' else (k', v') :: dict_del k d'
  end.

Definition dict_contains {V} (k : pystr) (d : pydict V) : bool :=
  match dict_get k d with Some _ => true | None => false end.

Definition dict_keys {V} (d : pydict V) : list pystr := fst <$> d.
Definition dict_values {V} (d : pydict V) : list V := snd <$> d.

(* ===================================================================== *)
(** ** The address book, as a value                                       *)
(* ===================================================================== *)

Module AddressBook.

(** [UserDict]: the items live in the attribute [data]. *)
Record t := mk { data : pydict ContactRecord.t }.

Definition empty : t := {| data := [] |}.

(** [self.data[record.name.value] = record] *)
Definition add_record (record : ContactRecord.t) (self : t) : t :=
  {| data := dict_set (value (ContactRecord.name record)) record (data self) |}.

(** [self.data.get(name, None)] *)
Definition find (name : pystr) (self : t) : option ContactRecord.t :=
  dict_get name (data self).

Definition delete (name : pystr) (self : t) : t :=
  if dict_contains name (data self) then {| data := dict_del name (data self) |}
  else self.

Definition find_next_weekday (start_date : date) (weekday_ : Z) : result date :=
  let days_ahead := weekday_ - weekday start_date in
  let days_ahead := if days_ahead <=? 0 then days_ahead + 7 else days_ahead in
  date_add_days start_date days_ahead.

(** The body of the loop of [get_upcoming_birthdays] for one record:
    the list [upcoming_birthdays] after it. An item
    [{"name": n, "birthday": b}] is the pair [(n, b)]. *)
Definition upcoming_step (today : date) (days : Z) (record : ContactRecord.t)
    (upcoming_birthdays : list (pystr * pystr)) : result (list (pystr * pystr)) :=
  match ContactRecord.birthday record with
  | Some b =>
      parsed ← strptime (value b);
      birthday_this_year ← replace_year parsed (year today);
      birthday_this_year ←
        (if date_lt birthday_this_year today
         then replace_year birthday_this_year (year today + 1)
         else Ok birthday_this_year);
      birthday_this_year ←
        (if 5 <=? weekday birthday_this_year
         then find_next_weekday birthday_this_year 0
         else Ok birthday_this_year);
      let delta := days_between birthday_this_year today in
      if (0 <=? delta) && (delta <=? days)
      then Ok (upcoming_birthdays
                 ++ [(value (ContactRecord.name record), strftime birthday_this_year)])
      else Ok upcoming_birthdays
  | None => Ok upcoming_birthdays
  end.

Fixpoint upcoming_loop (today : date) (days : Z) (records : list ContactRecord.t)
    (upcoming_birthdays : list (pystr * pystr)) : result (list (pystr * pystr)) :=
  match records with
  | [] => Ok upcoming_birthdays
  | record :: records' =>
      upcoming_birthdays ← upcoming_step today days record upcoming_birthdays;
      upcoming_loop today days records' upcoming_birthdays
  end.

(** [today] stands for [date.today()]. *)
Definition get_upcoming_birthdays (today : date) (days : Z) (self : t)
    : result (list (pystr * pystr)) :=
  upcoming_loop today days (dict_values (data self)) [].

End AddressBook.

(* ===================================================================== *)
(** ** Objects in a store: aliasing and [copy.deepcopy]                   *)
(* ===================================================================== *)

Module Store.

(** The identity of an object. *)
Abbreviation loc := nat.

(** What an attribute, a list slot or a dictionary slot holds: [None],
    a [str] (immutable, so held by value) or a reference to an object. *)
Inductive val :=
  | VNone
  | VStr (s : pystr)
  | VRef (l : loc).

#[global] Instance val_eq_dec : EqDecision val.
Proof. solve_decision. Defined.

Inductive class_name := CName | CPhone | CBirthday | CRecord | CAddressBook.

#[global] Instance class_name_eq_dec : EqDecision class_name.
Proof. solve_decision. Defined.

(** An instance of one of the classes with its [__dict__], a [list] or a
    [dict]. *)
Inductive obj :=
  | OInst (c : class_name) (attrs : pydict val)
  | OList (items : list val)
  | ODict (items : pydict val).

(** The store: the object with identity [l] is at index [l]; a new object
    goes to the end. *)
Abbreviation heap := (list obj).

Definition attr_name : pystr := Eval cbv in pystr_of "name".
Definition attr_phones : pystr := Eval cbv in pystr_of "phones".
Definition attr_birthday : pystr := Eval cbv in pystr_of "birthday".
Definition attr_value : pystr := Eval cbv in pystr_of "value".
Definition attr_data : pystr := Eval cbv in pystr_of "data".

(** The values an object holds. *)
Definition slots (o : obj) : list val :=
  match o with
  | OInst _ attrs => dict_values attrs
  | OList items => items
  | ODict items => dict_values items
  end.

(** *** [copy.deepcopy(x, memo)]

    The state is the store and [memo], which maps the identity of an
    object to its copy. [None] is reached only on a reference outside
    the store or when [fuel] is used up. *)
Definition cstate : Type := heap * gmap loc loc.

(** [_deepcopy_list]: [for a in x: y.append(deepcopy(a, memo))] *)
Fixpoint copy_items (dc : val -> cstate -> option (val * cstate)) (y : loc)
    (items : list val) (st : cstate) : option cstate :=
  match items with
  | [] => Some st
  | a :: items' =>
      '(a', (h, m)) ← dc a st;
      match h !! y with
      | Some (OList ys) => copy_items dc y items' (<[y := OList (ys ++ [a'])]> h, m)
      | _ => None
      end
  end.

(** [_deepcopy_dict]: [for key, value in x.items():
    y[deepcopy(key, memo)] = deepcopy(value, memo)]; a key is a [str],
    which is its own copy. *)
Fixpoint copy_dict_items (dc : val -> cstate -> option (val * cstate)) (y : loc)
    (items : pydict val) (st : cstate) : option cstate :=
  match items with
  | [] => Some st
  | (key, a) :: items' =>
      '(a', (h, m)) ← dc a st;
      match h !! y with
      | Some (ODict ys) =>
          copy_dict_items dc y items' (<[y := ODict (dict_set key a' ys)]> h, m)
      | _ => None
      end
  end.

(** [Record.__deepcopy__] and [AddressBook.__deepcopy__]:
    [for key, value in self.__dict__.items():
       setattr(new, key, copy.deepcopy(value, memodict))].
    The fields, which have no [__deepcopy__], are rebuilt by
    [copy._reconstruct] to the same effect. *)
Fixpoint copy_attrs (dc : val -> cstate -> option (val * cstate)) (y : loc)
    (items : pydict val) (st : cstate) : option cstate :=
  match items with
  | [] => Some st
  | (key, a) :: items' =>
      '(a', (h, m)) ← dc a st;
      match h !! y with
      | Some (OInst c ys) =>
          copy_attrs dc y items' (<[y := OInst c (dict_set key a' ys)]> h, m)
      | _ => None
      end
  end.

Fixpoint deepcopy (fuel : nat) (x : val) (st : cstate) : option (val * cstate) :=
  match fuel with
  | O => None
  | S fuel =>
      match x with
      | VNone | VStr _ => Some (x, st)
      | VRef l =>
          let '(h, m) := st in
          match m !! l with
          | Some y => Some (VRef y, st)
          | None =>
              let y := length h in
              match h !! l with
              | None => None
              | Some (OList items) =>
                  st' ← copy_items (deepcopy fuel) y items (h ++ [OList []], <[l := y]> m);
                  Some (VRef y, st')
              | Some (ODict items) =>
                  st' ← copy_dict_items (deepcopy fuel) y items
                          (h ++ [ODict []], <[l := y]> m);
                  Some (VRef y, st')
              | Some (OInst c attrs) =>
                  st' ← copy_attrs (deepcopy fuel) y attrs
                          (h ++ [OInst c []], <[l := y]> m);
                  Some (VRef y, st')
              end
          end
      end
  end.

(** [copy.deepcopy(x)], which starts from an empty [memo]. *)
Definition deepcopy_top (fuel : nat) (x : val) (h : heap) : option (val * heap) :=
  '(y, (h', _)) ← deepcopy fuel x (h, ∅);
  Some (y, h').

(** *** Methods on objects in the store

    A method may change the store and returns or raises. Using something
    that is not of the expected kind raises [AttributeError]. *)
Definition H (A : Type) : Type := heap -> result A * heap.

Definition ret {A} (a : A) : H A := fun h => (Ok a, h).
Definition raise {A} (e : exn) : H A := fun h => (Raise e, h).
Definition bind {A B} (m : H A) (k : A -> H B) : H B := fun h =>
  match m h with
  | (Ok a, h') => k a h'
  | (Raise e, h') => (Raise e, h')
  end.
#[global] Instance H_ret : MRet H := @ret.
#[global] Instance H_bind : MBind H := fun A B k m => bind m k.

Definition alloc (o : obj) : H val := fun h => (Ok (VRef (length h)), h ++ [o]).

Definition getattr (self : val) (attr : pystr) : H val := fun h =>
  match self with
  | VRef l =>
      match h !! l with
      | Some (OInst _ attrs) =>
          match dict_get attr attrs with
          | Some v => (Ok v, h)
          | None => (Raise AttributeError, h)
          end
      | _ => (Raise AttributeError, h)
      end
  | _ => (Raise AttributeError, h)
  end.

Definition setattr (self : val) (attr : pystr) (v : val) : H unit := fun h =>
  match self with
  | VRef l =>
      match h !! l with
      | Some (OInst c attrs) => (Ok tt, <[l := OInst c (dict_set attr v attrs)]> h)
      | _ => (Raise AttributeError, h)
      end
  | _ => (Raise AttributeError, h)
  end.

Definition list_items (lst : val) : H (list val) := fun h =>
  match lst with
  | VRef l =>
      match h !! l with
      | Some (OList items) => (Ok items, h)
      | _ => (Raise AttributeError, h)
      end
  | _ => (Raise AttributeError, h)
  end.

Definition list_store (lst : val) (items : list val) : H unit := fun h =>
  match lst with
  | VRef l =>
      match h !! l with
      | Some (OList _) => (Ok tt, <[l := OList items]> h)
      | _ => (Raise AttributeError, h)
      end
  | _ => (Raise AttributeError, h)
  end.

(** [lst.append(v)] *)
Definition list_append (lst v : val) : H unit :=
  items ← list_items lst;
  list_store lst (items ++ [v]).

(** [lst.remove(x)]: the first item that is [x]; instances of [Field]
    define no [__eq__], so they are equal only to themselves. *)
Fixpoint remove_first (x : val) (items : list val) : option (list val) :=
  match items with
  | [] => None
  | a :: items' =>
      if decide (a = x) then Some items'
      else (fun r => a :: r) <$> remove_first x items'
  end.

Definition list_remove (lst x : val) : H unit :=
  items ← list_items lst;
  match remove_first x items with
  | Some items' => list_store lst items'
  | None => raise (ValueError NotInList)
  end.

Definition lift {A} (r : result A) : H A := fun h => (r, h).

(** [Phone(value)] and [Birthday(value)]: checked as above, then a new
    instance. *)
Definition Phone_new (value : pystr) : H val :=
  _ ← lift (Phone value);
  alloc (OInst CPhone [(attr_value, VStr value)]).

Definition Birthday_new (value : pystr) : H val :=
  _ ← lift (Birthday value);
  alloc (OInst CBirthday [(attr_value, VStr value)]).

(** [Record(name)] *)
Definition Record_new (name : pystr) : H val :=
  n ← alloc (OInst CName [(attr_value, VStr name)]);
  p ← alloc (OList []);
  alloc (OInst CRecord [(attr_name, n); (attr_phones, p); (attr_birthday, VNone)]).

Definition add_birthday (self : val) (birthday : pystr) : H unit :=
  b ← Birthday_new birthday;
  setattr self attr_birthday b.

Definition add_phone (self : val) (phone : pystr) : H unit :=
  lst ← getattr self attr_phones;
  p ← Phone_new phone;
  list_append lst p.

(** [filter(lambda phone: phone.value == phone_value, ...)] *)
Fixpoint filter_phones (phone_value : pystr) (items : list val) : H (list val) :=
  match items with
  | [] => mret []
  | phone :: items' =>
      v ← getattr phone attr_value;
      rest ← filter_phones phone_value items';
      mret (if decide (v = VStr phone_value) then phone :: rest else rest)
  end.

Definition find_phone (self : val) (phone_value : pystr) : H val :=
  lst ← getattr self attr_phones;
  items ← list_items lst;
  result ← filter_phones phone_value items;
  mret (match result with p :: _ => p | [] => VNone end).

Definition remove_phone (self : val) (phone_value : pystr) : H unit :=
  phone_to_remove ← find_phone self phone_value;
  match phone_to_remove with
  | VNone => mret tt
  | _ =>
      lst ← getattr self attr_phones;
      list_remove lst phone_to_remove
  end.

Definition edit_phone (self : val) (old_phone_val new_phone_val : pystr) : H unit :=
  phone_to_edit ← find_phone self old_phone_val;
  match phone_to_edit with
  | VNone => raise NotFound
  | _ =>
      _ ← add_phone self new_phone_val;
      remove_phone self old_phone_val
  end.

(** [AddressBook.find]: [self.data.get(name, None)] *)
Definition find (self : val) (name : pystr) : H val := fun h =>
  match getattr self attr_data h with
  | (Ok (VRef d), _) =>
      match h !! d with
      | Some (ODict items) =>
          (Ok (match dict_get name items with Some v => v | None => VNone end), h)
      | _ => (Raise AttributeError, h)
      end
  | (Ok _, _) => (Raise AttributeError, h)
  | (Raise e, _) => (Raise e, h)
  end.

(** [AddressBook()] *)
Definition AddressBook_new : H val :=
  d ← alloc (ODict []);
  alloc (OInst CAddressBook [(attr_data, d)]).

Definition dict_items (d : val) : H (pydict val) := fun h =>
  match d with
  | VRef l =>
      match h !! l with
      | Some (ODict items) => (Ok items, h)
      | _ => (Raise AttributeError, h)
      end
  | _ => (Raise AttributeError, h)
  end.

Definition dict_store (d : val) (items : pydict val) : H unit := fun h =>
  match d with
  | VRef l =>
      match h !! l with
      | Some (ODict _) => (Ok tt, <[l := ODict items]> h)
      | _ => (Raise AttributeError, h)
      end
  | _ => (Raise AttributeError, h)
  end.

(** [AddressBook.add_record]: [self.data[record.name.value] = record] *)
Definition add_record (self record : val) : H unit :=
  d ← getattr self attr_data;
  n ← getattr record attr_name;
  k ← getattr n attr_value;
  match k with
  | VStr key =>
      items ← dict_items d;
      dict_store d (dict_set key record items)
  | _ => raise AttributeError
  end.

(** The methods of [Record] that change it. *)
Inductive mutation :=
  | AddPhone (phone : pystr)
  | RemovePhone (phone_value : pystr)
  | EditPhone (old_phone_val new_phone_val : pystr)
  | AddBirthday (birthday : pystr).

Definition run_mutation (self : val) (mu : mutation) : H unit :=
  match mu with
  | AddPhone phone => add_phone self phone
  | RemovePhone phone_value => remove_phone self phone_value
  | EditPhone o n => edit_phone self o n
  | AddBirthday b => add_birthday self b
  end.

(** The method of a record, as a value, that a mutation stands for. *)
Definition value_mutation (mu : mutation) : ContactRecord.M unit :=
  match mu with
  | AddPhone phone => ContactRecord.add_phone phone
  | RemovePhone phone_value => ContactRecord.remove_phone phone_value
  | EditPhone o n => ContactRecord.edit_phone o n
  | AddBirthday b => ContactRecord.add_birthday b
  end.

(** *** Reading a record and a book off the store

    The objects are read as the classes build them: a field has the one
    attribute [value], a record has [name], [phones] and [birthday] in this
    order, a book has [data]. *)

Definition read_field (c : class_name) (h : heap) (v : val) : option Field :=
  match v with
  | VRef l =>
      match h !! l with
      | Some (OInst c' [(k, VStr s)]) =>
          if decide (c' = c /\ k = attr_value) then Some (mkField s) else None
      | _ => None
      end
  | _ => None
  end.

Definition read_fields (c : class_name) (h : heap) (v : val) : option (list Field) :=
  match v with
  | VRef l =>
      match h !! l with
      | Some (OList items) => mapM (read_field c h) items
      | _ => None
      end
  | _ => None
  end.

Definition read_optional_field (c : class_name) (h : heap) (v : val)
    : option (option Field) :=
  match v with
  | VNone => Some None
  | _ => match read_field c h v with Some f => Some (Some f) | None => None end
  end.

Definition read_record (h : heap) (v : val) : option ContactRecord.t :=
  match v with
  | VRef l =>
      match h !! l with
      | Some (OInst CRecord [(k1, n); (k2, ps); (k3, b)]) =>
          if decide (k1 = attr_name /\ k2 = attr_phones /\ k3 = attr_birthday) then
            match read_field CName h n, read_fields CPhone h ps,
                  read_optional_field CBirthday h b with
            | Some n, Some ps, Some b => Some (ContactRecord.mk n ps b)
            | _, _, _ => None
            end
          else None
      | _ => None
      end
  | _ => None
  end.

Definition read_item (h : heap) (kv : pystr * val) : option (pystr * ContactRecord.t) :=
  match read_record h (snd kv) with
  | Some r => Some (fst kv, r)
  | None => None
  end.

Definition read_book (h : heap) (v : val) : option AddressBook.t :=
  match v with
  | VRef l =>
      match h !! l with
      | Some (OInst CAddressBook [(k, VRef d)]) =>
          if decide (k = attr_data) then
            match h !! d with
            | Some (ODict items) =>
                match mapM (read_item h) items with
                | Some d => Some (AddressBook.mk d)
                | None => None
                end
            | _ => None
            end
          else None
      | _ => None
      end
  | _ => None
  end.

(** *** For the proofs: what a copy may refer to *)

Definition fresh_val (n0 : nat) (v : val) : Prop :=
  match v with
  | VRef l => (n0 <= l)%nat
  | _ => True
  end.

Definition fresh_obj (n0 : nat) (o : obj) : Prop := Forall (fresh_val n0) (slots o).

(** [h] keeps the objects of [h0] below [n0] as they were, and the objects
    from [n0] on refer only to objects from [n0] on. *)
Definition apart (n0 : nat) (h0 h : heap) : Prop :=
  (n0 <= length h)%nat
  /\ (forall l, (l < n0)%nat -> h !! l = h0 !! l)
  /\ (forall l o, (n0 <= l)%nat -> h !! l = Some o -> fresh_obj n0 o).

Definition copying (n0 : nat) (h0 : heap) (st : cstate) : Prop :=
  apart n0 h0 (fst st) /\ (forall x y, snd st !! x = Some y -> (n0 <= y)%nat).

Definition copier_ok (n0 : nat) (h0 : heap) (dc : val -> cstate -> option (val * cstate))
    : Prop :=
  forall a st a' st',
    copying n0 h0 st -> dc a st = Some (a', st') -> copying n0 h0 st' /\ fresh_val n0 a'.

(** A method keeps to the objects from [n0] on, and what it returns
    satisfies [post]. *)
Definition keeps_apart {A} (n0 : nat) (h0 : heap) (m : H A) (post : A -> Prop) : Prop :=
  forall h out h',
    apart n0 h0 h -> m h = (out, h') ->
    apart n0 h0 h' /\ (forall a, out = Ok a -> post a).

Definition same_kind (o o' : obj) : Prop :=
  match o, o' with
  | OInst c _, OInst c' _ => c = c'
  | OList _, OList _ => True
  | ODict _, ODict _ => True
  | _, _ => False
  end.

(** Every object of [h] is in [h'], as an object of the same kind. *)
Definition grows (h h' : heap) : Prop :=
  forall l o, h !! l = Some o -> exists o', h' !! l = Some o' /\ same_kind o o'.

Definition copier_grows (dc : val -> cstate -> option (val * cstate)) : Prop :=
  forall a st a' st', dc a st = Some (a', st') -> grows (fst st) (fst st').

Definition copier_total (n0 : nat) (h0 : heap) (P : val -> Prop)
    (dc : val -> cstate -> option (val * cstate)) : Prop :=
  forall a st, P a -> copying n0 h0 st -> is_Some (dc a st).

(** [v] leads to objects of [h] only, through at most [n] references. *)
Fixpoint closed (n : nat) (h : heap) (v : val) : Prop :=
  match v with
  | VRef l =>
      match n with
      | O => False
      | S n' => exists o, h !! l = Some o /\ Forall (closed n' h) (slots o)
      end
  | _ => True
  end.

(** Every object of [h] is the same in [h']. *)
Definition kept (h h' : heap) : Prop :=
  forall l o, h !! l = Some o -> h' !! l = Some o.

(** Every instance of [h] is the same in [h']. *)
Definition kept_inst (h h' : heap) : Prop :=
  forall l c attrs, h !! l = Some (OInst c attrs) -> h' !! l = Some (OInst c attrs).

(** *** Sample store: a book with Ann, her phone and her birthday *)

Definition sample_program : H val :=
  b ← AddressBook_new;
  r ← Record_new (pystr_of "Ann");
  _ ← add_phone r (pystr_of "1234567890");
  _ ← add_birthday r (pystr_of "08.06.1995");
  _ ← add_record b r;
  mret b.

Definition sample_heap : heap := Eval vm_compute in snd (sample_program []).

Definition sample_book : AddressBook.t :=
  Eval vm_compute in default AddressBook.empty (read_book sample_heap (VRef 1)).

End Store.

(* ===================================================================== *)
(** ** The pattern of ["%d.%m.%Y"] as a set of texts                      *)
(* ===================================================================== *)

(** The texts a regular expression denotes. *)
Inductive re_lang : regex -> pystr -> Prop :=
  | lang_chr p c : p c = true -> re_lang (Chr p) [c]
  | lang_seq a b x y : re_lang a x -> re_lang b y -> re_lang (Seq a b) (x ++ y)
  | lang_alt_l a b x : re_lang a x -> re_lang (Alt a b) x
  | lang_alt_r a b x : re_lang b x -> re_lang (Alt a b) x.

(** [s] is a text of the pattern that [_strptime] builds for
    ["%d.%m.%Y"], and its groups, read by [int], are the fields of the
    date [dt]: what [strptime] does, without the order in which [re]
    tries the alternatives. *)
Definition parses_as (s : pystr) (dt : date) : Prop :=
  exists d m y,
    s = d ++ [dot] ++ m ++ [dot] ++ y
    /\ re_lang re_d d /\ re_lang re_m m /\ re_lang re_Y y
    /\ py_int d = Ok (day dt) /\ py_int m = Ok (month dt) /\ py_int y = Ok (year dt)
    /\ valid_date dt = true.

(* ===================================================================== *)
(** ** The specification's wording, for comparison with the code          *)
(* ===================================================================== *)

Module Spec.

(** Re-anchor: replace the year of a birthday, keeping month and day. *)
Definition reanchor (bd : date) (target_year : Z) : result date :=
  date_new target_year (month bd) (day bd).

Definition SATURDAY : Z := 5.
Definition SUNDAY : Z := 6.
Definition MONDAY : Z := 0.

Definition is_weekend (d : date) : bool :=
  (weekday d =? SATURDAY) || (weekday d =? SUNDAY).

(** The minimal positive number of days after [c] that is a Monday. *)
Definition monday_offset (c : date) : option Z :=
  List.find (fun k => weekday (fromordinal (toordinal c + k)) =? MONDAY)
            [1; 2; 3; 4; 5; 6; 7].

(** Roll-forward: shift a weekend date to the following Monday. *)
Definition roll_forward (c : date) : result date :=
  match monday_offset c with
  | Some k => date_add_days c k
  | None => Ok c
  end.

(** Steps 1 to 3 of the algorithm. *)
Definition candidate (today bd : date) : result date :=
  c ← reanchor bd (year today);
  c ← (if date_lt c today then reanchor bd (year today + 1) else Ok c);
  if is_weekend c then roll_forward c else Ok c.

(** Step 4: [0 <= (candidate - today).days <= daysAhead]. *)
Definition in_window (today : date) (daysAhead : Z) (c : date) : bool :=
  (0 <=? days_between c today) && (days_between c today <=? daysAhead).

(** What one record contributes: nothing without a birthday, else at most
    the pair of its name and its rolled date. *)
Definition entries_of (today : date) (daysAhead : Z) (r : ContactRecord.t)
    : result (list (pystr * pystr)) :=
  match ContactRecord.birthday r with
  | None => Ok []
  | Some b =>
      bd ← strptime (value b);
      c ← candidate today bd;
      Ok (if in_window today daysAhead c
          then [(value (ContactRecord.name r), strftime c)]
          else [])
  end.

(** Step 5: the pairs of all records, in the book's order. *)
Definition upcoming (today : date) (daysAhead : Z) (book : AddressBook.t)
    : result (list (pystr * pystr)) :=
  rs ← mapM (entries_of today daysAhead) (dict_values (AddressBook.data book));
  Ok (concat rs).

End Spec.

(** The invariant of the book: every record is stored under its name, and
    no key occurs twice. *)
Definition book_inv (b : AddressBook.t) : Prop :=
  NoDup (dict_keys (AddressBook.data b))
  /\ Forall (fun kr => value (ContactRecord.name (snd kr)) = fst kr) (AddressBook.data b).

#[global] Instance book_inv_dec (b : AddressBook.t) : Decision (book_inv b).
Proof. unfold book_inv. apply _. Defined.

(** A method applied to the record stored under [key], as a caller does
    with the object that [find] returned: the record changes in place. *)
Definition on_record {A} (key : pystr) (m : ContactRecord.M A) (b : AddressBook.t)
    : option (result A) * AddressBook.t :=
  match AddressBook.find key b with
  | Some r =>
      let '(out, r') := m r in
      (Some out, AddressBook.mk (dict_set key r' (AddressBook.data b)))
  | None => (None, b)
  end.

(* ===================================================================== *)
(** ** Auxiliary definitions for the proofs                               *)
(* ===================================================================== *)

(** The end of [ord2ymd]: month and day of the day [n] of a year, counted
    from 0. *)
Definition month_day (leapyear : bool) (n : Z) : Z * Z :=
  let month := Z.shiftr (n + 50) 5 in
  let preceding := tbl DAYS_BEFORE_MONTH month + Z.b2z ((2 <? month) && leapyear) in
  if n <? preceding then
    let month := month - 1 in
    let preceding :=
      preceding - (tbl DAYS_IN_MONTH month + Z.b2z ((month =? 2) && leapyear)) in
    (month, n - preceding + 1)
  else (month, n - preceding + 1).

Definition month_day_ok (leapyear : bool) (f : Z) : bool :=
  let '(m, d) := month_day leapyear f in
  (1 <=? m) && (m <=? 12) && (1 <=? d)
  && (d <=? tbl DAYS_IN_MONTH m + Z.b2z ((m =? 2) && leapyear))
  && (tbl DAYS_BEFORE_MONTH m + Z.b2z ((2 <? m) && leapyear) + d =? f + 1).

(** [f] holds on [count] integers from [start] on. *)
Fixpoint all_from (f : Z -> bool) (start : Z) (count : nat) : bool :=
  match count with
  | O => true
  | S c => f start && all_from f (start + 1) c
  end.

(** No character class of [r] contains [c0]. *)
Fixpoint classes_avoid (c0 : codepoint) (r : regex) : Prop :=
  match r with
  | Chr p => p c0 = false
  | Seq a b | Alt a b => classes_avoid c0 a /\ classes_avoid c0 b
  end.

(** [r] matches all of [s]. *)
Definition matches_fully (r : regex) (s : pystr) : bool :=
  existsb (fun p => bool_decide (snd p = [])) (re_match r s).

(* ===================================================================== *)
(** ** Sample data                                                        *)
(* ===================================================================== *)

Definition dup_phone : pystr := Eval cbv in pystr_of "1234567890".

(** Ann, who has the phone [dup_phone]. *)
Definition dup_record : ContactRecord.t :=
  snd (ContactRecord.add_phone dup_phone (ContactRecord.init (pystr_of "Ann"))).

Definition ann_book : AddressBook.t := AddressBook.add_record dup_record AddressBook.empty.

(** Ten times SUPERSCRIPT TWO. *)
Definition superscript_twos : pystr := repeat 0xb2%N 10.

Definition dina : ContactRecord.t :=
  snd (ContactRecord.add_birthday (pystr_of "08.06.1995")
         (ContactRecord.init (pystr_of "Dina"))).

Definition dina_book : AddressBook.t := AddressBook.add_record dina AddressBook.empty.

(** Eve, born on a 29th of February. *)
Definition leap_record : ContactRecord.t :=
  snd (ContactRecord.add_birthday (pystr_of "29.02.2024")
         (ContactRecord.init (pystr_of "Eve"))).

Definition leap_book : AddressBook.t := AddressBook.add_record leap_record dina_book.

(* ===================================================================== *)
(** ** Text: [str.join], [str.split], [int(str)] and [str(int)]           *)
(* ===================================================================== *)

(** [sep.join(l)] *)
Fixpoint str_join (sep : pystr) (l : list pystr) : pystr :=
  match l with
  | [] => []
  | x :: l' =>
      match l' with
      | [] => x
      | _ :: _ => x ++ sep ++ str_join sep l'
      end
  end.

(** [Py_UNICODE_ISSPACE]: the whitespace of [str.strip], [str.split] and
    [int] (Unicode 14.0). *)
Definition space_ranges : list (N * N) :=
  [ (0x9, 0xd); (0x1c, 0x1f); (0x20, 0x20); (0x85, 0x85); (0xa0, 0xa0);
    (0x1680, 0x1680); (0x2000, 0x200a); (0x2028, 0x2029); (0x202f, 0x202f);
    (0x205f, 0x205f); (0x3000, 0x3000) ]%N.

Definition char_isspace (c : codepoint) : bool :=
  existsb (fun r => in_range (fst r) (snd r) c) space_ranges.

(** [str.lstrip()], [str.rstrip()] and [str.strip()] *)
Fixpoint str_lstrip (s : pystr) : pystr :=
  match s with
  | c :: s' => if char_isspace c then str_lstrip s' else s
  | [] => []
  end.

Definition str_rstrip (s : pystr) : pystr := reverse (str_lstrip (reverse s)).

Definition str_strip (s : pystr) : pystr := str_rstrip (str_lstrip s).

(** A word: not empty and without whitespace. *)
Definition is_word (s : pystr) : bool :=
  match s with
  | [] => false
  | _ :: _ => forallb (fun c => negb (char_isspace c)) s
  end.

(** [str.split()]: the maximal runs of characters that are not
    whitespace; [word] is the run being read. *)
Fixpoint str_split_from (word : pystr) (s : pystr) : list pystr :=
  match s with
  | [] => match word with [] => [] | _ :: _ => [word] end
  | c :: s' =>
      if char_isspace c then
        match word with
        | [] => str_split_from [] s'
        | _ :: _ => word :: str_split_from [] s'
        end
      else str_split_from (word ++ [c]) s'
  end.

Definition str_split (s : pystr) : list pystr := str_split_from [] s.

(** Exceptions raised in the command handlers and in [main], beside those
    of the classes. *)
Inductive error :=
  | Exn (e : exn)   (* raised by a class or by the library, as above *)
  | UnpackError     (* ValueError: "not enough values to unpack", "too many values to unpack" *)
  | DigitLimit      (* ValueError: "Exceeds the limit (4300 digits) for integer string conversion" *)
  | IndexError      (* "list index out of range" *)
  | EOFError.       (* input() at the end of the input *)

Inductive outcome (A : Type) :=
  | Returns (a : A)
  | Raises (e : error).
Arguments Returns {A} a.
Arguments Raises {A} e.

#[global] Instance error_eq_dec : EqDecision error.
Proof. solve_decision. Defined.

(** The classes that [input_error] tells apart. Nothing below raises a
    [KeyError]: the book is read with [dict.get]. *)
Definition is_KeyError (e : error) : bool := false.

Definition is_ValueError (e : error) : bool :=
  match e with
  | Exn (ValueError _) | UnpackError | DigitLimit => true
  | _ => false
  end.

Definition is_IndexError (e : error) : bool :=
  match e with
  | IndexError => true
  | _ => false
  end.

(** [sys.get_int_max_str_digits()], by default. *)
Definition MAX_STR_DIGITS : Z := 4300.

(** [Py_ISSPACE] of C. *)
Definition c_isspace (c : codepoint) : bool := in_range 0x9 0xd c || (c =? 0x20)%N.

Definition underscore : codepoint := 0x5f%N.

(** [_PyUnicode_TransformDecimalAndSpaceToASCII]: ASCII is kept, other
    whitespace becomes a blank and other decimal digits become ASCII
    digits; the text ends with a ['?'] at the first character that is none
    of these. *)
Fixpoint transform_decimal_and_space (s : pystr) : pystr :=
  match s with
  | [] => []
  | c :: s' =>
      if (c <? 127)%N then c :: transform_decimal_and_space s'
      else if char_isspace c then 0x20%N :: transform_decimal_and_space s'
      else
        match decimal_value c with
        | Some d => digit_char d :: transform_decimal_and_space s'
        | None => [0x3f%N]
        end
  end.

Fixpoint skip_c_spaces (s : pystr) : pystr :=
  match s with
  | c :: s' => if c_isspace c then skip_c_spaces s' else s
  | [] => []
  end.

(** The scan of [PyLong_FromString] over digits and underscores: the
    value and the number of the digits and the rest of the text, or
    [None] at two underscores in a row and at an underscore that no digit
    follows. [prev] tells that the character before was an underscore. *)
Fixpoint scan_digits (prev : bool) (acc digits : Z) (s : pystr) : option (Z * Z * pystr) :=
  match s with
  | c :: s' =>
      if (c =? underscore)%N then
        if prev then None else scan_digits true acc digits s'
      else if ascii_digit c then
        scan_digits false (acc * 10 + (Z.of_N c - 48)) (digits + 1) s'
      else if prev then None else Some (acc, digits, s)
  | [] => if prev then None else Some (acc, digits, [])
  end.

(** [int(s)] for a [str]: blanks around, a sign, decimal digits of any
    script with single underscores between them. *)
Definition int_of_str (s : pystr) : outcome Z :=
  let s := skip_c_spaces (transform_decimal_and_space s) in
  let '(sign, s) :=
    match s with
    | c :: s' =>
        if (c =? 0x2b)%N then (1, s')
        else if (c =? 0x2d)%N then (-1, s')
        else (1, s)
    | [] => (1, s)
    end in
  match s with
  | c :: _ =>
      if (c =? underscore)%N then Raises (Exn (ValueError InvalidLiteral))
      else
        match scan_digits false 0 0 s with
        | None => Raises (Exn (ValueError InvalidLiteral))
        | Some (n, digits, rest) =>
            if MAX_STR_DIGITS <? digits then Raises DigitLimit
            else if digits =? 0 then Raises (Exn (ValueError InvalidLiteral))
            else
              match skip_c_spaces rest with
              | [] => Returns (sign * n)
              | _ :: _ => Raises (Exn (ValueError InvalidLiteral))
              end
        end
  | [] => Raises (Exn (ValueError InvalidLiteral))
  end.

(** The decimal digits of a number. *)
Fixpoint uint_digits (u : Decimal.uint) : pystr :=
  match u with
  | Decimal.Nil => []
  | Decimal.D0 u => digit_char 0 :: uint_digits u
  | Decimal.D1 u => digit_char 1 :: uint_digits u
  | Decimal.D2 u => digit_char 2 :: uint_digits u
  | Decimal.D3 u => digit_char 3 :: uint_digits u
  | Decimal.D4 u => digit_char 4 :: uint_digits u
  | Decimal.D5 u => digit_char 5 :: uint_digits u
  | Decimal.D6 u => digit_char 6 :: uint_digits u
  | Decimal.D7 u => digit_char 7 :: uint_digits u
  | Decimal.D8 u => digit_char 8 :: uint_digits u
  | Decimal.D9 u => digit_char 9 :: uint_digits u
  end.

(** [str(n)] for an [int], which is also ["{}".format(n)]. *)
Definition str_of_int (n : Z) : outcome pystr :=
  let '(sign, digits) :=
    match Z.to_int n with
    | Decimal.Pos u => ([], uint_digits u)
    | Decimal.Neg u => ([0x2d%N], uint_digits u)
    end in
  if MAX_STR_DIGITS <? len digits then Raises DigitLimit
  else Returns (sign ++ digits).

(* ===================================================================== *)
(** ** Printing a record and a book                                       *)
(* ===================================================================== *)

(** [Record.__str__] *)
Definition Record_str : ContactRecord.M pystr :=
  self ← ContactRecord.get;
  let phones :=
    match ContactRecord.phones self with
    | _ :: _ => str_join (pystr_of "; ") (value <$> ContactRecord.phones self)
    | [] => pystr_of "No phone numbers"
    end in
  birthday ←
    match ContactRecord.birthday self with
    | Some _ => ContactRecord.value_birthday
    | None => mret (pystr_of "No birthday set")
    end;
  mret (pystr_of "Name: " ++ value (ContactRecord.name self) ++ pystr_of ", phones: "
        ++ phones ++ pystr_of ", birthday: " ++ birthday).

(** [str(record)] for the records of a list, one after the other. *)
Fixpoint strs_of (records : list ContactRecord.t) : result (list pystr) :=
  match records with
  | [] => Ok []
  | record :: records' =>
      match fst (Record_str record) with
      | Ok s =>
          match strs_of records' with
          | Ok l => Ok (s :: l)
          | Raise e => Raise e
          end
      | Raise e => Raise e
      end
  end.

Definition newline : pystr := [10%N].

(** [AddressBook.__str__] *)
Definition AddressBook_str (self : AddressBook.t) : result pystr :=
  match strs_of (dict_values (AddressBook.data self)) with
  | Ok l => Ok (str_join newline l)
  | Raise e => Raise e
  end.

(* ===================================================================== *)
(** ** The command handlers                                               *)
(* ===================================================================== *)

(** A handler gets the words after the command and the book, may change
    the book and returns a message or raises. The records of a book are
    distinct objects, as the handlers below build them; [changed] is the
    book after the record that it holds under [key] has become [record]
    in place. *)
Definition handler : Type := list pystr -> AddressBook.t -> outcome pystr * AddressBook.t.

Definition changed (key : pystr) (record : ContactRecord.t) (book : AddressBook.t)
    : AddressBook.t :=
  AddressBook.mk (dict_set key record (AddressBook.data book)).

(** The exceptions that [input_error] turns into a message. *)
Definition caught (e : error) : bool := is_KeyError e || is_ValueError e || is_IndexError e.

(** The decorator [input_error]. *)
Definition input_error (func : handler) : handler := fun args book =>
  match func args book with
  | (Returns message, book) => (Returns message, book)
  | (Raises e, book) =>
      if is_KeyError e then
        (Returns (pystr_of "There is no contact with this name."), book)
      else if is_ValueError e then
        (Returns (pystr_of "Give me name and phone, please."), book)
      else if is_IndexError e then
        (Returns (pystr_of "Enter name, please."), book)
      else (Raises e, book)
  end.

Definition add_contact_body : handler := fun args book =>
  match args with
  | name :: phone :: _ =>
      let '(record, message, book) :=
        match AddressBook.find name book with
        | Some record => (record, pystr_of "Contact updated.", book)
        | None =>
            let record := ContactRecord.init name in
            (record, pystr_of "Contact added.", AddressBook.add_record record book)
        end in
      match phone with
      | _ :: _ =>
          let '(out, record) := ContactRecord.add_phone phone record in
          let book := changed name record book in
          match out with
          | Ok _ => (Returns message, book)
          | Raise e => (Raises (Exn e), book)
          end
      | [] => (Returns message, book)
      end
  | _ => (Raises UnpackError, book)
  end.

Definition add_contact : handler := input_error add_contact_body.

Definition change_user_phone_body : handler := fun args book =>
  match args with
  | [name; old_phone_val; new_phone_val] =>
      match AddressBook.find name book with
      | Some record =>
          let '(out, record) :=
            ContactRecord.edit_phone old_phone_val new_phone_val record in
          let book := changed name record book in
          match out with
          | Ok _ =>
              (Returns (pystr_of "Contact " ++ name ++ pystr_of "'s updated from "
                        ++ old_phone_val ++ pystr_of " to " ++ new_phone_val
                        ++ pystr_of "."), book)
          | Raise e => (Raises (Exn e), book)
          end
      | None => (Returns (pystr_of "Contact not found."), book)
      end
  | _ => (Raises UnpackError, book)
  end.

Definition change_user_phone : handler := input_error change_user_phone_body.

Definition show_phone_body : handler := fun args book =>
  match args with
  | name :: _ =>
      match AddressBook.find name book with
      | Some record =>
          match ContactRecord.phones record with
          | _ :: _ =>
              let phones :=
                str_join (pystr_of "; ") (value <$> ContactRecord.phones record) in
              (Returns (name ++ pystr_of "'s phone(s): " ++ phones), book)
          | [] =>
              (Returns (pystr_of "Phone number not found or contact does not exist."), book)
          end
      | None =>
          (Returns (pystr_of "Phone number not found or contact does not exist."), book)
      end
  | [] => (Raises IndexError, book)
  end.

Definition show_phone : handler := input_error show_phone_body.

Definition add_birthday_body : handler := fun args book =>
  match args with
  | name :: date_birth :: _ =>
      match AddressBook.find name book with
      | Some record =>
          let '(out, record) := ContactRecord.add_birthday date_birth record in
          let book := changed name record book in
          match out with
          | Ok _ =>
              (Returns (pystr_of "Birthday added/updated for contact " ++ name
                        ++ pystr_of "."), book)
          | Raise e => (Raises (Exn e), book)
          end
      | None =>
          let record := ContactRecord.init name in
          let '(out, record) := ContactRecord.add_birthday date_birth record in
          match out with
          | Ok _ =>
              (Returns (pystr_of "Contact " ++ name ++ pystr_of " added with birthday "
                        ++ date_birth ++ pystr_of "."),
               AddressBook.add_record record book)
          | Raise e => (Raises (Exn e), book)
          end
      end
  | _ => (Raises UnpackError, book)
  end.

Definition add_birthday : handler := input_error add_birthday_body.

Definition show_birthday_body : handler := fun args book =>
  match args with
  | name :: _ =>
      match AddressBook.find name book with
      | Some record =>
          match ContactRecord.birthday record with
          | Some b => (Returns (name ++ pystr_of "'s birthday: " ++ value b), book)
          | None =>
              (Returns (pystr_of "Birthday not found or contact does not exist."), book)
          end
      | None => (Returns (pystr_of "Birthday not found or contact does not exist."), book)
      end
  | [] => (Raises IndexError, book)
  end.

Definition show_birthday : handler := input_error show_birthday_body.

(** [f"{entry['name']}: {entry['birthday']}"] *)
Definition entry_line (entry : pystr * pystr) : pystr :=
  fst entry ++ pystr_of ": " ++ snd entry.

(** [today] stands for [date.today()]. *)
Definition birthdays_body (today : date) : handler := fun args book =>
  match (match args with a :: _ => int_of_str a | [] => Returns 7 end) with
  | Returns days =>
      match AddressBook.get_upcoming_birthdays today days book with
      | Ok upcoming =>
          match upcoming with
          | [] =>
              match str_of_int days with
              | Returns d =>
                  (Returns (pystr_of "No upcoming birthdays within the next " ++ d
                            ++ pystr_of " day(s)."), book)
              | Raises e => (Raises e, book)
              end
          | _ :: _ => (Returns (str_join newline (entry_line <$> upcoming)), book)
          end
      | Raise e => (Raises (Exn e), book)
      end
  | Raises e => (Raises e, book)
  end.

Definition birthdays (today : date) : handler := input_error (birthdays_body today).

(* ===================================================================== *)
(** ** The session                                                        *)
(* ===================================================================== *)

(** What [ConsoleView] prints: one item for each call of [print]. *)
Definition display_message (message : pystr) : list pystr := [message].

Definition display_all_contacts (book : AddressBook.t) : result (list pystr) :=
  match AddressBook.data book with
  | [] => Ok [pystr_of "The address book is empty."]
  | _ :: _ => strs_of (dict_values (AddressBook.data book))
  end.

(** How [main] ends: with [save_data(book)] after the loop, or with an
    exception that leaves the loop, and then nothing is saved. *)
Inductive ending :=
  | Saved (book : AddressBook.t)
  | Crashed (e : error).

(** [str.lower] on ASCII text. *)
Definition lower_ascii (s : pystr) : pystr :=
  (fun c => if in_range 0x41 0x5a c then (c + 32)%N else c) <$> s.

Section session.

(** [str.lower]: nothing below depends on which characters it changes. *)
Variable lower : pystr -> pystr.

Definition parse_input (user_input : pystr) : outcome (pystr * list pystr) :=
  match str_split (str_strip user_input) with
  | cmd :: args => Returns (lower (str_strip cmd), args)
  | [] => Raises UnpackError
  end.

(** The loop of [main]. [inputs] are the lines that [input] will return,
    each with the date of the day on which it is entered; after the last
    one [input] raises [EOFError]. [printed] is what has been printed
    so far. *)
Fixpoint main_loop (inputs : list (date * pystr)) (book : AddressBook.t)
    (printed : list pystr) : list pystr * ending :=
  match inputs with
  | [] => (printed, Crashed EOFError)
  | (today, user_input) :: inputs =>
      match parse_input user_input with
      | Raises e => (printed, Crashed e)
      | Returns (command, args) =>
          let reply (r : outcome pystr * AddressBook.t) :=
            match r with
            | (Returns message, book) =>
                main_loop inputs book (printed ++ display_message message)
            | (Raises e, _) => (printed, Crashed e)
            end in
          if bool_decide (command ∈ [pystr_of "close"; pystr_of "exit"]) then
            (printed ++ display_message (pystr_of "Good bye!"), Saved book)
          else if bool_decide (command = pystr_of "hello") then
            main_loop inputs book (printed ++ display_message (pystr_of "How can I help you?"))
          else if bool_decide (command = pystr_of "add") then
            reply (add_contact args book)
          else if bool_decide (command = pystr_of "change") then
            reply (change_user_phone args book)
          else if bool_decide (command = pystr_of "phone") then
            reply (show_phone args book)
          else if bool_decide (command = pystr_of "all") then
            match display_all_contacts book with
            | Ok lines => main_loop inputs book (printed ++ lines)
            | Raise e => (printed, Crashed (Exn e))
            end
          else if bool_decide (command = pystr_of "add-birthday") then
            reply (add_birthday args book)
          else if bool_decide (command = pystr_of "show-birthday") then
            reply (show_birthday args book)
          else if bool_decide (command = pystr_of "birthdays") then
            reply (birthdays today args book)
          else
            main_loop inputs book (printed ++ display_message (pystr_of "Invalid command."))
      end
  end.

(** For stating how a session ends: a line of whitespace only, and a line
    whose first word is the command close or exit. *)
Definition blank (user_input : pystr) : bool := forallb char_isspace user_input.

Definition leaves (user_input : pystr) : bool :=
  match parse_input user_input with
  | Returns (command, _) =>
      bool_decide (command ∈ [pystr_of "close"; pystr_of "exit"])
  | Raises _ => false
  end.

(** [main]: [book] is what [load_data()] returned. *)
Definition main (book : AddressBook.t) (inputs : list (date * pystr))
    : list pystr * ending :=
  main_loop inputs book (display_message (pystr_of "Welcome to the assistant bot!")).

End session.

(** *** Sample session *)

Definition sample_session : list (date * pystr) :=
  [(mkdate 2024 6 3, pystr_of "add Bob 0501234567");
   (mkdate 2024 6 3, pystr_of "  PHONE   Bob  ");
   (mkdate 2024 6 3, pystr_of "add-birthday Bob 08.06.1995");
   (mkdate 2024 6 3, pystr_of "birthdays");
   (mkdate 2024 6 3, pystr_of "birthdays 3");
   (mkdate 2024 6 3, pystr_of "all");
   (mkdate 2024 6 3, pystr_of "remove Bob");
   (mkdate 2024 6 3, pystr_of "Exit now");
   (mkdate 2024 6 3, pystr_of "add Carl 0000000000")].

Definition bob_book : AddressBook.t :=
  AddressBook.mk
    [(pystr_of "Bob",
      ContactRecord.mk (mkField (pystr_of "Bob")) [mkField (pystr_of "0501234567")]
        (Some (mkField (pystr_of "08.06.1995"))))].

(* ===================================================================== *)
(** ** [Record.__copy__] and [AddressBook.__copy__]                       *)
(* ===================================================================== *)

Module Shallow.
Import Store.

(** [self.__class__] and [self.__dict__] *)
Definition instance (self : val) : H (class_name * pydict val) := fun h =>
  match self with
  | VRef l =>
      match h !! l with
      | Some (OInst cls attrs) => (Ok (cls, attrs), h)
      | _ => (Raise AttributeError, h)
      end
  | _ => (Raise AttributeError, h)
  end.

(** [new.__dict__.update(items)] *)
Fixpoint dict_update (new : val) (items : pydict val) : H unit :=
  match items with
  | [] => mret tt
  | (key, v) :: items' =>
      _ ← setattr new key v;
      dict_update new items'
  end.

(** [cls = self.__class__; new = cls.__new__(cls);
    new.__dict__.update(self.__dict__); return new], which is the body of
    both methods. *)
Definition copy (self : val) : H val :=
  '(cls, attrs) ← instance self;
  new ← alloc (OInst cls []);
  _ ← dict_update new attrs;
  mret new.

Definition Record_copy : val -> H val := copy.
Definition AddressBook_copy : val -> H val := copy.

End Shallow.

(* ===================================================================== *)
(** ** What a value of the store holds, with the references followed      *)
(* ===================================================================== *)

Module Unfolding.
Import Store.

#[warnings="-register-all"]
Inductive tree :=
  | TNone
  | TStr (s : pystr)
  | TInst (c : class_name) (attrs : list (pystr * tree))
  | TList (items : list tree)
  | TDict (items : list (pystr * tree)).

(** The tree under [v], if it is reached through at most [n] references
    and no dictionary on the way has a key twice (a [dict] of Python never
    has). *)
Fixpoint unfold (n : nat) (h : heap) (v : val) : option tree :=
  match v with
  | VNone => Some TNone
  | VStr s => Some (TStr s)
  | VRef l =>
      match n with
      | O => None
      | S n' =>
          match h !! l with
          | Some (OInst c attrs) =>
              if decide (NoDup (dict_keys attrs)) then
                TInst c <$> mapM (fun kv => pair (fst kv) <$> unfold n' h (snd kv)) attrs
              else None
          | Some (OList items) => TList <$> mapM (unfold n' h) items
          | Some (ODict items) =>
              if decide (NoDup (dict_keys items)) then
                TDict <$> mapM (fun kv => pair (fst kv) <$> unfold n' h (snd kv)) items
              else None
          | None => None
          end
      end
  end.

(** For the proofs. [pending] are the copies that [deepcopy] is still
    filling; [v] is a finished copy. *)
Definition finished (n0 : nat) (pending : list nat) (h : heap) (v : val) : Prop :=
  match v with
  | VRef w => (n0 <= w < length h)%nat /\ w ∉ pending
  | _ => True
  end.

(** The state of [deepcopy] on the way: the objects of [h0] are as they
    were, finished copies refer to finished copies only, and [memo] maps
    an object to a copy that is pending, and then the object is not
    unfolded within [n] references, or finished, and then the copy unfolds
    as the object did. *)
Definition copying_trees (h0 : heap) (n : nat) (pending : list nat) (st : cstate) : Prop :=
  let '(h, m) := st in
  (length h0 <= length h)%nat
  /\ (forall z, (z < length h0)%nat -> h !! z = h0 !! z)
  /\ (forall p, p ∈ pending -> (p < length h)%nat)
  /\ (forall z o, (length h0 <= z)%nat -> z ∉ pending -> h !! z = Some o ->
        Forall (finished (length h0) pending h) (slots o))
  /\ (forall l y, m !! l = Some y ->
        (length h0 <= y < length h)%nat
        /\ (y ∈ pending -> unfold n h0 (VRef l) = None)
        /\ (y ∉ pending ->
            forall k t, unfold k h0 (VRef l) = Some t -> unfold k h (VRef y) = Some t)).

(** [st'] comes after [st]: the store has grown, the objects that [keep]
    holds of are as they were, and what is new in [memo] are new copies. *)
Definition extends (keep : nat -> Prop) (st st' : cstate) : Prop :=
  (length (fst st) <= length (fst st'))%nat
  /\ (forall z, (z < length (fst st))%nat -> keep z -> fst st' !! z = fst st !! z)
  /\ (forall l y, snd st' !! l = Some y ->
        snd st !! l = Some y \/ (length (fst st) <= y)%nat).

(** What is shown of [deepcopy] for the values unfolded within [n]
    references. *)
Definition copier_trees (h0 : heap) (n : nat)
    (dc : val -> cstate -> option (val * cstate)) : Prop :=
  forall pending a st ta a' st',
    unfold n h0 a = Some ta ->
    copying_trees h0 n pending st ->
    dc a st = Some (a', st') ->
    copying_trees h0 n pending st'
    /\ finished (length h0) pending (fst st') a'
    /\ unfold n (fst st') a' = Some ta
    /\ extends (fun _ => True) st st'.

End Unfolding.

(* ===================================================================== *)
(** ** Records of a book that are separate objects                        *)
(* ===================================================================== *)

Module Separate.
Import Store.

(** The list object that a record object has as its [phones]. *)
Definition phones_of (h : heap) (v : val) : option loc :=
  match getattr v attr_phones h with
  | (Ok (VRef pl), _) => Some pl
  | _ => None
  end.

(** The items of [book.data]. *)
Definition items_of (h : heap) (book : val) : option (pydict val) :=
  match getattr book attr_data h with
  | (Ok (VRef d), _) =>
      match h !! d with
      | Some (ODict items) => Some items
      | _ => None
      end
  | _ => None
  end.

(** No key of the book comes twice and no two of its records have the same
    list of phones (so no two are the same object): what [Record.__init__],
    which makes a new list for every record, and [add_record] give. *)
Definition separate (h : heap) (book : val) : Prop :=
  exists items pls,
    items_of h book = Some items
    /\ NoDup (dict_keys items)
    /\ mapM (phones_of h) (dict_values items) = Some pls
    /\ NoDup pls.

(** A method of the record object [l] changes [l] and its list of phones
    [pl] at most, and leaves [l] a record with the list [pl]. *)
Definition framed (h h' : heap) (l pl : nat) (n : val) : Prop :=
  (forall z o, h !! z = Some o -> z <> l -> z <> pl -> h' !! z = Some o)
  /\ (exists b', h' !! l
        = Some (OInst CRecord [(attr_name, n); (attr_phones, VRef pl); (attr_birthday, b')]))
  /\ (exists items', h' !! pl = Some (OList items')).

(** A book of two records. *)
Definition two_program : H val :=
  book ← AddressBook_new;
  ann ← Record_new (pystr_of "Ann");
  _ ← add_phone ann (pystr_of "0123456789");
  _ ← add_record book ann;
  bob ← Record_new (pystr_of "Bob");
  _ ← add_record book bob;
  mret book.

Definition two_heap : heap := Eval vm_compute in snd (two_program []).

Definition two_book : AddressBook.t :=
  Eval vm_compute in default AddressBook.empty (read_book two_heap (VRef 1)).

End Separate.

(* ===================================================================== *)
(** ** The texts of a birthday: the specification's and the code's        *)
(* ===================================================================== *)

(** The number that '0'..'9' write. *)
Definition ascii_number (s : pystr) : Z :=
  fold_left (fun acc c => acc * 10 + (Z.of_N c - 48)) s 0.

(** The specification's wording: "[s] parses as a real calendar date under
    the fixed pattern day.month.year with a 4-digit year", with "no
    normalization beyond strict parsing" and the error text "Use
    DD.MM.YYYY": two digits, a dot, two digits, a dot and four digits, the
    digits being '0' to '9', that name a date of the calendar. *)
Definition strict_date (s : pystr) : option date :=
  match s with
  | [d1; d2; p1; m1; m2; p2; y1; y2; y3; y4] =>
      if forallb ascii_digit [d1; d2; m1; m2; y1; y2; y3; y4]
         && (p1 =? dot)%N && (p2 =? dot)%N
      then
        let dt := mkdate (ascii_number [y1; y2; y3; y4]) (ascii_number [m1; m2])
                         (ascii_number [d1; d2]) in
        if valid_date dt then Some dt else None
      else None
  | _ => None
  end.

(** What the code takes for a day: '1'..'9', '01'..'09', '10'..'29' with
    any decimal digit of Unicode as the second character, '30', '31', or a
    blank and '1'..'9'. *)
Definition day_text (d : pystr) : bool :=
  match d with
  | [c] => in_range 0x31 0x39 c
  | [a; c] =>
      ((a =? 0x30)%N && in_range 0x31 0x39 c)
      || (in_range 0x31 0x32 a && char_isdecimal c)
      || ((a =? 0x33)%N && in_range 0x30 0x31 c)
      || ((a =? 0x20)%N && in_range 0x31 0x39 c)
  | _ => false
  end.

(** For a month: '1'..'9', '01'..'09' or '10'..'12'. *)
Definition month_text (m : pystr) : bool :=
  match m with
  | [c] => in_range 0x31 0x39 c
  | [a; c] =>
      ((a =? 0x30)%N && in_range 0x31 0x39 c)
      || ((a =? 0x31)%N && in_range 0x30 0x32 c)
  | _ => false
  end.

(** For a year: four decimal digits of Unicode. *)
Definition year_text (y : pystr) : bool :=
  bool_decide (length y = 4%nat) && forallb char_isdecimal y.

(** The number that decimal digits of Unicode write; a blank before them
    counts for nothing. *)
Definition text_value (s : pystr) : Z :=
  fold_left (fun acc c => acc * 10 + default 0 (decimal_value c)) s 0.

(** The amended wording: [s] is a day, a dot, a month, a dot and a year as
    above, and the three numbers are the date [dt] of the calendar. *)
Definition reads_as (s : pystr) (dt : date) : Prop :=
  exists d m y,
    s = d ++ [dot] ++ m ++ [dot] ++ y
    /\ day_text d = true /\ month_text m = true /\ year_text y = true
    /\ dt = mkdate (text_value y) (text_value m) (text_value d)
    /\ valid_date dt = true.

(* ===================================================================== *)
(** ** Facts: phones                                                      *)
(* ===================================================================== *)

Lemma isdigit_true_iff (s : pystr) :
  isdigit s = true <-> s <> [] /\ forallb char_isdigit s = true.
Proof.
  destruct s as [|c s].
  - split; [discriminate | intros [H _]; congruence].
  - unfold isdigit. split; [by intros H | by intros [_ H]].
Qed.

Lemma len_is_10 (s : pystr) : (len s =? 10) = true <-> length s = 10%nat.
Proof. unfold len. rewrite Z.eqb_eq. lia. Qed.

Lemma Phone_cases (s : pystr) :
  Phone s = Ok (mkField s) \/ Phone s = Raise InvalidFormat_phone.
Proof. unfold Phone. destruct (negb _); auto. Qed.

Lemma Phone_ok_iff (s : pystr) :
  Phone s = Ok (mkField s)
  <-> length s = 10%nat /\ forallb char_isdigit s = true.
Proof.
  unfold Phone.
  destruct (isdigit s && (len s =? 10)) eqn:E; simpl.
  - apply andb_true_iff in E as [E1 E2].
    apply isdigit_true_iff in E1 as [_ E1]. apply len_is_10 in E2. tauto.
  - split; [discriminate |]. intros [H1 H2].
    apply andb_false_iff in E as [E | E].
    + assert (isdigit s = true); [| congruence].
      apply isdigit_true_iff. split; [| done]. intros ->. discriminate.
    + apply len_is_10 in H1. congruence.
Qed.

Lemma ascii_digit_isdecimal (c : codepoint) :
  ascii_digit c = true -> char_isdecimal c = true.
Proof.
  unfold ascii_digit, char_isdecimal, decimal_value, decimal_zeros. intros H.
  cbn [List.find]. change (48 + 9)%N with 57%N. change 0x30%N with 48%N in H. change 0x39%N with 57%N in H.
  rewrite H. done.
Qed.

Lemma isdecimal_isdigit (c : codepoint) :
  char_isdecimal c = true -> char_isdigit c = true.
Proof. unfold char_isdigit. intros ->. done. Qed.

Lemma forallb_isdecimal_isdigit (s : pystr) :
  forallb char_isdecimal s = true -> forallb char_isdigit s = true.
Proof.
  rewrite !forallb_forall. intros H c Hc. apply isdecimal_isdigit. auto.
Qed.

(* ===================================================================== *)
(** ** Facts: the methods of a record                                     *)
(* ===================================================================== *)

Section record_facts.
Import ContactRecord.

Ltac unfold_M :=
  unfold add_phone, add_birthday, find_phone, remove_phone, edit_phone, value_birthday,
    mbind, M_bind, bind, lift, get, put, raise, mret, M_ret, ret in *.

Lemma set_phones_same (r : t) : set_phones r (phones r) = r.
Proof. by destruct r. Qed.

Lemma find_phone_run (v : pystr) (r : t) :
  find_phone v r = (Ok (first_with v (phones r)), r).
Proof.
  unfold_M. unfold first_with. by destruct (filter _ (phones r)).
Qed.

Lemma add_phone_run (v : pystr) (r : t) :
  add_phone v r =
  match Phone v with
  | Ok p => (Ok tt, set_phones r (phones r ++ [p]))
  | Raise e => (Raise e, r)
  end.
Proof. unfold_M. by destruct (Phone v). Qed.

Lemma add_birthday_run (v : pystr) (r : t) :
  add_birthday v r =
  match Birthday v with
  | Ok b => (Ok tt, {| name := name r; phones := phones r; birthday := Some b |})
  | Raise e => (Raise e, r)
  end.
Proof. unfold_M. by destruct (Birthday v). Qed.

Lemma remove_phone_run (v : pystr) (r : t) :
  remove_phone v r =
  (Ok tt, match first_with v (phones r) with
          | Some p => set_phones r (list_remove p (phones r))
          | None => r
          end).
Proof.
  unfold remove_phone. unfold mbind at 1. unfold M_bind, bind.
  rewrite find_phone_run. destruct (first_with v (phones r)); by unfold_M.
Qed.

Lemma edit_phone_run (old new : pystr) (r : t) :
  edit_phone old new r =
  match first_with old (phones r) with
  | Some _ =>
      match add_phone new r with
      | (Ok _, r') => remove_phone old r'
      | (Raise e, r') => (Raise e, r')
      end
  | None => (Raise NotFound, r)
  end.
Proof.
  unfold edit_phone. unfold mbind at 1. unfold M_bind, bind.
  rewrite find_phone_run. destruct (first_with old (phones r)); [| done].
  unfold mbind, M_bind, bind. by destruct (add_phone new r) as [[[]|] ?].
Qed.

(** *** Lists of phones *)

Lemma first_with_None (v : pystr) (l : list Field) :
  first_with v l = None <-> forall p, p ∈ l -> value p <> v.
Proof.
  unfold first_with. induction l as [|q l IH]; simpl.
  - split; [intros _ p Hp; by apply elem_of_nil in Hp | done].
  - rewrite filter_cons. destruct (decide (value q = v)) as [E|E]; simpl.
    + split; [discriminate |]. intros H. exfalso. apply (H q); [left | done].
    + rewrite IH. split.
      * intros H p Hp. apply elem_of_cons in Hp as [-> | Hp]; auto.
      * intros H p Hp. apply H. by right.
Qed.

Lemma first_with_Some (v : pystr) (l : list Field) (p : Field) :
  first_with v l = Some p -> p ∈ l /\ value p = v.
Proof.
  unfold first_with. intros H. apply head_Some_elem_of in H.
  by apply list_elem_of_filter in H as [? ?].
Qed.

Lemma first_with_app (v : pystr) (l l' : list Field) :
  first_with v (l ++ l') =
  match first_with v l with Some p => Some p | None => first_with v l' end.
Proof.
  unfold first_with. rewrite filter_app.
  by destruct (filter _ l).
Qed.

Lemma list_remove_app_in (p : Field) (l l' : list Field) :
  p ∈ l -> list_remove p (l ++ l') = list_remove p l ++ l'.
Proof.
  induction l as [|q l IH]; simpl; intros H.
  - by apply elem_of_nil in H.
  - destruct (decide (q = p)); [done |].
    apply elem_of_cons in H as [-> | H]; [done |]. by rewrite IH.
Qed.

Lemma list_remove_app_notin (p : Field) (l : list Field) :
  p ∉ l -> list_remove p (l ++ [p]) = l.
Proof.
  induction l as [|q l IH]; simpl; intros H.
  - by destruct (decide (p = p)).
  - apply not_elem_of_cons in H as [H1 H2].
    destruct (decide (q = p)); [congruence |]. by rewrite IH.
Qed.

Lemma list_remove_length (p : Field) (l : list Field) :
  p ∈ l -> S (length (list_remove p l)) = length l.
Proof.
  induction l as [|q l IH]; simpl; intros H.
  - by apply elem_of_nil in H.
  - destruct (decide (q = p)); [done |].
    apply elem_of_cons in H as [-> | H]; [done |]. simpl. by rewrite IH.
Qed.

(** C4, counterexample: Ann already has the phone 1234567890. After
    add_phone("1234567890") she has it twice, remove_phone("1234567890")
    removes the first of the two, and find_phone("1234567890") still
    returns a phone. *)
Lemma add_remove_find_duplicate :
  Phone dup_phone = Ok (mkField dup_phone)
  /\ phones dup_record = [mkField dup_phone]
  /\ (_ ← add_phone dup_phone; _ ← remove_phone dup_phone; find_phone dup_phone) dup_record
     = (Ok (Some (mkField dup_phone)), dup_record).
Proof. vm_compute. done. Qed.

(** C4, amended: for every record that holds no phone equal to [v], and
    every valid phone value [v], add_phone(v) followed by remove_phone(v)
    leaves a record where find_phone(v) returns None; the record is then
    the one it was before. *)
Theorem add_remove_find_absent (r : t) (v : pystr) (p : Field) :
  Phone v = Ok p ->
  fst (find_phone v r) = Ok None ->
  (_ ← add_phone v; _ ← remove_phone v; find_phone v) r = (Ok None, r).
Proof.
  intros Hp Hfind.
  rewrite find_phone_run in Hfind. simpl in Hfind.
  assert (Hnone : first_with v (phones r) = None) by congruence.
  assert (p = mkField v) as ->.
  { destruct (Phone_cases v) as [E | E]; congruence. }
  unfold mbind, M_bind, bind.
  rewrite add_phone_run, Hp, remove_phone_run. simpl.
  rewrite first_with_app, Hnone. unfold first_with at 1. simpl.
  rewrite filter_cons, decide_True by done. simpl.
  rewrite list_remove_app_notin.
  - rewrite find_phone_run. unfold set_phones at 1 2. simpl.
    rewrite Hnone. f_equal. by destruct r.
  - intros Hin. eapply first_with_None in Hnone; [| exact Hin]. done.
Qed.

Lemma add_remove_find_absent_witness :
  (_ ← add_phone dup_phone; _ ← remove_phone dup_phone; find_phone dup_phone)
    (init (pystr_of "Ann"))
  = (Ok None, init (pystr_of "Ann")).
Proof.
  apply (add_remove_find_absent (init (pystr_of "Ann")) dup_phone (mkField dup_phone));
    reflexivity.
Defined.

(** C5: edit_phone(old, new) on a record with no phone equal to [old]
    raises the ValueError 'Old number not found!' and leaves the record
    as it was. When a phone equal to [old] exists and [new] is valid, it
    does add_phone(new) and then remove_phone(old): the first phone equal
    to [old] is gone and the new one is the last of the list. *)
Theorem edit_phone_spec (r : t) (old new : pystr) :
  (fst (find_phone old r) = Ok None ->
     edit_phone old new r = (Raise NotFound, r))
  /\ (forall p q,
        fst (find_phone old r) = Ok (Some p) ->
        Phone new = Ok q ->
        edit_phone old new r = (_ ← add_phone new; remove_phone old) r
        /\ edit_phone old new r
           = (Ok tt, set_phones r (list_remove p (phones r) ++ [q]))
        /\ value q = new /\ value p = old /\ p ∈ phones r).
Proof.
  rewrite find_phone_run. simpl. split.
  - intros H. rewrite edit_phone_run.
    assert (first_with old (phones r) = None) as -> by congruence. done.
  - intros p q H Hq.
    assert (Hp : first_with old (phones r) = Some p) by congruence.
    destruct (first_with_Some _ _ _ Hp) as [Hin Hval].
    assert (q = mkField new) as ->.
    { destruct (Phone_cases new) as [E | E]; congruence. }
    rewrite edit_phone_run, Hp. unfold mbind, M_bind, bind.
    rewrite add_phone_run, Hq, remove_phone_run. simpl.
    rewrite first_with_app, Hp, list_remove_app_in by done.
    done.
Qed.

Lemma edit_phone_spec_witness :
  edit_phone dup_phone (pystr_of "0987654321") dup_record
  = (Ok tt, set_phones dup_record [mkField (pystr_of "0987654321")]).
Proof.
  apply (proj2 (edit_phone_spec dup_record dup_phone (pystr_of "0987654321"))
           (mkField dup_phone) (mkField (pystr_of "0987654321"))); reflexivity.
Defined.

(** C6: add_phone and add_birthday with a value that the constructor
    rejects raise and leave the record as it was; edit_phone(old, new) with
    [old] present and [new] rejected raises and leaves the record as it
    was, the old phone still there and nothing appended. More generally no
    method of a record changes it when it raises. *)
Theorem failure_leaves_record_unchanged (r : t) :
  (forall v e, Phone v = Raise e -> add_phone v r = (Raise e, r))
  /\ (forall v e, Birthday v = Raise e -> add_birthday v r = (Raise e, r))
  /\ (forall old new p e,
        fst (find_phone old r) = Ok (Some p) ->
        Phone new = Raise e ->
        edit_phone old new r = (Raise e, r))
  /\ (forall v e r', add_phone v r = (Raise e, r') -> r' = r)
  /\ (forall v e r', add_birthday v r = (Raise e, r') -> r' = r)
  /\ (forall old new e r', edit_phone old new r = (Raise e, r') -> r' = r)
  /\ (forall v e r', remove_phone v r = (Raise e, r') -> r' = r)
  /\ (forall v e r', find_phone v r = (Raise e, r') -> r' = r).
Proof.
  repeat split.
  - intros v e H. by rewrite add_phone_run, H.
  - intros v e H. by rewrite add_birthday_run, H.
  - intros old new p e H Hn. rewrite find_phone_run in H. simpl in H.
    rewrite edit_phone_run.
    assert (first_with old (phones r) = Some p) as -> by congruence.
    by rewrite add_phone_run, Hn.
  - intros v e r'. rewrite add_phone_run. destruct (Phone v); congruence.
  - intros v e r'. rewrite add_birthday_run. destruct (Birthday v); congruence.
  - intros old new e r'. rewrite edit_phone_run.
    destruct (first_with old (phones r)); [| congruence].
    rewrite add_phone_run. destruct (Phone new); [| congruence].
    rewrite remove_phone_run. congruence.
  - intros v e r'. rewrite remove_phone_run. congruence.
  - intros v e r'. rewrite find_phone_run. congruence.
Qed.

Lemma failure_leaves_record_unchanged_witness :
  add_phone (pystr_of "12345") dup_record = (Raise InvalidFormat_phone, dup_record)
  /\ add_birthday (pystr_of "30.02.2024") dup_record = (Raise InvalidFormat_birthday, dup_record)
  /\ edit_phone dup_phone (pystr_of "12345") dup_record = (Raise InvalidFormat_phone, dup_record).
Proof.
  destruct (failure_leaves_record_unchanged dup_record) as (H1 & H2 & H3 & _).
  split; [| split].
  - apply H1. reflexivity.
  - apply H2. reflexivity.
  - apply (H3 _ _ (mkField dup_phone)); reflexivity.
Defined.

End record_facts.

(* ===================================================================== *)
(** ** Facts: dictionaries and the book                                   *)
(* ===================================================================== *)

Section dict_facts.
Context {V : Type}.
Implicit Types (d : pydict V) (k : pystr) (v : V).

Lemma dict_get_None d k : dict_get k d = None <-> k ∉ dict_keys d.
Proof.
  unfold dict_keys. induction d as [|[k' v'] d IH]; simpl.
  - split; [intros _ H; by apply elem_of_nil in H | done].
  - destruct (decide (k' = k)) as [->|Hne].
    + split; [discriminate |]. intros H. exfalso. apply H. left.
    + rewrite IH, not_elem_of_cons. split; [by intros ? | by intros [_ ?]].
Qed.

Lemma dict_get_Some_elem d k v : dict_get k d = Some v -> (k, v) ∈ d.
Proof.
  induction d as [|[k' v'] d IH]; simpl; [discriminate |].
  destruct (decide (k' = k)) as [->|Hne].
  - intros [= ->]. left.
  - intros H. right. auto.
Qed.

Lemma dict_get_set_eq d k v : dict_get k (dict_set k v d) = Some v.
Proof.
  induction d as [|[k' v'] d IH]; simpl.
  - by rewrite decide_True.
  - destruct (decide (k' = k)) as [->|Hne]; simpl.
    + by rewrite decide_True.
    + by rewrite decide_False.
Qed.

Lemma dict_get_set_ne d k k' v : k <> k' -> dict_get k' (dict_set k v d) = dict_get k' d.
Proof.
  intros Hne. induction d as [|[k0 v0] d IH]; simpl.
  - by rewrite decide_False.
  - destruct (decide (k0 = k)) as [->|Hne0]; simpl.
    + by rewrite !decide_False.
    + destruct (decide (k0 = k')); [done | apply IH].
Qed.

(** Assigning keeps the order of the keys; a new key goes last. *)
Lemma dict_keys_set d k v :
  dict_keys (dict_set k v d)
  = if dict_contains k d then dict_keys d else dict_keys d ++ [k].
Proof.
  unfold dict_contains. induction d as [|[k0 v0] d IH]; simpl; [done |].
  destruct (decide (k0 = k)) as [->|Hne0]; simpl; [done |].
  rewrite IH. by destruct (dict_get k d).
Qed.

Lemma dict_set_elem d k v k' v' :
  (k', v') ∈ dict_set k v d -> (k', v') = (k, v) \/ (k', v') ∈ d.
Proof.
  induction d as [|[k0 v0] d IH]; simpl.
  - intros H. apply list_elem_of_singleton in H. by left.
  - destruct (decide (k0 = k)) as [->|Hne0].
    + intros H. apply elem_of_cons in H as [H | H]; [by left | right; by right].
    + intros H. apply elem_of_cons in H as [H | H].
      * right. rewrite H. left.
      * destruct (IH H) as [? | ?]; [by left | right; by right].
Qed.

Lemma dict_del_sublist d k : sublist (dict_del k d) d.
Proof.
  induction d as [|[k0 v0] d IH]; simpl; [done |].
  destruct (decide (k0 = k)); [by apply sublist_cons | by apply sublist_skip].
Qed.

Lemma dict_del_Forall (P : pystr * V -> Prop) d k :
  Forall P d -> Forall P (dict_del k d).
Proof.
  induction 1 as [|[k0 v0] d H0 Hd IH]; simpl; [done |].
  destruct (decide (k0 = k)); [done | by constructor].
Qed.

Lemma dict_del_NoDup d k : NoDup (dict_keys d) -> NoDup (dict_keys (dict_del k d)).
Proof.
  intros Hnd. eapply sublist_NoDup; [exact Hnd |].
  unfold dict_keys. apply fmap_sublist, dict_del_sublist.
Qed.

Lemma dict_get_del_eq d k : NoDup (dict_keys d) -> dict_get k (dict_del k d) = None.
Proof.
  unfold dict_keys. induction d as [|[k0 v0] d IH]; simpl; [done |].
  intros Hnd. apply NoDup_cons in Hnd as [Hk Hnd].
  destruct (decide (k0 = k)) as [->|Hne0]; simpl.
  - by apply dict_get_None.
  - rewrite decide_False by done. auto.
Qed.

Lemma dict_get_del_ne d k k' : k <> k' -> dict_get k' (dict_del k d) = dict_get k' d.
Proof.
  intros Hne. induction d as [|[k0 v0] d IH]; simpl; [done |].
  destruct (decide (k0 = k)) as [->|Hne0]; simpl.
  - by rewrite decide_False.
  - destruct (decide (k0 = k')); [done | apply IH].
Qed.

Lemma dict_del_absent d k : dict_get k d = None -> dict_del k d = d.
Proof.
  induction d as [|[k0 v0] d IH]; simpl; [done |].
  destruct (decide (k0 = k)); [discriminate |]. intros H. by rewrite IH.
Qed.

Lemma dict_set_Forall (P : pystr * V -> Prop) d k v :
  P (k, v) -> Forall P d -> Forall P (dict_set k v d).
Proof.
  intros Hkv. induction 1 as [|[k0 v0] d H0 Hd IH]; simpl.
  - by constructor.
  - destruct (decide (k0 = k)) as [->|Hne0]; constructor; auto.
Qed.

Lemma dict_set_NoDup d k v : NoDup (dict_keys d) -> NoDup (dict_keys (dict_set k v d)).
Proof.
  intros Hnd. rewrite dict_keys_set. unfold dict_contains.
  destruct (dict_get k d) eqn:E; [done |].
  apply NoDup_app. split; [done |]. split; [| apply NoDup_singleton].
  intros x Hx Hx'. apply list_elem_of_singleton in Hx' as ->.
  by apply dict_get_None in E.
Qed.
End dict_facts.

Section book_facts.
Import AddressBook.

Lemma book_inv_empty : book_inv empty.
Proof. split; simpl; constructor. Qed.

Lemma book_inv_add_record (r : ContactRecord.t) (b : t) :
  book_inv b -> book_inv (add_record r b).
Proof.
  intros [Hnd Hall]. split; simpl.
  - by apply dict_set_NoDup.
  - by apply dict_set_Forall.
Qed.

Lemma book_inv_delete (k : pystr) (b : t) : book_inv b -> book_inv (delete k b).
Proof.
  intros [Hnd Hall]. unfold delete. destruct (dict_contains k (data b)); [| done].
  split; simpl.
  - by apply dict_del_NoDup.
  - by apply dict_del_Forall.
Qed.

Lemma method_keeps_name (r : ContactRecord.t) :
  (forall v, ContactRecord.name (snd (ContactRecord.add_phone v r)) = ContactRecord.name r)
  /\ (forall v, ContactRecord.name (snd (ContactRecord.remove_phone v r)) = ContactRecord.name r)
  /\ (forall o n, ContactRecord.name (snd (ContactRecord.edit_phone o n r)) = ContactRecord.name r)
  /\ (forall v, ContactRecord.name (snd (ContactRecord.add_birthday v r)) = ContactRecord.name r)
  /\ (forall v, ContactRecord.name (snd (ContactRecord.find_phone v r)) = ContactRecord.name r).
Proof.
  assert (Hrm : forall v r0,
    ContactRecord.name (snd (ContactRecord.remove_phone v r0)) = ContactRecord.name r0).
  { intros v r0. rewrite remove_phone_run. simpl.
    by destruct (ContactRecord.first_with v (ContactRecord.phones r0)). }
  assert (Hadd : forall v r0,
    ContactRecord.name (snd (ContactRecord.add_phone v r0)) = ContactRecord.name r0).
  { intros v r0. rewrite add_phone_run. by destruct (Phone v). }
  split; [| split; [| split; [| split]]].
  - intros v. apply Hadd.
  - intros v. apply Hrm.
  - intros o n. rewrite edit_phone_run.
    destruct (ContactRecord.first_with o (ContactRecord.phones r)); [| done].
    specialize (Hadd n r). destruct (ContactRecord.add_phone n r) as [[[]|e] r']; simpl in *.
    + by rewrite Hrm.
    + done.
  - intros v. rewrite add_birthday_run. by destruct (Birthday v).
  - intros v. by rewrite find_phone_run.
Qed.

Lemma book_inv_on_record {A} (key : pystr) (m : ContactRecord.M A) (b : t) :
  (forall r, ContactRecord.name (snd (m r)) = ContactRecord.name r) ->
  book_inv b -> book_inv (snd (on_record key m b)).
Proof.
  intros Hm [Hnd Hall]. unfold on_record, find.
  destruct (dict_get key (data b)) as [r|] eqn:E; [| done].
  specialize (Hm r). destruct (m r) as [out r']. simpl in *. split; simpl.
  - by apply dict_set_NoDup.
  - apply dict_set_Forall; [| done]. simpl. rewrite Hm.
    apply dict_get_Some_elem in E. rewrite Forall_forall in Hall.
    apply (Hall (key, r) E).
Qed.

(** C7: in a book where every record is stored under its name (and no
    key occurs twice), add_record stores the record under its name, keeping
    the place of a key that is present and replacing its record (last write
    wins), and the invariant holds again; find returns None exactly for the
    missing keys, and what it returns has the key as its name; delete
    removes the key, keeps the invariant and changes nothing when the key is
    absent; the methods of a stored record keep the invariant. *)
Theorem book_invariant_preserved (b : t) :
  book_inv b ->
  (forall r,
      book_inv (add_record r b)
      /\ find (value (ContactRecord.name r)) (add_record r b) = Some r
      /\ (forall k, k <> value (ContactRecord.name r) -> find k (add_record r b) = find k b)
      /\ dict_keys (data (add_record r b))
         = if dict_contains (value (ContactRecord.name r)) (data b)
           then dict_keys (data b)
           else dict_keys (data b) ++ [value (ContactRecord.name r)])
  /\ (forall k, find k b = None <-> k ∉ dict_keys (data b))
  /\ (forall k r, find k b = Some r -> value (ContactRecord.name r) = k)
  /\ (forall k,
        book_inv (delete k b)
        /\ find k (delete k b) = None
        /\ (forall k', k' <> k -> find k' (delete k b) = find k' b)
        /\ (find k b = None -> delete k b = b))
  /\ (forall key,
        (forall v, book_inv (snd (on_record key (ContactRecord.add_phone v) b)))
        /\ (forall v, book_inv (snd (on_record key (ContactRecord.remove_phone v) b)))
        /\ (forall o n, book_inv (snd (on_record key (ContactRecord.edit_phone o n) b)))
        /\ (forall v, book_inv (snd (on_record key (ContactRecord.add_birthday v) b)))).
Proof.
  intros Hinv. split; [| split; [| split; [| split]]].
  - intros r. split; [by apply book_inv_add_record |]. unfold find, add_record. simpl.
    split; [apply dict_get_set_eq |]. split.
    + intros k Hk. by apply dict_get_set_ne.
    + apply dict_keys_set.
  - intros k. apply dict_get_None.
  - intros k r H. destruct Hinv as [_ Hall]. rewrite Forall_forall in Hall.
    apply (Hall (k, r)). by apply dict_get_Some_elem.
  - intros k. split; [by apply book_inv_delete |]. unfold find, delete, dict_contains.
    destruct (dict_get k (data b)) eqn:E; simpl.
    + split; [apply dict_get_del_eq, Hinv |]. split; [| discriminate].
      intros k' Hk'. by apply dict_get_del_ne.
    + done.
  - intros key. repeat split; intros; apply book_inv_on_record; try done;
      intros r; apply method_keeps_name.
Qed.

Lemma book_invariant_preserved_witness :
  book_inv (add_record (ContactRecord.init (pystr_of "Ann")) ann_book)
  /\ find (pystr_of "Ann") (add_record (ContactRecord.init (pystr_of "Ann")) ann_book)
     = Some (ContactRecord.init (pystr_of "Ann"))
  /\ find (pystr_of "Bob") ann_book = None
  /\ delete (pystr_of "Bob") ann_book = ann_book.
Proof.
  assert (Hinv : book_inv ann_book) by (apply (bool_decide_unpack (book_inv ann_book)); vm_compute; exact I).
  destruct (book_invariant_preserved ann_book Hinv) as (Hadd & Hfind & _ & Hdel & _).
  destruct (Hadd (ContactRecord.init (pystr_of "Ann"))) as (H1 & H2 & _).
  destruct (Hdel (pystr_of "Bob")) as (_ & _ & _ & H3).
  split; [exact H1 |]. split; [exact H2 |]. split; [reflexivity |].
  apply H3. reflexivity.
Defined.

End book_facts.

(* ===================================================================== *)
(** ** Facts: the calendar                                                *)
(* ===================================================================== *)

Lemma ord2ymd_unfold (n : Z) :
  ord2ymd n =
  let x := n - 1 in
  let a := x / 146097 in
  let b := (x mod 146097) / 36524 in
  let c := ((x mod 146097) mod 36524) / 1461 in
  let e := (((x mod 146097) mod 36524) mod 1461) / 365 in
  let f := (((x mod 146097) mod 36524) mod 1461) mod 365 in
  let y := a * 400 + 1 + (b * 100 + c * 4 + e) in
  if (e =? 4) || (b =? 4) then (y - 1, 12, 31)
  else
    let '(m, d) := month_day ((e =? 3) && (negb (c =? 24) || (b =? 3))) f in
    (y, m, d).
Proof.
  unfold ord2ymd, month_day, DI400Y, DI100Y, DI4Y. cbv zeta.
  destruct (_ || _); [done |]. by destruct (_ <? _).
Qed.

Lemma days_before_year_regular (a b c e : Z) :
  0 <= b <= 3 -> 0 <= c <= 24 -> 0 <= e <= 3 ->
  days_before_year (a * 400 + 1 + (b * 100 + c * 4 + e))
  = 146097 * a + 36524 * b + 1461 * c + 365 * e.
Proof.
  intros Hb Hc He. unfold days_before_year. cbv zeta.
  replace (a * 400 + 1 + (b * 100 + c * 4 + e) - 1) with (400 * a + 100 * b + 4 * c + e) by lia.
  assert ((400 * a + 100 * b + 4 * c + e) / 4 = 100 * a + 25 * b + c) as ->.
  { symmetry. apply (Z.div_unique _ 4 _ e); lia. }
  assert ((400 * a + 100 * b + 4 * c + e) / 100 = 4 * a + b) as ->.
  { symmetry. apply (Z.div_unique _ 100 _ (4 * c + e)); lia. }
  assert ((400 * a + 100 * b + 4 * c + e) / 400 = a) as ->.
  { symmetry. apply (Z.div_unique _ 400 _ (100 * b + 4 * c + e)); lia. }
  lia.
Qed.

Lemma is_leap_regular (a b c e : Z) :
  0 <= b <= 3 -> 0 <= c <= 24 -> 0 <= e <= 3 ->
  is_leap (a * 400 + 1 + (b * 100 + c * 4 + e))
  = (e =? 3) && (negb (c =? 24) || (b =? 3)).
Proof.
  intros Hb Hc He. unfold is_leap.
  set (y := a * 400 + 1 + (b * 100 + c * 4 + e)).
  assert (y mod 4 = (e + 1) mod 4) as ->.
  { unfold y. replace (a * 400 + 1 + (b * 100 + c * 4 + e)) with (e + 1 + (100 * a + 25 * b + c) * 4) by lia.
    apply Z.mod_add. lia. }
  assert (y mod 100 = (4 * c + e + 1) mod 100) as ->.
  { unfold y. replace (a * 400 + 1 + (b * 100 + c * 4 + e)) with (4 * c + e + 1 + (4 * a + b) * 100) by lia.
    apply Z.mod_add. lia. }
  assert (y mod 400 = (100 * b + 4 * c + e + 1) mod 400) as ->.
  { unfold y. replace (a * 400 + 1 + (b * 100 + c * 4 + e)) with (100 * b + 4 * c + e + 1 + a * 400) by lia.
    apply Z.mod_add. lia. }
  assert (e = 0 \/ e = 1 \/ e = 2 \/ e = 3) as [-> | [-> | [-> | ->]]] by lia; try done.
  destruct (decide (c = 24)) as [-> | Hc24].
  - assert (b = 0 \/ b = 1 \/ b = 2 \/ b = 3) as [-> | [-> | [-> | ->]]] by lia; done.
  - replace (4 * c + 3 + 1) with (4 * c + 4) by lia.
    rewrite (Z.mod_small (4 * c + 4) 100) by lia.
    replace (c =? 24) with false by (symmetry; apply Z.eqb_neq; lia).
    replace (4 * c + 4 =? 0) with false by (symmetry; apply Z.eqb_neq; lia).
    done.
Qed.

Lemma all_from_spec f start count :
  all_from f start count = true ->
  forall n, start <= n < start + Z.of_nat count -> f n = true.
Proof.
  revert start. induction count as [|c IH]; intros start H n Hn; [lia |].
  simpl in H. apply andb_true_iff in H as [H1 H2].
  destruct (decide (n = start)) as [->|Hne]; [done |].
  apply (IH (start + 1)); [done | lia].
Qed.

Lemma month_day_checked (leapyear : bool) (f : Z) :
  0 <= f < 365 -> month_day_ok leapyear f = true.
Proof.
  intros Hf. apply (all_from_spec (month_day_ok leapyear) 0 365); [| lia].
  destruct leapyear; vm_compute; reflexivity.
Qed.

Lemma days_in_month_tbl (y m : Z) :
  days_in_month y m = tbl DAYS_IN_MONTH m + Z.b2z ((m =? 2) && is_leap y).
Proof.
  unfold days_in_month. destruct (m =? 2) eqn:E; simpl; [| lia].
  apply Z.eqb_eq in E as ->. destruct (is_leap y); done.
Qed.

(** [ord2ymd n] is a date of the calendar, and its ordinal is [n]. *)
Lemma ord2ymd_correct (n : Z) :
  let '(y, m, d) := ord2ymd n in
  ymd2ord y m d = n /\ 1 <= m <= 12 /\ 1 <= d <= days_in_month y m.
Proof.
  rewrite ord2ymd_unfold. cbv zeta.
  set (x := n - 1).
  pose proof (Z.div_mod x 146097 ltac:(lia)) as E1.
  pose proof (Z.mod_pos_bound x 146097 ltac:(lia)) as B1.
  set (a := x / 146097) in *. set (r1 := x mod 146097) in *.
  pose proof (Z.div_mod r1 36524 ltac:(lia)) as E2.
  pose proof (Z.mod_pos_bound r1 36524 ltac:(lia)) as B2.
  set (b := r1 / 36524) in *. set (r2 := r1 mod 36524) in *.
  pose proof (Z.div_mod r2 1461 ltac:(lia)) as E3.
  pose proof (Z.mod_pos_bound r2 1461 ltac:(lia)) as B3.
  set (c := r2 / 1461) in *. set (r3 := r2 mod 1461) in *.
  pose proof (Z.div_mod r3 365 ltac:(lia)) as E4.
  pose proof (Z.mod_pos_bound r3 365 ltac:(lia)) as B4.
  set (e := r3 / 365) in *. set (f := r3 mod 365) in *.
  assert (Hb : 0 <= b <= 4) by lia.
  assert (Hc : 0 <= c <= 24) by lia.
  assert (He : 0 <= e <= 4) by lia.
  destruct ((e =? 4) || (b =? 4)) eqn:Hsp.
  - (* last day of a leap year *)
    assert (Hy : exists q, a * 400 + 1 + (b * 100 + c * 4 + e) - 1 = 4 * q
                 /\ days_before_year (4 * q) + 366 = n
                 /\ is_leap (4 * q) = true).
    { apply orb_true_iff in Hsp as [Hsp | Hsp]; apply Z.eqb_eq in Hsp.
      - assert (b <= 3).
        { destruct (decide (b = 4)); [| lia]. lia. }
        assert (c <= 23) by lia.
        exists (100 * a + 25 * b + c + 1). split; [lia |].
        replace (4 * (100 * a + 25 * b + c + 1)) with (a * 400 + 1 + (b * 100 + c * 4 + 3)) by lia.
        rewrite days_before_year_regular, is_leap_regular by lia.
        split; [lia |]. replace (c =? 24) with false by (symmetry; apply Z.eqb_neq; lia). done.
      - assert (c = 0 /\ e = 0) as [-> ->] by lia.
        exists (100 * a + 100). split; [lia |].
        replace (4 * (100 * a + 100)) with (a * 400 + 1 + (3 * 100 + 24 * 4 + 3)) by lia.
        rewrite days_before_year_regular, is_leap_regular by lia.
        split; [lia | done]. }
    destruct Hy as (q & -> & Hq1 & Hq2).
    unfold ymd2ord, days_before_month, days_in_month. rewrite Hq2. simpl.
    change (tbl DAYS_BEFORE_MONTH 12) with 334. change (tbl DAYS_IN_MONTH 12) with 31. lia.
  - apply orb_false_iff in Hsp as [Hsp1 Hsp2].
    apply Z.eqb_neq in Hsp1, Hsp2.
    pose proof (month_day_checked ((e =? 3) && (negb (c =? 24) || (b =? 3))) f ltac:(lia)) as Hmd.
    unfold month_day_ok in Hmd.
    destruct (month_day _ f) as [m d].
    rewrite !andb_true_iff in Hmd. destruct Hmd as ((((H1 & H2) & H3) & H4) & H5).
    rewrite days_in_month_tbl. unfold ymd2ord, days_before_month.
    rewrite is_leap_regular, days_before_year_regular by lia.
    lia.
Qed.

Arguments weekday : simpl never.
Arguments toordinal : simpl never.
Arguments fromordinal : simpl never.
Arguments ymd2ord : simpl never.
Arguments ord2ymd : simpl never.
Arguments date_new : simpl never.
Arguments date_add_days : simpl never.
Arguments days_between : simpl never.
Arguments strftime : simpl never.
Arguments strptime : simpl never.
Arguments date_lt : simpl never.

Lemma toordinal_fromordinal (n : Z) : toordinal (fromordinal n) = n.
Proof.
  unfold toordinal, fromordinal. pose proof (ord2ymd_correct n) as H.
  destruct (ord2ymd n) as [[y m] d]. simpl. tauto.
Qed.

Lemma weekday_fromordinal (n : Z) : weekday (fromordinal n) = (n + 6) mod 7.
Proof. unfold weekday. by rewrite toordinal_fromordinal. Qed.

Lemma weekday_range (d : date) : 0 <= weekday d < 7.
Proof. unfold weekday. apply Z.mod_pos_bound. lia. Qed.

Lemma weekday_date_add_days (c c' : date) (k : Z) :
  date_add_days c k = Ok c' -> weekday c' = (weekday c + k) mod 7.
Proof.
  unfold date_add_days. destruct (_ && _); [| discriminate].
  intros [= <-]. rewrite weekday_fromordinal. unfold weekday.
  rewrite Zplus_mod_idemp_l. f_equal. lia.
Qed.

Lemma days_between_date_add_days (c c' : date) (k : Z) :
  date_add_days c k = Ok c' -> days_between c' c = k.
Proof.
  unfold date_add_days, days_between. destruct (_ && _); [| discriminate].
  intros [= <-]. rewrite toordinal_fromordinal. lia.
Qed.

(** The weekend test of the code and its jump to Monday are those of the
    specification. *)
Lemma weekend_test (c : date) : (5 <=? weekday c) = Spec.is_weekend c.
Proof.
  unfold Spec.is_weekend, Spec.SATURDAY, Spec.SUNDAY.
  pose proof (weekday_range c).
  destruct (5 <=? weekday c) eqn:E1, (weekday c =? 5) eqn:E2, (weekday c =? 6) eqn:E3;
    try done; lia.
Qed.

Lemma monday_offset_weekend (c : date) :
  Spec.is_weekend c = true -> Spec.monday_offset c = Some (7 - weekday c).
Proof.
  unfold Spec.is_weekend, Spec.monday_offset, Spec.SATURDAY, Spec.SUNDAY, Spec.MONDAY.
  intros H. apply orb_true_iff in H. cbn [List.find].
  rewrite !weekday_fromordinal. unfold weekday in *.
  set (t := toordinal c) in *.
  destruct H as [H | H]; apply Z.eqb_eq in H.
  - assert ((t + 1 + 6) mod 7 = 6) as -> by (revert H; Z.div_mod_to_equations; lia).
    assert ((t + 2 + 6) mod 7 = 0) as -> by (revert H; Z.div_mod_to_equations; lia).
    simpl. f_equal. lia.
  - assert ((t + 1 + 6) mod 7 = 0) as -> by (revert H; Z.div_mod_to_equations; lia).
    simpl. f_equal. lia.
Qed.

Lemma find_next_weekday_roll (c : date) :
  Spec.is_weekend c = true ->
  AddressBook.find_next_weekday c 0 = Spec.roll_forward c.
Proof.
  intros H. unfold Spec.roll_forward. rewrite monday_offset_weekend by done.
  unfold AddressBook.find_next_weekday. cbv zeta.
  pose proof (weekday_range c).
  rewrite <- weekend_test in H. 
  replace (0 - weekday c <=? 0) with true by (symmetry; apply Z.leb_le; lia).
  f_equal. lia.
Qed.

(** The rolled date is the nearest later Monday. *)
Lemma roll_forward_monday (c c' : date) :
  Spec.is_weekend c = true -> Spec.roll_forward c = Ok c' ->
  weekday c' = 0 /\ 1 <= days_between c' c <= 2
  /\ forall k d, 1 <= k < days_between c' c -> date_add_days c k = Ok d -> weekday d <> 0.
Proof.
  intros Hw. unfold Spec.roll_forward. rewrite monday_offset_weekend by done.
  intros Hadd. pose proof (weekday_date_add_days _ _ _ Hadd) as Hwd.
  pose proof (days_between_date_add_days _ _ _ Hadd) as Hdb. rewrite Hdb.
  rewrite <- weekend_test in Hw. apply Z.leb_le in Hw.
  pose proof (weekday_range c).
  split; [| split; [lia |]].
  - rewrite Hwd. replace (weekday c + (7 - weekday c)) with 7 by lia. done.
  - intros k d Hk Hd. rewrite (weekday_date_add_days _ _ _ Hd).
    assert (weekday c = 5 /\ k = 1) as [-> ->] by lia. done.
Qed.

Lemma date_new_fields (y m d : Z) (c : date) :
  date_new y m d = Ok c -> c = mkdate y m d.
Proof.
  unfold date_new, check_date_fields.
  repeat (destruct (negb _); [discriminate |]). cbn. unfold mret, result_ret. congruence.
Qed.

Lemma candidate_code_spec (today bd : date) :
  (birthday_this_year ← replace_year bd (year today);
   birthday_this_year ←
     (if date_lt birthday_this_year today
      then replace_year birthday_this_year (year today + 1)
      else Ok birthday_this_year);
   if 5 <=? weekday birthday_this_year
   then AddressBook.find_next_weekday birthday_this_year 0
   else Ok birthday_this_year)
  = Spec.candidate today bd.
Proof.
  unfold Spec.candidate, Spec.reanchor, replace_year.
  destruct (date_new (year today) (month bd) (day bd)) as [c|e] eqn:E; simpl; [| done].
  apply date_new_fields in E. subst c. simpl.
  destruct (date_lt _ today); simpl.
  - destruct (date_new (year today + 1) (month bd) (day bd)) as [c|e]; simpl; [| done].
    rewrite weekend_test. destruct (Spec.is_weekend c) eqn:Ew; [| done].
    by apply find_next_weekday_roll.
  - rewrite weekend_test. destruct (Spec.is_weekend _) eqn:Ew; [| done].
    by apply find_next_weekday_roll.
Qed.

Lemma upcoming_step_spec (today : date) (days : Z) (r : ContactRecord.t)
    (acc : list (pystr * pystr)) :
  AddressBook.upcoming_step today days r acc
  = (es ← Spec.entries_of today days r; Ok (acc ++ es)).
Proof.
  unfold AddressBook.upcoming_step, Spec.entries_of.
  destruct (ContactRecord.birthday r) as [b|]; simpl; [| by rewrite app_nil_r].
  destruct (strptime (value b)) as [bd|e]; simpl; [| done].
  pose proof (candidate_code_spec today bd) as Hc. simpl in Hc.
  unfold mbind, result_bind in *.
  destruct (replace_year bd (year today)) as [c0|e0]; [| by rewrite <- Hc].
  destruct (if date_lt c0 today then _ else _) as [c1|e1]; [| by rewrite <- Hc].
  rewrite <- Hc.
  destruct (if 5 <=? weekday c1 then _ else _) as [c2|e2]; [| done].
  unfold Spec.in_window. destruct (_ && _); [done | by rewrite app_nil_r].
Qed.

Lemma upcoming_loop_spec (today : date) (days : Z) (records : list ContactRecord.t)
    (acc : list (pystr * pystr)) :
  AddressBook.upcoming_loop today days records acc
  = (rs ← mapM (Spec.entries_of today days) records; Ok (acc ++ concat rs)).
Proof.
  revert acc. induction records as [|r records IH]; intros acc; simpl.
  - by rewrite app_nil_r.
  - rewrite upcoming_step_spec. unfold mbind, result_bind.
    destruct (Spec.entries_of today days r) as [es|e]; [| done].
    rewrite IH. unfold mbind, result_bind.
    destruct (mapM _ records) as [rs|e]; [| done].
    unfold mret, result_ret. simpl. by rewrite app_assoc.
Qed.

(** C1: for every book, every [today] and every [daysAhead],
    get_upcoming_birthdays does what the specification words: it goes
    through the records in the order of the book, skips those without a
    birthday, re-anchors month and day onto today's year, and onto the next
    year when that date is before today, rolls a Saturday or Sunday forward
    by the minimal positive number of days to a Monday, and emits the name
    with the rolled date formatted, if and only if the rolled date is 0 to
    [daysAhead] days after today. Where a step raises (a 29th of February
    onto a year that is not leap), both raise the same. *)
Theorem get_upcoming_birthdays_spec (today : date) (daysAhead : Z) (book : AddressBook.t) :
  AddressBook.get_upcoming_birthdays today daysAhead book
  = Spec.upcoming today daysAhead book.
Proof.
  unfold AddressBook.get_upcoming_birthdays, Spec.upcoming.
  by rewrite upcoming_loop_spec.
Qed.

(* ===================================================================== *)
(** ** Facts: the scenario and the leap day                               *)
(* ===================================================================== *)

(** C9: today is Monday 03.06.2024 and Dina's birthday is "08.06.1995".
    This year's date 08.06.2024 is a Saturday and is rolled to Monday
    10.06.2024, 7 days after today: get_upcoming_birthdays(7) has Dina with
    "10.06.2024" and get_upcoming_birthdays(6) is empty. *)
Theorem dina_scenario :
  let today := mkdate 2024 6 3 in
  weekday today = 0
  /\ ContactRecord.birthday dina = Some (mkField (pystr_of "08.06.1995"))
  /\ (bd ← strptime (pystr_of "08.06.1995"); replace_year bd (year today))
     = Ok (mkdate 2024 6 8)
  /\ date_lt (mkdate 2024 6 8) today = false
  /\ weekday (mkdate 2024 6 8) = 5
  /\ AddressBook.find_next_weekday (mkdate 2024 6 8) 0 = Ok (mkdate 2024 6 10)
  /\ weekday (mkdate 2024 6 10) = 0
  /\ days_between (mkdate 2024 6 10) today = 7
  /\ AddressBook.get_upcoming_birthdays today 7 dina_book
     = Ok [(pystr_of "Dina", pystr_of "10.06.2024")]
  /\ AddressBook.get_upcoming_birthdays today 6 dina_book = Ok [].
Proof. cbv zeta. repeat split; vm_compute; reflexivity. Qed.

(** The other scenarios of the specification: on Monday 10.06.2024 Bob,
    born on 12.06.1990, is listed for 7 days with "12.06.2024"; Carl, born
    on 08.06.1990, is re-anchored onto 08.06.2025 and not listed; a book
    without birthdays gives the empty list. *)
Example bob_scenario :
  AddressBook.get_upcoming_birthdays (mkdate 2024 6 10) 7
    (AddressBook.add_record
       (snd (ContactRecord.add_birthday (pystr_of "12.06.1990")
               (ContactRecord.init (pystr_of "Bob"))))
       AddressBook.empty)
  = Ok [(pystr_of "Bob", pystr_of "12.06.2024")].
Proof. vm_compute. reflexivity. Qed.

Example carl_scenario :
  Spec.candidate (mkdate 2024 6 10) (mkdate 1990 6 8) = Ok (mkdate 2025 6 9)
  /\ Spec.reanchor (mkdate 1990 6 8) 2025 = Ok (mkdate 2025 6 8)
  /\ AddressBook.get_upcoming_birthdays (mkdate 2024 6 10) 7
       (AddressBook.add_record
          (snd (ContactRecord.add_birthday (pystr_of "08.06.1990")
                  (ContactRecord.init (pystr_of "Carl"))))
          AddressBook.empty)
     = Ok [].
Proof. vm_compute. repeat split. Qed.

Example no_birthdays_scenario :
  AddressBook.get_upcoming_birthdays (mkdate 2024 6 10) 365 ann_book = Ok [].
Proof. vm_compute. reflexivity. Qed.

(** *** The 29th of February *)
Lemma is_leap_next (y : Z) : is_leap y = true -> is_leap (y + 1) = false.
Proof.
  unfold is_leap. intros H. apply andb_true_iff in H as [H _].
  apply Z.eqb_eq in H.
  replace ((y + 1) mod 4 =? 0) with false; [done |].
  symmetry. apply Z.eqb_neq. revert H. Z.div_mod_to_equations. lia.
Qed.

Lemma date_new_feb29 (y : Z) (c : date) :
  date_new y 2 29 = Ok c -> is_leap y = true.
Proof.
  unfold date_new, check_date_fields, days_in_month.
  destruct (negb _); [discriminate |]. simpl.
  destruct (is_leap y); [done | discriminate].
Qed.

Lemma candidate_leap_day (today bd : date) :
  month bd = 2 -> day bd = 29 ->
  is_leap (year today) = false \/ date_lt (mkdate (year today) 2 29) today = true ->
  exists e, Spec.candidate today bd = Raise e.
Proof.
  intros Hm Hd Hy. unfold Spec.candidate, Spec.reanchor. rewrite Hm, Hd.
  destruct (date_new (year today) 2 29) as [c|e] eqn:E; [| by eexists].
  pose proof (date_new_feb29 _ _ E) as Hleap.
  apply date_new_fields in E. subst c.
  destruct Hy as [Hy | Hy]; [congruence |].
  unfold mbind at 1. unfold result_bind at 1. rewrite Hy.
  destruct (date_new (year today + 1) 2 29) as [c|e] eqn:E'; [| by eexists].
  apply date_new_feb29 in E'. rewrite is_leap_next in E' by done. discriminate.
Qed.

Lemma upcoming_step_leap_day (today : date) (days : Z) (r : ContactRecord.t) (b : Field)
    (bd : date) (acc : list (pystr * pystr)) :
  ContactRecord.birthday r = Some b ->
  strptime (value b) = Ok bd -> month bd = 2 -> day bd = 29 ->
  is_leap (year today) = false \/ date_lt (mkdate (year today) 2 29) today = true ->
  exists e, AddressBook.upcoming_step today days r acc = Raise e.
Proof.
  intros Hb Hp Hm Hd Hy. rewrite upcoming_step_spec. unfold Spec.entries_of.
  rewrite Hb, Hp. destruct (candidate_leap_day today bd Hm Hd Hy) as [e He].
  exists e. unfold mbind, result_bind. by rewrite He.
Qed.

Lemma upcoming_loop_raises (today : date) (days : Z) (records : list ContactRecord.t)
    (r : ContactRecord.t) :
  r ∈ records ->
  (forall acc, exists e, AddressBook.upcoming_step today days r acc = Raise e) ->
  forall acc, exists e, AddressBook.upcoming_loop today days records acc = Raise e.
Proof.
  intros Hin Hr. induction records as [|r0 records IH]; intros acc.
  - by apply elem_of_nil in Hin.
  - simpl. unfold mbind, result_bind.
    destruct (AddressBook.upcoming_step today days r0 acc) as [acc'|e] eqn:E; [| by eexists].
    apply elem_of_cons in Hin as [-> | Hin].
    + destruct (Hr acc) as [e He]. congruence.
    + by apply IH.
Qed.

Lemma find_in_values (key : pystr) (book : AddressBook.t) (r : ContactRecord.t) :
  AddressBook.find key book = Some r -> r ∈ dict_values (AddressBook.data book).
Proof.
  unfold AddressBook.find. intros H. apply dict_get_Some_elem in H.
  unfold dict_values. apply list_elem_of_fmap. by exists (key, r).
Qed.

(** C10: when a record of the book has a birthday that parses as a 29th
    of February, and today's year is not a leap year, or the 29th of
    February of today's year is before today (so that the target is the
    next year, which is not leap), get_upcoming_birthdays raises instead of
    returning a list. *)
Theorem get_upcoming_birthdays_leap_day (today : date) (days : Z) (book : AddressBook.t)
    (key : pystr) (r : ContactRecord.t) (b : Field) (bd : date) :
  AddressBook.find key book = Some r ->
  ContactRecord.birthday r = Some b ->
  strptime (value b) = Ok bd -> month bd = 2 -> day bd = 29 ->
  is_leap (year today) = false \/ date_lt (mkdate (year today) 2 29) today = true ->
  exists e, AddressBook.get_upcoming_birthdays today days book = Raise e.
Proof.
  intros Hfind Hb Hp Hm Hd Hy. unfold AddressBook.get_upcoming_birthdays.
  apply (upcoming_loop_raises today days _ r).
  - by apply (find_in_values key).
  - intros acc. by apply (upcoming_step_leap_day today days r b bd).
Qed.

Lemma get_upcoming_birthdays_leap_day_witness :
  Birthday (pystr_of "29.02.2024") = Ok (mkField (pystr_of "29.02.2024"))
  /\ (exists e, AddressBook.get_upcoming_birthdays (mkdate 2025 1 15) 7 leap_book = Raise e)
  /\ (exists e, AddressBook.get_upcoming_birthdays (mkdate 2024 3 1) 7 leap_book = Raise e).
Proof.
  split; [reflexivity |]. split.
  - apply (get_upcoming_birthdays_leap_day (mkdate 2025 1 15) 7 leap_book (pystr_of "Eve")
             leap_record (mkField (pystr_of "29.02.2024")) (mkdate 2024 2 29));
      try reflexivity. left. reflexivity.
  - apply (get_upcoming_birthdays_leap_day (mkdate 2024 3 1) 7 leap_book (pystr_of "Eve")
             leap_record (mkField (pystr_of "29.02.2024")) (mkdate 2024 2 29));
      try reflexivity. right. reflexivity.
Defined.

(* ===================================================================== *)
(** ** Facts: matching and [strptime]                                     *)
(* ===================================================================== *)

Arguments char_isdecimal : simpl never.
Arguments decimal_value : simpl never.
Arguments char_isdigit : simpl never.
Arguments py_int : simpl never.

(** *** Matching *)

Lemma re_match_sound (r : regex) (s x s' : pystr) :
  (x, s') ∈ re_match r s -> s = x ++ s' /\ re_lang r x.
Proof.
  revert s x s'. induction r as [p | a IHa b IHb | a IHa b IHb]; intros s x s'; simpl.
  - destruct s as [|c s]; [intros H; by apply elem_of_nil in H |].
    destruct (p c) eqn:E; [| intros H; by apply elem_of_nil in H].
    intros H. apply list_elem_of_singleton in H. injection H as -> ->.
    split; [done | by constructor].
  - intros H. apply list_elem_of_bind in H as ([x1 s1] & H & H1).
    apply list_elem_of_bind in H as ([x2 s2] & H & H2).
    apply list_elem_of_singleton in H. injection H as -> ->.
    apply IHa in H1 as [-> L1]. apply IHb in H2 as [-> L2].
    split; [by rewrite app_assoc | by constructor].
  - intros H. apply elem_of_app in H as [H | H].
    + apply IHa in H as [-> L]. split; [done | by apply lang_alt_l].
    + apply IHb in H as [-> L]. split; [done | by apply lang_alt_r].
Qed.

Lemma re_match_complete (r : regex) (x s' : pystr) :
  re_lang r x -> (x, s') ∈ re_match r (x ++ s').
Proof.
  intros L. revert s'. induction L as [p c Hp | a b x y La IHa Lb IHb | a b x L IH | a b x L IH];
    intros s'; simpl.
  - rewrite Hp. left.
  - apply list_elem_of_bind. exists (x, y ++ s'). split; [| rewrite <- app_assoc; apply IHa].
    apply list_elem_of_bind. exists (y, s'). split; [left | apply IHb].
  - apply elem_of_app. left. apply IH.
  - apply elem_of_app. right. apply IH.
Qed.

Lemma re_lang_avoids (c0 : codepoint) (r : regex) (x : pystr) :
  classes_avoid c0 r -> re_lang r x -> c0 ∉ x.
Proof.
  intros Hr L. induction L as [p c Hp | a b x y La IHa Lb IHb | a b x L IH | a b x L IH];
    simpl in Hr.
  - intros H. apply list_elem_of_singleton in H. congruence.
  - rewrite not_elem_of_app. split; [apply IHa | apply IHb]; tauto.
  - apply IH. tauto.
  - apply IH. tauto.
Qed.

Lemma split_at_unique (c0 : codepoint) (d d' t t' : pystr) :
  c0 ∉ d -> c0 ∉ d' -> d ++ c0 :: t = d' ++ c0 :: t' -> d = d' /\ t = t'.
Proof.
  revert d'. induction d as [|c d IH]; intros [|c' d'] Hd Hd' E; simpl in E.
  - by injection E.
  - injection E as -> _. exfalso. apply Hd'. left.
  - injection E as -> _. exfalso. apply Hd. left.
  - injection E as -> E. apply not_elem_of_cons in Hd as [_ Hd], Hd' as [_ Hd'].
    destruct (IH d' Hd Hd' E) as [-> ->]. done.
Qed.

Lemma re_lang_Y_length (y : pystr) : re_lang re_Y y -> length y = 4%nat.
Proof.
  unfold re_Y, re_digit. intros H.
  repeat match goal with
  | H : re_lang (Seq _ _) _ |- _ => inversion H; subst; clear H
  | H : re_lang (Chr _) _ |- _ => inversion H; subst; clear H
  end.
  done.
Qed.

Lemma re_lang_Y_digits (y : pystr) :
  re_lang re_Y y <-> length y = 4%nat /\ Forall (fun c => char_isdecimal c = true) y.
Proof.
  split.
  - unfold re_Y, re_digit. intros H.
    repeat match goal with
    | H : re_lang (Seq _ _) _ |- _ => inversion H; subst; clear H
    | H : re_lang (Chr _) _ |- _ => inversion H; subst; clear H
    end.
    split; [done |]. repeat constructor; done.
  - intros [Hl Hf]. destruct y as [|a [|b [|c [|d [|]]]]]; try discriminate.
    apply Forall_cons in Hf as [Ha Hf]. apply Forall_cons in Hf as [Hb Hf].
    apply Forall_cons in Hf as [Hc Hf]. apply Forall_cons in Hf as [Hd _].
    unfold re_Y, re_digit.
    apply (lang_seq _ _ [a] [b; c; d]); [by constructor |].
    apply (lang_seq _ _ [b] [c; d]); [by constructor |].
    apply (lang_seq _ _ [c] [d]); by constructor.
Qed.

Lemma format_regex_matches_iff (s d m y rest : pystr) :
  (d, m, y, rest) ∈ format_regex_matches s
  <-> s = d ++ [dot] ++ m ++ [dot] ++ y ++ rest
      /\ re_lang re_d d /\ re_lang re_m m /\ re_lang re_Y y.
Proof.
  unfold format_regex_matches. split.
  - intros H.
    apply list_elem_of_bind in H as ([d0 s1] & H & H1).
    apply list_elem_of_bind in H as ([x2 s2] & H & H2).
    apply list_elem_of_bind in H as ([m0 s3] & H & H3).
    apply list_elem_of_bind in H as ([x4 s4] & H & H4).
    apply list_elem_of_bind in H as ([y0 s5] & H & H5).
    apply list_elem_of_singleton in H. injection H as -> -> -> ->.
    apply re_match_sound in H1 as [-> L1], H2 as [-> L2], H3 as [-> L3],
      H4 as [-> L4], H5 as [-> L5].
    inversion L2 as [p c Hc| | |]; subst. apply N.eqb_eq in Hc as <-.
    inversion L4 as [p c Hc| | |]; subst. apply N.eqb_eq in Hc as <-.
    done.
  - intros (-> & Ld & Lm & Ly).
    apply list_elem_of_bind. exists (d, [dot] ++ m ++ [dot] ++ y ++ rest).
    split; [| by apply re_match_complete].
    apply list_elem_of_bind. exists ([dot], m ++ [dot] ++ y ++ rest).
    split; [| apply (re_match_complete (lit dot) [dot]); constructor; apply N.eqb_refl].
    apply list_elem_of_bind. exists (m, [dot] ++ y ++ rest).
    split; [| by apply re_match_complete].
    apply list_elem_of_bind. exists ([dot], y ++ rest).
    split; [| apply (re_match_complete (lit dot) [dot]); constructor; apply N.eqb_refl].
    apply list_elem_of_bind. exists (y, rest).
    split; [left | by apply re_match_complete].
Qed.

Lemma re_d_avoids_dot : classes_avoid dot re_d.
Proof. vm_compute. tauto. Qed.

Lemma re_m_avoids_dot : classes_avoid dot re_m.
Proof. vm_compute. tauto. Qed.

Lemma re_d_no_dot (d : pystr) : re_lang re_d d -> dot ∉ d.
Proof. apply re_lang_avoids, re_d_avoids_dot. Qed.

Lemma re_m_no_dot (m : pystr) : re_lang re_m m -> dot ∉ m.
Proof. apply re_lang_avoids, re_m_avoids_dot. Qed.

(** The pattern is unambiguous. *)
Lemma format_regex_matches_unique (s : pystr) (g g' : pystr * pystr * pystr * pystr) :
  g ∈ format_regex_matches s -> g' ∈ format_regex_matches s -> g = g'.
Proof.
  destruct g as [[[d m] y] rest], g' as [[[d' m'] y'] rest'].
  rewrite !format_regex_matches_iff.
  intros (-> & Ld & Lm & Ly) (E & Ld' & Lm' & Ly').
  apply split_at_unique in E as [-> E]; [| by apply re_d_no_dot | by apply re_d_no_dot].
  apply split_at_unique in E as [-> E]; [| by apply re_m_no_dot | by apply re_m_no_dot].
  apply re_lang_Y_length in Ly, Ly'.
  apply app_inj_1 in E as [-> ->]; [done | congruence].
Qed.

Lemma head_unique {A} (l : list A) (x : A) :
  x ∈ l -> (forall y, y ∈ l -> y = x) -> head l = Some x.
Proof.
  destruct l as [|z l]; [intros H; by apply elem_of_nil in H |].
  intros _ H. simpl. f_equal. apply H. left.
Qed.

Lemma format_regex_match_iff (s d m y rest : pystr) :
  format_regex_match s = Some (d, m, y, rest)
  <-> s = d ++ [dot] ++ m ++ [dot] ++ y ++ rest
      /\ re_lang re_d d /\ re_lang re_m m /\ re_lang re_Y y.
Proof.
  rewrite <- format_regex_matches_iff. unfold format_regex_match. split.
  - apply head_Some_elem_of.
  - intros H. apply head_unique; [done |].
    intros g Hg. by apply (format_regex_matches_unique s).
Qed.

Lemma valid_date_new (dt : date) :
  valid_date dt = true <-> date_new (year dt) (month dt) (day dt) = Ok dt.
Proof.
  unfold valid_date. destruct (date_new _ _ _) as [c|e] eqn:E.
  - apply date_new_fields in E. subst c. by destruct dt.
  - split; discriminate.
Qed.

Lemma py_int_raises (s : pystr) (e : exn) :
  py_int s = Raise e -> e = ValueError InvalidLiteral.
Proof.
  unfold py_int. destruct (skip_blanks s); [congruence |].
  destruct (int_digits _ _); congruence.
Qed.

Lemma date_new_raises (y m d : Z) (e : exn) :
  date_new y m d = Raise e -> exists w, e = ValueError w.
Proof.
  unfold date_new, check_date_fields.
  repeat (destruct (negb _); [intros [= <-]; by eexists |]). discriminate.
Qed.

Lemma strptime_raises (s : pystr) (e : exn) :
  strptime s = Raise e -> exists w, e = ValueError w.
Proof.
  unfold strptime.
  destruct (format_regex_match s) as [[[[d m] y] rest]|]; [| intros [= <-]; by eexists].
  destruct rest; [| intros [= <-]; by eexists].
  unfold mbind, result_bind.
  destruct (py_int d) eqn:Ed; [| intros [= <-]; apply py_int_raises in Ed; by eexists].
  destruct (py_int m) eqn:Em; [| intros [= <-]; apply py_int_raises in Em; by eexists].
  destruct (py_int y) eqn:Ey; [| intros [= <-]; apply py_int_raises in Ey; by eexists].
  apply date_new_raises.
Qed.

Lemma strptime_iff (s : pystr) (dt : date) : strptime s = Ok dt <-> parses_as s dt.
Proof.
  unfold parses_as. split.
  - unfold strptime.
    destruct (format_regex_match s) as [[[[d m] y] rest]|] eqn:E; [| discriminate].
    destruct rest; [| discriminate].
    apply format_regex_match_iff in E as (-> & Ld & Lm & Ly). rewrite app_nil_r.
    unfold mbind, result_bind.
    destruct (py_int d) as [vd|] eqn:Ed; [| discriminate].
    destruct (py_int m) as [vm|] eqn:Em; [| discriminate].
    destruct (py_int y) as [vy|] eqn:Ey; [| discriminate].
    intros H. pose proof (date_new_fields _ _ _ _ H) as ->. simpl.
    exists d, m, y. repeat split; try done.
    apply valid_date_new. simpl. done.
  - intros (d & m & y & -> & Ld & Lm & Ly & Hd & Hm & Hy & Hv).
    unfold strptime.
    assert (format_regex_match (d ++ [dot] ++ m ++ [dot] ++ y) = Some (d, m, y, [])) as ->.
    { apply format_regex_match_iff. by rewrite app_nil_r. }
    rewrite Hd, Hm, Hy. unfold mbind, result_bind. by apply valid_date_new.
Qed.

Lemma Birthday_ok_iff (s : pystr) :
  Birthday s = Ok (mkField s) <-> exists dt, parses_as s dt.
Proof.
  unfold Birthday. split.
  - destruct (strptime s) as [dt|e] eqn:E.
    + intros _. exists dt. by apply strptime_iff.
    + destruct e; discriminate.
  - intros [dt H]. apply strptime_iff in H. by rewrite H.
Qed.

Lemma Birthday_cases (s : pystr) :
  Birthday s = Ok (mkField s) \/ Birthday s = Raise InvalidFormat_birthday.
Proof.
  unfold Birthday. destruct (strptime s) as [dt|e] eqn:E; [by left |].
  apply strptime_raises in E as [w ->]. by right.
Qed.

(** *** Formatting and reading back *)

Lemma digit_char_decimal (k : Z) :
  0 <= k <= 9 -> decimal_value (digit_char k) = Some k /\ digit_char k <> 0x20%N.
Proof.
  intros H.
  assert (k = 0 \/ k = 1 \/ k = 2 \/ k = 3 \/ k = 4 \/ k = 5 \/ k = 6 \/ k = 7 \/ k = 8 \/ k = 9)
    as Hk by lia.
  repeat (destruct Hk as [-> | Hk]; [by vm_compute |]). subst k. by vm_compute.
Qed.

Lemma digit_char_isdecimal (k : Z) : 0 <= k <= 9 -> char_isdecimal (digit_char k) = true.
Proof.
  intros H. unfold char_isdecimal. by destruct (digit_char_decimal k H) as [-> _].
Qed.

Lemma int_digits_digit_chars (ks : list Z) (acc : Z) :
  Forall (fun k => 0 <= k <= 9) ks ->
  int_digits acc (digit_char <$> ks) = Some (fold_left (fun acc k => acc * 10 + k) ks acc).
Proof.
  intros Hks. revert acc. induction Hks as [|k ks Hk Hks IH]; intros acc; [done |].
  cbn [fmap list_fmap int_digits fold_left].
  destruct (digit_char_decimal k Hk) as [-> _]. apply IH.
Qed.

Lemma py_int_digits (ks : list Z) :
  ks <> [] -> Forall (fun k => 0 <= k <= 9) ks ->
  py_int (digit_char <$> ks) = Ok (fold_left (fun acc k => acc * 10 + k) ks 0).
Proof.
  intros Hne Hks. unfold py_int.
  pose proof (int_digits_digit_chars ks 0 Hks) as Hint.
  destruct ks as [|k ks]; [done |].
  apply Forall_cons in Hks as [Hk _].
  destruct (digit_char_decimal k Hk) as [_ Hb]. apply N.eqb_neq in Hb.
  cbn [fmap list_fmap skip_blanks] in *. rewrite Hb. by rewrite Hint.
Qed.

Lemma py_int_two_digits (n : Z) : 0 <= n <= 99 -> py_int (two_digits n) = Ok n.
Proof.
  intros H. unfold two_digits.
  change [digit_char (n / 10); digit_char (n mod 10)] with (digit_char <$> [n / 10; n mod 10]).
  rewrite py_int_digits; [| done |].
  - simpl. f_equal. Z.div_mod_to_equations. lia.
  - repeat constructor; Z.div_mod_to_equations; lia.
Qed.

Lemma year_digits_four (y : Z) :
  1000 <= y <= 9999 ->
  year_digits y = digit_char <$> [y / 100 / 10; (y / 100) mod 10; (y mod 100) / 10; (y mod 100) mod 10].
Proof.
  intros H. unfold year_digits.
  repeat (destruct (_ <? _) eqn:E; [apply Z.ltb_lt in E; lia | clear E]).
  done.
Qed.

Lemma year_digits_bounds (y : Z) :
  1000 <= y <= 9999 ->
  Forall (fun k => 0 <= k <= 9) [y / 100 / 10; (y / 100) mod 10; (y mod 100) / 10; (y mod 100) mod 10].
Proof. intros H. repeat constructor; Z.div_mod_to_equations; lia. Qed.

Lemma py_int_year_digits (y : Z) : 1000 <= y <= 9999 -> py_int (year_digits y) = Ok y.
Proof.
  intros H. rewrite year_digits_four by done.
  rewrite py_int_digits; [| done | by apply year_digits_bounds].
  simpl. f_equal. Z.div_mod_to_equations. lia.
Qed.

Lemma re_lang_year_digits (y : Z) : 1000 <= y <= 9999 -> re_lang re_Y (year_digits y).
Proof.
  intros H. apply re_lang_Y_digits. rewrite year_digits_four by done.
  split; [done |]. apply Forall_fmap.
  eapply Forall_impl; [by apply year_digits_bounds |].
  intros k Hk. simpl. by apply digit_char_isdecimal.
Qed.

Lemma matches_fully_lang (r : regex) (s : pystr) :
  matches_fully r s = true -> re_lang r s.
Proof.
  unfold matches_fully. intros H. apply existsb_exists in H as ([x rest] & Hin & Hrest).
  apply bool_decide_eq_true in Hrest. simpl in Hrest. subst rest.
  apply list_elem_of_In in Hin. apply re_match_sound in Hin as [-> L].
  by rewrite app_nil_r.
Qed.

Lemma re_lang_day (n : Z) : 1 <= n <= 31 -> re_lang re_d (two_digits n).
Proof.
  intros H. apply matches_fully_lang.
  apply (all_from_spec (fun n => matches_fully re_d (two_digits n)) 1 31); [| lia].
  vm_compute. reflexivity.
Qed.

Lemma re_lang_month (n : Z) : 1 <= n <= 12 -> re_lang re_m (two_digits n).
Proof.
  intros H. apply matches_fully_lang.
  apply (all_from_spec (fun n => matches_fully re_m (two_digits n)) 1 12); [| lia].
  vm_compute. reflexivity.
Qed.

Lemma valid_date_bounds (dt : date) :
  valid_date dt = true ->
  1 <= year dt <= 9999 /\ 1 <= month dt <= 12 /\ 1 <= day dt <= days_in_month (year dt) (month dt)
  /\ day dt <= 31.
Proof.
  unfold valid_date, date_new, check_date_fields, MINYEAR, MAXYEAR.
  destruct ((1 <=? year dt) && (year dt <=? 9999)) eqn:E1; [| done].
  destruct ((1 <=? month dt) && (month dt <=? 12)) eqn:E2; [| done].
  destruct ((1 <=? day dt) && (day dt <=? days_in_month (year dt) (month dt))) eqn:E3; [| done].
  intros _. apply andb_true_iff in E1 as [? ?], E2 as [? ?], E3 as [? ?].
  assert (days_in_month (year dt) (month dt) <= 31).
  { unfold days_in_month. destruct (_ && _); [lia |].
    assert (Hm : 1 <= month dt <= 12) by lia. revert Hm. generalize (month dt). intros m Hm.
    assert (m = 1 \/ m = 2 \/ m = 3 \/ m = 4 \/ m = 5 \/ m = 6 \/ m = 7 \/ m = 8 \/ m = 9
            \/ m = 10 \/ m = 11 \/ m = 12) as Hc by lia.
    repeat (destruct Hc as [-> | Hc]; [by vm_compute |]). subst m. by vm_compute. }
  lia.
Qed.

Lemma strftime_parses (dt : date) :
  valid_date dt = true -> 1000 <= year dt -> parses_as (strftime dt) dt.
Proof.
  intros Hv Hy. pose proof (valid_date_bounds dt Hv) as (Hy' & Hm & Hd & Hd').
  exists (two_digits (day dt)), (two_digits (month dt)), (year_digits (year dt)).
  split; [done |].
  split; [apply re_lang_day; lia |].
  split; [apply re_lang_month; lia |].
  split; [apply re_lang_year_digits; lia |].
  split; [apply py_int_two_digits; lia |].
  split; [apply py_int_two_digits; lia |].
  split; [apply py_int_year_digits; lia | done].
Qed.

(** What the pattern admits besides two digits, a dot, two digits, a dot
    and four digits: a day or month of one digit, a blank before a day of
    one digit, and decimal digits of other scripts where [\d] stands (here
    ARABIC-INDIC DIGIT ZERO in the day 10). Text after the year, a second
    blank and a day 00 are refused. *)
Example strptime_samples :
  strptime (pystr_of "1.2.2024") = Ok (mkdate 2024 2 1)
  /\ strptime (pystr_of " 1.2.2024") = Ok (mkdate 2024 2 1)
  /\ strptime [0x31; 0x660; 46; 48; 54; 46; 50; 48; 50; 52]%N = Ok (mkdate 2024 6 10)
  /\ strptime (pystr_of "31.12.9999") = Ok (mkdate 9999 12 31)
  /\ strptime (pystr_of "1.2.2024 ") = Raise (ValueError UnconvertedData)
  /\ strptime (pystr_of "  1.2.2024") = Raise (ValueError TimeDataMismatch)
  /\ strptime (pystr_of "00.01.2024") = Raise (ValueError TimeDataMismatch)
  /\ strptime (pystr_of "01.01.0000") = Raise (ValueError YearOutOfRange)
  /\ strptime (pystr_of "30.02.2024") = Raise (ValueError DayOutOfRange)
  /\ strptime (pystr_of "29.02.2023") = Raise (ValueError DayOutOfRange)
  /\ strptime (pystr_of "29.02.2024") = Ok (mkdate 2024 2 29).
Proof. vm_compute. repeat split. Qed.

(** C2, counterexample: the string of ten SUPERSCRIPT TWO (U+00B2) has
    ten characters, none of them a decimal digit, and Phone accepts it:
    [str.isdigit] holds of every character with the Unicode property
    Numeric_Type=Digit. *)
Lemma Phone_accepts_superscripts :
  Phone superscript_twos = Ok (mkField superscript_twos)
  /\ length superscript_twos = 10%nat
  /\ forallb char_isdecimal superscript_twos = false
  /\ forallb ascii_digit superscript_twos = false.
Proof. vm_compute. done. Qed.

(** C2, amended: Phone(s) either stores [s] unchanged or raises the
    ValueError 'The number must consist of numbers only and 10 digits!';
    it succeeds exactly when [s] has ten characters that are all digits in
    the sense of [str.isdigit]. In particular every string of ten decimal
    digits, such as '0'..'9', is accepted and read back as it is. *)
Theorem Phone_construction (s : pystr) :
  (Phone s = Ok (mkField s) \/ Phone s = Raise InvalidFormat_phone)
  /\ (Phone s = Ok (mkField s)
      <-> length s = 10%nat /\ forallb char_isdigit s = true)
  /\ (length s = 10%nat -> forallb char_isdecimal s = true ->
      exists p, Phone s = Ok p /\ value p = s)
  /\ (forall c, ascii_digit c = true -> char_isdecimal c = true).
Proof.
  split; [apply Phone_cases |]. split; [apply Phone_ok_iff |]. split.
  - intros Hl Hd. exists (mkField s). split; [| done].
    apply Phone_ok_iff. split; [done | by apply forallb_isdecimal_isdigit].
  - apply ascii_digit_isdecimal.
Qed.

Lemma Phone_construction_witness :
  exists p, Phone (pystr_of "1234567890") = Ok p /\ value p = pystr_of "1234567890".
Proof.
  apply (proj1 (proj2 (proj2 (Phone_construction (pystr_of "1234567890"))))); reflexivity.
Defined.

(* ===================================================================== *)
(** ** Facts: the store and [copy.deepcopy]                               *)
(* ===================================================================== *)

Section store_facts.
Import Store.
#[local] Open Scope nat_scope.

(** *** What [copy.deepcopy] builds is new *)

Lemma fresh_obj_dict_set (n0 : nat) (k : pystr) (v : val) (d : pydict val) :
  fresh_val n0 v -> Forall (fresh_val n0) (dict_values d) ->
  Forall (fresh_val n0) (dict_values (dict_set k v d)).
Proof.
  unfold dict_values. rewrite !Forall_fmap. intros Hv Hd.
  by apply (dict_set_Forall (fun kv => fresh_val n0 (snd kv))).
Qed.

Lemma fresh_dict_get (n0 : nat) (k : pystr) (v : val) (d : pydict val) :
  Forall (fresh_val n0) (dict_values d) -> dict_get k d = Some v -> fresh_val n0 v.
Proof.
  unfold dict_values. rewrite Forall_fmap, Forall_forall. intros Hd Hg.
  apply (Hd (k, v)). by apply dict_get_Some_elem.
Qed.

Lemma apart_refl (h : heap) : apart (length h) h h.
Proof.
  split; [done |]. split; [done |].
  intros l o Hl Ho. apply lookup_lt_Some in Ho. lia.
Qed.

Lemma apart_alloc (n0 : nat) (h0 h : heap) (o : obj) :
  apart n0 h0 h -> fresh_obj n0 o -> apart n0 h0 (h ++ [o]).
Proof.
  intros (Hlen & Hag & Hsep) Ho. split; [rewrite length_app; lia |]. split.
  - intros l Hl. rewrite lookup_app_l by lia. by apply Hag.
  - intros l o' Hl Hlook. apply lookup_app_Some in Hlook as [Hlook | [_ Hlook]].
    + by apply (Hsep l).
    + apply list_lookup_singleton_Some in Hlook as [_ <-]. done.
Qed.

Lemma apart_update (n0 : nat) (h0 h : heap) (y : nat) (o : obj) :
  apart n0 h0 h -> n0 <= y -> fresh_obj n0 o -> apart n0 h0 (<[y := o]> h).
Proof.
  intros (Hlen & Hag & Hsep) Hy Ho. split; [rewrite length_insert; lia |]. split.
  - intros l Hl. rewrite list_lookup_insert_ne by lia. by apply Hag.
  - intros l o' Hl Hlook. destruct (decide (y = l)) as [-> | Hne].
    + apply list_lookup_insert_Some in Hlook as [(_ & <- & _) | [? _]]; done.
    + rewrite list_lookup_insert_ne in Hlook by done. by apply (Hsep l).
Qed.

Lemma apart_slots (n0 : nat) (h0 h : heap) (l : nat) (o : obj) :
  apart n0 h0 h -> n0 <= l -> h !! l = Some o -> Forall (fresh_val n0) (slots o).
Proof. intros (_ & _ & Hsep) Hl Ho. by apply (Hsep l). Qed.

Lemma copy_items_ok n0 h0 dc y items st st' :
  copier_ok n0 h0 dc -> n0 <= y -> copying n0 h0 st ->
  copy_items dc y items st = Some st' -> copying n0 h0 st'.
Proof.
  intros Hdc Hy. revert st. induction items as [|a items IH]; intros st Hst; simpl.
  - by intros [= <-].
  - destruct (dc a st) as [[a' [h m]]|] eqn:E; simpl; [| discriminate].
    destruct (Hdc _ _ _ _ Hst E) as [[Hap Hm] Ha'].
    destruct (h !! y) as [[| ys |]|] eqn:Ey; try discriminate.
    apply IH. split; [| done]. simpl in *.
    apply apart_update; [done | done |].
    unfold fresh_obj. simpl. apply Forall_app. split; [| by constructor].
    by apply (apart_slots n0 h0 h y (OList ys)).
Qed.

Lemma copy_dict_items_ok n0 h0 dc y items st st' :
  copier_ok n0 h0 dc -> n0 <= y -> copying n0 h0 st ->
  copy_dict_items dc y items st = Some st' -> copying n0 h0 st'.
Proof.
  intros Hdc Hy. revert st. induction items as [|[k a] items IH]; intros st Hst; simpl.
  - by intros [= <-].
  - destruct (dc a st) as [[a' [h m]]|] eqn:E; simpl; [| discriminate].
    destruct (Hdc _ _ _ _ Hst E) as [[Hap Hm] Ha'].
    destruct (h !! y) as [[| | ys]|] eqn:Ey; try discriminate.
    apply IH. split; [| done]. simpl in *.
    apply apart_update; [done | done |].
    unfold fresh_obj. simpl. apply fresh_obj_dict_set; [done |].
    by apply (apart_slots n0 h0 h y (ODict ys)).
Qed.

Lemma copy_attrs_ok n0 h0 dc y items st st' :
  copier_ok n0 h0 dc -> n0 <= y -> copying n0 h0 st ->
  copy_attrs dc y items st = Some st' -> copying n0 h0 st'.
Proof.
  intros Hdc Hy. revert st. induction items as [|[k a] items IH]; intros st Hst; simpl.
  - by intros [= <-].
  - destruct (dc a st) as [[a' [h m]]|] eqn:E; simpl; [| discriminate].
    destruct (Hdc _ _ _ _ Hst E) as [[Hap Hm] Ha'].
    destruct (h !! y) as [[c ys | |]|] eqn:Ey; try discriminate.
    apply IH. split; [| done]. simpl in *.
    apply apart_update; [done | done |].
    unfold fresh_obj. simpl. apply fresh_obj_dict_set; [done |].
    by apply (apart_slots n0 h0 h y (OInst c ys)).
Qed.

Lemma copying_start n0 h0 h m l (o : obj) :
  copying n0 h0 (h, m) -> fresh_obj n0 o ->
  copying n0 h0 (h ++ [o], <[l := length h]> m) /\ n0 <= length h.
Proof.
  intros [Hap Hm] Ho. simpl in *. split; [| apply Hap].
  split; simpl; [by apply apart_alloc |].
  intros x y Hxy. apply lookup_insert_Some in Hxy as [[_ <-] | [_ Hxy]]; [apply Hap | eauto].
Qed.

Lemma deepcopy_ok n0 h0 fuel : copier_ok n0 h0 (deepcopy fuel).
Proof.
  induction fuel as [|fuel IH]; intros a st a' st' Hst; simpl; [discriminate |].
  destruct a as [| s | l]; [by intros [= <- <-] | by intros [= <- <-] |].
  destruct st as [h m]. destruct (m !! l) as [y|] eqn:Em.
  { intros [= <- <-]. split; [done |]. destruct Hst as [_ Hm]. simpl in *. eauto. }
  destruct (h !! l) as [[c attrs | items | items]|] eqn:El; [| | | discriminate].
  - destruct (copying_start n0 h0 h m l (OInst c []) Hst) as [Hst1 Hy]; [constructor |].
    destruct (copy_attrs _ _ _ _) as [st1|] eqn:E; simpl; [| discriminate].
    intros [= <- <-]. split; [| done]. by eapply copy_attrs_ok.
  - destruct (copying_start n0 h0 h m l (OList []) Hst) as [Hst1 Hy]; [constructor |].
    destruct (copy_items _ _ _ _) as [st1|] eqn:E; simpl; [| discriminate].
    intros [= <- <-]. split; [| done]. by eapply copy_items_ok.
  - destruct (copying_start n0 h0 h m l (ODict []) Hst) as [Hst1 Hy]; [constructor |].
    destruct (copy_dict_items _ _ _ _) as [st1|] eqn:E; simpl; [| discriminate].
    intros [= <- <-]. split; [| done]. by eapply copy_dict_items_ok.
Qed.

Lemma deepcopy_top_apart fuel x h y h' :
  deepcopy_top fuel x h = Some (y, h') ->
  apart (length h) h h' /\ fresh_val (length h) y.
Proof.
  unfold deepcopy_top. destruct (deepcopy fuel x (h, ∅)) as [[y0 [h0 m0]]|] eqn:E; [| discriminate].
  simpl. intros [= <- <-].
  assert (Hst : copying (length h) h (h, ∅)).
  { split; [apply apart_refl |]. simpl. intros x0 y0' H. by rewrite lookup_empty in H. }
  destruct (deepcopy_ok (length h) h fuel _ _ _ _ Hst E) as [[Hap _] Hy]. done.
Qed.

(** *** The methods keep to the objects they are given *)

Section frame.
Context (n0 : nat) (h0 : heap).

Lemma keeps_bind {A B} (m : H A) (k : A -> H B) (mid : A -> Prop) (post : B -> Prop) :
  keeps_apart n0 h0 m mid ->
  (forall a, mid a -> keeps_apart n0 h0 (k a) post) ->
  keeps_apart n0 h0 (m ≫= k) post.
Proof.
  intros Hm Hk h out h' Hh. unfold mbind, H_bind, bind.
  destruct (m h) as [[a|e] h1] eqn:E.
  - destruct (Hm _ _ _ Hh E) as [Hh1 Ha]. intros Hrun.
    apply (Hk a (Ha a eq_refl) h1 out h' Hh1 Hrun).
  - destruct (Hm _ _ _ Hh E) as [Hh1 _]. intros [= <- <-]. split; [done |].
    intros b Hb. discriminate.
Qed.

Lemma keeps_weaken {A} (m : H A) (post post' : A -> Prop) :
  keeps_apart n0 h0 m post -> (forall a, post a -> post' a) ->
  keeps_apart n0 h0 m post'.
Proof.
  intros Hm Hw h out h' Hh E. destruct (Hm _ _ _ Hh E) as [? Hp]. split; [done |].
  intros a Ha. apply Hw, Hp, Ha.
Qed.

Lemma keeps_ret {A} (a : A) (post : A -> Prop) :
  post a -> keeps_apart n0 h0 (mret a) post.
Proof.
  intros Ha h out h' Hh. unfold mret, H_ret, ret. intros [= <- <-]. split; [done |].
  by intros a' [= <-].
Qed.

Lemma keeps_raise {A} (e : exn) (post : A -> Prop) :
  keeps_apart n0 h0 (raise e) post.
Proof.
  intros h out h' Hh. unfold raise. intros [= <- <-]. split; [done |]. discriminate.
Qed.

Lemma keeps_lift {A} (r : result A) :
  keeps_apart n0 h0 (lift r) (fun _ => True).
Proof. intros h out h' Hh. unfold lift. intros [= <- <-]. done. Qed.

Lemma keeps_alloc (o : obj) :
  fresh_obj n0 o -> keeps_apart n0 h0 (alloc o) (fresh_val n0).
Proof.
  intros Ho h out h' Hh. unfold alloc. intros [= <- <-].
  split; [by apply apart_alloc |]. intros a [= <-]. simpl. apply Hh.
Qed.

Lemma keeps_getattr (self : val) (attr : pystr) :
  fresh_val n0 self -> keeps_apart n0 h0 (getattr self attr) (fresh_val n0).
Proof.
  intros Hs h out h' Hh. unfold getattr.
  destruct self as [| |l]; try (intros [= <- <-]; split; [done | discriminate]).
  destruct (h !! l) as [[c attrs| |]|] eqn:El;
    try (intros [= <- <-]; split; [done | discriminate]).
  destruct (dict_get attr attrs) as [v|] eqn:Eg;
    intros [= <- <-]; (split; [done |]); [| discriminate].
  intros a [= <-]. eapply fresh_dict_get; [| exact Eg].
  by apply (apart_slots n0 h0 h l (OInst c attrs)).
Qed.

Lemma keeps_setattr (self : val) (attr : pystr) (v : val) :
  fresh_val n0 self -> fresh_val n0 v ->
  keeps_apart n0 h0 (setattr self attr v) (fun _ => True).
Proof.
  intros Hs Hv h out h' Hh. unfold setattr.
  destruct self as [| |l]; try (intros [= <- <-]; split; [done | discriminate]).
  destruct (h !! l) as [[c attrs| |]|] eqn:El;
    try (intros [= <- <-]; split; [done | discriminate]).
  intros [= <- <-]. split; [| done].
  apply apart_update; [done | done |].
  apply fresh_obj_dict_set; [done |].
  by apply (apart_slots n0 h0 h l (OInst c attrs)).
Qed.

Lemma keeps_list_items (lst : val) :
  fresh_val n0 lst -> keeps_apart n0 h0 (list_items lst) (Forall (fresh_val n0)).
Proof.
  intros Hs h out h' Hh. unfold list_items.
  destruct lst as [| |l]; try (intros [= <- <-]; split; [done | discriminate]).
  destruct (h !! l) as [[| items |]|] eqn:El;
    try (intros [= <- <-]; split; [done | discriminate]).
  intros [= <- <-]. split; [done |]. intros a [= <-].
  by apply (apart_slots n0 h0 h l (OList items)).
Qed.

Lemma keeps_list_store (lst : val) (items : list val) :
  fresh_val n0 lst -> Forall (fresh_val n0) items ->
  keeps_apart n0 h0 (list_store lst items) (fun _ => True).
Proof.
  intros Hs Hi h out h' Hh. unfold list_store.
  destruct lst as [| |l]; try (intros [= <- <-]; split; [done | discriminate]).
  destruct (h !! l) as [[| items0 |]|] eqn:El;
    try (intros [= <- <-]; split; [done | discriminate]).
  intros [= <- <-]. split; [| done]. by apply apart_update.
Qed.

Lemma keeps_list_append (lst v : val) :
  fresh_val n0 lst -> fresh_val n0 v ->
  keeps_apart n0 h0 (list_append lst v) (fun _ => True).
Proof.
  intros Hl Hv. unfold list_append.
  eapply keeps_bind; [by apply keeps_list_items |].
  intros items Hitems. apply keeps_list_store; [done |].
  apply Forall_app. split; [done | by constructor].
Qed.

Lemma remove_first_Forall (P : val -> Prop) (x : val) (items items' : list val) :
  Forall P items -> remove_first x items = Some items' -> Forall P items'.
Proof.
  intros Hi. revert items'. induction Hi as [|a items Ha Hi IH]; intros items'; simpl.
  - discriminate.
  - destruct (decide (a = x)); [by intros [= <-] |].
    destruct (remove_first x items) as [r|]; simpl; [| discriminate].
    intros [= <-]. constructor; [done | by apply IH].
Qed.

Lemma keeps_list_remove (lst x : val) :
  fresh_val n0 lst -> keeps_apart n0 h0 (list_remove lst x) (fun _ => True).
Proof.
  intros Hl. unfold list_remove.
  eapply keeps_bind; [by apply keeps_list_items |].
  intros items Hitems. destruct (remove_first x items) as [items'|] eqn:E.
  - apply keeps_list_store; [done |]. by eapply remove_first_Forall.
  - apply keeps_raise.
Qed.

Lemma keeps_Phone_new (value : pystr) :
  keeps_apart n0 h0 (Phone_new value) (fresh_val n0).
Proof.
  unfold Phone_new. eapply keeps_bind; [apply keeps_lift |].
  intros _ _. apply keeps_alloc. by repeat constructor.
Qed.

Lemma keeps_Birthday_new (value : pystr) :
  keeps_apart n0 h0 (Birthday_new value) (fresh_val n0).
Proof.
  unfold Birthday_new. eapply keeps_bind; [apply keeps_lift |].
  intros _ _. apply keeps_alloc. by repeat constructor.
Qed.

Lemma keeps_add_birthday (self : val) (birthday : pystr) :
  fresh_val n0 self -> keeps_apart n0 h0 (add_birthday self birthday) (fun _ => True).
Proof.
  intros Hs. unfold add_birthday.
  eapply keeps_bind; [apply keeps_Birthday_new |].
  intros b Hb. by apply keeps_setattr.
Qed.

Lemma keeps_add_phone (self : val) (phone : pystr) :
  fresh_val n0 self -> keeps_apart n0 h0 (add_phone self phone) (fun _ => True).
Proof.
  intros Hs. unfold add_phone.
  eapply keeps_bind; [by apply keeps_getattr |].
  intros lst Hlst. eapply keeps_bind; [apply keeps_Phone_new |].
  intros p Hp. by apply keeps_list_append.
Qed.

Lemma keeps_filter_phones (phone_value : pystr) (items : list val) :
  Forall (fresh_val n0) items ->
  keeps_apart n0 h0 (filter_phones phone_value items) (Forall (fresh_val n0)).
Proof.
  induction 1 as [|phone items Hp Hi IH]; simpl.
  - by apply keeps_ret.
  - eapply keeps_bind; [by apply keeps_getattr |].
    intros v _. eapply keeps_bind; [apply IH |].
    intros rest Hrest. apply keeps_ret. destruct (decide _); [by constructor | done].
Qed.

Lemma keeps_find_phone (self : val) (phone_value : pystr) :
  fresh_val n0 self -> keeps_apart n0 h0 (find_phone self phone_value) (fresh_val n0).
Proof.
  intros Hs. unfold find_phone.
  eapply keeps_bind; [by apply keeps_getattr |].
  intros lst Hlst. eapply keeps_bind; [by apply keeps_list_items |].
  intros items Hitems. eapply keeps_bind; [by apply keeps_filter_phones |].
  intros result Hres. apply keeps_ret.
  destruct Hres; [done | done].
Qed.

Lemma keeps_remove_phone (self : val) (phone_value : pystr) :
  fresh_val n0 self -> keeps_apart n0 h0 (remove_phone self phone_value) (fun _ => True).
Proof.
  intros Hs. unfold remove_phone.
  eapply keeps_bind; [by apply keeps_find_phone |].
  intros p Hp.
  assert (Hrm : keeps_apart n0 h0
            (lst ← getattr self attr_phones; list_remove lst p) (fun _ => True)).
  { eapply keeps_bind; [by apply keeps_getattr |].
    intros lst Hlst. by apply keeps_list_remove. }
  destruct p; [by apply keeps_ret | exact Hrm | exact Hrm].
Qed.

Lemma keeps_edit_phone (self : val) (old_phone_val new_phone_val : pystr) :
  fresh_val n0 self ->
  keeps_apart n0 h0 (edit_phone self old_phone_val new_phone_val) (fun _ => True).
Proof.
  intros Hs. unfold edit_phone.
  eapply keeps_bind; [by apply keeps_find_phone |].
  intros p Hp.
  assert (Hed : keeps_apart n0 h0
            (_ ← add_phone self new_phone_val; remove_phone self old_phone_val)
            (fun _ => True)).
  { eapply keeps_bind; [by apply keeps_add_phone |].
    intros _ _. by apply keeps_remove_phone. }
  destruct p; [apply keeps_raise | exact Hed | exact Hed].
Qed.

Lemma keeps_run_mutation (self : val) (mu : mutation) :
  fresh_val n0 self -> keeps_apart n0 h0 (run_mutation self mu) (fun _ => True).
Proof.
  intros Hs. destruct mu; simpl.
  - by apply keeps_add_phone.
  - by apply keeps_remove_phone.
  - by apply keeps_edit_phone.
  - by apply keeps_add_birthday.
Qed.

Lemma keeps_find (self : val) (name : pystr) :
  fresh_val n0 self -> keeps_apart n0 h0 (find self name) (fresh_val n0).
Proof.
  intros Hs h out h' Hh. unfold find.
  destruct (getattr self attr_data h) as [[d|e] h1] eqn:Eg.
  - destruct (keeps_getattr self attr_data Hs h _ _ Hh Eg) as [_ Hd].
    specialize (Hd d eq_refl).
    destruct d as [| |d]; try (intros [= <- <-]; split; [done | discriminate]).
    destruct (h !! d) as [[| | items]|] eqn:El;
      try (intros [= <- <-]; split; [done | discriminate]).
    intros [= <- <-]. split; [done |]. intros a [= <-].
    destruct (dict_get name items) as [v|] eqn:Ev; [| done].
    eapply fresh_dict_get; [| exact Ev].
    by apply (apart_slots n0 h0 h d (ODict items)).
  - intros [= <- <-]. split; [done | discriminate].
Qed.
End frame.

(** *** Copying keeps the kind of every object *)

Lemma same_kind_refl (o : obj) : same_kind o o.
Proof. by destruct o. Qed.

Lemma same_kind_trans (o1 o2 o3 : obj) : same_kind o1 o2 -> same_kind o2 o3 -> same_kind o1 o3.
Proof. destruct o1, o2, o3; simpl; try done. congruence. Qed.

Lemma grows_refl (h : heap) : grows h h.
Proof. intros l o H. exists o. split; [done | apply same_kind_refl]. Qed.

Lemma grows_trans (h1 h2 h3 : heap) : grows h1 h2 -> grows h2 h3 -> grows h1 h3.
Proof.
  intros H12 H23 l o H. destruct (H12 l o H) as (o2 & H2 & K2).
  destruct (H23 l o2 H2) as (o3 & H3 & K3). exists o3. split; [done |].
  by eapply same_kind_trans.
Qed.

Lemma grows_alloc (h : heap) (o : obj) : grows h (h ++ [o]).
Proof.
  intros l o' H. exists o'. split; [| apply same_kind_refl].
  rewrite lookup_app_l; [done |]. by eapply lookup_lt_Some.
Qed.

Lemma grows_update (h : heap) (y : nat) (o o' : obj) :
  h !! y = Some o -> same_kind o o' -> grows h (<[y := o']> h).
Proof.
  intros Hy K l o0 H. destruct (decide (y = l)) as [-> | Hne].
  - exists o'. split; [| congruence].
    apply list_lookup_insert_eq. by eapply lookup_lt_Some.
  - exists o0. split; [| apply same_kind_refl]. by rewrite list_lookup_insert_ne.
Qed.

Lemma copy_items_grows dc y items st st' :
  copier_grows dc -> copy_items dc y items st = Some st' -> grows (fst st) (fst st').
Proof.
  intros Hdc. revert st. induction items as [|a items IH]; intros st; simpl.
  - intros [= <-]. apply grows_refl.
  - destruct (dc a st) as [[a' [h m]]|] eqn:E; simpl; [| discriminate].
    apply Hdc in E. simpl in E.
    destruct (h !! y) as [[| ys |]|] eqn:Ey; try discriminate.
    intros H. apply IH in H. simpl in H.
    eapply grows_trans; [exact E |]. eapply grows_trans; [| exact H].
    by eapply grows_update.
Qed.

Lemma copy_dict_items_grows dc y items st st' :
  copier_grows dc -> copy_dict_items dc y items st = Some st' -> grows (fst st) (fst st').
Proof.
  intros Hdc. revert st. induction items as [|[k a] items IH]; intros st; simpl.
  - intros [= <-]. apply grows_refl.
  - destruct (dc a st) as [[a' [h m]]|] eqn:E; simpl; [| discriminate].
    apply Hdc in E. simpl in E.
    destruct (h !! y) as [[| | ys]|] eqn:Ey; try discriminate.
    intros H. apply IH in H. simpl in H.
    eapply grows_trans; [exact E |]. eapply grows_trans; [| exact H].
    by eapply grows_update.
Qed.

Lemma copy_attrs_grows dc y items st st' :
  copier_grows dc -> copy_attrs dc y items st = Some st' -> grows (fst st) (fst st').
Proof.
  intros Hdc. revert st. induction items as [|[k a] items IH]; intros st; simpl.
  - intros [= <-]. apply grows_refl.
  - destruct (dc a st) as [[a' [h m]]|] eqn:E; simpl; [| discriminate].
    apply Hdc in E. simpl in E.
    destruct (h !! y) as [[c ys | |]|] eqn:Ey; try discriminate.
    intros H. apply IH in H. simpl in H.
    eapply grows_trans; [exact E |]. eapply grows_trans; [| exact H].
    by eapply grows_update.
Qed.

Lemma deepcopy_grows fuel : copier_grows (deepcopy fuel).
Proof.
  induction fuel as [|fuel IH]; intros a st a' st'; simpl; [discriminate |].
  destruct a as [| s | l]; [intros [= <- <-]; apply grows_refl
                           | intros [= <- <-]; apply grows_refl |].
  destruct st as [h m]. destruct (m !! l) as [y|] eqn:Em.
  { intros [= <- <-]. apply grows_refl. }
  destruct (h !! l) as [[c attrs | items | items]|] eqn:El; [| | | discriminate].
  - destruct (copy_attrs _ _ _ _) as [st1|] eqn:E; simpl; [| discriminate].
    intros [= <- <-]. apply copy_attrs_grows in E; [| done].
    eapply grows_trans; [apply grows_alloc | exact E].
  - destruct (copy_items _ _ _ _) as [st1|] eqn:E; simpl; [| discriminate].
    intros [= <- <-]. apply copy_items_grows in E; [| done].
    eapply grows_trans; [apply grows_alloc | exact E].
  - destruct (copy_dict_items _ _ _ _) as [st1|] eqn:E; simpl; [| discriminate].
    intros [= <- <-]. apply copy_dict_items_grows in E; [| done].
    eapply grows_trans; [apply grows_alloc | exact E].
Qed.

(** *** Enough fuel *)
Lemma copy_items_total n0 h0 P dc y items st ys :
  copier_ok n0 h0 dc -> copier_grows dc -> copier_total n0 h0 P dc ->
  Forall P items -> n0 <= y -> copying n0 h0 st -> fst st !! y = Some (OList ys) ->
  is_Some (copy_items dc y items st).
Proof.
  intros Hok Hgr Htot Hitems Hy. revert st ys.
  induction Hitems as [|a items Ha Hitems IH]; intros st ys Hst Hys; simpl; [done |].
  destruct (Htot a st Ha Hst) as [[a' [h m]] E]. rewrite E. simpl.
  destruct (Hok _ _ _ _ Hst E) as [[Hap Hm] Ha'].
  destruct (Hgr _ _ _ _ E _ _ Hys) as (o' & Ho' & K). simpl in *.
  destruct o' as [| ys' |]; try done. rewrite Ho'.
  apply (IH _ (ys' ++ [a'])).
  - split; [| done]. simpl. apply apart_update; [done | done |].
    unfold fresh_obj. simpl. apply Forall_app. split; [| by constructor].
    by apply (apart_slots n0 h0 h y (OList ys')).
  - simpl. apply list_lookup_insert_eq. by eapply lookup_lt_Some.
Qed.

Lemma copy_dict_items_total n0 h0 P dc y items st ys :
  copier_ok n0 h0 dc -> copier_grows dc -> copier_total n0 h0 P dc ->
  Forall P (dict_values items) -> n0 <= y -> copying n0 h0 st ->
  fst st !! y = Some (ODict ys) ->
  is_Some (copy_dict_items dc y items st).
Proof.
  intros Hok Hgr Htot Hitems Hy. revert st ys.
  induction items as [|[k a] items IH]; intros st ys Hst Hys; simpl; [done |].
  apply Forall_cons in Hitems as [Ha Hitems]. simpl in Ha.
  destruct (Htot a st Ha Hst) as [[a' [h m]] E]. rewrite E. simpl.
  destruct (Hok _ _ _ _ Hst E) as [[Hap Hm] Ha'].
  destruct (Hgr _ _ _ _ E _ _ Hys) as (o' & Ho' & K). simpl in *.
  destruct o' as [| | ys']; try done. rewrite Ho'.
  apply (IH Hitems _ (dict_set k a' ys')).
  - split; [| done]. simpl. apply apart_update; [done | done |].
    unfold fresh_obj. simpl. apply fresh_obj_dict_set; [done |].
    by apply (apart_slots n0 h0 h y (ODict ys')).
  - simpl. apply list_lookup_insert_eq. by eapply lookup_lt_Some.
Qed.

Lemma copy_attrs_total n0 h0 P dc y items st c ys :
  copier_ok n0 h0 dc -> copier_grows dc -> copier_total n0 h0 P dc ->
  Forall P (dict_values items) -> n0 <= y -> copying n0 h0 st ->
  fst st !! y = Some (OInst c ys) ->
  is_Some (copy_attrs dc y items st).
Proof.
  intros Hok Hgr Htot Hitems Hy. revert st ys.
  induction items as [|[k a] items IH]; intros st ys Hst Hys; simpl; [done |].
  apply Forall_cons in Hitems as [Ha Hitems]. simpl in Ha.
  destruct (Htot a st Ha Hst) as [[a' [h m]] E]. rewrite E. simpl.
  destruct (Hok _ _ _ _ Hst E) as [[Hap Hm] Ha'].
  destruct (Hgr _ _ _ _ E _ _ Hys) as (o' & Ho' & K). simpl in *.
  destruct o' as [c' ys' | |]; try done. subst c'. rewrite Ho'.
  apply (IH Hitems _ (dict_set k a' ys')).
  - split; [| done]. simpl. apply apart_update; [done | done |].
    unfold fresh_obj. simpl. apply fresh_obj_dict_set; [done |].
    by apply (apart_slots n0 h0 h y (OInst c ys')).
  - simpl. apply list_lookup_insert_eq. by eapply lookup_lt_Some.
Qed.

Lemma deepcopy_unfold (fuel : nat) (l : nat) (h : heap) (m : gmap nat nat) :
  deepcopy (S fuel) (VRef l) (h, m) =
  match m !! l with
  | Some y => Some (VRef y, (h, m))
  | None =>
      match h !! l with
      | None => None
      | Some (OList items) =>
          st' ← copy_items (deepcopy fuel) (length h) items
                  (h ++ [OList []], <[l := length h]> m);
          Some (VRef (length h), st')
      | Some (ODict items) =>
          st' ← copy_dict_items (deepcopy fuel) (length h) items
                  (h ++ [ODict []], <[l := length h]> m);
          Some (VRef (length h), st')
      | Some (OInst c attrs) =>
          st' ← copy_attrs (deepcopy fuel) (length h) attrs
                  (h ++ [OInst c []], <[l := length h]> m);
          Some (VRef (length h), st')
      end
  end.
Proof. reflexivity. Qed.

Lemma deepcopy_total (h0 : heap) (n : nat) :
  copier_total (length h0) h0 (closed n h0) (deepcopy (S n)).
Proof.
  induction n as [|n IH]; intros a st Ha Hst.
  - destruct a; simpl in *; done.
  - destruct a as [| s | l]; [done | done |]. destruct Ha as (o & Ho & Hslots).
    destruct st as [h m]. rewrite deepcopy_unfold. destruct (m !! l) as [y|] eqn:Em; [done |].
    assert (Hl : h !! l = Some o).
    { destruct Hst as [(_ & Hag & _) _]. simpl in Hag. rewrite Hag; [done |].
      by eapply lookup_lt_Some. }
    rewrite Hl.
    assert (Hnew : forall o1, (h ++ [o1]) !! length h = Some o1).
    { intros o1. rewrite lookup_app_r by lia. by rewrite Nat.sub_diag. }
    destruct o as [c attrs | items | items]; simpl in Hslots.
    + destruct (copying_start _ h0 h m l (OInst c []) Hst) as [Hst1 Hy]; [constructor |].
      destruct (copy_attrs_total (length h0) h0 (closed n h0) (deepcopy (S n)) (length h) attrs
                  (h ++ [OInst c []], <[l := length h]> m) c [])
        as [st1 E]; try done; [apply deepcopy_ok | apply deepcopy_grows | apply Hnew |].
      rewrite E. done.
    + destruct (copying_start _ h0 h m l (OList []) Hst) as [Hst1 Hy]; [constructor |].
      destruct (copy_items_total (length h0) h0 (closed n h0) (deepcopy (S n)) (length h) items
                  (h ++ [OList []], <[l := length h]> m) [])
        as [st1 E]; try done; [apply deepcopy_ok | apply deepcopy_grows | apply Hnew |].
      rewrite E. done.
    + destruct (copying_start _ h0 h m l (ODict []) Hst) as [Hst1 Hy]; [constructor |].
      destruct (copy_dict_items_total (length h0) h0 (closed n h0) (deepcopy (S n)) (length h)
                  items (h ++ [ODict []], <[l := length h]> m) [])
        as [st1 E]; try done; [apply deepcopy_ok | apply deepcopy_grows | apply Hnew |].
      rewrite E. done.
Qed.

Lemma deepcopy_top_total (h : heap) (n : nat) (v : val) :
  closed n h v -> is_Some (deepcopy_top (S n) v h).
Proof.
  intros Hv. unfold deepcopy_top.
  destruct (deepcopy_total h n v (h, ∅) Hv) as [[y [h' m']] E].
  - split; [apply apart_refl |]. simpl. intros x0 y0' H. by rewrite lookup_empty in H.
  - rewrite E. done.
Qed.

(** *** Reading is stable *)
Lemma apart_kept (h h' : heap) : apart (length h) h h' -> kept h h'.
Proof.
  intros (_ & Hag & _) l o Ho. rewrite Hag; [done |]. by eapply lookup_lt_Some.
Qed.

Lemma mapM_kept {A B} (f g : A -> option B) (l : list A) (k : list B) :
  (forall x y, f x = Some y -> g x = Some y) -> mapM f l = Some k -> mapM g l = Some k.
Proof.
  intros Hfg H. apply mapM_Some in H. apply mapM_Some.
  eapply Forall2_impl; [exact H |]. done.
Qed.

Lemma mapM_Some_Forall {A B} (f : A -> option B) (Q : A -> Prop) (l : list A) (k : list B) :
  (forall x y, f x = Some y -> Q x) -> mapM f l = Some k -> Forall Q l.
Proof.
  intros Hf H. apply mapM_Some in H. induction H; constructor; eauto.
Qed.

Section reading.
Context (h h' : heap) (Hk : kept h h').

Lemma read_field_kept c v f : read_field c h v = Some f -> read_field c h' v = Some f.
Proof.
  unfold read_field. destruct v as [| |l]; try done.
  destruct (h !! l) as [o|] eqn:E; [| done]. by rewrite (Hk _ _ E).
Qed.

Lemma read_fields_kept c v fs : read_fields c h v = Some fs -> read_fields c h' v = Some fs.
Proof.
  unfold read_fields. destruct v as [| |l]; try done.
  destruct (h !! l) as [o|] eqn:E; [| done]. rewrite (Hk _ _ E).
  destruct o; try done. apply mapM_kept. apply read_field_kept.
Qed.

Lemma read_optional_field_kept c v f :
  read_optional_field c h v = Some f -> read_optional_field c h' v = Some f.
Proof.
  unfold read_optional_field. destruct v as [| s |l]; try done.
  destruct (read_field c h (VRef l)) eqn:E; [| done].
  by rewrite (read_field_kept _ _ _ E).
Qed.

Lemma read_record_kept v r : read_record h v = Some r -> read_record h' v = Some r.
Proof.
  unfold read_record. destruct v as [| |l]; try done.
  destruct (h !! l) as [o|] eqn:E; [| done]. rewrite (Hk _ _ E).
  destruct o as [[] [|[k1 n] [|[k2 ps] [|[k3 b] [|]]]] | |]; try done.
  destruct (decide _); [| done].
  destruct (read_field CName h n) eqn:E1; [| done].
  destruct (read_fields CPhone h ps) eqn:E2; [| done].
  destruct (read_optional_field CBirthday h b) eqn:E3; [| done].
  by rewrite (read_field_kept _ _ _ E1), (read_fields_kept _ _ _ E2),
    (read_optional_field_kept _ _ _ E3).
Qed.

Lemma read_item_kept kv x : read_item h kv = Some x -> read_item h' kv = Some x.
Proof.
  unfold read_item. destruct (read_record h (snd kv)) eqn:E; [| done].
  by rewrite (read_record_kept _ _ E).
Qed.

Lemma read_book_kept v b : read_book h v = Some b -> read_book h' v = Some b.
Proof.
  unfold read_book. destruct v as [| |l]; try done.
  destruct (h !! l) as [o|] eqn:E; [| done]. rewrite (Hk _ _ E).
  destruct o as [[] [|[k [| |d]] [|]] | |]; try done.
  destruct (decide _); [| done].
  destruct (h !! d) as [o|] eqn:Ed; [| done]. rewrite (Hk _ _ Ed).
  destruct o as [| | items]; try done.
  destruct (mapM (read_item h) items) eqn:Em; [| done].
  by rewrite (mapM_kept _ _ _ _ read_item_kept Em).
Qed.
End reading.

(** *** A readable book is closed *)
Lemma closed_mono (n : nat) (h : heap) (v : val) : closed n h v -> closed (S n) h v.
Proof.
  revert v. induction n as [|n IH]; intros v; destruct v as [| |l]; try done.
  intros (o & Ho & Hs). exists o. split; [done |].
  eapply Forall_impl; [exact Hs |]. apply IH.
Qed.

Lemma read_field_closed c h v f : read_field c h v = Some f -> closed 1 h v.
Proof.
  unfold read_field. destruct v as [| |l]; try done.
  destruct (h !! l) as [o|] eqn:E; [| done].
  destruct o as [c' [|[k [| s |]] [|]] | |]; try done.
  intros _. exists (OInst c' [(k, VStr s)]). split; [done |].
  apply Forall_cons. split; [done | constructor].
Qed.

Lemma read_fields_closed c h v fs : read_fields c h v = Some fs -> closed 2 h v.
Proof.
  unfold read_fields. destruct v as [| |l]; try done.
  destruct (h !! l) as [o|] eqn:E; [| done]. destruct o as [| items |]; try done.
  intros H. exists (OList items). split; [done |]. unfold slots.
  eapply mapM_Some_Forall; [| exact H]. intros x y. apply read_field_closed.
Qed.

Lemma read_optional_field_closed c h v f :
  read_optional_field c h v = Some f -> closed 1 h v.
Proof.
  unfold read_optional_field. destruct v as [| s |l]; try done.
  destruct (read_field c h (VRef l)) eqn:E; [| done].
  intros _. by eapply read_field_closed.
Qed.

Lemma read_record_closed h v r : read_record h v = Some r -> closed 3 h v.
Proof.
  unfold read_record. destruct v as [| |l]; try done.
  destruct (h !! l) as [o|] eqn:E; [| done].
  destruct o as [[] [|[k1 n] [|[k2 ps] [|[k3 b] [|]]]] | |]; try done.
  destruct (decide _); [| done].
  destruct (read_field CName h n) eqn:E1; [| done].
  destruct (read_fields CPhone h ps) eqn:E2; [| done].
  destruct (read_optional_field CBirthday h b) eqn:E3; [| done].
  intros _. eexists. split; [done |].
  apply read_field_closed in E1. apply read_fields_closed in E2.
  apply read_optional_field_closed in E3.
  apply Forall_cons. split; [by apply closed_mono |].
  apply Forall_cons. split; [done |].
  apply Forall_cons. split; [by apply closed_mono | constructor].
Qed.

Lemma read_book_closed h v b : read_book h v = Some b -> closed 5 h v.
Proof.
  unfold read_book. destruct v as [| |l]; try done.
  destruct (h !! l) as [o|] eqn:E; [| done].
  destruct o as [[] [|[k [| |d]] [|]] | |]; try done.
  destruct (decide _); [| done].
  destruct (h !! d) as [o|] eqn:Ed; [| done].
  destruct o as [| | items]; try done.
  destruct (mapM (read_item h) items) eqn:Em; [| done].
  intros _. eexists. split; [done |].
  apply Forall_cons. split; [| constructor].
  eexists. split; [exact Ed |]. unfold slots, dict_values. apply Forall_fmap.
  eapply mapM_Some_Forall; [| exact Em]. intros [k' v'] y. unfold read_item. simpl.
  destruct (read_record h v') eqn:Er; [| done]. intros _. by eapply read_record_closed.
Qed.

(** On the sample: the copy reads as the original, and a phone added to
    Ann in the copy shows in the copy only. *)
Example deepcopy_sample :
  match deepcopy_top 6 (VRef 1) sample_heap with
  | Some (copy, h1) =>
      read_book h1 copy = Some sample_book
      /\ match find copy (pystr_of "Ann") h1 with
         | (Ok r', _) =>
             let h2 := snd (add_phone r' (pystr_of "0000000000") h1) in
             read_book h2 (VRef 1) = Some sample_book
             /\ (ContactRecord.phones <$> (read_book h2 copy ≫= AddressBook.find (pystr_of "Ann")))
                = Some [mkField (pystr_of "1234567890"); mkField (pystr_of "0000000000")]
         | _ => False
         end
  | None => False
  end.
Proof. vm_compute. done. Qed.

End store_facts.

(* ===================================================================== *)
(** ** Facts: records in the store and records as values                  *)
(* ===================================================================== *)

Section simulation_facts.
Import Store.
#[local] Open Scope nat_scope.

Lemma read_field_kept_inst c h h' v f :
  kept_inst h h' -> read_field c h v = Some f -> read_field c h' v = Some f.
Proof.
  intros Hk. unfold read_field. destruct v as [| |l]; try done.
  destruct (h !! l) as [[c' attrs| |]|] eqn:E; try done. by rewrite (Hk _ _ _ E).
Qed.

Lemma read_optional_field_kept_inst c h h' v f :
  kept_inst h h' -> read_optional_field c h v = Some f -> read_optional_field c h' v = Some f.
Proof.
  intros Hk. unfold read_optional_field. destruct v as [| s |l]; try done.
  destruct (read_field c h (VRef l)) eqn:E; [| done].
  by rewrite (read_field_kept_inst _ _ _ _ _ Hk E).
Qed.

Lemma read_phones_kept_inst h h' items fs :
  kept_inst h h' ->
  mapM (read_field CPhone h) items = Some fs -> mapM (read_field CPhone h') items = Some fs.
Proof. intros Hk. apply mapM_kept. intros x y. by apply read_field_kept_inst. Qed.

Lemma kept_inst_alloc h o : kept_inst h (h ++ [o]).
Proof.
  intros l c attrs H. rewrite lookup_app_l; [done |]. by eapply lookup_lt_Some.
Qed.

Lemma kept_inst_update_list h pl items items' :
  h !! pl = Some (OList items) -> kept_inst h (<[pl := OList items']> h).
Proof.
  intros Hpl l c attrs H. rewrite list_lookup_insert_ne; [done |]. congruence.
Qed.

Lemma kept_inst_trans h1 h2 h3 : kept_inst h1 h2 -> kept_inst h2 h3 -> kept_inst h1 h3.
Proof. intros H12 H23 l c attrs H. eauto. Qed.

(** What [read_record] found. *)
Lemma read_record_inv h l r :
  read_record h (VRef l) = Some r ->
  exists n pl items b,
    h !! l = Some (OInst CRecord [(attr_name, n); (attr_phones, VRef pl); (attr_birthday, b)])
    /\ read_field CName h n = Some (ContactRecord.name r)
    /\ h !! pl = Some (OList items)
    /\ mapM (read_field CPhone h) items = Some (ContactRecord.phones r)
    /\ read_optional_field CBirthday h b = Some (ContactRecord.birthday r).
Proof.
  unfold read_record.
  destruct (h !! l) as [o|] eqn:E; [| done].
  destruct o as [[] [|[k1 n] [|[k2 ps] [|[k3 b] [|]]]] | |]; try done.
  destruct (decide _) as [(-> & -> & ->)|]; [| done].
  destruct (read_field CName h n) as [fn|] eqn:E1; [| done].
  destruct (read_fields CPhone h ps) as [fps|] eqn:E2; [| done].
  destruct (read_optional_field CBirthday h b) as [fb|] eqn:E3; [| done].
  intros [= <-]. simpl.
  unfold read_fields in E2. destruct ps as [| |pl]; try done.
  destruct (h !! pl) as [[| items |]|] eqn:Epl; try done.
  by exists n, pl, items, b.
Qed.

Lemma read_record_intro h l n pl items b fn fps fb :
  h !! l = Some (OInst CRecord [(attr_name, n); (attr_phones, VRef pl); (attr_birthday, b)]) ->
  read_field CName h n = Some fn ->
  h !! pl = Some (OList items) ->
  mapM (read_field CPhone h) items = Some fps ->
  read_optional_field CBirthday h b = Some fb ->
  read_record h (VRef l) = Some (ContactRecord.mk fn fps fb).
Proof.
  intros Hl Hn Hpl Hps Hb. unfold read_record. rewrite Hl.
  rewrite decide_True by done. rewrite Hn. unfold read_fields. rewrite Hpl, Hps, Hb. done.
Qed.

Lemma getattr_phones h l n ps b :
  h !! l = Some (OInst CRecord [(attr_name, n); (attr_phones, ps); (attr_birthday, b)]) ->
  getattr (VRef l) attr_phones h = (Ok ps, h).
Proof. intros Hl. unfold getattr. rewrite Hl. reflexivity. Qed.

(** [add_phone] *)
Lemma add_phone_simulates h l r phone :
  read_record h (VRef l) = Some r ->
  exists h',
    add_phone (VRef l) phone h = (fst (ContactRecord.add_phone phone r), h')
    /\ read_record h' (VRef l) = Some (snd (ContactRecord.add_phone phone r)).
Proof.
  intros Hr. destruct (read_record_inv _ _ _ Hr) as (n & pl & items & b & Hl & Hn & Hpl & Hps & Hb).
  rewrite add_phone_run. unfold add_phone.
  unfold mbind at 1. unfold H_bind, bind. rewrite (getattr_phones _ _ _ _ _ Hl).
  unfold Phone_new, mbind, H_bind, bind, lift.
  destruct (Phone_cases phone) as [E | E]; rewrite E; simpl; [| by exists h].
  unfold list_append, mbind, H_bind, bind, list_items, list_store, alloc.
  rewrite (lookup_app_l h) by (by eapply lookup_lt_Some). rewrite Hpl.
  rewrite (lookup_app_l h) by (by eapply lookup_lt_Some). rewrite Hpl.
  eexists. split; [reflexivity |].
  set (p := OInst CPhone [(attr_value, VStr phone)]).
  assert (Hk : kept_inst h (<[pl := OList (items ++ [VRef (length h)])]> (h ++ [p]))).
  { eapply kept_inst_trans; [apply kept_inst_alloc |].
    eapply kept_inst_update_list. rewrite lookup_app_l; [exact Hpl | by eapply lookup_lt_Some]. }
  destruct r as [fn fps fb]. simpl in *. unfold ContactRecord.set_phones. simpl.
  eapply read_record_intro.
  - by apply Hk.
  - by eapply read_field_kept_inst.
  - apply list_lookup_insert_eq. rewrite length_app. apply lookup_lt_Some in Hpl. lia.
  - apply mapM_Some. apply Forall2_app.
    + apply mapM_Some. by eapply read_phones_kept_inst.
    + constructor; [| constructor]. unfold read_field.
      assert (pl <> length h) by (apply lookup_lt_Some in Hpl; lia).
      rewrite list_lookup_insert_ne by done.
      rewrite lookup_app_r by lia. rewrite Nat.sub_diag. reflexivity.
  - by eapply read_optional_field_kept_inst.
Qed.

(** [add_birthday] *)
Lemma add_birthday_simulates h l r birthday :
  read_record h (VRef l) = Some r ->
  exists h',
    add_birthday (VRef l) birthday h = (fst (ContactRecord.add_birthday birthday r), h')
    /\ read_record h' (VRef l) = Some (snd (ContactRecord.add_birthday birthday r)).
Proof.
  intros Hr. destruct (read_record_inv _ _ _ Hr) as (n & pl & items & b & Hl & Hn & Hpl & Hps & Hb).
  rewrite add_birthday_run. unfold add_birthday.
  unfold Birthday_new, mbind, H_bind, bind, lift.
  destruct (Birthday_cases birthday) as [E | E]; rewrite E; simpl; [| by exists h].
  unfold setattr, alloc.
  rewrite (lookup_app_l h) by (by eapply lookup_lt_Some). rewrite Hl.
  eexists. split; [reflexivity |].
  set (p := OInst CBirthday [(attr_value, VStr birthday)]).
  set (o := OInst CRecord _).
  assert (Hlen : l < length h) by (by eapply lookup_lt_Some).
  assert (Hk : forall x c attrs, x <> l -> h !! x = Some (OInst c attrs) ->
                 <[l := o]> (h ++ [p]) !! x = Some (OInst c attrs)).
  { intros x c attrs Hx H. rewrite list_lookup_insert_ne by done.
    rewrite lookup_app_l; [done |]. by eapply lookup_lt_Some. }
  assert (Hkf : forall c v f, read_field c h v = Some f ->
                  read_field c (<[l := o]> (h ++ [p])) v = Some f).
  { intros c v f. unfold read_field. destruct v as [| |x]; try done.
    destruct (h !! x) as [[c' attrs| |]|] eqn:Ex; try done.
    destruct attrs as [|[k [| s |]] [|]]; try done.
    rewrite (Hk x c' [(k, VStr s)]); [done | | done]. intros ->. congruence. }
  destruct r as [fn fps fb]. simpl in *.
  eapply read_record_intro.
  - subst o. apply list_lookup_insert_eq. rewrite length_app. lia.
  - by apply Hkf.
  - rewrite list_lookup_insert_ne by congruence.
    rewrite lookup_app_l; [exact Hpl | by eapply lookup_lt_Some].
  - eapply mapM_kept; [| exact Hps]. intros x y. apply Hkf.
  - unfold read_optional_field, read_field.
    assert (l <> length h) by lia.
    rewrite list_lookup_insert_ne by done.
    rewrite lookup_app_r by lia. rewrite Nat.sub_diag. reflexivity.
Qed.

(** [find_phone] and [remove_phone]: the first phone with the value is
    the first item that is this object. *)
Lemma filter_phones_run h phone_value items fs :
  Forall2 (fun x y => read_field CPhone h x = Some y) items fs ->
  exists result,
    filter_phones phone_value items h = (Ok result, h)
    /\ match ContactRecord.first_with phone_value fs with
       | None => result = []
       | Some f =>
           exists p rest items',
             result = p :: rest
             /\ read_field CPhone h p = Some f
             /\ remove_first p items = Some items'
             /\ Forall2 (fun x y => read_field CPhone h x = Some y) items'
                  (ContactRecord.list_remove f fs)
       end.
Proof.
  induction 1 as [|x y items fs Hxy Hrest IH]; simpl.
  - exists []. done.
  - destruct IH as (result & Hrun & Hres).
    assert (Hget : getattr x attr_value h = (Ok (VStr (value y)), h)).
    { unfold read_field in Hxy. unfold getattr. destruct x as [| |lx]; try done.
      destruct (h !! lx) as [[c attrs| |]|]; try done.
      destruct attrs as [|[k [| s |]] [|]]; try done.
      destruct (decide _) as [[-> ->]|]; [| done]. injection Hxy as <-. reflexivity. }
    unfold mbind, H_bind, bind. rewrite Hget, Hrun.
    unfold ContactRecord.first_with in *. rewrite filter_cons.
    destruct (decide (value y = phone_value)) as [Ev | Ev].
    + eexists. split; [unfold mret, H_ret, ret; rewrite decide_True by congruence; done |].
      simpl. exists x, result, items. rewrite !decide_True by done. done.
    + eexists. split; [unfold mret, H_ret, ret; rewrite decide_False by congruence; done |].
      destruct (head (filter _ fs)) as [f|] eqn:Ef; [| done].
      destruct Hres as (p & rest & items' & -> & Hp & Hrm & Hall).
      exists p, rest, (x :: items'). split; [done |]. split; [done |].
      assert (Hf : value f = phone_value).
      { apply head_Some_elem_of in Ef. by apply list_elem_of_filter in Ef as [? _]. }
      assert (x <> p) by (intros ->; congruence).
      assert (y <> f) by (intros ->; congruence).
      rewrite !decide_False by done. rewrite Hrm. split; [done |]. by constructor.
Qed.

Lemma remove_phone_simulates h l r phone_value :
  read_record h (VRef l) = Some r ->
  exists h',
    remove_phone (VRef l) phone_value h = (fst (ContactRecord.remove_phone phone_value r), h')
    /\ read_record h' (VRef l) = Some (snd (ContactRecord.remove_phone phone_value r)).
Proof.
  intros Hr. destruct (read_record_inv _ _ _ Hr) as (n & pl & items & b & Hl & Hn & Hpl & Hps & Hb).
  rewrite remove_phone_run. unfold remove_phone, find_phone.
  unfold mbind, H_bind, bind. rewrite (getattr_phones _ _ _ _ _ Hl).
  unfold list_items at 1. rewrite Hpl.
  apply mapM_Some in Hps.
  destruct (filter_phones_run h phone_value items _ Hps) as (result & Hrun & Hres).
  rewrite Hrun. unfold mret, H_ret, ret.
  destruct (ContactRecord.first_with phone_value (ContactRecord.phones r)) as [f|] eqn:Ef.
  - destruct Hres as (p & rest & items' & -> & Hp & Hrm & Hall).
    assert (exists lp, p = VRef lp) as [lp ->].
    { unfold read_field in Hp. destruct p; try done. by eexists. }
    rewrite (getattr_phones _ _ _ _ _ Hl).
    unfold list_remove, mbind, H_bind, bind, list_items, list_store. rewrite Hpl, Hrm, Hpl.
    eexists. split; [reflexivity |].
    assert (Hk : kept_inst h (<[pl := OList items']> h)) by by eapply kept_inst_update_list.
    destruct r as [fn fps fb]. simpl in *. unfold ContactRecord.set_phones. simpl.
    eapply read_record_intro.
    + by apply Hk.
    + by eapply read_field_kept_inst.
    + apply list_lookup_insert_eq. by eapply lookup_lt_Some.
    + apply mapM_Some. eapply Forall2_impl; [exact Hall |].
      intros x y. by apply read_field_kept_inst.
    + by eapply read_optional_field_kept_inst.
  - subst result. exists h. done.
Qed.

Lemma find_phone_simulates h l r phone_value :
  read_record h (VRef l) = Some r ->
  exists p,
    find_phone (VRef l) phone_value h = (Ok p, h)
    /\ match ContactRecord.first_with phone_value (ContactRecord.phones r) with
       | None => p = VNone
       | Some f => read_field CPhone h p = Some f
       end.
Proof.
  intros Hr. destruct (read_record_inv _ _ _ Hr) as (n & pl & items & b & Hl & Hn & Hpl & Hps & Hb).
  unfold find_phone. unfold mbind, H_bind, bind. rewrite (getattr_phones _ _ _ _ _ Hl).
  unfold list_items at 1. rewrite Hpl.
  apply mapM_Some in Hps.
  destruct (filter_phones_run h phone_value items _ Hps) as (result & Hrun & Hres).
  rewrite Hrun. unfold mret, H_ret, ret. eexists. split; [reflexivity |].
  destruct (ContactRecord.first_with _ _) as [f|].
  - by destruct Hres as (p & rest & items' & -> & Hp & _).
  - by subst result.
Qed.

Lemma edit_phone_simulates h l r old new :
  read_record h (VRef l) = Some r ->
  exists h',
    edit_phone (VRef l) old new h = (fst (ContactRecord.edit_phone old new r), h')
    /\ read_record h' (VRef l) = Some (snd (ContactRecord.edit_phone old new r)).
Proof.
  intros Hr. rewrite edit_phone_run. unfold edit_phone.
  destruct (find_phone_simulates h l r old Hr) as (p & Hfind & Hp).
  unfold mbind at 1. unfold H_bind, bind. rewrite Hfind.
  destruct (ContactRecord.first_with old (ContactRecord.phones r)) as [f|] eqn:Ef.
  - assert (exists lp, p = VRef lp) as [lp ->].
    { unfold read_field in Hp. destruct p; try done. by eexists. }
    destruct (add_phone_simulates h l r new Hr) as (h1 & Hadd & Hr1).
    unfold mbind, H_bind, bind. rewrite Hadd.
    destruct (ContactRecord.add_phone new r) as [[[]|e] r1]; simpl in *.
    + by apply remove_phone_simulates.
    + by exists h1.
  - subst p. exists h. done.
Qed.

(** The methods on the store do to the record read off the store what the
    methods on values do. *)
Lemma run_mutation_simulates h l r mu :
  read_record h (VRef l) = Some r ->
  exists h',
    run_mutation (VRef l) mu h = (fst (value_mutation mu r), h')
    /\ read_record h' (VRef l) = Some (snd (value_mutation mu r)).
Proof.
  intros Hr. destruct mu; simpl.
  - by apply add_phone_simulates.
  - by apply remove_phone_simulates.
  - by apply edit_phone_simulates.
  - by apply add_birthday_simulates.
Qed.

End simulation_facts.

(* ===================================================================== *)
(** ** Facts: the calendar, continued                                   *)
(* ===================================================================== *)

Lemma days_before_year_succ (y : Z) :
  days_before_year (y + 1) = days_before_year y + 365 + Z.b2z (is_leap y).
Proof.
  unfold days_before_year, is_leap. cbv zeta.
  replace (y + 1 - 1) with y by lia.
  destruct (y mod 4 =? 0) eqn:E4, (y mod 100 =? 0) eqn:E100, (y mod 400 =? 0) eqn:E400;
    simpl;
    repeat match goal with
    | H : (_ =? _) = true |- _ => apply Z.eqb_eq in H
    | H : (_ =? _) = false |- _ => apply Z.eqb_neq in H
    end;
    Z.div_mod_to_equations; lia.
Qed.

Lemma days_before_year_mono (y y' : Z) : y <= y' -> days_before_year y <= days_before_year y'.
Proof.
  intros H. replace y' with (y + (y' - y)) by lia.
  assert (Hk : 0 <= y' - y) by lia. revert Hk. generalize (y' - y). clear.
  intros k Hk. pattern k. apply natlike_ind; [| | done].
  - by rewrite Z.add_0_r.
  - intros x Hx IH. replace (y + Z.succ x) with (y + x + 1) by lia.
    rewrite days_before_year_succ. destruct (is_leap (y + x)); simpl; lia.
Qed.

Lemma day_of_year_bounds (y m d : Z) :
  1 <= m <= 12 -> 1 <= d <= days_in_month y m ->
  1 <= days_before_month y m + d <= 365 + Z.b2z (is_leap y).
Proof.
  intros Hm. unfold days_in_month, days_before_month.
  assert (m = 1 \/ m = 2 \/ m = 3 \/ m = 4 \/ m = 5 \/ m = 6 \/ m = 7 \/ m = 8 \/ m = 9
          \/ m = 10 \/ m = 11 \/ m = 12) as Hc by lia.
  intros Hd; destruct (is_leap y); intuition (subst m; cbv [tbl DAYS_IN_MONTH DAYS_BEFORE_MONTH Z.to_nat Pos.to_nat Pos.iter_op Nat.add nth Z.eqb Z.ltb Z.compare Pos.compare Pos.compare_cont andb Z.b2z Pos.eqb] in *; lia).
Qed.

Lemma toordinal_bounds (c : date) : valid_date c = true -> 1 <= toordinal c <= MAXORDINAL.
Proof.
  intros Hv. apply valid_date_bounds in Hv as (Hy & Hm & Hd & _).
  pose proof (day_of_year_bounds _ _ _ Hm Hd) as Hb.
  pose proof (days_before_year_succ (year c)) as Hs.
  pose proof (days_before_year_mono 1 (year c) ltac:(lia)) as H1.
  pose proof (days_before_year_mono (year c + 1) 10000 ltac:(lia)) as H2.
  change (days_before_year 1) with 0 in H1.
  change (days_before_year 10000) with 3652059 in H2.
  unfold toordinal, ymd2ord, MAXORDINAL. lia.
Qed.

Lemma fromordinal_valid (n : Z) : 1 <= n <= MAXORDINAL -> valid_date (fromordinal n) = true.
Proof.
  intros Hn. pose proof (ord2ymd_correct n) as Hc.
  unfold fromordinal. destruct (ord2ymd n) as [[y m] d]. destruct Hc as (Ho & Hm & Hd).
  pose proof (day_of_year_bounds _ _ _ Hm Hd) as Hb.
  pose proof (days_before_year_succ y) as Hs.
  assert (1 <= y <= 9999) as Hy.
  { unfold ymd2ord in Ho. unfold MAXORDINAL in Hn. split.
    - destruct (Z_le_gt_dec 1 y) as [|Hlt]; [done|].
      pose proof (days_before_year_mono (y + 1) 1 ltac:(lia)) as H1.
      change (days_before_year 1) with 0 in H1. lia.
    - destruct (Z_le_gt_dec y 9999) as [|Hgt]; [done|].
      pose proof (days_before_year_mono 10000 y ltac:(lia)) as H1.
      change (days_before_year 10000) with 3652059 in H1. lia. }
  unfold valid_date, date_new, check_date_fields, MINYEAR, MAXYEAR. cbn [year month day].
  repeat match goal with
  | |- context [negb ((?a <=? ?b) && (?c <=? ?d))] =>
      replace ((a <=? b) && (c <=? d)) with true
        by (symmetry; apply andb_true_iff; split; apply Z.leb_le; lia); cbn [negb]
  end.
  done.
Qed.

(** [date.__lt__] agrees with the order of the ordinals. *)
Lemma days_before_month_lt (y m m' d : Z) :
  1 <= m -> m < m' -> m' <= 12 -> 1 <= d <= days_in_month y m ->
  days_before_month y m + d <= days_before_month y m'.
Proof.
  intros H1 H2 H3. unfold days_in_month, days_before_month.
  assert (m = 1 \/ m = 2 \/ m = 3 \/ m = 4 \/ m = 5 \/ m = 6 \/ m = 7 \/ m = 8 \/ m = 9
          \/ m = 10 \/ m = 11) as Hc by lia.
  assert (m' = 2 \/ m' = 3 \/ m' = 4 \/ m' = 5 \/ m' = 6 \/ m' = 7 \/ m' = 8 \/ m' = 9
          \/ m' = 10 \/ m' = 11 \/ m' = 12) as Hc' by lia.
  intros Hd; destruct (is_leap y);
    intuition (subst m m'; try lia;
      cbv [tbl DAYS_IN_MONTH DAYS_BEFORE_MONTH Z.to_nat Pos.to_nat Pos.iter_op Nat.add nth
           Z.eqb Z.ltb Z.compare Pos.compare Pos.compare_cont andb Z.b2z Pos.eqb] in *; lia).
Qed.

Lemma date_lt_toordinal (a b : date) :
  valid_date a = true -> valid_date b = true ->
  date_lt a b = true <-> toordinal a < toordinal b.
Proof.
  intros Ha Hb.
  apply valid_date_bounds in Ha as (Hya & Hma & Hda & _).
  apply valid_date_bounds in Hb as (Hyb & Hmb & Hdb & _).
  pose proof (day_of_year_bounds _ _ _ Hma Hda) as Hba.
  pose proof (day_of_year_bounds _ _ _ Hmb Hdb) as Hbb.
  pose proof (days_before_year_succ (year a)) as Hsa.
  pose proof (days_before_year_succ (year b)) as Hsb.
  unfold date_lt, toordinal, ymd2ord.
  destruct (Z.lt_trichotomy (year a) (year b)) as [Hy | [Hy | Hy]].
  - replace (year a <? year b) with true by (symmetry; by apply Z.ltb_lt).
    cbn [orb]. split; [intros _ | done].
    pose proof (days_before_year_mono (year a + 1) (year b) ltac:(lia)). lia.
  - replace (year a <? year b) with false by (symmetry; apply Z.ltb_ge; lia).
    replace (year a =? year b) with true by (symmetry; by apply Z.eqb_eq).
    cbn [orb andb]. rewrite Hy in *.
    destruct (Z.lt_trichotomy (month a) (month b)) as [Hm | [Hm | Hm]].
    + replace (month a <? month b) with true by (symmetry; by apply Z.ltb_lt).
      cbn [orb]. split; [intros _ | done].
      pose proof (days_before_month_lt (year b) (month a) (month b) (day a)
                    ltac:(lia) Hm ltac:(lia) Hda). lia.
    + replace (month a <? month b) with false by (symmetry; apply Z.ltb_ge; lia).
      replace (month a =? month b) with true by (symmetry; by apply Z.eqb_eq).
      cbn [orb andb]. rewrite Hm. rewrite Z.ltb_lt. lia.
    + replace (month a <? month b) with false by (symmetry; apply Z.ltb_ge; lia).
      replace (month a =? month b) with false by (symmetry; apply Z.eqb_neq; lia).
      cbn [orb andb]. split; [done |]. 
      pose proof (days_before_month_lt (year b) (month b) (month a) (day b)
                    ltac:(lia) Hm ltac:(lia) Hdb). lia.
  - replace (year a <? year b) with false by (symmetry; apply Z.ltb_ge; lia).
    replace (year a =? year b) with false by (symmetry; apply Z.eqb_neq; lia).
    cbn [orb andb]. split; [done |].
    pose proof (days_before_year_mono (year b + 1) (year a) ltac:(lia)). lia.
Qed.

(* ===================================================================== *)
(** ** Facts: upcoming birthdays                                        *)
(* ===================================================================== *)

Lemma mapM_Ok {A B} (f : A -> result B) (l : list A) (rs : list B) :
  mapM f l = Ok rs <-> Forall2 (fun x r => f x = Ok r) l rs.
Proof.
  revert rs. induction l as [|x l IH]; intros rs.
  - split.
    + intros [= <-]. constructor.
    + by inversion 1.
  - change (mapM f (x :: l)) with (y ← f x; k ← mapM f l; mret (y :: k)).
    set (ml := mapM f l) in *.
    unfold mbind, result_bind, mret, result_ret. split.
    + destruct (f x) as [r|e] eqn:E; [| done].
      destruct ml as [rs'|e] eqn:E'; [| done].
      intros [= <-]. constructor; [done |]. by apply IH.
    + inversion 1 as [|? r ? rs' Hr Hrs]; subst. rewrite Hr.
      apply IH in Hrs. by rewrite Hrs.
Qed.

Lemma mapM_Raise {A B} (f : A -> result B) (l : list A) (e : exn) :
  mapM f l = Raise e -> exists x, x ∈ l /\ f x = Raise e.
Proof.
  induction l as [|x l IH]; [done |].
  change (mapM f (x :: l)) with (y ← f x; k ← mapM f l; mret (y :: k)).
  set (ml := mapM f l) in *.
  unfold mbind, result_bind, mret, result_ret.
  destruct (f x) as [r|e'] eqn:E.
  - destruct ml as [rs'|e''] eqn:E'; [done |].
    intros [= <-]. destruct IH as (y & Hy & Hfy); [done |].
    exists y. split; [by apply elem_of_cons; right | done].
  - intros [= <-]. exists x. split; [apply elem_of_cons; by left | done].
Qed.

Lemma mapM_total {A B} (f : A -> result B) (l : list A) :
  (forall x, x ∈ l -> exists r, f x = Ok r) -> exists rs, mapM f l = Ok rs.
Proof.
  intros H. destruct (mapM f l) as [rs|e] eqn:E; [by eexists |].
  apply mapM_Raise in E as (x & Hx & Hfx). destruct (H x Hx) as [r Hr]. congruence.
Qed.

(** *** The date that is compared with today *)

Lemma date_new_valid (y m d : Z) (c : date) : date_new y m d = Ok c -> valid_date c = true.
Proof.
  intros H. pose proof (date_new_fields _ _ _ _ H) as ->.
  unfold valid_date. cbn [year month day]. by rewrite H.
Qed.

Lemma roll_forward_returns (c : date) :
  valid_date c = true -> Spec.is_weekend c = true ->
  exists c', Spec.roll_forward c = Ok c'.
Proof.
  intros Hv Hw. unfold Spec.roll_forward. rewrite monday_offset_weekend by done.
  unfold date_add_days. cbv zeta.
  apply toordinal_bounds in Hv. rewrite <- weekend_test in Hw. apply Z.leb_le in Hw.
  pose proof (weekday_range c) as Hr. unfold weekday, MAXORDINAL in *.
  replace ((0 <? _) && (_ <=? _)) with true; [by eexists |].
  symmetry. apply andb_true_iff. split; [apply Z.ltb_lt | apply Z.leb_le].
  - lia.
  - revert Hw Hr. generalize (toordinal c) Hv. intros t Ht. Z.div_mod_to_equations. lia.
Qed.

Lemma roll_forward_valid (c c' : date) :
  valid_date c = true -> Spec.is_weekend c = true -> Spec.roll_forward c = Ok c' ->
  valid_date c' = true.
Proof.
  intros Hv Hw. unfold Spec.roll_forward. rewrite monday_offset_weekend by done.
  unfold date_add_days. cbv zeta.
  destruct (_ && _) eqn:E; [| done]. intros [= <-].
  apply andb_true_iff in E as [E1 E2]. apply Z.ltb_lt in E1. apply Z.leb_le in E2.
  apply fromordinal_valid. lia.
Qed.

Lemma candidate_Ok (today bd c : date) :
  Spec.candidate today bd = Ok c ->
  exists c1,
    (date_new (year today) (month bd) (day bd) = Ok c1 /\ date_lt c1 today = false
     \/ exists c0, date_new (year today) (month bd) (day bd) = Ok c0
          /\ date_lt c0 today = true
          /\ date_new (year today + 1) (month bd) (day bd) = Ok c1)
    /\ (Spec.is_weekend c1 = false /\ c = c1
        \/ Spec.is_weekend c1 = true /\ Spec.roll_forward c1 = Ok c).
Proof.
  unfold Spec.candidate, Spec.reanchor, mbind, result_bind.
  destruct (date_new (year today) _ _) as [c0|e] eqn:E0; [| done].
  destruct (date_lt c0 today) eqn:Elt.
  - destruct (date_new (year today + 1) _ _) as [c1|e] eqn:E1; [| done].
    intros H. exists c1. split; [right; by exists c0 |].
    destruct (Spec.is_weekend c1); [by right | left; split; congruence].
  - intros H. exists c0. split; [by left |].
    destruct (Spec.is_weekend c0); [by right | left; split; congruence].
Qed.

Lemma candidate_raises (today bd : date) (e : exn) :
  Spec.candidate today bd = Raise e -> exists w, e = ValueError w.
Proof.
  unfold Spec.candidate, Spec.reanchor, mbind, result_bind.
  destruct (date_new (year today) _ _) as [c0|e0] eqn:E0;
    [| intros [= <-]; by eapply date_new_raises].
  assert (forall c1, valid_date c1 = true ->
            (if Spec.is_weekend c1 then Spec.roll_forward c1 else Ok c1) = Raise e -> False)
    as Hroll.
  { intros c1 Hv. destruct (Spec.is_weekend c1) eqn:Ew; [| done].
    destruct (roll_forward_returns c1 Hv Ew) as [c' ->]. done. }
  destruct (date_lt c0 today).
  - destruct (date_new (year today + 1) _ _) as [c1|e1] eqn:E1;
      [| intros [= <-]; by eapply date_new_raises].
    intros H. destruct (Hroll c1); [by eapply date_new_valid | done].
  - intros H. destruct (Hroll c0); [by eapply date_new_valid | done].
Qed.

Lemma entries_of_raises (today : date) (days : Z) (r : ContactRecord.t) (e : exn) :
  Spec.entries_of today days r = Raise e -> exists w, e = ValueError w.
Proof.
  unfold Spec.entries_of. destruct (ContactRecord.birthday r) as [b|]; [| done].
  unfold mbind, result_bind.
  destruct (strptime (value b)) as [bd|e0] eqn:E; [| intros [= <-]; by eapply strptime_raises].
  destruct (Spec.candidate today bd) as [c|e1] eqn:Ec; [done |].
  intros [= <-]. by eapply candidate_raises.
Qed.

Lemma entries_of_Ok (today : date) (days : Z) (r : ContactRecord.t)
    (es : list (pystr * pystr)) :
  Spec.entries_of today days r = Ok es ->
  es = []
  \/ exists b bd c, ContactRecord.birthday r = Some b /\ strptime (value b) = Ok bd
       /\ Spec.candidate today bd = Ok c /\ Spec.in_window today days c = true
       /\ es = [(value (ContactRecord.name r), strftime c)].
Proof.
  unfold Spec.entries_of. destruct (ContactRecord.birthday r) as [b|]; [| intros [= <-]; by left].
  unfold mbind, result_bind.
  destruct (strptime (value b)) as [bd|e0] eqn:E; [| done].
  destruct (Spec.candidate today bd) as [c|e1] eqn:Ec; [| done].
  destruct (Spec.in_window today days c) eqn:Ew; intros [= <-]; [| by left].
  right. by exists b, bd, c.
Qed.

Lemma get_upcoming_birthdays_mapM (today : date) (days : Z) (book : AddressBook.t) :
  AddressBook.get_upcoming_birthdays today days book
  = (rs ← mapM (Spec.entries_of today days) (dict_values (AddressBook.data book));
     Ok (concat rs)).
Proof. unfold AddressBook.get_upcoming_birthdays. by rewrite upcoming_loop_spec. Qed.

Lemma get_upcoming_birthdays_Ok (today : date) (days : Z) (book : AddressBook.t)
    (out : list (pystr * pystr)) :
  AddressBook.get_upcoming_birthdays today days book = Ok out <->
  exists rs, Forall2 (fun r es => Spec.entries_of today days r = Ok es)
               (dict_values (AddressBook.data book)) rs
             /\ out = concat rs.
Proof.
  rewrite get_upcoming_birthdays_mapM.
  set (ml := mapM _ _). pose proof (mapM_Ok (Spec.entries_of today days)
    (dict_values (AddressBook.data book))) as HM. fold ml in HM.
  unfold mbind, result_bind. destruct ml as [rs|e].
  - split.
    + intros [= <-]. exists rs. split; [by apply HM | done].
    + intros (rs' & Hrs & ->). apply HM in Hrs. congruence.
  - split; [done |]. intros (rs' & Hrs & _). by apply HM in Hrs.
Qed.

Lemma upcoming_raises (today : date) (days : Z) (book : AddressBook.t) (e : exn) :
  AddressBook.get_upcoming_birthdays today days book = Raise e -> exists w, e = ValueError w.
Proof.
  rewrite get_upcoming_birthdays_mapM.
  set (ml := mapM _ _). pose proof (mapM_Raise (Spec.entries_of today days)
    (dict_values (AddressBook.data book))) as HM. fold ml in HM.
  unfold mbind, result_bind. destruct ml as [rs|e']; [done |].
  intros [= <-]. destruct (HM e' eq_refl) as (r & _ & Hr). by eapply entries_of_raises.
Qed.

(** X1: whatever the book, today and days are, the only exception that
    get_upcoming_birthdays raises is a ValueError (from strptime or from
    replace): moving a Saturday or Sunday to the Monday after it never
    leaves the calendar, so that the sum with the timedelta never raises
    OverflowError. *)
Theorem get_upcoming_birthdays_raises_ValueError (today : date) (days : Z)
    (book : AddressBook.t) (e : exn) :
  AddressBook.get_upcoming_birthdays today days book = Raise e -> exists w, e = ValueError w.
Proof. apply upcoming_raises. Qed.

Lemma get_upcoming_birthdays_raises_ValueError_witness :
  exists w, ValueError DayOutOfRange = ValueError w.
Proof.
  apply (get_upcoming_birthdays_raises_ValueError (mkdate 2025 1 15) 7 leap_book).
  vm_compute. reflexivity.
Defined.

Lemma in_concat_Forall2 {A B} (P : A -> list B -> Prop) (l : list A) (rs : list (list B))
    (x : B) :
  Forall2 P l rs -> x ∈ concat rs -> exists a es, a ∈ l /\ P a es /\ x ∈ es.
Proof.
  induction 1 as [|a es l rs Ha Hl IH]; simpl.
  - by intros ?%elem_of_nil.
  - intros [Hx | Hx]%elem_of_app.
    + exists a, es. split; [apply elem_of_cons; by left | done].
    + destruct (IH Hx) as (a' & es' & Ha' & HP & Hin).
      exists a', es'. split; [apply elem_of_cons; by right | done].
Qed.

Lemma date_lt_next_year (y m d : Z) (today : date) :
  year today = y -> date_lt (mkdate (y + 1) m d) today = false.
Proof.
  intros <-. unfold date_lt. cbn [year month day].
  replace (year today + 1 <? year today) with false by (symmetry; apply Z.ltb_ge; lia).
  replace (year today + 1 =? year today) with false by (symmetry; apply Z.eqb_neq; lia).
  done.
Qed.

(** X2: every item of the list that get_upcoming_birthdays returns comes from
    a record of the book that has a birthday: the name is the record's,
    and the date is the formatted date [c], where [a] is the month and day
    of the birthday in today's year or in the next, not before today, and
    [c] is [a] or, when [a] is a Saturday or Sunday, one or two days after
    it; [c] is a day from Monday to Friday and 0 to [days] days after
    today. *)
Theorem get_upcoming_birthdays_entries (today : date) (days : Z) (book : AddressBook.t)
    (out : list (pystr * pystr)) (n s : pystr) :
  AddressBook.get_upcoming_birthdays today days book = Ok out ->
  (n, s) ∈ out ->
  exists r b bd a c,
    r ∈ dict_values (AddressBook.data book)
    /\ value (ContactRecord.name r) = n
    /\ ContactRecord.birthday r = Some b
    /\ strptime (value b) = Ok bd
    /\ (year a = year today \/ year a = year today + 1)
    /\ month a = month bd /\ day a = day bd
    /\ valid_date a = true /\ date_lt a today = false
    /\ (c = a \/ 5 <= weekday a /\ 1 <= days_between c a <= 2)
    /\ valid_date c = true /\ weekday c <= 4
    /\ 0 <= days_between c today <= days
    /\ s = strftime c.
Proof.
  intros Hout Hin. apply get_upcoming_birthdays_Ok in Hout as (rs & Hrs & ->).
  destruct (in_concat_Forall2 _ _ _ _ Hrs Hin) as (r & es & Hr & Hes & Hx).
  apply entries_of_Ok in Hes as [-> | (b & bd & c & Hb & Hp & Hc & Hw & ->)];
    [by apply elem_of_nil in Hx |].
  apply list_elem_of_singleton in Hx. injection Hx as -> ->.
  apply candidate_Ok in Hc as (a & Ha & Hroll).
  exists r, b, bd, a, c.
  assert (date_new (year a) (month bd) (day bd) = Ok a
          /\ (year a = year today \/ year a = year today + 1)
          /\ date_lt a today = false) as (Hnew & Hy & Hlt).
  { destruct Ha as [[Ha Hlt] | (c0 & _ & _ & Ha)];
      pose proof (date_new_fields _ _ _ _ Ha) as Hf; rewrite Hf; cbn [year].
    - rewrite <- Hf. split; [done |]. split; [by left | done].
    - rewrite <- Hf. split; [done |]. split; [by right |].
      rewrite Hf. by apply date_lt_next_year. }
  pose proof (date_new_fields _ _ _ _ Hnew) as Hf.
  pose proof (date_new_valid _ _ _ _ Hnew) as Hva.
  unfold Spec.in_window in Hw. apply andb_true_iff in Hw as [Hw1 Hw2].
  apply Z.leb_le in Hw1, Hw2.
  repeat (split; [first [done | by rewrite Hf] |]).
  destruct Hroll as [[Hwe ->] | [Hwe Hroll]].
  - split; [by left |]. split; [done |]. split; [| done].
    rewrite <- weekend_test in Hwe. apply Z.leb_gt in Hwe. lia.
  - pose proof (roll_forward_monday _ _ Hwe Hroll) as (Hmon & Hd & _).
    split.
    { right. split; [| done]. rewrite <- weekend_test in Hwe. by apply Z.leb_le in Hwe. }
    split; [by eapply roll_forward_valid |]. split; [lia | done].
Qed.

Lemma get_upcoming_birthdays_entries_witness :
  exists r b bd a c,
    r ∈ dict_values (AddressBook.data dina_book)
    /\ value (ContactRecord.name r) = pystr_of "Dina"
    /\ ContactRecord.birthday r = Some b
    /\ strptime (value b) = Ok bd
    /\ (year a = year (mkdate 2024 6 3) \/ year a = year (mkdate 2024 6 3) + 1)
    /\ month a = month bd /\ day a = day bd
    /\ valid_date a = true /\ date_lt a (mkdate 2024 6 3) = false
    /\ (c = a \/ 5 <= weekday a /\ 1 <= days_between c a <= 2)
    /\ valid_date c = true /\ weekday c <= 4
    /\ 0 <= days_between c (mkdate 2024 6 3) <= 7
    /\ pystr_of "10.06.2024" = strftime c.
Proof.
  apply (get_upcoming_birthdays_entries (mkdate 2024 6 3) 7 dina_book
           [(pystr_of "Dina", pystr_of "10.06.2024")]).
  - vm_compute. reflexivity.
  - apply list_elem_of_singleton. reflexivity.
Defined.

Lemma entries_of_days (today : date) (d1 d2 : Z) (r : ContactRecord.t) :
  d1 <= d2 ->
  match Spec.entries_of today d1 r, Spec.entries_of today d2 r with
  | Ok es1, Ok es2 => sublist es1 es2
  | Raise e1, Raise e2 => e1 = e2
  | _, _ => False
  end.
Proof.
  intros Hd. unfold Spec.entries_of.
  destruct (ContactRecord.birthday r) as [b|]; [| done].
  unfold mbind, result_bind.
  destruct (strptime (value b)) as [bd|e]; [| done].
  destruct (Spec.candidate today bd) as [c|e]; [| done].
  unfold Spec.in_window.
  destruct (0 <=? days_between c today); cbn [andb]; [| done].
  destruct (days_between c today <=? d1) eqn:E1.
  - apply Z.leb_le in E1.
    replace (days_between c today <=? d2) with true by (symmetry; apply Z.leb_le; lia).
    done.
  - destruct (_ <=? d2); [apply sublist_nil_l | done].
Qed.

Lemma sublist_concat {A} (l1 l2 : list (list A)) :
  Forall2 sublist l1 l2 -> sublist (concat l1) (concat l2).
Proof. induction 1; simpl; [done |]. by apply sublist_app. Qed.

(** X3: when get_upcoming_birthdays returns a list for [d2] days, it returns
    for every [d1 <= d2] a list whose items are items of the first, in the
    same order. *)
Theorem get_upcoming_birthdays_monotone (today : date) (d1 d2 : Z) (book : AddressBook.t)
    (out2 : list (pystr * pystr)) :
  d1 <= d2 ->
  AddressBook.get_upcoming_birthdays today d2 book = Ok out2 ->
  exists out1,
    AddressBook.get_upcoming_birthdays today d1 book = Ok out1 /\ sublist out1 out2.
Proof.
  intros Hd Hout. apply get_upcoming_birthdays_Ok in Hout as (rs2 & Hrs & ->).
  assert (exists rs1, Forall2 (fun r es => Spec.entries_of today d1 r = Ok es)
                        (dict_values (AddressBook.data book)) rs1
                      /\ Forall2 sublist rs1 rs2) as (rs1 & H1 & H12).
  { induction Hrs as [|r es2 l rs2 Hr Hl IH].
    - exists []. split; constructor.
    - destruct IH as (rs1 & H1 & H12).
      pose proof (entries_of_days today d1 d2 r Hd) as Hc. rewrite Hr in Hc.
      destruct (Spec.entries_of today d1 r) as [es1|e] eqn:E1; [| done].
      exists (es1 :: rs1). split; by constructor. }
  exists (concat rs1). split; [| by apply sublist_concat].
  apply get_upcoming_birthdays_Ok. by exists rs1.
Qed.

Lemma get_upcoming_birthdays_monotone_witness :
  exists out1,
    AddressBook.get_upcoming_birthdays (mkdate 2024 6 3) 6 dina_book = Ok out1
    /\ sublist out1 [(pystr_of "Dina", pystr_of "10.06.2024")].
Proof.
  apply (get_upcoming_birthdays_monotone (mkdate 2024 6 3) 6 7 dina_book).
  - lia.
  - vm_compute. reflexivity.
Defined.

(** X4: when get_upcoming_birthdays returns, it lists every record whose
    birthday, put into today's year, is a date from Monday to Friday that
    is 0 to [days] days after today, with this date formatted. *)
Theorem get_upcoming_birthdays_lists (today : date) (days : Z) (book : AddressBook.t)
    (out : list (pystr * pystr)) (r : ContactRecord.t) (b : Field) (bd a : date) :
  AddressBook.get_upcoming_birthdays today days book = Ok out ->
  r ∈ dict_values (AddressBook.data book) ->
  ContactRecord.birthday r = Some b ->
  strptime (value b) = Ok bd ->
  valid_date today = true ->
  date_new (year today) (month bd) (day bd) = Ok a ->
  weekday a <= 4 ->
  0 <= days_between a today <= days ->
  (value (ContactRecord.name r), strftime a) ∈ out.
Proof.
  intros Hout Hr Hb Hp Hvt Ha Hwd Hwin.
  apply get_upcoming_birthdays_Ok in Hout as (rs & Hrs & ->).
  assert (Spec.entries_of today days r = Ok [(value (ContactRecord.name r), strftime a)])
    as Hes.
  { unfold Spec.entries_of. rewrite Hb, Hp. unfold mbind, result_bind.
    assert (Spec.candidate today bd = Ok a) as ->.
    { unfold Spec.candidate, Spec.reanchor, mbind, result_bind. rewrite Ha.
      assert (date_lt a today = false) as ->.
      { destruct (date_lt a today) eqn:E; [| done].
        apply date_lt_toordinal in E; [| by eapply date_new_valid | done].
        unfold days_between in Hwin. lia. }
      rewrite <- weekend_test.
      by replace (5 <=? weekday a) with false by (symmetry; apply Z.leb_gt; lia). }
    unfold Spec.in_window.
    replace (0 <=? _) with true by (symmetry; apply Z.leb_le; lia).
    by replace (_ <=? days) with true by (symmetry; apply Z.leb_le; lia). }
  clear Hb Hp. induction Hrs as [|r' es l rs' Hr' Hl IH]; [by apply elem_of_nil in Hr |].
  simpl. apply elem_of_app. apply elem_of_cons in Hr as [<- | Hr].
  - left. rewrite Hes in Hr'. injection Hr' as <-. by apply list_elem_of_singleton.
  - right. by apply IH.
Qed.

Lemma strptime_valid (s : pystr) (bd : date) : strptime s = Ok bd -> valid_date bd = true.
Proof.
  unfold strptime. destruct (format_regex_match s) as [[[[d m] y] rest]|]; [| done].
  destruct rest; [| done]. unfold mbind, result_bind.
  destruct (py_int d); [| done]. destruct (py_int m); [| done]. destruct (py_int y); [| done].
  apply date_new_valid.
Qed.

Lemma date_new_other_year (y : Z) (bd : date) :
  valid_date bd = true -> 1 <= y <= 9999 -> (month bd = 2 -> day bd <> 29) ->
  date_new y (month bd) (day bd) = Ok (mkdate y (month bd) (day bd)).
Proof.
  intros Hv Hy Hleap. apply valid_date_bounds in Hv as (_ & Hm & Hd & _).
  assert (1 <= day bd <= days_in_month y (month bd)) as Hd'.
  { revert Hd. unfold days_in_month.
    destruct (month bd =? 2) eqn:Em.
    - apply Z.eqb_eq in Em. specialize (Hleap Em). rewrite Em.
      destruct (is_leap (year bd)), (is_leap y); cbv [andb tbl DAYS_IN_MONTH Z.to_nat Pos.to_nat Pos.iter_op Nat.add nth]; lia.
    - cbn [andb]. done. }
  unfold date_new, check_date_fields, MINYEAR, MAXYEAR.
  repeat match goal with
  | |- context [negb ((?a <=? ?b) && (?c <=? ?d))] =>
      replace ((a <=? b) && (c <=? d)) with true
        by (symmetry; apply andb_true_iff; split; apply Z.leb_le; lia); cbn [negb]
  end.
  done.
Qed.

Lemma candidate_returns (today bd : date) :
  valid_date bd = true -> 1 <= year today <= 9998 -> (month bd = 2 -> day bd <> 29) ->
  exists c, Spec.candidate today bd = Ok c.
Proof.
  intros Hv Hy Hleap. unfold Spec.candidate, Spec.reanchor, mbind, result_bind.
  rewrite !date_new_other_year by (done || lia).
  assert (forall c1, valid_date c1 = true ->
            exists c, (if Spec.is_weekend c1 then Spec.roll_forward c1 else Ok c1) = Ok c)
    as Hroll.
  { intros c1 Hv1. destruct (Spec.is_weekend c1) eqn:Ew; [| by eexists].
    by apply roll_forward_returns. }
  destruct (date_lt _ today); apply Hroll;
    (eapply date_new_valid; apply date_new_other_year; done || lia).
Qed.

(** X5: in a book where every birthday parses and none is a 29th of February,
    and for a today in the years 1 to 9998, get_upcoming_birthdays returns
    a list. *)
Theorem get_upcoming_birthdays_returns (today : date) (days : Z) (book : AddressBook.t) :
  1 <= year today <= 9998 ->
  (forall r b, r ∈ dict_values (AddressBook.data book) -> ContactRecord.birthday r = Some b ->
     exists bd, strptime (value b) = Ok bd /\ (month bd = 2 -> day bd <> 29)) ->
  exists out, AddressBook.get_upcoming_birthdays today days book = Ok out.
Proof.
  intros Hy Hall. rewrite get_upcoming_birthdays_mapM.
  destruct (mapM_total (Spec.entries_of today days) (dict_values (AddressBook.data book)))
    as [rs Hrs].
  - intros r Hr. unfold Spec.entries_of.
    destruct (ContactRecord.birthday r) as [b|] eqn:Eb; [| by eexists].
    destruct (Hall r b Hr Eb) as (bd & Hp & Hleap). rewrite Hp.
    unfold mbind, result_bind.
    destruct (candidate_returns today bd) as [c ->]; [by eapply strptime_valid | done..|].
    by eexists.
  - set (ml := mapM _ _) in *. unfold mbind, result_bind. rewrite Hrs. by eexists.
Qed.

Lemma get_upcoming_birthdays_lists_witness :
  (pystr_of "Dina", pystr_of "07.06.2024") ∈ [(pystr_of "Dina", pystr_of "07.06.2024")].
Proof.
  apply (get_upcoming_birthdays_lists (mkdate 2024 6 3) 7
           (AddressBook.add_record
              (snd (ContactRecord.add_birthday (pystr_of "07.06.1995")
                      (ContactRecord.init (pystr_of "Dina"))))
              AddressBook.empty)
           [(pystr_of "Dina", pystr_of "07.06.2024")]
           (snd (ContactRecord.add_birthday (pystr_of "07.06.1995")
                      (ContactRecord.init (pystr_of "Dina"))))
           (mkField (pystr_of "07.06.1995")) (mkdate 1995 6 7) (mkdate 2024 6 7)).
  - vm_compute. reflexivity.
  - apply list_elem_of_singleton. reflexivity.
  - reflexivity.
  - vm_compute. reflexivity.
  - reflexivity.
  - reflexivity.
  - vm_compute. discriminate.
  - vm_compute. split; discriminate.
Defined.

Lemma get_upcoming_birthdays_returns_witness :
  exists out, AddressBook.get_upcoming_birthdays (mkdate 2024 6 3) 7 dina_book = Ok out.
Proof.
  apply (get_upcoming_birthdays_returns (mkdate 2024 6 3) 7 dina_book).
  - cbn. lia.
  - intros r b Hr Hb. apply list_elem_of_singleton in Hr. subst r.
    injection Hb as <-. exists (mkdate 1995 6 8). split; [vm_compute; reflexivity |].
    cbn. lia.
Defined.

Lemma names_of_entries (today : date) (days : Z) (l : list ContactRecord.t)
    (rs : list (list (pystr * pystr))) :
  Forall2 (fun r es => Spec.entries_of today days r = Ok es) l rs ->
  sublist (fst <$> concat rs) ((fun r => value (ContactRecord.name r)) <$> l).
Proof.
  induction 1 as [|r es l rs Hr Hl IH]; simpl; [done |].
  rewrite fmap_app.
  apply entries_of_Ok in Hr as [-> | (b & bd & c & _ & _ & _ & _ & ->)]; simpl.
  - by apply sublist_cons.
  - by apply sublist_skip.
Qed.

(** X6: in a book where every record is stored under its name, the names that
    get_upcoming_birthdays returns follow the order of the keys of the
    book (not of the dates), and no name comes twice. *)
Theorem get_upcoming_birthdays_names (today : date) (days : Z) (book : AddressBook.t)
    (out : list (pystr * pystr)) :
  book_inv book ->
  AddressBook.get_upcoming_birthdays today days book = Ok out ->
  sublist (fst <$> out) (dict_keys (AddressBook.data book)) /\ NoDup (fst <$> out).
Proof.
  intros [Hnd Hnames] Hout. apply get_upcoming_birthdays_Ok in Hout as (rs & Hrs & ->).
  apply names_of_entries in Hrs.
  assert ((fun r => value (ContactRecord.name r)) <$> dict_values (AddressBook.data book)
          = dict_keys (AddressBook.data book)) as Hk.
  { unfold dict_values, dict_keys. clear Hnd Hrs.
    induction Hnames as [|[k r] d Hkr Hd IH]; [done |].
    rewrite !fmap_cons. cbn [fst snd] in *. by rewrite Hkr, IH. }
  rewrite Hk in Hrs. split; [done |]. by eapply sublist_NoDup.
Qed.

Lemma get_upcoming_birthdays_names_witness :
  sublist (fst <$> [(pystr_of "Dina", pystr_of "10.06.2024");
                    (pystr_of "Eve", pystr_of "29.02.2024")])
          (dict_keys (AddressBook.data leap_book))
  /\ NoDup (fst <$> [(pystr_of "Dina", pystr_of "10.06.2024");
                     (pystr_of "Eve", pystr_of "29.02.2024")]).
Proof.
  apply (get_upcoming_birthdays_names (mkdate 2024 2 5) 400 leap_book).
  - apply (bool_decide_unpack (book_inv leap_book)). vm_compute. exact I.
  - vm_compute. reflexivity.
Defined.

(** X7: for a weekday 0..6, the date that find_next_weekday returns has
    this weekday and is 1 to 7 days after the start date: the start date
    itself is never returned (from a date of the wanted weekday the result
    is a week later), and no day between them has the weekday. *)
Theorem find_next_weekday_spec (start_date c : date) (wd : Z) :
  0 <= wd <= 6 ->
  AddressBook.find_next_weekday start_date wd = Ok c ->
  weekday c = wd
  /\ 1 <= days_between c start_date <= 7
  /\ (weekday start_date = wd -> days_between c start_date = 7)
  /\ forall k d, 1 <= k < days_between c start_date ->
       date_add_days start_date k = Ok d -> weekday d <> wd.
Proof.
  intros Hwd. unfold AddressBook.find_next_weekday. cbv zeta.
  pose proof (weekday_range start_date) as Hr.
  intros Hadd. pose proof (weekday_date_add_days _ _ _ Hadd) as Hw.
  pose proof (days_between_date_add_days _ _ _ Hadd) as Hdb. rewrite Hdb. clear Hadd Hdb.
  revert Hw. generalize (weekday c). intros wc Hw.
  set (w := weekday start_date) in *.
  destruct (wd - w <=? 0) eqn:E; [apply Z.leb_le in E | apply Z.leb_gt in E].
  - split; [subst wc; Z.div_mod_to_equations; lia |].
    split; [lia |]. split; [lia |].
    intros k d Hk Hd. rewrite (weekday_date_add_days _ _ _ Hd). fold w.
    Z.div_mod_to_equations; lia.
  - split; [subst wc; Z.div_mod_to_equations; lia |].
    split; [lia |]. split; [lia |].
    intros k d Hk Hd. rewrite (weekday_date_add_days _ _ _ Hd). fold w.
    Z.div_mod_to_equations; lia.
Qed.

Lemma find_next_weekday_spec_witness :
  weekday (mkdate 2024 6 17) = 0
  /\ 1 <= days_between (mkdate 2024 6 17) (mkdate 2024 6 10) <= 7
  /\ (weekday (mkdate 2024 6 10) = 0 -> days_between (mkdate 2024 6 17) (mkdate 2024 6 10) = 7)
  /\ forall k d, 1 <= k < days_between (mkdate 2024 6 17) (mkdate 2024 6 10) ->
       date_add_days (mkdate 2024 6 10) k = Ok d -> weekday d <> 0.
Proof.
  apply (find_next_weekday_spec (mkdate 2024 6 10) (mkdate 2024 6 17) 0).
  - lia.
  - vm_compute. reflexivity.
Defined.

(* ===================================================================== *)
(** ** Facts: the command handlers                                      *)
(* ===================================================================== *)

Lemma dict_set_same {V} (d : pydict V) (k : pystr) (v : V) :
  dict_get k d = Some v -> dict_set k v d = d.
Proof.
  induction d as [|[k' v'] d IH]; simpl; [done |].
  destruct (decide (k' = k)); [by intros [= ->] |].
  intros H. by rewrite IH.
Qed.

Lemma dict_set_set {V} (d : pydict V) (k : pystr) (v v' : V) :
  dict_set k v' (dict_set k v d) = dict_set k v' d.
Proof.
  induction d as [|[k0 v0] d IH]; simpl.
  - by rewrite decide_True.
  - destruct (decide (k0 = k)); simpl.
    + by rewrite decide_True.
    + by rewrite decide_False, IH.
Qed.

Lemma changed_same (key : pystr) (r : ContactRecord.t) (book : AddressBook.t) :
  AddressBook.find key book = Some r -> changed key r book = book.
Proof.
  unfold changed, AddressBook.find. intros H. rewrite dict_set_same by done. by destruct book.
Qed.

Lemma find_changed (key : pystr) (r : ContactRecord.t) (book : AddressBook.t) :
  AddressBook.find key (changed key r book) = Some r.
Proof. apply dict_get_set_eq. Qed.

Lemma find_changed_ne (key k : pystr) (r : ContactRecord.t) (book : AddressBook.t) :
  k <> key -> AddressBook.find k (changed key r book) = AddressBook.find k book.
Proof. intros H. apply dict_get_set_ne. congruence. Qed.

Lemma find_add_record_init (name : pystr) (r : ContactRecord.t) (book : AddressBook.t) :
  value (ContactRecord.name r) = name ->
  changed name r (AddressBook.add_record (ContactRecord.init name) book)
  = AddressBook.add_record r book.
Proof.
  intros Hn. unfold changed, AddressBook.add_record. simpl. rewrite Hn.
  by rewrite dict_set_set.
Qed.

Lemma book_inv_changed (key : pystr) (r r' : ContactRecord.t) (book : AddressBook.t) :
  AddressBook.find key book = Some r ->
  ContactRecord.name r' = ContactRecord.name r ->
  book_inv book -> book_inv (changed key r' book).
Proof.
  intros Hf Hn [Hnd Hall]. split; simpl.
  - by apply dict_set_NoDup.
  - apply dict_set_Forall; [| done]. simpl. rewrite Hn.
    apply dict_get_Some_elem in Hf. rewrite Forall_forall in Hall.
    apply (Hall (key, r) Hf).
Qed.

Lemma keys_changed (key : pystr) (r r' : ContactRecord.t) (book : AddressBook.t) :
  AddressBook.find key book = Some r ->
  dict_keys (AddressBook.data (changed key r' book)) = dict_keys (AddressBook.data book).
Proof.
  unfold AddressBook.find. intros Hf. cbn [changed AddressBook.data].
  rewrite dict_keys_set. unfold dict_contains. by rewrite Hf.
Qed.

Lemma keys_add_record (r : ContactRecord.t) (book : AddressBook.t) :
  dict_keys (AddressBook.data (AddressBook.add_record r book))
  = dict_keys (AddressBook.data book)
    ++ match AddressBook.find (value (ContactRecord.name r)) book with
       | Some _ => []
       | None => [value (ContactRecord.name r)]
       end.
Proof.
  cbn [AddressBook.add_record AddressBook.data]. rewrite dict_keys_set.
  unfold dict_contains, AddressBook.find.
  destruct (dict_get _ _); [by rewrite app_nil_r | done].
Qed.

(** What the bodies raise *)

Lemma input_error_returns (func : handler) (args : list pystr) (book : AddressBook.t) :
  (forall e book', func args book = (Raises e, book') -> caught e = true) ->
  exists message book', input_error func args book = (Returns message, book').
Proof.
  intros H. unfold input_error. destruct (func args book) as [[m|e] b] eqn:E; [by eexists _, _ |].
  specialize (H e b eq_refl). unfold caught in H.
  destruct (is_KeyError e); [by eexists _, _ |].
  destruct (is_ValueError e); [by eexists _, _ |].
  destruct (is_IndexError e); [by eexists _, _ | done].
Qed.

Lemma add_phone_outcome (v : pystr) (r : ContactRecord.t) :
  (Phone v = Ok (mkField v)
   /\ ContactRecord.add_phone v r
      = (Ok tt, ContactRecord.set_phones r (ContactRecord.phones r ++ [mkField v])))
  \/ (Phone v = Raise InvalidFormat_phone
      /\ ContactRecord.add_phone v r = (Raise InvalidFormat_phone, r)).
Proof.
  rewrite add_phone_run. destruct (Phone_cases v) as [H | H]; rewrite H; [by left | by right].
Qed.

Lemma add_birthday_outcome (v : pystr) (r : ContactRecord.t) :
  (Birthday v = Ok (mkField v)
   /\ ContactRecord.add_birthday v r
      = (Ok tt, ContactRecord.mk (ContactRecord.name r) (ContactRecord.phones r)
                  (Some (mkField v))))
  \/ (Birthday v = Raise InvalidFormat_birthday
      /\ ContactRecord.add_birthday v r = (Raise InvalidFormat_birthday, r)).
Proof.
  rewrite add_birthday_run. destruct (Birthday_cases v) as [H | H]; rewrite H; [by left | by right].
Qed.

Lemma edit_phone_outcome (old new : pystr) (r : ContactRecord.t) :
  (exists p, ContactRecord.first_with old (ContactRecord.phones r) = Some p
     /\ Phone new = Ok (mkField new)
     /\ ContactRecord.edit_phone old new r
        = (Ok tt, ContactRecord.set_phones r
                    (ContactRecord.list_remove p (ContactRecord.phones r) ++ [mkField new])))
  \/ (exists w, ContactRecord.edit_phone old new r = (Raise (ValueError w), r)
        /\ (ContactRecord.first_with old (ContactRecord.phones r) = None
            \/ Phone new = Raise InvalidFormat_phone)).
Proof.
  rewrite edit_phone_run.
  destruct (ContactRecord.first_with old (ContactRecord.phones r)) as [p|] eqn:Ef.
  - destruct (add_phone_outcome new r) as [[Hp ->] | [Hp ->]].
    + left. exists p. split; [done |]. split; [done |].
      rewrite remove_phone_run. cbn [ContactRecord.set_phones ContactRecord.phones].
      destruct (first_with_Some _ _ _ Ef) as [Hin _].
      by rewrite first_with_app, Ef, list_remove_app_in.
    + right. exists PhoneFormat. split; [done | by right].
  - right. exists OldNumberNotFound. split; [done | by left].
Qed.

Lemma int_of_str_raises (s : pystr) (e : error) :
  int_of_str s = Raises e -> is_ValueError e = true.
Proof.
  unfold int_of_str.
  destruct (match skip_c_spaces _ with [] => _ | _ => _ end) as [sign s'].
  destruct s' as [|c s']; [by intros [= <-] |].
  destruct (c =? underscore)%N; [by intros [= <-] |].
  destruct (scan_digits _ _ _ _) as [[[n digits] rest]|]; [| by intros [= <-]].
  destruct (MAX_STR_DIGITS <? digits); [by intros [= <-] |].
  destruct (digits =? 0); [by intros [= <-] |].
  destruct (skip_c_spaces rest); [done | by intros [= <-]].
Qed.

Lemma str_of_int_raises (n : Z) (e : error) :
  str_of_int n = Raises e -> is_ValueError e = true.
Proof.
  unfold str_of_int. destruct (match Z.to_int n with Decimal.Pos _ => _ | _ => _ end) as [sign ds].
  destruct (MAX_STR_DIGITS <? len ds); [by intros [= <-] | done].
Qed.

Lemma add_contact_body_raises (args : list pystr) (book book' : AddressBook.t) (e : error) :
  add_contact_body args book = (Raises e, book') -> caught e = true.
Proof.
  unfold add_contact_body. destruct args as [|name [|phone rest]]; try by intros [= <- _].
  destruct (AddressBook.find name book) as [r|];
    (destruct phone as [|c phone]; [done |]).
  - destruct (add_phone_outcome (c :: phone) r) as [[_ ->] | [_ ->]]; [done | by intros [= <- _]].
  - destruct (add_phone_outcome (c :: phone) (ContactRecord.init name)) as [[_ ->] | [_ ->]];
      [done | by intros [= <- _]].
Qed.

Lemma change_user_phone_body_raises (args : list pystr) (book book' : AddressBook.t)
    (e : error) :
  change_user_phone_body args book = (Raises e, book') -> caught e = true.
Proof.
  unfold change_user_phone_body.
  destruct args as [|name [|old [|new [|? ?]]]]; try by intros [= <- _].
  destruct (AddressBook.find name book) as [r|]; [| done].
  destruct (edit_phone_outcome old new r) as [(p & _ & _ & ->) | (w & -> & _)];
    [done | by intros [= <- _]].
Qed.

Lemma show_phone_body_raises (args : list pystr) (book book' : AddressBook.t) (e : error) :
  show_phone_body args book = (Raises e, book') -> caught e = true.
Proof.
  unfold show_phone_body. destruct args as [|name rest]; [by intros [= <- _] |].
  destruct (AddressBook.find name book) as [r|]; [| done].
  by destruct (ContactRecord.phones r).
Qed.

Lemma add_birthday_body_raises (args : list pystr) (book book' : AddressBook.t) (e : error) :
  add_birthday_body args book = (Raises e, book') -> caught e = true.
Proof.
  unfold add_birthday_body. destruct args as [|name [|d rest]]; try by intros [= <- _].
  destruct (AddressBook.find name book) as [r|].
  - destruct (add_birthday_outcome d r) as [[_ ->] | [_ ->]]; [done | by intros [= <- _]].
  - destruct (add_birthday_outcome d (ContactRecord.init name)) as [[_ ->] | [_ ->]];
      [done | by intros [= <- _]].
Qed.

Lemma show_birthday_body_raises (args : list pystr) (book book' : AddressBook.t) (e : error) :
  show_birthday_body args book = (Raises e, book') -> caught e = true.
Proof.
  unfold show_birthday_body. destruct args as [|name rest]; [by intros [= <- _] |].
  destruct (AddressBook.find name book) as [r|]; [| done].
  by destruct (ContactRecord.birthday r).
Qed.

Lemma birthdays_body_raises (today : date) (args : list pystr) (book book' : AddressBook.t)
    (e : error) :
  birthdays_body today args book = (Raises e, book') -> caught e = true.
Proof.
  unfold birthdays_body, caught.
  destruct (match args with [] => _ | _ => _ end) as [days|e0] eqn:Ei.
  - destruct (AddressBook.get_upcoming_birthdays today days book) as [up|e1] eqn:Eu.
    + destruct up; [| done].
      destruct (str_of_int days) as [d|e2] eqn:Es; [done |].
      intros [= <- _]. by rewrite (str_of_int_raises _ _ Es).
    + intros [= <- _]. by apply upcoming_raises in Eu as [w ->].
  - intros [= <- _]. destruct args as [|a ?]; [done |]. by rewrite (int_of_str_raises _ _ Ei).
Qed.

Lemma Phone_nonempty (phone : pystr) : Phone phone = Ok (mkField phone) -> phone <> [].
Proof. intros H%Phone_ok_iff. by destruct H as [H _], phone. Qed.

Lemma find_add_record (r : ContactRecord.t) (book : AddressBook.t) :
  AddressBook.find (value (ContactRecord.name r)) (AddressBook.add_record r book) = Some r.
Proof. apply dict_get_set_eq. Qed.

Lemma find_add_record_ne (r : ContactRecord.t) (book : AddressBook.t) (k : pystr) :
  k <> value (ContactRecord.name r) ->
  AddressBook.find k (AddressBook.add_record r book) = AddressBook.find k book.
Proof. intros H. apply dict_get_set_ne. congruence. Qed.

(** What [add_contact] does to the book, for a phone that is not empty. *)
Lemma add_contact_body_run (name phone : pystr) (rest : list pystr) (book : AddressBook.t) :
  phone <> [] ->
  add_contact_body (name :: phone :: rest) book
  = match AddressBook.find name book, Phone phone with
    | Some r, Ok p =>
        (Returns (pystr_of "Contact updated."),
         changed name (ContactRecord.set_phones r (ContactRecord.phones r ++ [p])) book)
    | None, Ok p =>
        (Returns (pystr_of "Contact added."),
         AddressBook.add_record (ContactRecord.mk (mkField name) [p] None) book)
    | Some r, Raise e => (Raises (Exn e), book)
    | None, Raise e => (Raises (Exn e), AddressBook.add_record (ContactRecord.init name) book)
    end.
Proof.
  intros Hne. unfold add_contact_body.
  destruct (AddressBook.find name book) as [r|] eqn:Ef;
    (destruct phone as [|c phone]; [done |]); rewrite add_phone_run;
    destruct (Phone (c :: phone)) as [p|e]; try done.
  - by rewrite changed_same.
  - by rewrite find_add_record_init.
  - rewrite changed_same; [done | apply (find_add_record (ContactRecord.init name))].
Qed.

(** X9: add_contact with a name and a phone that Phone accepts answers
    "Contact added." when the book had no record under the name and
    "Contact updated." when it had one; afterwards the book has under the
    name the record it had (a new one with the name otherwise) with the
    phone appended as its last phone, the other names are as before, and
    the keys are in the order they had, a new name being the last. *)
Theorem add_contact_valid (name phone : pystr) (rest : list pystr) (book : AddressBook.t) :
  Phone phone = Ok (mkField phone) ->
  exists book',
    add_contact (name :: phone :: rest) book
    = (Returns (match AddressBook.find name book with
                | Some _ => pystr_of "Contact updated."
                | None => pystr_of "Contact added."
                end), book')
    /\ AddressBook.find name book'
       = Some (let r := default (ContactRecord.init name) (AddressBook.find name book) in
               ContactRecord.set_phones r (ContactRecord.phones r ++ [mkField phone]))
    /\ (forall k, k <> name -> AddressBook.find k book' = AddressBook.find k book)
    /\ dict_keys (AddressBook.data book')
       = dict_keys (AddressBook.data book)
         ++ match AddressBook.find name book with Some _ => [] | None => [name] end.
Proof.
  intros Hp. unfold add_contact, input_error.
  rewrite add_contact_body_run by by apply Phone_nonempty. rewrite Hp.
  destruct (AddressBook.find name book) as [r|] eqn:Ef; eexists; (split; [done |]).
  - split; [apply find_changed |]. split; [intros k Hk; by apply find_changed_ne |].
    rewrite (keys_changed name r) by done. by rewrite app_nil_r.
  - split; [apply (find_add_record (ContactRecord.mk (mkField name) _ None)) |].
    split; [intros k Hk; by apply find_add_record_ne |].
    rewrite keys_add_record. cbn [ContactRecord.name value]. by rewrite Ef.
Qed.

Lemma add_contact_valid_witness :
  exists book',
    add_contact [pystr_of "Bob"; pystr_of "0501234567"] ann_book
    = (Returns (match AddressBook.find (pystr_of "Bob") ann_book with
                | Some _ => pystr_of "Contact updated."
                | None => pystr_of "Contact added."
                end), book')
    /\ AddressBook.find (pystr_of "Bob") book'
       = Some (let r := default (ContactRecord.init (pystr_of "Bob"))
                          (AddressBook.find (pystr_of "Bob") ann_book) in
               ContactRecord.set_phones r
                 (ContactRecord.phones r ++ [mkField (pystr_of "0501234567")]))
    /\ (forall k, k <> pystr_of "Bob" -> AddressBook.find k book' = AddressBook.find k ann_book)
    /\ dict_keys (AddressBook.data book')
       = dict_keys (AddressBook.data ann_book)
         ++ match AddressBook.find (pystr_of "Bob") ann_book with
            | Some _ => []
            | None => [pystr_of "Bob"]
            end.
Proof.
  apply (add_contact_valid (pystr_of "Bob") (pystr_of "0501234567") [] ann_book).
  reflexivity.
Defined.

(** X10: add_contact with a phone that is not empty and that Phone rejects
    answers "Give me name and phone, please."; a book that has the name is
    unchanged, but in a book without the name the new record, without
    phones, has been added and stays. *)
Theorem add_contact_invalid_phone (name phone : pystr) (rest : list pystr)
    (book : AddressBook.t) :
  phone <> [] -> Phone phone = Raise InvalidFormat_phone ->
  add_contact (name :: phone :: rest) book
  = (Returns (pystr_of "Give me name and phone, please."),
     match AddressBook.find name book with
     | Some _ => book
     | None => AddressBook.add_record (ContactRecord.init name) book
     end).
Proof.
  intros Hne Hp. unfold add_contact, input_error.
  rewrite add_contact_body_run by done. rewrite Hp.
  by destruct (AddressBook.find name book).
Qed.

Lemma add_contact_invalid_phone_witness :
  add_contact [pystr_of "Bob"; pystr_of "12345"] ann_book
  = (Returns (pystr_of "Give me name and phone, please."),
     AddressBook.add_record (ContactRecord.init (pystr_of "Bob")) ann_book)
  /\ AddressBook.find (pystr_of "Bob") ann_book = None.
Proof.
  split; [| reflexivity].
  apply (add_contact_invalid_phone (pystr_of "Bob") (pystr_of "12345") [] ann_book).
  - discriminate.
  - reflexivity.
Defined.

(** X11: change_user_phone for a name of the book, with an old number that the
    record has and a new one that Phone accepts, answers "Contact ...'s
    updated from ... to ..."; the record has lost the first phone with the
    old number and has the new one as its last phone, and the other names
    and the order of the keys are as before. *)
Theorem change_user_phone_valid (name old new : pystr) (book : AddressBook.t)
    (r : ContactRecord.t) (p : Field) :
  AddressBook.find name book = Some r ->
  ContactRecord.first_with old (ContactRecord.phones r) = Some p ->
  Phone new = Ok (mkField new) ->
  exists book',
    change_user_phone [name; old; new] book
    = (Returns (pystr_of "Contact " ++ name ++ pystr_of "'s updated from " ++ old
                ++ pystr_of " to " ++ new ++ pystr_of "."), book')
    /\ AddressBook.find name book'
       = Some (ContactRecord.set_phones r
                 (ContactRecord.list_remove p (ContactRecord.phones r) ++ [mkField new]))
    /\ (forall k, k <> name -> AddressBook.find k book' = AddressBook.find k book)
    /\ dict_keys (AddressBook.data book') = dict_keys (AddressBook.data book).
Proof.
  intros Hf Hold Hnew. unfold change_user_phone, input_error, change_user_phone_body.
  rewrite Hf.
  destruct (edit_phone_outcome old new r) as [(p' & Hp' & _ & ->) | (w & _ & [Hn | Hn])];
    [| congruence..].
  assert (p' = p) as -> by congruence.
  eexists. split; [done |]. split; [apply find_changed |].
  split; [intros k Hk; by apply find_changed_ne |].
  by apply (keys_changed name r).
Qed.

Lemma change_user_phone_valid_witness :
  exists book',
    change_user_phone [pystr_of "Ann"; dup_phone; pystr_of "0987654321"] ann_book
    = (Returns (pystr_of "Contact " ++ pystr_of "Ann" ++ pystr_of "'s updated from "
                ++ dup_phone ++ pystr_of " to " ++ pystr_of "0987654321" ++ pystr_of "."),
       book')
    /\ AddressBook.find (pystr_of "Ann") book'
       = Some (ContactRecord.set_phones dup_record
                 (ContactRecord.list_remove (mkField dup_phone)
                    (ContactRecord.phones dup_record) ++ [mkField (pystr_of "0987654321")]))
    /\ (forall k, k <> pystr_of "Ann" -> AddressBook.find k book' = AddressBook.find k ann_book)
    /\ dict_keys (AddressBook.data book') = dict_keys (AddressBook.data ann_book).
Proof.
  apply (change_user_phone_valid (pystr_of "Ann") dup_phone (pystr_of "0987654321") ann_book
           dup_record (mkField dup_phone)); reflexivity.
Defined.

(** X12: change_user_phone leaves the book as it was, and answers "Contact not
    found." (three arguments, name not in the book) or "Give me name and
    phone, please.", in every case but one: three arguments, a name of the
    book, an old number that the record has and a new number that Phone
    accepts. *)
Theorem change_user_phone_atomic (args : list pystr) (book : AddressBook.t) :
  (exists name old new r p,
      args = [name; old; new]
      /\ AddressBook.find name book = Some r
      /\ ContactRecord.first_with old (ContactRecord.phones r) = Some p
      /\ Phone new = Ok (mkField new))
  \/ (exists name old new,
        args = [name; old; new] /\ AddressBook.find name book = None
        /\ change_user_phone args book = (Returns (pystr_of "Contact not found."), book))
  \/ change_user_phone args book
     = (Returns (pystr_of "Give me name and phone, please."), book).
Proof.
  unfold change_user_phone, input_error, change_user_phone_body.
  destruct args as [|name [|old [|new [|? ?]]]]; try by (right; right).
  destruct (AddressBook.find name book) as [r|] eqn:Ef;
    [| right; left; by exists name, old, new].
  destruct (edit_phone_outcome old new r) as [(p & Hp & Hnew & _) | (w & -> & _)].
  - left. by exists name, old, new, r, p.
  - right. right. by rewrite changed_same.
Qed.

(** X13: the handler add_birthday with a name and a date that Birthday
    accepts answers "Birthday added/updated for contact ..." when the
    book has the name and "Contact ... added with birthday ..." when it
    has not; afterwards the book has under the name the record it had (a
    new one otherwise) with this birthday, the other names are as before,
    and the keys are in the order they had, a new name being the last. *)
Theorem add_birthday_valid (name date_birth : pystr) (rest : list pystr)
    (book : AddressBook.t) :
  Birthday date_birth = Ok (mkField date_birth) ->
  exists book',
    add_birthday (name :: date_birth :: rest) book
    = (Returns (match AddressBook.find name book with
                | Some _ =>
                    pystr_of "Birthday added/updated for contact " ++ name ++ pystr_of "."
                | None =>
                    pystr_of "Contact " ++ name ++ pystr_of " added with birthday "
                    ++ date_birth ++ pystr_of "."
                end), book')
    /\ AddressBook.find name book'
       = Some (let r := default (ContactRecord.init name) (AddressBook.find name book) in
               ContactRecord.mk (ContactRecord.name r) (ContactRecord.phones r)
                 (Some (mkField date_birth)))
    /\ (forall k, k <> name -> AddressBook.find k book' = AddressBook.find k book)
    /\ dict_keys (AddressBook.data book')
       = dict_keys (AddressBook.data book)
         ++ match AddressBook.find name book with Some _ => [] | None => [name] end.
Proof.
  intros Hb. unfold add_birthday, input_error, add_birthday_body.
  destruct (AddressBook.find name book) as [r|] eqn:Ef.
  - destruct (add_birthday_outcome date_birth r) as [[_ ->] | [? _]]; [| congruence].
    eexists. split; [done |]. split; [apply find_changed |].
    split; [intros k Hk; by apply find_changed_ne |].
    rewrite (keys_changed name r) by done. by rewrite app_nil_r.
  - destruct (add_birthday_outcome date_birth (ContactRecord.init name)) as [[_ ->] | [? _]];
      [| congruence].
    eexists. split; [done |].
    split; [apply (find_add_record (ContactRecord.mk (mkField name) [] _)) |].
    split; [intros k Hk; by apply find_add_record_ne |].
    rewrite keys_add_record. cbn [ContactRecord.name ContactRecord.init value].
    by rewrite Ef.
Qed.

Lemma add_birthday_valid_witness :
  exists book',
    add_birthday [pystr_of "Bob"; pystr_of "08.06.1995"] ann_book
    = (Returns (match AddressBook.find (pystr_of "Bob") ann_book with
                | Some _ =>
                    pystr_of "Birthday added/updated for contact " ++ pystr_of "Bob"
                    ++ pystr_of "."
                | None =>
                    pystr_of "Contact " ++ pystr_of "Bob" ++ pystr_of " added with birthday "
                    ++ pystr_of "08.06.1995" ++ pystr_of "."
                end), book')
    /\ AddressBook.find (pystr_of "Bob") book'
       = Some (let r := default (ContactRecord.init (pystr_of "Bob"))
                          (AddressBook.find (pystr_of "Bob") ann_book) in
               ContactRecord.mk (ContactRecord.name r) (ContactRecord.phones r)
                 (Some (mkField (pystr_of "08.06.1995"))))
    /\ (forall k, k <> pystr_of "Bob" -> AddressBook.find k book' = AddressBook.find k ann_book)
    /\ dict_keys (AddressBook.data book')
       = dict_keys (AddressBook.data ann_book)
         ++ match AddressBook.find (pystr_of "Bob") ann_book with
            | Some _ => []
            | None => [pystr_of "Bob"]
            end.
Proof.
  apply (add_birthday_valid (pystr_of "Bob") (pystr_of "08.06.1995") [] ann_book).
  reflexivity.
Defined.

(** X14: the handler add_birthday with a date that Birthday rejects answers
    "Give me name and phone, please." and leaves the book as it was: no
    record is added for a new name (unlike add_contact). *)
Theorem add_birthday_invalid (name date_birth : pystr) (rest : list pystr)
    (book : AddressBook.t) :
  Birthday date_birth = Raise InvalidFormat_birthday ->
  add_birthday (name :: date_birth :: rest) book
  = (Returns (pystr_of "Give me name and phone, please."), book).
Proof.
  intros Hb. unfold add_birthday, input_error, add_birthday_body.
  destruct (AddressBook.find name book) as [r|] eqn:Ef.
  - destruct (add_birthday_outcome date_birth r) as [[? _] | [_ ->]]; [congruence |].
    by rewrite changed_same.
  - by destruct (add_birthday_outcome date_birth (ContactRecord.init name))
      as [[? _] | [_ ->]]; [congruence |].
Qed.

Lemma add_birthday_invalid_witness :
  add_birthday [pystr_of "Bob"; pystr_of "30.02.2024"] ann_book
  = (Returns (pystr_of "Give me name and phone, please."), ann_book).
Proof.
  apply (add_birthday_invalid (pystr_of "Bob") (pystr_of "30.02.2024") [] ann_book).
  reflexivity.
Defined.

(** X15: after add_contact with a name and a phone that Phone accepts,
    show_phone for the name answers "<name>'s phone(s): " followed by the
    phones the record had before and the new phone, joined by "; ", and
    leaves the book as it is. *)
Theorem show_phone_after_add_contact (name phone : pystr) (rest rest' : list pystr)
    (book : AddressBook.t) :
  Phone phone = Ok (mkField phone) ->
  let book' := snd (add_contact (name :: phone :: rest) book) in
  let before := default (ContactRecord.init name) (AddressBook.find name book) in
  show_phone (name :: rest') book'
  = (Returns (name ++ pystr_of "'s phone(s): "
              ++ str_join (pystr_of "; ")
                   ((value <$> ContactRecord.phones before) ++ [phone])), book').
Proof.
  intros Hp book' before.
  assert (AddressBook.find name book'
          = Some (ContactRecord.set_phones before
                    (ContactRecord.phones before ++ [mkField phone]))) as Hfind.
  { subst book' before. unfold add_contact, input_error.
    rewrite add_contact_body_run by by apply Phone_nonempty. rewrite Hp.
    destruct (AddressBook.find name book) as [r|] eqn:Ef; cbn [snd default].
    - apply find_changed.
    - apply (find_add_record (ContactRecord.mk (mkField name) _ None)). }
  unfold show_phone, input_error, show_phone_body. rewrite Hfind.
  cbn [ContactRecord.set_phones ContactRecord.phones].
  destruct (ContactRecord.phones before ++ [mkField phone]) as [|p ps] eqn:E.
  { by apply app_eq_nil in E as [_ ?]. }
  rewrite <- E. by rewrite fmap_app.
Qed.

Lemma show_phone_after_add_contact_witness :
  let book' := snd (add_contact [pystr_of "Ann"; pystr_of "0501234567"] ann_book) in
  show_phone [pystr_of "Ann"] book'
  = (Returns (pystr_of "Ann's phone(s): 1234567890; 0501234567"), book').
Proof.
  apply (show_phone_after_add_contact (pystr_of "Ann") (pystr_of "0501234567") [] [] ann_book).
  reflexivity.
Defined.

(** X16: after the handler add_birthday with a name and a date that Birthday
    accepts, show_birthday for the name answers "<name>'s birthday: "
    followed by the date as it was entered, and leaves the book as it
    is. *)
Theorem show_birthday_after_add_birthday (name date_birth : pystr) (rest rest' : list pystr)
    (book : AddressBook.t) :
  Birthday date_birth = Ok (mkField date_birth) ->
  let book' := snd (add_birthday (name :: date_birth :: rest) book) in
  show_birthday (name :: rest') book'
  = (Returns (name ++ pystr_of "'s birthday: " ++ date_birth), book').
Proof.
  intros Hb book'.
  assert (exists r, AddressBook.find name book' = Some r
                    /\ ContactRecord.birthday r = Some (mkField date_birth))
    as (r & Hfind & Hbr).
  { subst book'. unfold add_birthday, input_error, add_birthday_body.
    destruct (AddressBook.find name book) as [r|] eqn:Ef.
    - destruct (add_birthday_outcome date_birth r) as [[_ ->] | [? _]]; [| congruence].
      eexists. split; [apply find_changed | done].
    - destruct (add_birthday_outcome date_birth (ContactRecord.init name))
        as [[_ ->] | [? _]]; [| congruence].
      eexists. split; [apply (find_add_record (ContactRecord.mk (mkField name) [] _)) | done]. }
  unfold show_birthday, input_error, show_birthday_body. by rewrite Hfind, Hbr.
Qed.

Lemma show_birthday_after_add_birthday_witness :
  let book' := snd (add_birthday [pystr_of "Ann"; pystr_of "8.6.1995"] ann_book) in
  show_birthday [pystr_of "Ann"] book' = (Returns (pystr_of "Ann's birthday: 8.6.1995"), book').
Proof.
  apply (show_birthday_after_add_birthday (pystr_of "Ann") (pystr_of "8.6.1995") [] []
           ann_book).
  reflexivity.
Defined.

(** X17: when a record of the book has a birthday on a 29th of February and
    today's year is not a leap year, or the 29th of February of today's
    year is before today, the command birthdays answers "Give me name and
    phone, please." whatever its arguments are, and lists nothing. *)
Theorem birthdays_leap_day (today : date) (args : list pystr) (book : AddressBook.t)
    (key : pystr) (r : ContactRecord.t) (b : Field) (bd : date) :
  AddressBook.find key book = Some r ->
  ContactRecord.birthday r = Some b ->
  strptime (value b) = Ok bd -> month bd = 2 -> day bd = 29 ->
  is_leap (year today) = false \/ date_lt (mkdate (year today) 2 29) today = true ->
  birthdays today args book = (Returns (pystr_of "Give me name and phone, please."), book).
Proof.
  intros Hfind Hb Hp Hm Hd Hy.
  assert (forall days, exists w,
            AddressBook.get_upcoming_birthdays today days book = Raise (ValueError w))
    as Hraise.
  { intros days.
    destruct (upcoming_loop_raises today days (dict_values (AddressBook.data book)) r)
      with (acc := @nil (pystr * pystr)) as [e He].
    - by apply (find_in_values key).
    - intros acc. by apply (upcoming_step_leap_day today days r b bd).
    - pose proof He as He'. apply upcoming_raises in He' as [w ->]. by exists w. }
  unfold birthdays, input_error, birthdays_body.
  destruct (match args with [] => _ | _ => _ end) as [days|e0] eqn:Ei.
  - destruct (Hraise days) as [w ->]. done.
  - destruct args as [|a ?]; [done |]. by rewrite (int_of_str_raises _ _ Ei).
Qed.

Lemma birthdays_leap_day_witness :
  birthdays (mkdate 2025 1 15) [pystr_of "30"] leap_book
  = (Returns (pystr_of "Give me name and phone, please."), leap_book).
Proof.
  apply (birthdays_leap_day (mkdate 2025 1 15) [pystr_of "30"] leap_book (pystr_of "Eve")
           leap_record (mkField (pystr_of "29.02.2024")) (mkdate 2024 2 29));
    try reflexivity.
  left. reflexivity.
Defined.

Lemma input_error_keeps (P : AddressBook.t -> Prop) (f : handler) (args : list pystr)
    (book : AddressBook.t) :
  P (snd (f args book)) -> P (snd (input_error f args book)).
Proof.
  unfold input_error. destruct (f args book) as [[m|e] b]; [done |].
  destruct (is_KeyError e); [done |]. destruct (is_ValueError e); [done |].
  by destruct (is_IndexError e).
Qed.

Lemma add_contact_body_inv (args : list pystr) (book : AddressBook.t) :
  book_inv book -> book_inv (snd (add_contact_body args book)).
Proof.
  intros Hinv. unfold add_contact_body. destruct args as [|name [|phone rest]]; try done.
  destruct (AddressBook.find name book) as [r|] eqn:Ef.
  - destruct phone as [|c phone]; [done |].
    destruct (add_phone_outcome (c :: phone) r) as [[_ ->] | [_ ->]]; cbn [snd].
    + by apply (book_inv_changed name r).
    + by rewrite changed_same.
  - assert (book_inv (AddressBook.add_record (ContactRecord.init name) book)) as Hinv'
      by by apply book_inv_add_record.
    destruct phone as [|c phone]; [done |].
    pose proof (find_add_record (ContactRecord.init name) book) as Hf.
    destruct (add_phone_outcome (c :: phone) (ContactRecord.init name))
      as [[_ ->] | [_ ->]]; cbn [snd].
    + by apply (book_inv_changed name (ContactRecord.init name)).
    + by rewrite changed_same.
Qed.

Lemma change_user_phone_body_inv (args : list pystr) (book : AddressBook.t) :
  book_inv book -> book_inv (snd (change_user_phone_body args book)).
Proof.
  intros Hinv. unfold change_user_phone_body.
  destruct args as [|name [|old [|new [|? ?]]]]; try done.
  destruct (AddressBook.find name book) as [r|] eqn:Ef; [| done].
  destruct (edit_phone_outcome old new r) as [(p & _ & _ & ->) | (w & -> & _)]; cbn [snd].
  - by apply (book_inv_changed name r).
  - by rewrite changed_same.
Qed.

Lemma show_phone_body_same (args : list pystr) (book : AddressBook.t) :
  snd (show_phone_body args book) = book.
Proof.
  unfold show_phone_body. destruct args as [|name rest]; [done |].
  destruct (AddressBook.find name book) as [r|]; [| done].
  by destruct (ContactRecord.phones r).
Qed.

Lemma add_birthday_body_inv (args : list pystr) (book : AddressBook.t) :
  book_inv book -> book_inv (snd (add_birthday_body args book)).
Proof.
  intros Hinv. unfold add_birthday_body. destruct args as [|name [|d rest]]; try done.
  destruct (AddressBook.find name book) as [r|] eqn:Ef.
  - destruct (add_birthday_outcome d r) as [[_ ->] | [_ ->]]; cbn [snd].
    + by apply (book_inv_changed name r).
    + by rewrite changed_same.
  - destruct (add_birthday_outcome d (ContactRecord.init name)) as [[_ ->] | [_ ->]];
      cbn [snd]; [| done].
    by apply book_inv_add_record.
Qed.

Lemma show_birthday_body_same (args : list pystr) (book : AddressBook.t) :
  snd (show_birthday_body args book) = book.
Proof.
  unfold show_birthday_body. destruct args as [|name rest]; [done |].
  destruct (AddressBook.find name book) as [r|]; [| done].
  by destruct (ContactRecord.birthday r).
Qed.

Lemma birthdays_body_same (today : date) (args : list pystr) (book : AddressBook.t) :
  snd (birthdays_body today args book) = book.
Proof.
  unfold birthdays_body.
  destruct (match args with [] => _ | _ => _ end) as [days|e0]; [| done].
  destruct (AddressBook.get_upcoming_birthdays today days book) as [[|? ?]|e1]; try done.
  by destruct (str_of_int days).
Qed.

(** No body removes a key or changes the order of the keys. *)
Lemma add_contact_body_keys (args : list pystr) (book : AddressBook.t) :
  dict_keys (AddressBook.data book)
  `prefix_of` dict_keys (AddressBook.data (snd (add_contact_body args book))).
Proof.
  unfold add_contact_body. destruct args as [|name [|phone rest]]; try done.
  destruct (AddressBook.find name book) as [r|] eqn:Ef.
  - destruct phone as [|c phone]; [done |].
    destruct (ContactRecord.add_phone (c :: phone) r) as [[[]|e] r'];
      cbn [snd]; by rewrite (keys_changed name r).
  - pose proof (find_add_record (ContactRecord.init name) book) as Hf.
    assert (dict_keys (AddressBook.data book)
            `prefix_of` dict_keys (AddressBook.data
                                    (AddressBook.add_record (ContactRecord.init name) book)))
      as Hp by (rewrite keys_add_record; by apply prefix_app_r).
    destruct phone as [|c phone]; [done |].
    destruct (ContactRecord.add_phone (c :: phone) (ContactRecord.init name)) as [[[]|e] r'];
      cbn [snd]; by rewrite (keys_changed name (ContactRecord.init name)).
Qed.

Lemma change_user_phone_body_keys (args : list pystr) (book : AddressBook.t) :
  dict_keys (AddressBook.data book)
  `prefix_of` dict_keys (AddressBook.data (snd (change_user_phone_body args book))).
Proof.
  unfold change_user_phone_body.
  destruct args as [|name [|old [|new [|? ?]]]]; try done.
  destruct (AddressBook.find name book) as [r|] eqn:Ef; [| done].
  destruct (ContactRecord.edit_phone old new r) as [[[]|e] r'];
    cbn [snd]; by rewrite (keys_changed name r).
Qed.

Lemma add_birthday_body_keys (args : list pystr) (book : AddressBook.t) :
  dict_keys (AddressBook.data book)
  `prefix_of` dict_keys (AddressBook.data (snd (add_birthday_body args book))).
Proof.
  unfold add_birthday_body. destruct args as [|name [|d rest]]; try done.
  destruct (AddressBook.find name book) as [r|] eqn:Ef.
  - destruct (ContactRecord.add_birthday d r) as [[[]|e] r'];
      cbn [snd]; by rewrite (keys_changed name r).
  - destruct (ContactRecord.add_birthday d (ContactRecord.init name)) as [[[]|e] r'];
      cbn [snd]; [| done].
    rewrite keys_add_record. by apply prefix_app_r.
Qed.

(** Every command returns a message; the book keeps its invariant and its
    keys, in their order. *)
Lemma handler_runs (today : date) (args : list pystr) (book : AddressBook.t) :
  Forall (fun h : handler =>
            exists message book',
              h args book = (Returns message, book')
              /\ (book_inv book -> book_inv book')
              /\ dict_keys (AddressBook.data book)
                 `prefix_of` dict_keys (AddressBook.data book'))
    [add_contact; change_user_phone; show_phone; add_birthday; show_birthday;
     birthdays today].
Proof.
  assert (forall f : handler,
            (forall e book', f args book = (Raises e, book') -> caught e = true) ->
            (book_inv book -> book_inv (snd (f args book))) ->
            dict_keys (AddressBook.data book)
            `prefix_of` dict_keys (AddressBook.data (snd (f args book))) ->
            exists message book',
              input_error f args book = (Returns message, book')
              /\ (book_inv book -> book_inv book')
              /\ dict_keys (AddressBook.data book)
                 `prefix_of` dict_keys (AddressBook.data book')) as Hdec.
  { intros f Hr Hi Hp. destruct (input_error_returns f args book Hr) as (m & b & Hrun).
    exists m, b. split; [done |]. split.
    - intros Hinv.
      pose proof (input_error_keeps book_inv f args book (Hi Hinv)) as Hk.
      by rewrite Hrun in Hk.
    - pose proof (input_error_keeps
                    (fun b' => dict_keys (AddressBook.data book)
                               `prefix_of` dict_keys (AddressBook.data b'))
                    f args book Hp) as Hk.
      by rewrite Hrun in Hk. }
  repeat (apply Forall_cons_2); try apply Forall_nil_2; apply Hdec.
  - intros e b. apply add_contact_body_raises.
  - apply add_contact_body_inv.
  - apply add_contact_body_keys.
  - intros e b. apply change_user_phone_body_raises.
  - apply change_user_phone_body_inv.
  - apply change_user_phone_body_keys.
  - intros e b. apply show_phone_body_raises.
  - by rewrite show_phone_body_same.
  - by rewrite show_phone_body_same.
  - intros e b. apply add_birthday_body_raises.
  - apply add_birthday_body_inv.
  - apply add_birthday_body_keys.
  - intros e b. apply show_birthday_body_raises.
  - by rewrite show_birthday_body_same.
  - by rewrite show_birthday_body_same.
  - intros e b. apply birthdays_body_raises.
  - by rewrite birthdays_body_same.
  - by rewrite birthdays_body_same.
Qed.

(** X8: each of the six decorated command handlers, on any arguments and any
    book, returns a message: every exception that a handler body raises is
    a ValueError or an IndexError, which input_error turns into a message.
    The book they leave is again one where every record is stored under
    its name, if the book was, and its keys begin with the keys of the
    book before, in the same order (no handler removes a contact);
    show_phone, show_birthday and birthdays leave the book as it is. *)
Theorem handlers_total (today : date) (args : list pystr) (book : AddressBook.t) :
  Forall (fun h : handler =>
            exists message book',
              h args book = (Returns message, book')
              /\ (book_inv book -> book_inv book')
              /\ dict_keys (AddressBook.data book)
                 `prefix_of` dict_keys (AddressBook.data book'))
    [add_contact; change_user_phone; show_phone; add_birthday; show_birthday;
     birthdays today]
  /\ snd (show_phone args book) = book
  /\ snd (show_birthday args book) = book
  /\ snd (birthdays today args book) = book.
Proof.
  split; [apply handler_runs |].
  split; [| split]; apply (input_error_keeps (fun b => b = book)).
  - apply show_phone_body_same.
  - apply show_birthday_body_same.
  - apply birthdays_body_same.
Qed.

(* ===================================================================== *)
(** ** Facts: the session                                               *)
(* ===================================================================== *)

Lemma str_lstrip_blank (s : pystr) : blank s = true -> str_lstrip s = [].
Proof.
  unfold blank. induction s as [|c s IH]; simpl; [done |].
  intros [Hc Hs]%andb_true_iff. rewrite Hc. by apply IH.
Qed.

Lemma str_split_from_blank (w s : pystr) :
  blank s = true -> str_split_from w s = match w with [] => [] | _ :: _ => [w] end.
Proof.
  unfold blank. revert w. induction s as [|c s IH]; intros w; simpl; [done |].
  intros [Hc Hs]%andb_true_iff. rewrite Hc. rewrite IH by done. by destruct w.
Qed.

Lemma str_split_from_app_blank (w s t : pystr) :
  blank t = true -> str_split_from w (s ++ t) = str_split_from w s.
Proof.
  intros Ht. revert w. induction s as [|c s IH]; intros w; simpl.
  - by apply str_split_from_blank.
  - destruct (char_isspace c); [| by apply IH]. rewrite IH. done.
Qed.

Lemma str_split_lstrip (s : pystr) : str_split (str_lstrip s) = str_split s.
Proof.
  unfold str_split. induction s as [|c s IH]; simpl; [done |].
  destruct (char_isspace c) eqn:E; [done |]. simpl. by rewrite E.
Qed.

(** A text is its [rstrip] followed by whitespace. *)
Lemma str_lstrip_split (s : pystr) : exists t, s = t ++ str_lstrip s /\ blank t = true.
Proof.
  induction s as [|c s IH]; simpl; [by exists [] |].
  destruct (char_isspace c) eqn:E; [| by exists []].
  destruct IH as (t & Hs & Ht). exists (c :: t). split; [by rewrite Hs at 1 |].
  unfold blank in *. simpl. by rewrite E.
Qed.

Lemma forallb_reverse {A} (f : A -> bool) (l : list A) :
  forallb f (reverse l) = forallb f l.
Proof.
  induction l as [|x l IH]; [done |].
  rewrite reverse_cons, forallb_app, IH. simpl. rewrite andb_true_r. apply andb_comm.
Qed.

Lemma blank_reverse (t : pystr) : blank (reverse t) = blank t.
Proof. apply forallb_reverse. Qed.

Lemma str_rstrip_split (s : pystr) : exists t, s = str_rstrip s ++ t /\ blank t = true.
Proof.
  unfold str_rstrip. destruct (str_lstrip_split (reverse s)) as (t & Hs & Ht).
  exists (reverse t). split; [| by rewrite blank_reverse].
  rewrite <- reverse_app, <- Hs. by rewrite reverse_involutive.
Qed.

Lemma str_split_strip (s : pystr) : str_split (str_strip s) = str_split s.
Proof.
  unfold str_strip. rewrite <- (str_split_lstrip s).
  destruct (str_rstrip_split (str_lstrip s)) as (t & Hs & Ht).
  rewrite Hs at 2. unfold str_split. by rewrite str_split_from_app_blank.
Qed.

Lemma str_split_from_words (w s : pystr) :
  forallb (fun c => negb (char_isspace c)) w = true ->
  Forall (fun a => is_word a = true) (str_split_from w s).
Proof.
  revert w. induction s as [|c s IH]; intros w Hw; simpl.
  - destruct w as [|c' w']; constructor; [done | constructor].
  - destruct (char_isspace c) eqn:E.
    + destruct w as [|c' w']; [by apply IH |]. constructor; [done | by apply IH].
    + apply IH. rewrite forallb_app, Hw. simpl. by rewrite E.
Qed.

Lemma str_split_from_nil (w s : pystr) :
  str_split_from w s = [] <-> w = [] /\ blank s = true.
Proof.
  unfold blank. revert w. induction s as [|c s IH]; intros w; simpl.
  - destruct w; [done |]. split; [done | by intros [? _]].
  - destruct (char_isspace c) eqn:E; simpl.
    + destruct w; [apply IH |]. split; [done | by intros [? _]].
    + rewrite IH. split; [| by intros [_ ?]]. intros [H _]. by destruct w.
Qed.

Lemma is_word_lstrip (w : pystr) : is_word w = true -> str_lstrip w = w.
Proof.
  destruct w as [|c w]; [done |]. simpl. intros [Hc _]%andb_true_iff.
  by apply negb_true_iff in Hc as ->.
Qed.

Lemma is_word_reverse (w : pystr) : is_word (reverse w) = is_word w.
Proof.
  unfold is_word.
  pose proof (forallb_reverse (fun c => negb (char_isspace c)) w) as Hf.
  destruct w as [|c w]; [done |]. rewrite <- Hf.
  destruct (reverse (c :: w)) eqn:E; [| done].
  apply (f_equal reverse) in E. rewrite reverse_involutive in E. done.
Qed.

Lemma is_word_strip (w : pystr) : is_word w = true -> str_strip w = w.
Proof.
  intros Hw. unfold str_strip, str_rstrip. rewrite (is_word_lstrip w) by done.
  rewrite is_word_lstrip by by rewrite is_word_reverse. apply reverse_involutive.
Qed.

Lemma Record_str_run (r : ContactRecord.t) :
  exists s, Record_str r = (Ok s, r).
Proof.
  unfold Record_str, ContactRecord.value_birthday.
  unfold mbind, ContactRecord.M_bind, ContactRecord.bind, ContactRecord.get, mret,
    ContactRecord.M_ret, ContactRecord.ret.
  destruct (ContactRecord.birthday r) as [b|] eqn:Eb.
  - unfold mbind, ContactRecord.M_bind, ContactRecord.bind, ContactRecord.get, mret,
      ContactRecord.M_ret, ContactRecord.ret. rewrite Eb. by eexists.
  - by eexists.
Qed.

Lemma strs_of_returns (records : list ContactRecord.t) :
  exists l, strs_of records = Ok l /\ length l = length records.
Proof.
  induction records as [|r records (l & Hl & Hlen)]; simpl; [by exists [] |].
  destruct (Record_str_run r) as [s ->]. simpl. rewrite Hl.
  exists (s :: l). split; [done |]. simpl. by rewrite Hlen.
Qed.

Lemma display_all_contacts_returns (book : AddressBook.t) :
  exists lines, display_all_contacts book = Ok lines.
Proof.
  unfold display_all_contacts. destruct (AddressBook.data book) as [|kr d] eqn:E; [by eexists |].
  destruct (strs_of_returns (dict_values (kr :: d))) as (l & Hl & _). by exists l.
Qed.

Section session_facts.
Variable lower : pystr -> pystr.

Lemma parse_input_run (user_input : pystr) :
  parse_input lower user_input
  = match str_split user_input with
    | w :: args => Returns (lower w, args)
    | [] => Raises UnpackError
    end.
Proof.
  unfold parse_input. rewrite str_split_strip.
  pose proof (str_split_from_words [] user_input eq_refl) as Hw. fold (str_split user_input) in Hw.
  destruct (str_split user_input) as [|w args]; [done |].
  apply Forall_cons in Hw as [Hw _]. by rewrite is_word_strip.
Qed.

(** X18: parse_input raises a ValueError (from the unpacking) exactly on a
    line of whitespace only; on any other line it returns the first word,
    lowered, and the other words, where the words are the maximal runs
    without whitespace, so that none of them is empty. *)
Theorem parse_input_spec (user_input : pystr) :
  match parse_input lower user_input with
  | Raises e => e = UnpackError /\ blank user_input = true
  | Returns (command, args) =>
      blank user_input = false
      /\ exists w, str_split user_input = w :: args /\ command = lower w
           /\ Forall (fun a => is_word a = true) (w :: args)
  end.
Proof.
  rewrite parse_input_run.
  pose proof (str_split_from_words [] user_input eq_refl) as Hw.
  pose proof (str_split_from_nil [] user_input) as Hn.
  fold (str_split user_input) in Hw, Hn.
  destruct (str_split user_input) as [|w args].
  - split; [done |]. by apply Hn.
  - split; [| by exists w]. destruct (blank user_input); [| done].
    destruct Hn as [_ Hn]. by specialize (Hn (conj eq_refl eq_refl)).
Qed.

(** One turn of the loop on a line that is not blank and does not leave. *)
Lemma main_loop_step (today : date) (user_input : pystr) (book : AddressBook.t) :
  blank user_input = false -> leaves lower user_input = false ->
  exists book' lines,
    ((book_inv book -> book_inv book')
     /\ dict_keys (AddressBook.data book) `prefix_of` dict_keys (AddressBook.data book'))
    /\ forall inputs printed,
         main_loop lower ((today, user_input) :: inputs) book printed
         = main_loop lower inputs book' (printed ++ lines).
Proof.
  intros Hb Hl. unfold leaves in Hl.
  pose proof (parse_input_spec user_input) as Hp.
  destruct (parse_input lower user_input) as [[command args]|e] eqn:Ep;
    [| destruct Hp; congruence].
  clear Hp.
  pose proof (handler_runs today args book) as Hh.
  repeat (apply Forall_cons in Hh as [? Hh]).
  repeat match goal with
  | H : exists message book', _ /\ _ |- _ =>
      let m := fresh "m" in let b := fresh "b" in let H1 := fresh "Hrun" in
      let H2 := fresh "Hinv" in let H3 := fresh "Hkeys" in
      destruct H as (m & b & H1 & H2 & H3)
  end.
  destruct (display_all_contacts_returns book) as [lines Hall].
  cbn [main_loop]. rewrite Ep, Hl.
  repeat match goal with
  | |- context [bool_decide (command = ?c)] => destruct (bool_decide (command = c))
  end;
    repeat match goal with
    | H : _ = (Returns _, _) |- _ => rewrite H; clear H
    end; rewrite ?Hall;
    eexists _, _; (split; [| intros inputs printed; reflexivity]); done.
Qed.

Lemma main_loop_endings (inputs : list (date * pystr)) (book : AddressBook.t)
    (printed0 printed : list pystr) (e : ending) :
  main_loop lower inputs book printed0 = (printed, e) ->
  match e with
  | Saved book' =>
      (book_inv book -> book_inv book')
      /\ dict_keys (AddressBook.data book) `prefix_of` dict_keys (AddressBook.data book')
      /\ exists pre today user_input rest,
           inputs = pre ++ (today, user_input) :: rest
           /\ Forall (fun l => blank (snd l) = false /\ leaves lower (snd l) = false) pre
           /\ leaves lower user_input = true
  | Crashed err =>
      (err = EOFError
       /\ Forall (fun l => blank (snd l) = false /\ leaves lower (snd l) = false) inputs)
      \/ (err = UnpackError
          /\ exists pre today user_input rest,
               inputs = pre ++ (today, user_input) :: rest
               /\ Forall (fun l => blank (snd l) = false /\ leaves lower (snd l) = false) pre
               /\ blank user_input = true)
  end.
Proof.
  revert book printed0. induction inputs as [|[today user_input] inputs IH];
    intros book printed0.
  - cbn [main_loop]. intros [= <- <-]. left. by split.
  - destruct (blank user_input) eqn:Hb.
    { pose proof (parse_input_spec user_input) as Hp. cbn [main_loop].
      destruct (parse_input lower user_input) as [[command args]|err] eqn:Ep.
      - destruct Hp; congruence.
      - destruct Hp as [-> _]. intros [= <- <-]. right. split; [done |].
        by exists [], today, user_input, inputs. }
    destruct (leaves lower user_input) eqn:Hl.
    { cbn [main_loop]. unfold leaves in Hl.
      destruct (parse_input lower user_input) as [[command args]|err] eqn:Ep; [| done].
      rewrite Hl. intros [= <- <-]. split; [done |]. split; [done |].
      exists [], today, user_input, inputs. split; [done |]. split; [constructor |].
      unfold leaves. by rewrite Ep. }
    destruct (main_loop_step today user_input book Hb Hl)
      as (book' & lines & [Hinv Hkeys] & Hstep).
    rewrite Hstep. intros Hrun. specialize (IH _ _ Hrun).
    destruct e as [book''|err].
    + destruct IH as (Hinv' & Hkeys' & pre & t & u & rest & -> & Hpre & Hu).
      split; [tauto |]. split; [by etrans |].
      exists ((today, user_input) :: pre), t, u, rest.
      split; [done |]. split; [by constructor | done].
    + destruct IH as [[-> Hall] | (-> & pre & t & u & rest & -> & Hpre & Hu)].
      * left. split; [done | by constructor].
      * right. split; [done |]. exists ((today, user_input) :: pre), t, u, rest.
        split; [done |]. split; [by constructor | done].
Qed.

(** X19: how main ends: it saves the book only when a line with the command
    close or exit is read after lines that are neither blank nor leave;
    otherwise it ends with an exception and nothing is saved: EOFError
    when the lines run out, or the ValueError of parse_input at a blank
    line. No command handler ends the session. The saved book satisfies
    the invariant of the book if the loaded one did, and its keys begin
    with the keys of the loaded book, in the same order: no command
    removes a contact. *)
Theorem main_endings (book : AddressBook.t) (inputs : list (date * pystr))
    (printed : list pystr) (e : ending) :
  main lower book inputs = (printed, e) ->
  match e with
  | Saved book' =>
      (book_inv book -> book_inv book')
      /\ dict_keys (AddressBook.data book) `prefix_of` dict_keys (AddressBook.data book')
      /\ exists pre today user_input rest,
           inputs = pre ++ (today, user_input) :: rest
           /\ Forall (fun l => blank (snd l) = false /\ leaves lower (snd l) = false) pre
           /\ leaves lower user_input = true
  | Crashed err =>
      (err = EOFError
       /\ Forall (fun l => blank (snd l) = false /\ leaves lower (snd l) = false) inputs)
      \/ (err = UnpackError
          /\ exists pre today user_input rest,
               inputs = pre ++ (today, user_input) :: rest
               /\ Forall (fun l => blank (snd l) = false /\ leaves lower (snd l) = false) pre
               /\ blank user_input = true)
  end.
Proof. apply main_loop_endings. Qed.

(** X20: after lines that are neither blank nor leave, main ends with EOFError
    when the input ends, with a ValueError and without saving at a blank
    line, and with "Good bye!" and the book saved at a line with close or
    exit, whatever lines follow it; the book that would be saved keeps the
    invariant and the keys of the loaded book. *)
Theorem main_stops (book : AddressBook.t) (pre : list (date * pystr)) :
  Forall (fun l => blank (snd l) = false /\ leaves lower (snd l) = false) pre ->
  exists printed book',
    (book_inv book -> book_inv book')
    /\ dict_keys (AddressBook.data book) `prefix_of` dict_keys (AddressBook.data book')
    /\ main lower book pre = (printed, Crashed EOFError)
    /\ (forall today user_input rest,
          blank user_input = true ->
          main lower book (pre ++ (today, user_input) :: rest) = (printed, Crashed UnpackError))
    /\ (forall today user_input rest,
          leaves lower user_input = true ->
          main lower book (pre ++ (today, user_input) :: rest)
          = (printed ++ [pystr_of "Good bye!"], Saved book')).
Proof.
  unfold main. generalize (display_message (pystr_of "Welcome to the assistant bot!")).
  intros printed0 Hpre. revert book printed0.
  induction Hpre as [|[today user_input] pre [Hb Hl] Hpre IH]; intros book printed0.
  - exists printed0, book. split; [done |]. split; [done |]. split; [done |]. split.
    + intros today user_input rest Hb. cbn [app main_loop].
      pose proof (parse_input_spec user_input) as Hp.
      destruct (parse_input lower user_input) as [[command args]|err];
        [destruct Hp; congruence | by destruct Hp as [-> _]].
    + intros today user_input rest Hl. cbn [app main_loop]. unfold leaves in Hl.
      destruct (parse_input lower user_input) as [[command args]|err]; [| done].
      by rewrite Hl.
  - cbn [snd] in Hb, Hl.
    destruct (main_loop_step today user_input book Hb Hl)
      as (book1 & lines & [Hinv Hkeys] & Hstep).
    destruct (IH book1 (printed0 ++ lines))
      as (printed & book' & Hinv' & Hkeys' & Heof & Hblank & Hexit).
    exists printed, book'. split; [tauto |]. split; [by etrans |].
    split; [by rewrite Hstep |]. split.
    + intros t u rest Hu. rewrite <- app_comm_cons, Hstep. by apply Hblank.
    + intros t u rest Hu. rewrite <- app_comm_cons, Hstep. by apply Hexit.
Qed.

End session_facts.

(** A session and what it prints; the line after the one that leaves is
    not read. *)
Example session_transcript :
  main lower_ascii AddressBook.empty sample_session
  = ([pystr_of "Welcome to the assistant bot!";
      pystr_of "Contact added.";
      pystr_of "Bob's phone(s): 0501234567";
      pystr_of "Birthday added/updated for contact Bob.";
      pystr_of "Bob: 10.06.2024";
      pystr_of "No upcoming birthdays within the next 3 day(s).";
      pystr_of "Name: Bob, phones: 0501234567, birthday: 08.06.1995";
      pystr_of "Invalid command.";
      pystr_of "Good bye!"],
     Saved bob_book).
Proof. vm_compute. reflexivity. Qed.

Lemma main_endings_witness :
  (book_inv AddressBook.empty -> book_inv bob_book)
  /\ dict_keys (AddressBook.data AddressBook.empty)
     `prefix_of` dict_keys (AddressBook.data bob_book)
  /\ exists pre today user_input rest,
       sample_session = pre ++ (today, user_input) :: rest
       /\ Forall (fun l => blank (snd l) = false /\ leaves lower_ascii (snd l) = false) pre
       /\ leaves lower_ascii user_input = true.
Proof.
  apply (main_endings lower_ascii AddressBook.empty sample_session
           (fst (main lower_ascii AddressBook.empty sample_session)) (Saved bob_book)).
  vm_compute. reflexivity.
Defined.

Lemma main_stops_witness :
  exists printed book',
    (book_inv AddressBook.empty -> book_inv book')
    /\ dict_keys (AddressBook.data AddressBook.empty)
       `prefix_of` dict_keys (AddressBook.data book')
    /\ main lower_ascii AddressBook.empty (take 7 sample_session)
       = (printed, Crashed EOFError)
    /\ (forall today user_input rest,
          blank user_input = true ->
          main lower_ascii AddressBook.empty
            (take 7 sample_session ++ (today, user_input) :: rest)
          = (printed, Crashed UnpackError))
    /\ (forall today user_input rest,
          leaves lower_ascii user_input = true ->
          main lower_ascii AddressBook.empty
            (take 7 sample_session ++ (today, user_input) :: rest)
          = (printed ++ [pystr_of "Good bye!"], Saved book')).
Proof.
  apply (main_stops lower_ascii AddressBook.empty (take 7 sample_session)).
  apply (bool_decide_unpack _). vm_compute. exact I.
Defined.

(* ===================================================================== *)
(** ** Facts: shallow copies                                            *)
(* ===================================================================== *)

Section shallow_facts.
Import Store Shallow.
#[local] Open Scope nat_scope.

Lemma kept_alloc (h : heap) (o : obj) : kept h (h ++ [o]).
Proof. intros l o' H. rewrite lookup_app_l; [done |]. by eapply lookup_lt_Some. Qed.

Lemma kept_trans (h1 h2 h3 : heap) : kept h1 h2 -> kept h2 h3 -> kept h1 h3.
Proof. intros H12 H23 l o H. eauto. Qed.

Lemma kept_update_new (h : heap) (o : obj) (h' : heap) (l : nat) :
  kept h h' -> length h <= l -> kept h (<[l := o]> h').
Proof.
  intros Hk Hl x o' H. rewrite list_lookup_insert_ne; [by apply Hk |].
  apply lookup_lt_Some in H. lia.
Qed.

(** Filling an empty [__dict__] with the items of another gives the same
    items. *)
Lemma dict_update_run (new : nat) (cls : class_name) (items acc : pydict val) (h : heap) :
  h !! new = Some (OInst cls acc) ->
  NoDup (dict_keys (acc ++ items)) ->
  dict_update (VRef new) items h = (Ok tt, <[new := OInst cls (acc ++ items)]> h).
Proof.
  revert acc h. induction items as [|[key v] items IH]; intros acc h Hnew Hnd.
  - simpl. unfold mret, H_ret, ret. rewrite app_nil_r. by rewrite list_insert_id.
  - cbn [dict_update]. unfold mbind, H_bind, bind, setattr. rewrite Hnew.
    assert (dict_set key v acc = acc ++ [(key, v)]) as Hset.
    { unfold dict_keys in Hnd. rewrite fmap_app, fmap_cons in Hnd.
      apply NoDup_app in Hnd as (_ & Hdis & _).
      assert (key ∉ fst <$> acc) as Hk.
      { intros Hin. apply (Hdis key Hin). apply elem_of_cons. by left. }
      clear -Hk. induction acc as [|[k' v'] acc IH]; simpl; [done |].
      rewrite fmap_cons in Hk. apply not_elem_of_cons in Hk as [Hne Hk].
      rewrite decide_False by done. by rewrite IH. }
    rewrite Hset. rewrite (IH (acc ++ [(key, v)])).
    + rewrite list_insert_insert_eq. by rewrite <- app_assoc.
    + apply list_lookup_insert_eq. by eapply lookup_lt_Some.
    + by rewrite <- app_assoc.
Qed.

Lemma copy_run (h : heap) (l : nat) (cls : class_name) (attrs : pydict val) :
  h !! l = Some (OInst cls attrs) -> NoDup (dict_keys attrs) ->
  copy (VRef l) h = (Ok (VRef (length h)), h ++ [OInst cls attrs]).
Proof.
  intros Hl Hnd. unfold copy, instance, mbind, H_bind, bind. rewrite Hl.
  unfold alloc at 1.
  rewrite (dict_update_run (length h) cls attrs []).
  - unfold mret, H_ret, ret. f_equal.
    rewrite insert_app_r_alt by done. by rewrite Nat.sub_diag.
  - rewrite lookup_app_r by done. by rewrite Nat.sub_diag.
  - done.
Qed.

Lemma record_keys_NoDup (n ps b : val) :
  NoDup (dict_keys [(attr_name, n); (attr_phones, ps); (attr_birthday, b)]).
Proof. apply (bool_decide_unpack _). vm_compute. exact I. Qed.

(** Reading a record needs its own objects only. *)
Lemma read_record_same (h h' : heap) (l l' : nat) (r : ContactRecord.t)
    (n b : val) (pl : nat) (items : list val) :
  kept_inst h h' ->
  h !! l = Some (OInst CRecord [(attr_name, n); (attr_phones, VRef pl); (attr_birthday, b)]) ->
  h' !! l' = Some (OInst CRecord [(attr_name, n); (attr_phones, VRef pl); (attr_birthday, b)]) ->
  h !! pl = Some (OList items) -> h' !! pl = Some (OList items) ->
  read_record h (VRef l) = Some r -> read_record h' (VRef l') = Some r.
Proof.
  intros Hk Hl Hl' Hpl Hpl' Hr.
  destruct (read_record_inv _ _ _ Hr) as (n0 & pl0 & items0 & b0 & Hl0 & Hn & Hpl0 & Hps & Hb).
  rewrite Hl in Hl0. injection Hl0 as <- <- <-. rewrite Hpl in Hpl0. injection Hpl0 as <-.
  destruct r as [fn fps fb]. simpl in *.
  eapply read_record_intro; [exact Hl' | | exact Hpl' | |].
  - by eapply read_field_kept_inst.
  - by eapply read_phones_kept_inst.
  - by eapply read_optional_field_kept_inst.
Qed.

(** X24: Record.__copy__ returns a new object that reads as the same record,
    and leaves the original as it is; the two share the list of phones and
    the fields: a phone added to the copy is added to the original too,
    while a birthday set on the copy is not set on the original. *)
Theorem Record_copy_shares (h : heap) (l : nat) (r : ContactRecord.t) :
  read_record h (VRef l) = Some r ->
  exists h1,
    Record_copy (VRef l) h = (Ok (VRef (length h)), h1)
    /\ l <> length h
    /\ read_record h1 (VRef (length h)) = Some r
    /\ read_record h1 (VRef l) = Some r
    /\ (forall phone, Phone phone = Ok (mkField phone) ->
          exists h2,
            add_phone (VRef (length h)) phone h1 = (Ok tt, h2)
            /\ read_record h2 (VRef l)
               = Some (ContactRecord.set_phones r (ContactRecord.phones r ++ [mkField phone])))
    /\ (forall birthday, Birthday birthday = Ok (mkField birthday) ->
          exists h2,
            add_birthday (VRef (length h)) birthday h1 = (Ok tt, h2)
            /\ read_record h2 (VRef l) = Some r
            /\ read_record h2 (VRef (length h))
               = Some (ContactRecord.mk (ContactRecord.name r) (ContactRecord.phones r)
                         (Some (mkField birthday)))).
Proof.
  intros Hr.
  destruct (read_record_inv _ _ _ Hr) as (n & pl & items & b & Hl & Hn & Hpl & Hps & Hb).
  set (o := OInst CRecord [(attr_name, n); (attr_phones, VRef pl); (attr_birthday, b)]) in *.
  assert (Hlen : l < length h) by by eapply lookup_lt_Some.
  assert (Hlenp : pl < length h) by by eapply lookup_lt_Some.
  exists (h ++ [o]).
  assert (Hnew : (h ++ [o]) !! length h = Some o).
  { rewrite lookup_app_r by done. by rewrite Nat.sub_diag. }
  assert (Hr1 : read_record (h ++ [o]) (VRef (length h)) = Some r).
  { eapply (read_record_same h); [apply kept_inst_alloc | exact Hl | exact Hnew | exact Hpl | | done].
    by apply kept_alloc. }
  assert (Hr1' : read_record (h ++ [o]) (VRef l) = Some r).
  { eapply read_record_kept; [apply kept_alloc | done]. }
  split; [apply copy_run; [done | apply record_keys_NoDup] |].
  split; [lia |]. split; [done |]. split; [done |]. split.
  - intros phone Hp.
    destruct (add_phone_simulates _ _ _ phone Hr1) as (h2 & Hrun & Hr2).
    rewrite add_phone_run, Hp in Hrun, Hr2. cbn [fst snd] in Hrun, Hr2.
    exists h2. split; [done |].
    (* the list of phones is the same object *)
    revert Hrun. unfold add_phone. unfold mbind at 1. unfold H_bind, bind.
    rewrite (getattr_phones _ _ _ _ _ Hnew).
    unfold Phone_new, mbind, H_bind, bind, lift. rewrite Hp.
    unfold list_append, mbind, H_bind, bind, list_items, list_store, alloc.
    assert (Hpl1 : (h ++ [o]) !! pl = Some (OList items)) by by apply kept_alloc.
    rewrite (lookup_app_l (h ++ [o])) by (by eapply lookup_lt_Some). rewrite Hpl1.
    rewrite (lookup_app_l (h ++ [o])) by (by eapply lookup_lt_Some). rewrite Hpl1.
    intros [= <-].
    destruct (read_record_inv _ _ _ Hr2) as (n2 & pl2 & items2 & b2 & Hl2 & Hn2 & Hpl2 & Hps2 & Hb2).
    set (p := OInst CPhone [(attr_value, VStr phone)]) in *.
    set (h2 := <[pl := _]> _) in *.
    assert (Hne : pl <> length h) by lia.
    assert (h2 !! length h = Some o) as Hnew2.
    { subst h2. rewrite list_lookup_insert_ne by done.
      rewrite lookup_app_l by (rewrite length_app; simpl; lia). done. }
    rewrite Hnew2 in Hl2. injection Hl2 as <- <- <-.
    assert (h2 !! l = Some o) as Hl2.
    { subst h2. rewrite list_lookup_insert_ne by (intros ->; rewrite Hl in Hpl; done).
      rewrite lookup_app_l by (rewrite length_app; simpl; lia). by apply kept_alloc. }
    cbn [ContactRecord.set_phones ContactRecord.name ContactRecord.phones
         ContactRecord.birthday] in *.
    by eapply read_record_intro.
  - intros birthday Hbd.
    destruct (add_birthday_simulates _ _ _ birthday Hr1) as (h2 & Hrun & Hr2).
    rewrite add_birthday_run, Hbd in Hrun, Hr2. cbn [fst snd] in Hrun, Hr2.
    exists h2. split; [done |]. split; [| done].
    revert Hrun. unfold add_birthday, Birthday_new, mbind, H_bind, bind, lift.
    rewrite Hbd. unfold setattr, alloc.
    rewrite (lookup_app_l (h ++ [o])) by (by eapply lookup_lt_Some). rewrite Hnew.
    intros [= <-].
    eapply read_record_kept; [| exact Hr].
    apply kept_update_new; [| lia].
    eapply kept_trans; apply kept_alloc.
Qed.

Lemma Record_copy_shares_witness :
  let r := default (ContactRecord.init []) (AddressBook.find (pystr_of "Ann") sample_book) in
  exists h1,
    Record_copy (VRef 4) sample_heap = (Ok (VRef (length sample_heap)), h1)
    /\ 4 <> length sample_heap
    /\ read_record h1 (VRef (length sample_heap)) = Some r
    /\ read_record h1 (VRef 4) = Some r
    /\ (forall phone, Phone phone = Ok (mkField phone) ->
          exists h2,
            add_phone (VRef (length sample_heap)) phone h1 = (Ok tt, h2)
            /\ read_record h2 (VRef 4)
               = Some (ContactRecord.set_phones r (ContactRecord.phones r ++ [mkField phone])))
    /\ (forall birthday, Birthday birthday = Ok (mkField birthday) ->
          exists h2,
            add_birthday (VRef (length sample_heap)) birthday h1 = (Ok tt, h2)
            /\ read_record h2 (VRef 4) = Some r
            /\ read_record h2 (VRef (length sample_heap))
               = Some (ContactRecord.mk (ContactRecord.name r) (ContactRecord.phones r)
                         (Some (mkField birthday)))).
Proof.
  apply (Record_copy_shares sample_heap 4
           (default (ContactRecord.init []) (AddressBook.find (pystr_of "Ann") sample_book))).
  reflexivity.
Defined.

(** Reading a record does not look at dictionaries. *)
Lemma read_record_dict_update (h : heap) (d : nat) (items items' : pydict val) (v : val)
    (r : ContactRecord.t) :
  h !! d = Some (ODict items) ->
  read_record h v = Some r -> read_record (<[d := ODict items']> h) v = Some r.
Proof.
  intros Hd Hr. destruct v as [| |l]; try done.
  destruct (read_record_inv _ _ _ Hr) as (n & pl & its & b & Hl & Hn & Hpl & Hps & Hb).
  assert (kept_inst h (<[d := ODict items']> h)) as Hk.
  { intros x c attrs Hx. rewrite list_lookup_insert_ne; [done |]. congruence. }
  eapply (read_record_same h); [exact Hk | exact Hl | | exact Hpl | | exact Hr].
  - by apply Hk.
  - rewrite list_lookup_insert_ne; [done |]. congruence.
Qed.

Lemma read_items_dict_set (h : heap) (items : pydict val) (ritems : pydict ContactRecord.t)
    (key : pystr) (rec : val) (r : ContactRecord.t) :
  mapM (read_item h) items = Some ritems ->
  read_record h rec = Some r ->
  mapM (read_item h) (dict_set key rec items) = Some (dict_set key r ritems).
Proof.
  intros Hm Hr. apply mapM_Some in Hm. apply mapM_Some.
  induction Hm as [|[k v] [k' r'] items ritems Hkv Hm IH]; simpl.
  - constructor; [| constructor]. unfold read_item. simpl. by rewrite Hr.
  - unfold read_item in Hkv. simpl in Hkv.
    destruct (read_record h v) as [rv|] eqn:Ev; [| done]. injection Hkv as <- <-.
    destruct (decide (k = key)).
    + constructor; [| done]. unfold read_item. simpl. by rewrite Hr.
    + constructor; [| done]. unfold read_item. simpl. by rewrite Ev.
Qed.

(** X25: AddressBook.__copy__ returns a new object that reads as the same
    book, and leaves the original as it is; the two share the dictionary:
    a record added to the copy is in the original too. *)
Theorem AddressBook_copy_shares (h : heap) (book : nat) (b : AddressBook.t) :
  read_book h (VRef book) = Some b ->
  exists h1,
    AddressBook_copy (VRef book) h = (Ok (VRef (length h)), h1)
    /\ book <> length h
    /\ read_book h1 (VRef (length h)) = Some b
    /\ read_book h1 (VRef book) = Some b
    /\ (forall record r,
          read_record h1 record = Some r ->
          exists h2,
            add_record (VRef (length h)) record h1 = (Ok tt, h2)
            /\ read_book h2 (VRef book) = Some (AddressBook.add_record r b)
            /\ read_book h2 (VRef (length h)) = Some (AddressBook.add_record r b)).
Proof.
  intros Hb. pose proof Hb as Hb0. unfold read_book in Hb0.
  destruct (h !! book) as [o|] eqn:Ebook; [| done].
  destruct o as [[] [|[k [| |d]] [|]] | |]; try done.
  destruct (decide (k = attr_data)) as [->|]; [| done].
  destruct (h !! d) as [[| |items]|] eqn:Ed; try done.
  destruct (mapM (read_item h) items) as [ritems|] eqn:Em; [| done].
  injection Hb0 as <-.
  set (o := OInst CAddressBook [(attr_data, VRef d)]) in *.
  assert (Hlen : book < length h) by by eapply lookup_lt_Some.
  assert (Hlend : d < length h) by by eapply lookup_lt_Some.
  assert (Hnew : (h ++ [o]) !! length h = Some o).
  { rewrite lookup_app_r by done. by rewrite Nat.sub_diag. }
  assert (Hd1 : (h ++ [o]) !! d = Some (ODict items)) by by apply kept_alloc.
  assert (Hm1 : mapM (read_item (h ++ [o])) items = Some ritems).
  { eapply mapM_kept; [| exact Em]. intros x y. apply read_item_kept. apply kept_alloc. }
  assert (Hread : forall h' x items' ritems',
            h' !! x = Some o -> h' !! d = Some (ODict items') ->
            mapM (read_item h') items' = Some ritems' ->
            read_book h' (VRef x) = Some (AddressBook.mk ritems')).
  { intros h' x items' ritems' Hx Hd' Hm'. unfold read_book. rewrite Hx. unfold o.
    rewrite decide_True by done. by rewrite Hd', Hm'. }
  exists (h ++ [o]).
  split; [apply copy_run; [done | apply NoDup_singleton] |].
  split; [lia |]. split; [by eapply Hread |].
  split; [eapply Hread; [by apply kept_alloc | done..] |].
  intros record r Hr.
  assert (exists lr, record = VRef lr) as [lr ->].
  { destruct record; try done. by eexists. }
  destruct (read_record_inv _ _ _ Hr) as (n & pl & its & bv & Hl & Hn & Hpl & Hps & Hbv).
  assert (exists ln, n = VRef ln
            /\ (h ++ [o]) !! ln
               = Some (OInst CName [(attr_value, VStr (value (ContactRecord.name r)))]))
    as (ln & -> & Hln).
  { unfold read_field in Hn. destruct n as [| |ln]; try done.
    destruct ((h ++ [o]) !! ln) as [[c attrs| |]|] eqn:En; try done.
    destruct attrs as [|[k [| s |]] [|]]; try done.
    destruct (decide _) as [[-> ->]|]; [| done]. injection Hn as <-. by exists ln. }
  set (key := value (ContactRecord.name r)) in *.
  set (h2 := <[d := ODict (dict_set key (VRef lr) items)]> (h ++ [o])).
  exists h2.
  assert (add_record (VRef (length h)) (VRef lr) (h ++ [o]) = (Ok tt, h2)) as Hrun.
  { subst h2 o. unfold add_record, mbind, H_bind, bind, getattr. rewrite Hnew.
    cbn [dict_get]. rewrite decide_True by done.
    rewrite Hl. cbn [dict_get]. rewrite decide_True by done.
    rewrite Hln. cbn [dict_get]. rewrite decide_True by done.
    unfold dict_items, dict_store, mbind, H_bind, bind. rewrite Hd1. cbv beta iota. by rewrite Hd1. }
  split; [done |].
  assert (Hne : forall x, (h ++ [o]) !! x = Some o -> h2 !! x = Some o).
  { intros x Hx. subst h2. rewrite list_lookup_insert_ne; [done |].
    intros ->. rewrite Hd1 in Hx. subst o. done. }
  assert (Hd2 : h2 !! d = Some (ODict (dict_set key (VRef lr) items))).
  { subst h2. apply list_lookup_insert_eq. by eapply lookup_lt_Some. }
  assert (Hm2 : mapM (read_item h2) (dict_set key (VRef lr) items)
                = Some (dict_set key r ritems)).
  { eapply mapM_kept; [| apply read_items_dict_set; [exact Hm1 | exact Hr]].
    intros [kx vx] y. unfold read_item. simpl.
    destruct (read_record (h ++ [o]) vx) as [rx|] eqn:Ex; [| done].
    subst h2. by rewrite (read_record_dict_update _ _ _ _ _ _ Hd1 Ex). }
  split; eapply Hread; try done; apply Hne; [by apply kept_alloc | done].
Qed.

Lemma AddressBook_copy_shares_witness :
  exists h1,
    AddressBook_copy (VRef 1) sample_heap = (Ok (VRef (length sample_heap)), h1)
    /\ 1 <> length sample_heap
    /\ read_book h1 (VRef (length sample_heap)) = Some sample_book
    /\ read_book h1 (VRef 1) = Some sample_book
    /\ (forall record r,
          read_record h1 record = Some r ->
          exists h2,
            add_record (VRef (length sample_heap)) record h1 = (Ok tt, h2)
            /\ read_book h2 (VRef 1) = Some (AddressBook.add_record r sample_book)
            /\ read_book h2 (VRef (length sample_heap))
               = Some (AddressBook.add_record r sample_book)).
Proof. apply (AddressBook_copy_shares sample_heap 1 sample_book). reflexivity. Defined.

End shallow_facts.

(* ===================================================================== *)
(** ** Facts: printing, reading back, objects and values                *)
(* ===================================================================== *)

Lemma strs_of_lines (line : ContactRecord.t -> pystr) (records : list ContactRecord.t) :
  (forall r, Record_str r = (Ok (line r), r)) -> strs_of records = Ok (line <$> records).
Proof.
  intros Hline. induction records as [|r records IH]; [done |].
  cbn [strs_of fmap list_fmap]. rewrite Hline. cbn [fst]. by rewrite IH.
Qed.

(** X21: Record.__str__ returns "Name: ..., phones: ..., birthday: ..." with
    "No phone numbers" for a record without phones and "No birthday set"
    for one without birthday, and does not raise, although value_birthday
    raises AttributeError exactly on a record without birthday;
    AddressBook.__str__ joins with newlines these lines of the records of
    the book, one for each record in the order of the book, and
    display_all_contacts prints the same lines, or the one line "The
    address book is empty." for a book without records. *)
Theorem Record_str_spec (r : ContactRecord.t) :
  let line := fun r : ContactRecord.t =>
    pystr_of "Name: " ++ value (ContactRecord.name r) ++ pystr_of ", phones: "
    ++ match ContactRecord.phones r with
       | [] => pystr_of "No phone numbers"
       | _ :: _ => str_join (pystr_of "; ") (value <$> ContactRecord.phones r)
       end
    ++ pystr_of ", birthday: "
    ++ match ContactRecord.birthday r with
       | Some b => value b
       | None => pystr_of "No birthday set"
       end in
  Record_str r = (Ok (line r), r)
  /\ (ContactRecord.value_birthday r = (Raise AttributeError, r)
      <-> ContactRecord.birthday r = None)
  /\ forall book,
       let lines := line <$> dict_values (AddressBook.data book) in
       AddressBook_str book = Ok (str_join newline lines)
       /\ display_all_contacts book
          = Ok (match lines with
                | [] => [pystr_of "The address book is empty."]
                | _ :: _ => lines
                end).
Proof.
  intros line.
  assert (forall r, Record_str r = (Ok (line r), r)) as Hline.
  { clear r. intros r. unfold line, Record_str, ContactRecord.value_birthday.
    unfold mbind, ContactRecord.M_bind, ContactRecord.bind, ContactRecord.get, mret,
      ContactRecord.M_ret, ContactRecord.ret.
    destruct (ContactRecord.birthday r) as [b|] eqn:Eb.
    + unfold mbind, ContactRecord.M_bind, ContactRecord.bind, ContactRecord.get, mret,
        ContactRecord.M_ret, ContactRecord.ret. rewrite Eb.
      by destruct (ContactRecord.phones r).
    + by destruct (ContactRecord.phones r). }
  split; [apply Hline |]. split.
  - unfold ContactRecord.value_birthday.
    unfold mbind, ContactRecord.M_bind, ContactRecord.bind, ContactRecord.get, mret,
      ContactRecord.M_ret, ContactRecord.ret, ContactRecord.raise.
    by destruct (ContactRecord.birthday r).
  - intros book lines. unfold display_all_contacts, AddressBook_str.
    rewrite (strs_of_lines line _ Hline). fold lines. split; [done |].
    unfold lines. by destruct (AddressBook.data book) as [|kr d].
Qed.

(** X22: from the year 1000 on, every date text that get_upcoming_birthdays
    returns is accepted by Birthday and parses to the date it was
    formatted from, which is 0 to [days] days after today. *)
Theorem upcoming_dates_read_back (today : date) (days : Z) (book : AddressBook.t)
    (out : list (pystr * pystr)) (n s : pystr) :
  1000 <= year today ->
  AddressBook.get_upcoming_birthdays today days book = Ok out ->
  (n, s) ∈ out ->
  exists c,
    strptime s = Ok c /\ strftime c = s /\ Birthday s = Ok (mkField s)
    /\ 0 <= days_between c today <= days.
Proof.
  intros Hy Hout Hin. apply get_upcoming_birthdays_Ok in Hout as (rs & Hrs & ->).
  destruct (in_concat_Forall2 _ _ _ _ Hrs Hin) as (r & es & Hr & Hes & Hx).
  apply entries_of_Ok in Hes as [-> | (b & bd & c & Hb & Hp & Hc & Hw & ->)];
    [by apply elem_of_nil in Hx |].
  apply list_elem_of_singleton in Hx. injection Hx as -> ->.
  apply candidate_Ok in Hc as (a & Ha & Hroll).
  assert (valid_date a = true /\ year today <= year a) as [Hva Hya].
  { destruct Ha as [[Ha _] | (c0 & _ & _ & Ha)];
      (split; [by eapply date_new_valid |]);
      apply date_new_fields in Ha; subst a; cbn [year]; lia. }
  assert (valid_date c = true /\ toordinal a <= toordinal c) as [Hvc Hac].
  { destruct Hroll as [[_ ->] | [Hwe Hroll]]; [by split |].
    split; [by eapply roll_forward_valid |].
    apply (roll_forward_monday _ _ Hwe) in Hroll as (_ & Hd & _).
    unfold days_between in Hd. lia. }
  assert (year a <= year c) as Hyc.
  { destruct (Z_le_gt_dec (year a) (year c)) as [|Hgt]; [done |].
    assert (date_lt c a = true) as Hlt.
    { unfold date_lt. by replace (year c <? year a) with true by (symmetry; apply Z.ltb_lt; lia). }
    apply date_lt_toordinal in Hlt; [lia | done..]. }
  exists c.
  assert (strptime (strftime c) = Ok c) as Hback.
  { apply strptime_iff. apply strftime_parses; [done | lia]. }
  split; [done |]. split; [done |]. split.
  - apply Birthday_ok_iff. exists c. by apply strptime_iff.
  - unfold Spec.in_window in Hw. apply andb_true_iff in Hw as [Hw1 Hw2].
    apply Z.leb_le in Hw1, Hw2. done.
Qed.

Lemma upcoming_dates_read_back_witness :
  exists c,
    strptime (pystr_of "10.06.2024") = Ok c /\ strftime c = pystr_of "10.06.2024"
    /\ Birthday (pystr_of "10.06.2024") = Ok (mkField (pystr_of "10.06.2024"))
    /\ 0 <= days_between c (mkdate 2024 6 3) <= 7.
Proof.
  apply (upcoming_dates_read_back (mkdate 2024 6 3) 7 dina_book
           [(pystr_of "Dina", pystr_of "10.06.2024")] (pystr_of "Dina")).
  - cbn. lia.
  - vm_compute. reflexivity.
  - apply list_elem_of_singleton. reflexivity.
Defined.

(** X23: on a record object of the store that reads as the record [r], each of
    add_phone, remove_phone, edit_phone and add_birthday returns or raises
    what the method on the value [r] does, and the object then reads as
    the record the method on values gives; find_phone returns None or the
    object of the first phone with the value. *)
Theorem store_methods_simulate (h : Store.heap) (l : nat) (r : ContactRecord.t) :
  Store.read_record h (Store.VRef l) = Some r ->
  (forall mu, exists h',
      Store.run_mutation (Store.VRef l) mu h = (fst (Store.value_mutation mu r), h')
      /\ Store.read_record h' (Store.VRef l) = Some (snd (Store.value_mutation mu r)))
  /\ (forall phone_value, exists p,
        Store.find_phone (Store.VRef l) phone_value h = (Ok p, h)
        /\ match ContactRecord.first_with phone_value (ContactRecord.phones r) with
           | None => p = Store.VNone
           | Some f => Store.read_field Store.CPhone h p = Some f
           end).
Proof.
  intros Hr. split.
  - intros mu. by apply run_mutation_simulates.
  - intros phone_value. by apply find_phone_simulates.
Qed.

Lemma store_methods_simulate_witness :
  let r := default (ContactRecord.init []) (AddressBook.find (pystr_of "Ann") Store.sample_book) in
  (forall mu, exists h',
      Store.run_mutation (Store.VRef 4) mu Store.sample_heap
      = (fst (Store.value_mutation mu r), h')
      /\ Store.read_record h' (Store.VRef 4) = Some (snd (Store.value_mutation mu r)))
  /\ (forall phone_value, exists p,
        Store.find_phone (Store.VRef 4) phone_value Store.sample_heap
        = (Ok p, Store.sample_heap)
        /\ match ContactRecord.first_with phone_value (ContactRecord.phones r) with
           | None => p = Store.VNone
           | Some f => Store.read_field Store.CPhone Store.sample_heap p = Some f
           end).
Proof.
  apply (store_methods_simulate Store.sample_heap 4
           (default (ContactRecord.init [])
              (AddressBook.find (pystr_of "Ann") Store.sample_book))).
  reflexivity.
Defined.

(* ===================================================================== *)
(** ** Facts: what copy.deepcopy builds holds the same                  *)
(* ===================================================================== *)

Section unfolding_facts.
Import Store Unfolding.
#[local] Open Scope nat_scope.

Lemma mapM_kept_Forall {A B} (Q : A -> Prop) (f g : A -> option B) (l : list A) (k : list B) :
  Forall Q l -> (forall x y, Q x -> f x = Some y -> g x = Some y) ->
  mapM f l = Some k -> mapM g l = Some k.
Proof.
  intros HQ Hfg H. apply mapM_Some in H. apply mapM_Some.
  revert HQ. induction H as [|x y l k Hxy Hl IH]; intros HQ; [constructor |].
  apply Forall_cons in HQ as [Hx HQ]. constructor; [by apply Hfg | by apply IH].
Qed.

Lemma unfold_VRef (n : nat) (h : heap) (l : nat) :
  unfold (S n) h (VRef l)
  = match h !! l with
    | Some (OInst c attrs) =>
        if decide (NoDup (dict_keys attrs)) then
          TInst c <$> mapM (fun kv => pair (fst kv) <$> unfold n h (snd kv)) attrs
        else None
    | Some (OList items) => TList <$> mapM (unfold n h) items
    | Some (ODict items) =>
        if decide (NoDup (dict_keys items)) then
          TDict <$> mapM (fun kv => pair (fst kv) <$> unfold n h (snd kv)) items
        else None
    | None => None
    end.
Proof. reflexivity. Qed.

Lemma unfold_leaf (n : nat) (h h' : heap) (v : val) (t : tree) :
  (forall l, v <> VRef l) -> unfold n h v = Some t -> unfold n h' v = Some t.
Proof. intros Hv. destruct v; [by destruct n.. |]. by destruct (Hv l). Qed.

Lemma unfold_mono (k k' : nat) (h : heap) (v : val) (t : tree) :
  k <= k' -> unfold k h v = Some t -> unfold k' h v = Some t.
Proof.
  revert k' v t. induction k as [|k IH]; intros k' v t Hk.
  - destruct v; try done; by destruct k'.
  - destruct k' as [|k']; [lia |]. destruct v as [| |l]; try done.
    rewrite !unfold_VRef.
    assert (forall (kv : pystr * val) y,
              pair (fst kv) <$> unfold k h (snd kv) = Some y ->
              pair (fst kv) <$> unfold k' h (snd kv) = Some y) as Hkv.
    { intros [key a] y. simpl. destruct (unfold k h a) as [ta|] eqn:E; [| done].
      by rewrite (IH k' a ta ltac:(lia) E). }
    destruct (h !! l) as [[c attrs|items|items]|]; try done.
    + destruct (decide _); [| done].
      destruct (mapM _ attrs) as [ts|] eqn:E; [| done].
      by rewrite (mapM_kept _ _ _ _ Hkv E).
    + destruct (mapM _ items) as [ts|] eqn:E; [| done].
      assert (forall a y, unfold k h a = Some y -> unfold k' h a = Some y) as Ha
        by (intros a y; apply IH; lia).
      by rewrite (mapM_kept _ _ _ _ Ha E).
    + destruct (decide _); [| done].
      destruct (mapM _ items) as [ts|] eqn:E; [| done].
      by rewrite (mapM_kept _ _ _ _ Hkv E).
Qed.

Lemma unfold_None_mono (k k' : nat) (h : heap) (v : val) :
  k <= k' -> unfold k' h v = None -> unfold k h v = None.
Proof.
  intros Hk H. destruct (unfold k h v) as [t|] eqn:E; [| done].
  by rewrite (unfold_mono _ _ _ _ _ Hk E) in H.
Qed.

(** The least number of references within which an object is unfolded. *)
Lemma unfold_rank (n : nat) (h : heap) (l : nat) (t : tree) :
  unfold n h (VRef l) = Some t ->
  exists r, r < n /\ unfold r h (VRef l) = None /\ unfold (S r) h (VRef l) = Some t.
Proof.
  induction n as [|n IH]; [done |]. intros H.
  destruct (unfold n h (VRef l)) as [t'|] eqn:E.
  - assert (t' = t) as ->.
    { pose proof (unfold_mono n (S n) h _ _ ltac:(lia) E). congruence. }
    destruct (IH eq_refl) as (r & Hr & H1 & H2). exists r. split; [lia | done].
  - exists n. split; [lia | done].
Qed.

(** Finished copies are read the same after the others have changed. *)
Lemma unfold_stable (n0 : nat) (pending : list nat) (h h' : heap) :
  (forall z o, n0 <= z -> z ∉ pending -> h !! z = Some o ->
     Forall (finished n0 pending h) (slots o)) ->
  (forall z, n0 <= z < length h -> z ∉ pending -> h' !! z = h !! z) ->
  forall k v t, finished n0 pending h v -> unfold k h v = Some t -> unfold k h' v = Some t.
Proof.
  intros Hc Hf k. induction k as [|k IH]; intros v t Hv.
  - by destruct v.
  - destruct v as [| |w]; try done. destruct Hv as [Hw Hp].
    rewrite !unfold_VRef. rewrite (Hf w Hw Hp).
    destruct (h !! w) as [o|] eqn:Eo; [| done].
    pose proof (Hc w o ltac:(lia) Hp Eo) as Hs.
    assert (forall (kv : pystr * val) y,
              finished n0 pending h (snd kv) ->
              pair (fst kv) <$> unfold k h (snd kv) = Some y ->
              pair (fst kv) <$> unfold k h' (snd kv) = Some y) as Hkv.
    { intros [key a] y Ha. simpl in *. destruct (unfold k h a) as [ta|] eqn:E; [| done].
      by rewrite (IH a ta Ha E). }
    destruct o as [c attrs|items|items]; simpl in Hs.
    + destruct (decide _); [| done].
      destruct (mapM _ attrs) as [ts|] eqn:E; [| done].
      unfold dict_values in Hs. rewrite Forall_fmap in Hs.
      by rewrite (mapM_kept_Forall (fun kv => finished n0 pending h (snd kv)) _ _ _ _ Hs Hkv E).
    + destruct (mapM _ items) as [ts|] eqn:E; [| done].
      by rewrite (mapM_kept_Forall _ _ _ _ _ Hs IH E).
    + destruct (decide _); [| done].
      destruct (mapM _ items) as [ts|] eqn:E; [| done].
      unfold dict_values in Hs. rewrite Forall_fmap in Hs.
      by rewrite (mapM_kept_Forall (fun kv => finished n0 pending h (snd kv)) _ _ _ _ Hs Hkv E).
Qed.

Lemma finished_grow (n0 : nat) (pending : list nat) (h h' : heap) (v : val) :
  length h <= length h' -> finished n0 pending h v -> finished n0 pending h' v.
Proof. intros Hl. destruct v; try done. simpl. intros [? ?]. split; [lia | done]. Qed.

Lemma finished_Forall_grow (n0 : nat) (pending : list nat) (h h' : heap) (l : list val) :
  length h <= length h' ->
  Forall (finished n0 pending h) l -> Forall (finished n0 pending h') l.
Proof. intros Hl H. eapply Forall_impl; [exact H |]. intros v. by apply finished_grow. Qed.

Section invariant.
Context (h0 : heap).

Lemma copying_trees_unfold (n : nat) (pending : list nat) (h h' : heap) (m : gmap nat nat)
    (k : nat) (v : val) (t : tree) :
  copying_trees h0 n pending (h, m) ->
  (forall z, z < length h -> z ∉ pending -> h' !! z = h !! z) ->
  finished (length h0) pending h v ->
  unfold k h v = Some t -> unfold k h' v = Some t.
Proof.
  intros (_ & _ & _ & Hc & _) Hf. apply (unfold_stable (length h0) pending h h'); [done |].
  intros z Hz. apply Hf. lia.
Qed.

Lemma copying_trees_start (n r : nat) (pending : list nat) (h : heap) (m : gmap nat nat)
    (l : nat) (o : obj) :
  copying_trees h0 n pending (h, m) ->
  r <= n -> unfold r h0 (VRef l) = None -> slots o = [] ->
  copying_trees h0 r (length h :: pending) (h ++ [o], <[l := length h]> m).
Proof.
  intros Hinv Hr Hl Ho. pose proof Hinv as (Hlen & Hold & Hpend & Hc & Hm).
  assert (forall z, z < length h -> (h ++ [o]) !! z = h !! z) as Happ
    by (intros z Hz; by apply lookup_app_l).
  split; [rewrite length_app; lia |]. split; [| split; [| split]].
  - intros z Hz. rewrite Happ by lia. by apply Hold.
  - intros p [-> | Hp]%elem_of_cons; rewrite length_app; simpl; [lia |].
    specialize (Hpend p Hp). lia.
  - intros z o' Hz Hnp Hlook. apply not_elem_of_cons in Hnp as [Hne Hnp].
    assert (z < length h) as Hlt.
    { apply lookup_lt_Some in Hlook. rewrite length_app in Hlook. simpl in Hlook. lia. }
    rewrite Happ in Hlook by done.
    eapply Forall_impl; [exact (Hc z o' Hz Hnp Hlook) |].
    intros [| |w]; try done. simpl. intros [Hw Hwp].
    split; [rewrite length_app; lia |]. apply not_elem_of_cons. split; [lia | done].
  - intros l' y' Hlook. destruct (decide (l' = l)) as [->|Hne].
    + rewrite lookup_insert_eq in Hlook. injection Hlook as <-.
      split; [rewrite length_app; simpl; lia |]. split; [done |].
      intros Hn. exfalso. apply Hn. apply elem_of_cons. by left.
    + rewrite lookup_insert_ne in Hlook by done.
      destruct (Hm l' y' Hlook) as (Hy & Hp & Hf).
      split; [rewrite length_app; lia |]. split.
      * intros [-> | Hin]%elem_of_cons; [lia |].
        eapply unfold_None_mono; [exact Hr | by apply Hp].
      * intros Hn k t Ht. apply not_elem_of_cons in Hn as [_ Hn].
        eapply (copying_trees_unfold n pending h); [exact Hinv | | | by apply Hf].
        -- intros z Hz _. by apply Happ.
        -- done.
Qed.

Lemma copying_trees_update (n : nat) (pending : list nat) (h : heap) (m : gmap nat nat)
    (y : nat) (o : obj) :
  copying_trees h0 n pending (h, m) ->
  y ∈ pending -> length h0 <= y ->
  copying_trees h0 n pending (<[y := o]> h, m).
Proof.
  intros Hinv Hy Hy0. pose proof Hinv as (Hlen & Hold & Hpend & Hc & Hm).
  assert (forall z, z ∉ pending -> <[y := o]> h !! z = h !! z) as Hne.
  { intros z Hz. apply list_lookup_insert_ne. intros ->. done. }
  split; [by rewrite length_insert |]. split; [| split; [| split]].
  - intros z Hz. rewrite list_lookup_insert_ne by lia. by apply Hold.
  - intros p Hp. rewrite length_insert. by apply Hpend.
  - intros z o' Hz Hnp Hlook. rewrite Hne in Hlook by done.
    eapply finished_Forall_grow; [| exact (Hc z o' Hz Hnp Hlook)].
    by rewrite length_insert.
  - intros l' y' Hlook. destruct (Hm l' y' Hlook) as (Hy' & Hp & Hf).
    split; [by rewrite length_insert |]. split; [done |].
    intros Hn k t Ht.
    eapply (copying_trees_unfold n pending h); [exact Hinv | | | by apply Hf].
    + intros z _ Hz. by apply Hne.
    + done.
Qed.

Lemma copying_trees_finish (n r : nat) (pending : list nat) (h : heap) (m : gmap nat nat)
    (l y : nat) (o : obj) (t : tree) :
  copying_trees h0 r (y :: pending) (h, m) ->
  y ∉ pending -> length h0 <= y -> S r <= n ->
  (forall l' y', m !! l' = Some y' -> y' ∈ pending -> unfold n h0 (VRef l') = None) ->
  (forall l', m !! l' = Some y -> l' = l) ->
  unfold r h0 (VRef l) = None -> unfold (S r) h0 (VRef l) = Some t ->
  h !! y = Some o -> Forall (finished (length h0) (y :: pending) h) (slots o) ->
  unfold (S r) h (VRef y) = Some t ->
  copying_trees h0 n pending (h, m).
Proof.
  intros Hinv Hy Hy0 Hr Hpn Hyl Hnone Hsome Ho Hso Hcopy.
  pose proof Hinv as (Hlen & Hold & Hpend & Hc & Hm).
  assert (forall v, finished (length h0) (y :: pending) h v -> finished (length h0) pending h v)
    as Hweak.
  { intros [| |w]; try done. simpl. intros [Hw Hn]. split; [done |].
    by apply not_elem_of_cons in Hn as [_ ?]. }
  split; [done |]. split; [done |]. split; [| split].
  - intros p Hp. apply Hpend. apply elem_of_cons. by right.
  - intros z o' Hz Hnp Hlook. destruct (decide (z = y)) as [->|Hne].
    + rewrite Ho in Hlook. injection Hlook as <-. eapply Forall_impl; [exact Hso | done].
    + eapply Forall_impl; [eapply (Hc z o' Hz); [| done] | done].
      apply not_elem_of_cons. by split.
  - intros l' y' Hlook. destruct (Hm l' y' Hlook) as (Hy' & Hp & Hf).
    split; [done |]. split; [by apply Hpn |].
    intros Hn k t' Ht'. destruct (decide (y' = y)) as [->|Hne].
    + assert (l' = l) as -> by by apply Hyl.
      assert (S r <= k) as Hk.
      { destruct (le_lt_dec (S r) k) as [|Hlt]; [done |].
        rewrite (unfold_None_mono k r h0 (VRef l) ltac:(lia) Hnone) in Ht'. done. }
      assert (t' = t) as ->.
      { pose proof (unfold_mono _ _ _ _ _ Hk Hsome). congruence. }
      by eapply unfold_mono.
    + apply Hf; [| done]. apply not_elem_of_cons. by split.
Qed.

Lemma extends_refl (keep : nat -> Prop) (st : cstate) : extends keep st st.
Proof. split; [done |]. split; [done |]. intros l y H. by left. Qed.

Lemma extends_trans (keep : nat -> Prop) (st1 st2 st3 : cstate) :
  extends keep st1 st2 -> extends keep st2 st3 -> extends keep st1 st3.
Proof.
  intros (Hl1 & Hf1 & Hm1) (Hl2 & Hf2 & Hm2). split; [lia |]. split.
  - intros z Hz Hk. rewrite Hf2 by (done || lia). by apply Hf1.
  - intros l y H. destruct (Hm2 l y H) as [H' | H']; [| right; lia].
    destruct (Hm1 l y H') as [? | ?]; [by left | by right].
Qed.

Lemma extends_weaken (keep keep' : nat -> Prop) (st st' : cstate) :
  (forall z, keep' z -> keep z) -> extends keep st st' -> extends keep' st st'.
Proof. intros Hk (Hl & Hf & Hm). split; [done |]. split; [| done]. intros z Hz Hz'. auto. Qed.

Lemma extends_update (st : cstate) (y : nat) (o : obj) :
  extends (fun z => z <> y) st (<[y := o]> (fst st), snd st).
Proof.
  split; [simpl; by rewrite length_insert |]. split.
  - intros z _ Hz. simpl. by apply list_lookup_insert_ne.
  - intros l y' H. by left.
Qed.

Lemma items_unfold_kept (n r : nat) (pending : list nat) (h h' : heap) (m : gmap nat nat)
    (ys : pydict val) (tys : list (pystr * tree)) :
  copying_trees h0 n pending (h, m) ->
  (forall z, z < length h -> z ∉ pending -> h' !! z = h !! z) ->
  Forall (finished (length h0) pending h) (dict_values ys) ->
  mapM (fun kv => pair (fst kv) <$> unfold r h (snd kv)) ys = Some tys ->
  mapM (fun kv => pair (fst kv) <$> unfold r h' (snd kv)) ys = Some tys.
Proof.
  intros Hinv Hf Hfin. unfold dict_values in Hfin. rewrite Forall_fmap in Hfin.
  apply (mapM_kept_Forall (fun kv => finished (length h0) pending h (snd kv))); [done |].
  intros [key a] x Ha. simpl in *. destruct (unfold r h a) as [ta|] eqn:E; [| done].
  by rewrite (copying_trees_unfold _ _ _ _ _ _ _ _ Hinv Hf Ha E).
Qed.

Lemma list_unfold_kept (n r : nat) (pending : list nat) (h h' : heap) (m : gmap nat nat)
    (ys : list val) (tys : list tree) :
  copying_trees h0 n pending (h, m) ->
  (forall z, z < length h -> z ∉ pending -> h' !! z = h !! z) ->
  Forall (finished (length h0) pending h) ys ->
  mapM (unfold r h) ys = Some tys -> mapM (unfold r h') ys = Some tys.
Proof.
  intros Hinv Hf Hfin.
  apply (mapM_kept_Forall (finished (length h0) pending h)); [done |].
  intros a x Ha E. by apply (copying_trees_unfold _ _ _ _ _ _ _ _ Hinv Hf Ha E).
Qed.

Lemma mapM_snoc {A B} (f : A -> option B) (l : list A) (k : list B) (x : A) (y : B) :
  mapM f l = Some k -> f x = Some y -> mapM f (l ++ [x]) = Some (k ++ [y]).
Proof.
  intros Hl Hx. apply mapM_Some. apply Forall2_app; [by apply mapM_Some |].
  by constructor.
Qed.

Lemma dict_set_new {V} (d : pydict V) (k : pystr) (v : V) :
  k ∉ dict_keys d -> dict_set k v d = d ++ [(k, v)].
Proof.
  induction d as [|[k' v'] d IH]; simpl; [done |].
  intros [Hne Hk]%not_elem_of_cons. rewrite decide_False by done. by rewrite IH.
Qed.

(** The loops that fill a copy. *)
Lemma copy_dict_items_trees (r : nat) (dc : val -> cstate -> option (val * cstate))
    (y : nat) (pending : list nat) :
  copier_trees h0 r dc -> y ∈ pending -> length h0 <= y ->
  forall items ts st st' ys tys,
    mapM (fun kv => pair (fst kv) <$> unfold r h0 (snd kv)) items = Some ts ->
    NoDup (dict_keys ys ++ dict_keys items) ->
    copying_trees h0 r pending st ->
    fst st !! y = Some (ODict ys) ->
    Forall (finished (length h0) pending (fst st)) (dict_values ys) ->
    mapM (fun kv => pair (fst kv) <$> unfold r (fst st) (snd kv)) ys = Some tys ->
    copy_dict_items dc y items st = Some st' ->
    copying_trees h0 r pending st'
    /\ extends (fun z => z <> y) st st'
    /\ exists ys',
         fst st' !! y = Some (ODict ys')
         /\ dict_keys ys' = dict_keys ys ++ dict_keys items
         /\ Forall (finished (length h0) pending (fst st')) (dict_values ys')
         /\ mapM (fun kv => pair (fst kv) <$> unfold r (fst st') (snd kv)) ys'
            = Some (tys ++ ts).
Proof.
  intros Hdc Hy Hy0. induction items as [|[key a] items IH];
    intros ts st st' ys tys Hts Hnd Hinv Hlook Hfin Htys Hrun.
  - injection Hts as <-. injection Hrun as <-. split; [done |].
    split; [apply extends_refl |]. exists ys. rewrite !app_nil_r. done.
  - change (mapM _ ((key, a) :: items))
      with (x ← pair key <$> unfold r h0 a;
            k ← mapM (fun kv => pair (fst kv) <$> unfold r h0 (snd kv)) items; mret (x :: k))
      in Hts.
    destruct (unfold r h0 a) as [ta|] eqn:Eta; [| done]. simpl in Hts.
    destruct (mapM _ items) as [ts'|] eqn:Ets; [| done]. injection Hts as <-.
    cbn [copy_dict_items] in Hrun.
    destruct (dc a st) as [[a' [h1 m1]]|] eqn:Edc; [| done]. simpl in Hrun.
    destruct st as [h m]. simpl in Hlook, Hfin, Htys.
    destruct (Hdc pending a (h, m) ta a' (h1, m1) Eta Hinv Edc)
      as (Hinv1 & Ha' & Hta' & Hext).
    pose proof Hext as (Hlen1 & Hf1 & Hm1). simpl in Hlen1, Hf1, Hm1, Ha', Hta'.
    assert (y < length h) as Hylt by by eapply lookup_lt_Some.
    rewrite (Hf1 y Hylt I), Hlook in Hrun.
    assert (key ∉ dict_keys ys) as Hkey.
    { apply NoDup_app in Hnd as (_ & Hdis & _). intros Hin. apply (Hdis key Hin).
      apply elem_of_cons. by left. }
    rewrite (dict_set_new ys key a' Hkey) in Hrun.
    set (h2 := <[y := ODict (ys ++ [(key, a')])]> h1) in *.
    assert (copying_trees h0 r pending (h2, m1)) as Hinv2
      by by apply copying_trees_update.
    assert (forall z, z < length h1 -> z ∉ pending -> h2 !! z = h1 !! z) as Hf2.
    { intros z _ Hz. apply list_lookup_insert_ne. intros ->. done. }
    assert (length h2 = length h1) as Hlen2 by apply length_insert.
    destruct (IH ts' (h2, m1) st' (ys ++ [(key, a')]) (tys ++ [(key, ta)]))
      as (Hinv' & Hext' & ys' & Hlook' & Hkeys' & Hfin' & Htys'); try done.
    + unfold dict_keys in *. rewrite fmap_app. simpl. rewrite <- app_assoc. done.
    + apply list_lookup_insert_eq. lia.
    + unfold dict_values. rewrite fmap_app. apply Forall_app. split.
      * eapply finished_Forall_grow; [| exact Hfin]. simpl. lia.
      * constructor; [| constructor]. eapply finished_grow; [| exact Ha']. simpl. lia.
    + simpl. apply mapM_snoc.
      * eapply items_unfold_kept; [exact Hinv1 | exact Hf2 | |].
        -- eapply finished_Forall_grow; [| exact Hfin]. done.
        -- eapply items_unfold_kept; [exact Hinv | | exact Hfin | exact Htys].
           intros z Hz _. by apply Hf1.
      * simpl. by rewrite (copying_trees_unfold _ _ _ _ _ _ _ _ Hinv1 Hf2 Ha' Hta').
    + split; [done |]. split.
      * eapply extends_trans; [| exact Hext'].
        eapply extends_trans;
          [eapply extends_weaken; [| exact Hext]; done | apply (extends_update (h1, m1))].
      * exists ys'. split; [done |]. split.
        -- rewrite Hkeys'. unfold dict_keys. rewrite fmap_app. simpl.
           by rewrite <- app_assoc.
        -- split; [done |]. by rewrite Htys', <- app_assoc.
Qed.

Lemma copy_attrs_trees (r : nat) (dc : val -> cstate -> option (val * cstate))
    (y : nat) (pending : list nat) (c : class_name) :
  copier_trees h0 r dc -> y ∈ pending -> length h0 <= y ->
  forall items ts st st' ys tys,
    mapM (fun kv => pair (fst kv) <$> unfold r h0 (snd kv)) items = Some ts ->
    NoDup (dict_keys ys ++ dict_keys items) ->
    copying_trees h0 r pending st ->
    fst st !! y = Some (OInst c ys) ->
    Forall (finished (length h0) pending (fst st)) (dict_values ys) ->
    mapM (fun kv => pair (fst kv) <$> unfold r (fst st) (snd kv)) ys = Some tys ->
    copy_attrs dc y items st = Some st' ->
    copying_trees h0 r pending st'
    /\ extends (fun z => z <> y) st st'
    /\ exists ys',
         fst st' !! y = Some (OInst c ys')
         /\ dict_keys ys' = dict_keys ys ++ dict_keys items
         /\ Forall (finished (length h0) pending (fst st')) (dict_values ys')
         /\ mapM (fun kv => pair (fst kv) <$> unfold r (fst st') (snd kv)) ys'
            = Some (tys ++ ts).
Proof.
  intros Hdc Hy Hy0. induction items as [|[key a] items IH];
    intros ts st st' ys tys Hts Hnd Hinv Hlook Hfin Htys Hrun.
  - injection Hts as <-. injection Hrun as <-. split; [done |].
    split; [apply extends_refl |]. exists ys. rewrite !app_nil_r. done.
  - change (mapM _ ((key, a) :: items))
      with (x ← pair key <$> unfold r h0 a;
            k ← mapM (fun kv => pair (fst kv) <$> unfold r h0 (snd kv)) items; mret (x :: k))
      in Hts.
    destruct (unfold r h0 a) as [ta|] eqn:Eta; [| done]. simpl in Hts.
    destruct (mapM _ items) as [ts'|] eqn:Ets; [| done]. injection Hts as <-.
    cbn [copy_attrs] in Hrun.
    destruct (dc a st) as [[a' [h1 m1]]|] eqn:Edc; [| done]. simpl in Hrun.
    destruct st as [h m]. simpl in Hlook, Hfin, Htys.
    destruct (Hdc pending a (h, m) ta a' (h1, m1) Eta Hinv Edc)
      as (Hinv1 & Ha' & Hta' & Hext).
    pose proof Hext as (Hlen1 & Hf1 & Hm1). simpl in Hlen1, Hf1, Hm1, Ha', Hta'.
    assert (y < length h) as Hylt by by eapply lookup_lt_Some.
    rewrite (Hf1 y Hylt I), Hlook in Hrun.
    assert (key ∉ dict_keys ys) as Hkey.
    { apply NoDup_app in Hnd as (_ & Hdis & _). intros Hin. apply (Hdis key Hin).
      apply elem_of_cons. by left. }
    rewrite (dict_set_new ys key a' Hkey) in Hrun.
    set (h2 := <[y := OInst c (ys ++ [(key, a')])]> h1) in *.
    assert (copying_trees h0 r pending (h2, m1)) as Hinv2
      by by apply copying_trees_update.
    assert (forall z, z < length h1 -> z ∉ pending -> h2 !! z = h1 !! z) as Hf2.
    { intros z _ Hz. apply list_lookup_insert_ne. intros ->. done. }
    assert (length h2 = length h1) as Hlen2 by apply length_insert.
    destruct (IH ts' (h2, m1) st' (ys ++ [(key, a')]) (tys ++ [(key, ta)]))
      as (Hinv' & Hext' & ys' & Hlook' & Hkeys' & Hfin' & Htys'); try done.
    + unfold dict_keys in *. rewrite fmap_app. simpl. rewrite <- app_assoc. done.
    + apply list_lookup_insert_eq. lia.
    + unfold dict_values. rewrite fmap_app. apply Forall_app. split.
      * eapply finished_Forall_grow; [| exact Hfin]. simpl. lia.
      * constructor; [| constructor]. eapply finished_grow; [| exact Ha']. simpl. lia.
    + simpl. apply mapM_snoc.
      * eapply items_unfold_kept; [exact Hinv1 | exact Hf2 | |].
        -- eapply finished_Forall_grow; [| exact Hfin]. done.
        -- eapply items_unfold_kept; [exact Hinv | | exact Hfin | exact Htys].
           intros z Hz _. by apply Hf1.
      * simpl. by rewrite (copying_trees_unfold _ _ _ _ _ _ _ _ Hinv1 Hf2 Ha' Hta').
    + split; [done |]. split.
      * eapply extends_trans; [| exact Hext'].
        eapply extends_trans;
          [eapply extends_weaken; [| exact Hext]; done | apply (extends_update (h1, m1))].
      * exists ys'. split; [done |]. split.
        -- rewrite Hkeys'. unfold dict_keys. rewrite fmap_app. simpl.
           by rewrite <- app_assoc.
        -- split; [done |]. by rewrite Htys', <- app_assoc.
Qed.

Lemma copy_items_trees (r : nat) (dc : val -> cstate -> option (val * cstate))
    (y : nat) (pending : list nat) :
  copier_trees h0 r dc -> y ∈ pending -> length h0 <= y ->
  forall items ts st st' ys tys,
    mapM (unfold r h0) items = Some ts ->
    copying_trees h0 r pending st ->
    fst st !! y = Some (OList ys) ->
    Forall (finished (length h0) pending (fst st)) ys ->
    mapM (unfold r (fst st)) ys = Some tys ->
    copy_items dc y items st = Some st' ->
    copying_trees h0 r pending st'
    /\ extends (fun z => z <> y) st st'
    /\ exists ys',
         fst st' !! y = Some (OList ys')
         /\ Forall (finished (length h0) pending (fst st')) ys'
         /\ mapM (unfold r (fst st')) ys' = Some (tys ++ ts).
Proof.
  intros Hdc Hy Hy0. induction items as [|a items IH];
    intros ts st st' ys tys Hts Hinv Hlook Hfin Htys Hrun.
  - injection Hts as <-. injection Hrun as <-. split; [done |].
    split; [apply extends_refl |]. exists ys. rewrite !app_nil_r. done.
  - change (mapM _ (a :: items))
      with (x ← unfold r h0 a; k ← mapM (unfold r h0) items; mret (x :: k)) in Hts.
    destruct (unfold r h0 a) as [ta|] eqn:Eta; [| done]. simpl in Hts.
    destruct (mapM _ items) as [ts'|] eqn:Ets; [| done]. injection Hts as <-.
    cbn [copy_items] in Hrun.
    destruct (dc a st) as [[a' [h1 m1]]|] eqn:Edc; [| done]. simpl in Hrun.
    destruct st as [h m]. simpl in Hlook, Hfin, Htys.
    destruct (Hdc pending a (h, m) ta a' (h1, m1) Eta Hinv Edc)
      as (Hinv1 & Ha' & Hta' & Hext).
    pose proof Hext as (Hlen1 & Hf1 & Hm1). simpl in Hlen1, Hf1, Hm1, Ha', Hta'.
    assert (y < length h) as Hylt by by eapply lookup_lt_Some.
    rewrite (Hf1 y Hylt I), Hlook in Hrun.
    set (h2 := <[y := OList (ys ++ [a'])]> h1) in *.
    assert (copying_trees h0 r pending (h2, m1)) as Hinv2
      by by apply copying_trees_update.
    assert (forall z, z < length h1 -> z ∉ pending -> h2 !! z = h1 !! z) as Hf2.
    { intros z _ Hz. apply list_lookup_insert_ne. intros ->. done. }
    assert (length h2 = length h1) as Hlen2 by apply length_insert.
    destruct (IH ts' (h2, m1) st' (ys ++ [a']) (tys ++ [ta]))
      as (Hinv' & Hext' & ys' & Hlook' & Hfin' & Htys'); try done.
    + apply list_lookup_insert_eq. lia.
    + apply Forall_app. split.
      * eapply finished_Forall_grow; [| exact Hfin]. simpl. lia.
      * constructor; [| constructor]. eapply finished_grow; [| exact Ha']. simpl. lia.
    + simpl. apply mapM_snoc.
      * eapply list_unfold_kept; [exact Hinv1 | exact Hf2 | |].
        -- eapply finished_Forall_grow; [| exact Hfin]. done.
        -- eapply list_unfold_kept; [exact Hinv | | exact Hfin | exact Htys].
           intros z Hz _. by apply Hf1.
      * by apply (copying_trees_unfold _ _ _ _ _ _ _ _ Hinv1 Hf2 Ha' Hta').
    + split; [done |]. split.
      * eapply extends_trans; [| exact Hext'].
        eapply extends_trans;
          [eapply extends_weaken; [| exact Hext]; done | apply (extends_update (h1, m1))].
      * exists ys'. split; [done |]. split; [done |]. by rewrite Htys', <- app_assoc.
Qed.

(** After a container has been copied: the state for its caller. *)
Lemma container_copied (n r : nat) (pending : list nat) (h : heap) (m : gmap nat nat)
    (l : nat) (o0 o : obj) (st' : cstate) (t : tree) :
  copying_trees h0 n pending (h, m) ->
  m !! l = None -> r < n ->
  unfold r h0 (VRef l) = None -> unfold (S r) h0 (VRef l) = Some t ->
  copying_trees h0 r (length h :: pending) st' ->
  extends (fun z => z <> length h) (h ++ [o0], <[l := length h]> m) st' ->
  fst st' !! length h = Some o ->
  Forall (finished (length h0) (length h :: pending) (fst st')) (slots o) ->
  unfold (S r) (fst st') (VRef (length h)) = Some t ->
  copying_trees h0 n pending st'
  /\ finished (length h0) pending (fst st') (VRef (length h))
  /\ unfold n (fst st') (VRef (length h)) = Some t
  /\ extends (fun _ => True) (h, m) st'.
Proof.
  intros Hinv Hnone Hr Hr0 Hr1 Hinv' Hext Ho Hso Hcopy.
  pose proof Hinv as (Hlen & Hold & Hpend & Hc & Hm).
  destruct Hext as (Hl' & Hf' & Hm'). destruct st' as [h' m']. cbn [fst snd] in *.
  rewrite length_app in Hl', Hf', Hm'. cbn [length] in Hl', Hf', Hm'.
  assert (length h ∉ pending) as Hyp.
  { intros Hin. specialize (Hpend _ Hin). lia. }
  assert (forall l' y', m' !! l' = Some y' -> y' < length h -> m !! l' = Some y') as Hback.
  { intros l' y' Hlook Hy'. destruct (Hm' l' y' Hlook) as [Hin | ?]; [| lia].
    destruct (decide (l' = l)) as [->|Hne].
    - rewrite lookup_insert_eq in Hin. injection Hin as <-. lia.
    - by rewrite lookup_insert_ne in Hin. }
  split; [| split; [| split]].
  - eapply (copying_trees_finish n r pending h' m' l (length h) o t);
      [exact Hinv' | exact Hyp | lia | lia | | | exact Hr0 | exact Hr1 | exact Ho
      | exact Hso | exact Hcopy].
    + intros l' y' Hlook Hin. destruct (Hm l' y' (Hback l' y' Hlook (Hpend _ Hin)))
        as (_ & Hp & _). by apply Hp.
    + intros l' Hlook. destruct (Hm' l' _ Hlook) as [Hin | ?]; [| lia].
      destruct (decide (l' = l)) as [->|Hne]; [done |].
      rewrite lookup_insert_ne in Hin by done.
      destruct (Hm l' _ Hin) as (? & _). lia.
  - split; [lia | done].
  - eapply unfold_mono; [| exact Hcopy]. lia.
  - split; [cbn [fst]; lia |]. split.
    + intros z Hz _. cbn [fst] in *. rewrite Hf' by lia. by apply lookup_app_l.
    + intros l' y' Hlook. cbn [fst snd] in *. destruct (Hm' l' y' Hlook) as [Hin | ?]; [| right; lia].
      destruct (decide (l' = l)) as [->|Hne].
      * rewrite lookup_insert_eq in Hin. injection Hin as <-. by right.
      * rewrite lookup_insert_ne in Hin by done. by left.
Qed.

Lemma deepcopy_trees (n fuel : nat) : copier_trees h0 n (deepcopy fuel).
Proof.
  revert fuel. induction (lt_wf n) as [n _ IHn]. intros fuel.
  intros pending a st ta a' st' Hta Hinv Hrun.
  destruct fuel as [|fuel]; [done |].
  destruct a as [| s |l].
  - injection Hrun as <- <-. split; [done |]. split; [done |].
    split; [by eapply unfold_leaf | apply extends_refl].
  - injection Hrun as <- <-. split; [done |]. split; [done |].
    split; [by eapply unfold_leaf | apply extends_refl].
  - destruct st as [h m]. rewrite deepcopy_unfold in Hrun.
    pose proof Hinv as (Hlen & Hold & Hpend & Hc & Hm).
    destruct (m !! l) as [y|] eqn:Elook.
    { injection Hrun as <- <-. destruct (Hm l y Elook) as (Hy & Hp & Hf).
      assert (y ∉ pending) as Hyp.
      { intros Hin. rewrite (Hp Hin) in Hta. done. }
      split; [done |]. split; [done |]. split; [by apply Hf | apply extends_refl]. }
    destruct (unfold_rank _ _ _ _ Hta) as (r & Hr & Hr0 & Hr1).
    assert (l < length h0) as Hl.
    { rewrite unfold_VRef in Hr1. destruct (h0 !! l) eqn:E; [| done].
      by eapply lookup_lt_Some. }
    rewrite (Hold l Hl) in Hrun. rewrite unfold_VRef in Hr1.
    specialize (IHn r Hr fuel).
    assert (length h ∈ length h :: pending) as Hyin by (apply elem_of_cons; by left).
    assert (forall o, slots o = [] ->
              copying_trees h0 r (length h :: pending) (h ++ [o], <[l := length h]> m))
      as Hstart.
    { intros o Ho. by eapply copying_trees_start; [exact Hinv | lia | |]. }
    assert (forall o, (h ++ [o]) !! length h = Some o) as Hnew.
    { intros o. rewrite lookup_app_r by done. by rewrite Nat.sub_diag. }
    destruct (h0 !! l) as [[c attrs|items|items]|] eqn:Eo; [| | | done].
    + destruct (decide (NoDup (dict_keys attrs))) as [Hnd|]; [| done].
      destruct (mapM _ attrs) as [ts|] eqn:Ets; [| done].
      destruct (copy_attrs _ _ _ _) as [st1|] eqn:Eloop; [| done]. injection Hrun as <- <-.
      destruct (copy_attrs_trees r (deepcopy fuel) (length h) (length h :: pending) c
                  IHn Hyin Hlen attrs ts _ st1 [] [] Ets Hnd
                  (Hstart (OInst c []) eq_refl) (Hnew _) (Forall_nil_2 _) eq_refl Eloop)
        as (Hinv1 & Hext1 & ys' & Hlook' & Hkeys' & Hfin' & Hys').
      simpl in Hkeys', Hys'.
      eapply container_copied; try done.
      * rewrite unfold_VRef, Eo. rewrite decide_True by done. by rewrite Ets.
      * rewrite unfold_VRef, Hlook'. rewrite decide_True by by rewrite Hkeys'.
        by rewrite Hys'.
    + destruct (mapM _ items) as [ts|] eqn:Ets; [| done].
      destruct (copy_items _ _ _ _) as [st1|] eqn:Eloop; [| done]. injection Hrun as <- <-.
      destruct (copy_items_trees r (deepcopy fuel) (length h) (length h :: pending)
                  IHn Hyin Hlen items ts _ st1 [] [] Ets
                  (Hstart (OList []) eq_refl) (Hnew _) (Forall_nil_2 _) eq_refl Eloop)
        as (Hinv1 & Hext1 & ys' & Hlook' & Hfin' & Hys').
      simpl in Hys'.
      eapply container_copied; try done.
      * by rewrite unfold_VRef, Eo, Ets.
      * by rewrite unfold_VRef, Hlook', Hys'.
    + destruct (decide (NoDup (dict_keys items))) as [Hnd|]; [| done].
      destruct (mapM _ items) as [ts|] eqn:Ets; [| done].
      destruct (copy_dict_items _ _ _ _) as [st1|] eqn:Eloop; [| done].
      injection Hrun as <- <-.
      destruct (copy_dict_items_trees r (deepcopy fuel) (length h) (length h :: pending)
                  IHn Hyin Hlen items ts _ st1 [] [] Ets Hnd
                  (Hstart (ODict []) eq_refl) (Hnew _) (Forall_nil_2 _) eq_refl Eloop)
        as (Hinv1 & Hext1 & ys' & Hlook' & Hkeys' & Hfin' & Hys').
      simpl in Hkeys', Hys'.
      eapply container_copied; try done.
      * rewrite unfold_VRef, Eo. rewrite decide_True by done. by rewrite Ets.
      * rewrite unfold_VRef, Hlook'. rewrite decide_True by by rewrite Hkeys'.
        by rewrite Hys'.
Qed.

(** A deep copy unfolds to the tree that the original unfolds to. *)
Lemma deepcopy_top_tree (n fuel : nat) (x y : val) (h' : heap) (t : tree) :
  unfold n h0 x = Some t -> deepcopy_top fuel x h0 = Some (y, h') ->
  unfold n h' y = Some t.
Proof.
  intros Ht. unfold deepcopy_top.
  destruct (deepcopy fuel x (h0, ∅)) as [[y' [h1 m1]]|] eqn:E; [| done].
  simpl. intros [= <- <-].
  destruct (deepcopy_trees n fuel [] x (h0, ∅) t y' (h1, m1) Ht) as (_ & _ & Hy & _);
    [| done | done].
  split; [done |]. split; [done |]. split; [by intros p ?%elem_of_nil |].
  split; [| done]. intros z o Hz _ Hlook. apply lookup_lt_Some in Hlook. lia.
Qed.

End invariant.

(** *** Reading a book needs its tree only *)

Lemma unfold_TNone (n : nat) (h : heap) (v : val) :
  unfold n h v = Some TNone -> v = VNone.
Proof.
  destruct v as [| s |l]; [done | by destruct n |].
  destruct n as [|n]; [done |]. rewrite unfold_VRef.
  destruct (h !! l) as [[c attrs|items|items]|]; try done.
  - destruct (decide _); [| done]. by destruct (mapM _ attrs).
  - by destruct (mapM _ items).
  - destruct (decide _); [| done]. by destruct (mapM _ items).
Qed.

Lemma unfold_TStr (n : nat) (h : heap) (v : val) (s : pystr) :
  unfold n h v = Some (TStr s) -> v = VStr s.
Proof.
  destruct v as [| s' |l]; [by destruct n | destruct n; by intros [= ->] |].
  destruct n as [|n]; [done |]. rewrite unfold_VRef.
  destruct (h !! l) as [[c attrs|items|items]|]; try done.
  - destruct (decide _); [| done]. by destruct (mapM _ attrs).
  - by destruct (mapM _ items).
  - destruct (decide _); [| done]. by destruct (mapM _ items).
Qed.

Lemma unfold_TInst (n : nat) (h : heap) (v : val) (c : class_name)
    (tattrs : list (pystr * tree)) :
  unfold n h v = Some (TInst c tattrs) ->
  exists l n' attrs,
    v = VRef l /\ n = S n' /\ h !! l = Some (OInst c attrs)
    /\ mapM (fun kv => pair (fst kv) <$> unfold n' h (snd kv)) attrs = Some tattrs.
Proof.
  destruct v as [| s |l]; [by destruct n | by destruct n |].
  destruct n as [|n]; [done |]. rewrite unfold_VRef.
  destruct (h !! l) as [[c' attrs|items|items]|] eqn:El; try done.
  - destruct (decide _); [| done]. destruct (mapM _ attrs) as [ts|] eqn:E; [| done].
    intros [= -> ->]. by exists l, n, attrs.
  - by destruct (mapM _ items).
  - destruct (decide _); [| done]. by destruct (mapM _ items).
Qed.

Lemma unfold_TList (n : nat) (h : heap) (v : val) (ts : list tree) :
  unfold n h v = Some (TList ts) ->
  exists l n' items,
    v = VRef l /\ n = S n' /\ h !! l = Some (OList items)
    /\ mapM (unfold n' h) items = Some ts.
Proof.
  destruct v as [| s |l]; [by destruct n | by destruct n |].
  destruct n as [|n]; [done |]. rewrite unfold_VRef.
  destruct (h !! l) as [[c' attrs|items|items]|] eqn:El; try done.
  - destruct (decide _); [| done]. by destruct (mapM _ attrs).
  - destruct (mapM _ items) as [ts'|] eqn:E; [| done].
    intros [= ->]. by exists l, n, items.
  - destruct (decide _); [| done]. by destruct (mapM _ items).
Qed.

Lemma unfold_TDict (n : nat) (h : heap) (v : val) (titems : list (pystr * tree)) :
  unfold n h v = Some (TDict titems) ->
  exists l n' items,
    v = VRef l /\ n = S n' /\ h !! l = Some (ODict items)
    /\ mapM (fun kv => pair (fst kv) <$> unfold n' h (snd kv)) items = Some titems.
Proof.
  destruct v as [| s |l]; [by destruct n | by destruct n |].
  destruct n as [|n]; [done |]. rewrite unfold_VRef.
  destruct (h !! l) as [[c' attrs|items|items]|] eqn:El; try done.
  - destruct (decide _); [| done]. by destruct (mapM _ attrs).
  - by destruct (mapM _ items).
  - destruct (decide _); [| done]. destruct (mapM _ items) as [ts|] eqn:E; [| done].
    intros [= ->]. by exists l, n, items.
Qed.

Lemma mapM_pair_nil {A B} (f : A -> option B) (l : list (pystr * A)) :
  mapM (fun kv => pair (fst kv) <$> f (snd kv)) l = Some [] -> l = [].
Proof. intros H. apply mapM_Some in H. by inversion H. Qed.

Lemma mapM_pair_cons {A B} (f : A -> option B) (l : list (pystr * A)) (k : pystr) (y : B)
    (rest : list (pystr * B)) :
  mapM (fun kv => pair (fst kv) <$> f (snd kv)) l = Some ((k, y) :: rest) ->
  exists x l', l = (k, x) :: l' /\ f x = Some y
    /\ mapM (fun kv => pair (fst kv) <$> f (snd kv)) l' = Some rest.
Proof.
  intros H. apply mapM_Some in H. inversion H as [|[k' x] ? l' ? Hx Hl]; subst.
  simpl in Hx. destruct (f x) as [y'|] eqn:E; [| done]. injection Hx as -> ->.
  exists x, l'. split; [done |]. split; [done |]. by apply mapM_Some.
Qed.

Lemma read_field_tree (c : class_name) (h : heap) (v : val) (f : Field) :
  read_field c h v = Some f ->
  exists t, unfold 1 h v = Some t
    /\ forall n h' v', unfold n h' v' = Some t -> read_field c h' v' = Some f.
Proof.
  unfold read_field. destruct v as [| |l]; try done.
  destruct (h !! l) as [[c' attrs| |]|] eqn:El; try done.
  destruct attrs as [|[k [| s |]] [|]]; try done.
  destruct (decide _) as [[-> ->]|]; [| done]. intros [= <-].
  exists (TInst c [(attr_value, TStr s)]). split.
  - rewrite unfold_VRef, El. rewrite decide_True by apply NoDup_singleton. done.
  - intros n h' v' H. apply unfold_TInst in H as (l' & n' & attrs & -> & -> & Hl' & Hm).
    apply mapM_pair_cons in Hm as (x & attrs' & -> & Hx & Hm).
    apply mapM_pair_nil in Hm as ->. apply unfold_TStr in Hx as ->.
    rewrite Hl'. by rewrite decide_True.
Qed.

Lemma read_fields_tree (c : class_name) (h : heap) (v : val) (fs : list Field) :
  read_fields c h v = Some fs ->
  exists t, unfold 2 h v = Some t
    /\ forall n h' v', unfold n h' v' = Some t -> read_fields c h' v' = Some fs.
Proof.
  unfold read_fields. destruct v as [| |l]; try done.
  destruct (h !! l) as [[| items |]|] eqn:El; try done.
  intros Hm. apply mapM_Some in Hm.
  assert (exists ts, mapM (unfold 1 h) items = Some ts
            /\ forall n h' items', mapM (unfold n h') items' = Some ts ->
                 mapM (read_field c h') items' = Some fs) as (ts & Hts & Hback).
  { clear El. induction Hm as [|a f items fs Ha Hm (ts & Hts & Hback)].
    - exists []. split; [done |]. intros n h' items' H. apply mapM_Some in H.
      by inversion H.
    - destruct (read_field_tree c h a f Ha) as (t & Ht & Htb).
      exists (t :: ts). split.
      + apply mapM_Some. constructor; [done | by apply mapM_Some].
      + intros n h' items' H. apply mapM_Some in H.
        inversion H as [|a' ? items'' ? Ha' Hrest]; subst.
        apply mapM_Some. constructor; [by eapply Htb |].
        apply mapM_Some. eapply Hback. by apply mapM_Some. }
  exists (TList ts). split.
  - rewrite unfold_VRef, El. by rewrite Hts.
  - intros n h' v' H. apply unfold_TList in H as (l' & n' & items' & -> & -> & Hl' & Hm').
    rewrite Hl'. by eapply Hback.
Qed.

Lemma read_optional_field_tree (c : class_name) (h : heap) (v : val) (f : option Field) :
  read_optional_field c h v = Some f ->
  exists t, unfold 1 h v = Some t
    /\ forall n h' v', unfold n h' v' = Some t -> read_optional_field c h' v' = Some f.
Proof.
  unfold read_optional_field. destruct v as [| s |l].
  - intros [= <-]. exists TNone. split; [done |].
    intros n h' v' H. by apply unfold_TNone in H as ->.
  - done.
  - destruct (read_field c h (VRef l)) as [f'|] eqn:E; [| done]. intros [= <-].
    destruct (read_field_tree c h _ f' E) as (t & Ht & Hback).
    exists t. split; [done |]. intros n h' v' H.
    pose proof (Hback n h' v' H) as Hr.
    destruct v' as [| s' |l']; [done | done |]. by rewrite Hr.
Qed.

Lemma read_record_tree (h : heap) (v : val) (r : ContactRecord.t) :
  read_record h v = Some r ->
  exists t, unfold 3 h v = Some t
    /\ forall n h' v', unfold n h' v' = Some t -> read_record h' v' = Some r.
Proof.
  intros Hr. destruct v as [| |l]; try done.
  destruct (read_record_inv _ _ _ Hr) as (vn & pl & items & vb & Hl & Hn & Hpl & Hps & Hb).
  assert (read_fields CPhone h (VRef pl) = Some (ContactRecord.phones r)) as Hps'.
  { unfold read_fields. by rewrite Hpl. }
  destruct (read_field_tree _ _ _ _ Hn) as (tn & Htn & Hbn).
  destruct (read_fields_tree _ _ _ _ Hps') as (tp & Htp & Hbp).
  destruct (read_optional_field_tree _ _ _ _ Hb) as (tb & Htb & Hbb).
  exists (TInst CRecord [(attr_name, tn); (attr_phones, tp); (attr_birthday, tb)]). split.
  - rewrite unfold_VRef, Hl. rewrite decide_True by apply record_keys_NoDup.
    change (mapM _ [(attr_name, vn); (attr_phones, VRef pl); (attr_birthday, vb)])
      with (x ← pair attr_name <$> unfold 2 h vn;
            k ← (y ← pair attr_phones <$> unfold 2 h (VRef pl);
                 k' ← (z ← pair attr_birthday <$> unfold 2 h vb; Some [z]);
                 Some (y :: k'));
            Some (x :: k)).
    rewrite (unfold_mono 1 2 h vn tn) by (done || lia).
    rewrite Htp. rewrite (unfold_mono 1 2 h vb tb) by (done || lia). done.
  - intros n h' v' H. apply unfold_TInst in H as (l' & n' & attrs & -> & -> & Hl' & Hm).
    apply mapM_pair_cons in Hm as (xn & attrs1 & -> & Hxn & Hm).
    apply mapM_pair_cons in Hm as (xp & attrs2 & -> & Hxp & Hm).
    apply mapM_pair_cons in Hm as (xb & attrs3 & -> & Hxb & Hm).
    apply mapM_pair_nil in Hm as ->.
    unfold read_record. rewrite Hl'. rewrite decide_True by done.
    rewrite (Hbn _ _ _ Hxn), (Hbp _ _ _ Hxp), (Hbb _ _ _ Hxb). by destruct r.
Qed.

Lemma read_book_tree (h : heap) (v : val) (b : AddressBook.t) :
  read_book h v = Some b -> NoDup (dict_keys (AddressBook.data b)) ->
  exists t, unfold 5 h v = Some t
    /\ forall n h' v', unfold n h' v' = Some t -> read_book h' v' = Some b.
Proof.
  unfold read_book at 1. destruct v as [| |l]; try done.
  destruct (h !! l) as [[[] [|[k [| |d]] [|]] | |]|] eqn:El; try done.
  destruct (decide (k = attr_data)) as [->|]; [| done].
  destruct (h !! d) as [[| |items]|] eqn:Ed; try done.
  destruct (mapM (read_item h) items) as [ritems|] eqn:Em; [| done].
  intros [= <-] Hnd. simpl in Hnd. apply mapM_Some in Em.
  assert (dict_keys items = dict_keys ritems) as Hkeys.
  { clear Ed. unfold dict_keys.
    induction Em as [|[k v] [k' r] items ritems Hkv Hm IH]; [done |].
    unfold read_item in Hkv. simpl in *. destruct (read_record h v); [| done].
    injection Hkv as -> _. f_equal. apply IH. by apply NoDup_cons in Hnd as [_ ?]. }
  assert (exists ts,
            mapM (fun kv => pair (fst kv) <$> unfold 3 h (snd kv)) items = Some ts
            /\ forall n h' items',
                 mapM (fun kv => pair (fst kv) <$> unfold n h' (snd kv)) items' = Some ts ->
                 mapM (read_item h') items' = Some ritems) as (ts & Hts & Hback).
  { clear Hkeys Hnd Ed. induction Em as [|[k v] [k' r] items ritems Hkv Hm (ts & Hts & Hback)].
    - exists []. split; [done |]. intros n h' items' H. apply mapM_pair_nil in H as ->. done.
    - unfold read_item in Hkv. simpl in Hkv.
      destruct (read_record h v) as [rv|] eqn:Ev; [| done]. injection Hkv as <- <-.
      destruct (read_record_tree h v rv Ev) as (t & Ht & Htb).
      exists ((k, t) :: ts). split.
      + apply mapM_Some. constructor; [cbn [fst snd]; by rewrite Ht | by apply mapM_Some].
      + intros n h' items' H. apply mapM_pair_cons in H as (x & items'' & -> & Hx & H).
        apply mapM_Some. constructor.
        * unfold read_item. simpl. by rewrite (Htb _ _ _ Hx).
        * apply mapM_Some. by eapply Hback. }
  exists (TInst CAddressBook [(attr_data, TDict ts)]). split.
  - rewrite unfold_VRef, El. rewrite decide_True by apply NoDup_singleton.
    change (mapM _ [(attr_data, VRef d)])
      with (x ← pair attr_data <$> unfold 4 h (VRef d); Some [x]).
    rewrite unfold_VRef, Ed. rewrite decide_True by by rewrite Hkeys.
    by rewrite Hts.
  - intros n h' v' H. apply unfold_TInst in H as (l' & n' & attrs & -> & -> & Hl' & Hm).
    apply mapM_pair_cons in Hm as (xd & attrs1 & -> & Hxd & Hm).
    apply mapM_pair_nil in Hm as ->.
    apply unfold_TDict in Hxd as (d' & n'' & items' & -> & -> & Hd' & Hm').
    unfold read_book. rewrite Hl'. rewrite decide_True by done. rewrite Hd'.
    by rewrite (Hback _ _ _ Hm').
Qed.

(** X26: copy.deepcopy of a book object that reads as the book [b], whose
    keys are all different, returns (with fuel for six levels it does
    return) a new object that reads as the same book [b]: same keys in the
    same order, and under each key a record with the same name, phones and
    birthday; the original still reads as [b]. *)
Theorem deepcopy_reads_the_same (h : heap) (book : nat) (b : AddressBook.t) :
  read_book h (VRef book) = Some b ->
  NoDup (dict_keys (AddressBook.data b)) ->
  (exists copy h1, deepcopy_top 6 (VRef book) h = Some (copy, h1))
  /\ forall fuel copy h1,
       deepcopy_top fuel (VRef book) h = Some (copy, h1) ->
       read_book h1 copy = Some b /\ read_book h1 (VRef book) = Some b
       /\ copy <> VRef book.
Proof.
  intros Hb Hnd. split.
  - destruct (deepcopy_top_total h 5 (VRef book)) as [[copy h1] E].
    + by eapply read_book_closed.
    + by exists copy, h1.
  - intros fuel copy h1 Hcopy.
    destruct (read_book_tree h _ b Hb Hnd) as (t & Ht & Hback).
    split; [| split].
    + eapply Hback. by eapply (deepcopy_top_tree h 5 fuel).
    + destruct (deepcopy_top_apart _ _ _ _ _ Hcopy) as [Hap _].
      eapply read_book_kept; [| exact Hb]. by apply apart_kept.
    + destruct (deepcopy_top_apart _ _ _ _ _ Hcopy) as [_ Hfresh].
      intros ->. simpl in Hfresh.
      assert (is_Some (h !! book)) as Hs.
      { unfold read_book in Hb. destruct (h !! book); [done | discriminate]. }
      apply lookup_lt_is_Some in Hs. lia.
Qed.

Lemma deepcopy_reads_the_same_witness :
  (exists copy h1, deepcopy_top 6 (VRef 1) sample_heap = Some (copy, h1))
  /\ forall fuel copy h1,
       deepcopy_top fuel (VRef 1) sample_heap = Some (copy, h1) ->
       read_book h1 copy = Some sample_book /\ read_book h1 (VRef 1) = Some sample_book
       /\ copy <> VRef 1.
Proof.
  apply (deepcopy_reads_the_same sample_heap 1 sample_book).
  - reflexivity.
  - apply (bool_decide_unpack _). vm_compute. exact I.
Defined.

(** X27: copy.deepcopy of a record object returns a new object that reads as
    the same record; the original reads as before, also after add_phone,
    remove_phone, edit_phone or add_birthday on the copy (unlike with
    Record.__copy__, which shares the list of phones). *)
Theorem deepcopy_record_reads_the_same (h : heap) (record : nat) (r : ContactRecord.t) :
  read_record h (VRef record) = Some r ->
  (exists copy h1, deepcopy_top 4 (VRef record) h = Some (copy, h1))
  /\ forall fuel copy h1,
       deepcopy_top fuel (VRef record) h = Some (copy, h1) ->
       read_record h1 copy = Some r /\ read_record h1 (VRef record) = Some r
       /\ copy <> VRef record
       /\ forall mu out h2,
            run_mutation copy mu h1 = (out, h2) ->
            read_record h2 (VRef record) = Some r.
Proof.
  intros Hr. split.
  - destruct (deepcopy_top_total h 3 (VRef record)) as [[copy h1] E].
    + by eapply read_record_closed.
    + by exists copy, h1.
  - intros fuel copy h1 Hcopy.
    destruct (read_record_tree h _ r Hr) as (t & Ht & Hback).
    destruct (deepcopy_top_apart _ _ _ _ _ Hcopy) as [Hap Hfresh].
    split; [| split; [| split]].
    + eapply Hback. by eapply (deepcopy_top_tree h 3 fuel).
    + eapply read_record_kept; [| exact Hr]. by apply apart_kept.
    + intros ->. simpl in Hfresh.
      assert (is_Some (h !! record)) as Hs.
      { unfold read_record in Hr. destruct (h !! record); [done | discriminate]. }
      apply lookup_lt_is_Some in Hs. lia.
    + intros mu out h2 Hmu.
      destruct (keeps_run_mutation (length h) h copy mu Hfresh h1 _ _ Hap Hmu) as [Hap2 _].
      eapply read_record_kept; [| exact Hr]. by apply apart_kept.
Qed.

Lemma deepcopy_record_reads_the_same_witness :
  let r := default (ContactRecord.init []) (AddressBook.find (pystr_of "Ann") sample_book) in
  (exists copy h1, deepcopy_top 4 (VRef 4) sample_heap = Some (copy, h1))
  /\ forall fuel copy h1,
       deepcopy_top fuel (VRef 4) sample_heap = Some (copy, h1) ->
       read_record h1 copy = Some r /\ read_record h1 (VRef 4) = Some r
       /\ copy <> VRef 4
       /\ forall mu out h2,
            run_mutation copy mu h1 = (out, h2) ->
            read_record h2 (VRef 4) = Some r.
Proof.
  apply (deepcopy_record_reads_the_same sample_heap 4
           (default (ContactRecord.init [])
              (AddressBook.find (pystr_of "Ann") sample_book))).
  reflexivity.
Defined.

End unfolding_facts.

(* ===================================================================== *)
(** ** Facts: the records of a book as separate objects                 *)
(* ===================================================================== *)

Section separate_facts.
Import Store Separate.
#[local] Open Scope nat_scope.

(** What a method of the record object [l], with the list of phones [pl],
    leaves as it is. *)
Lemma add_phone_frame h l n pl b items phone out h' :
  h !! l = Some (OInst CRecord [(attr_name, n); (attr_phones, VRef pl); (attr_birthday, b)]) ->
  h !! pl = Some (OList items) ->
  add_phone (VRef l) phone h = (out, h') ->
  (forall z o, h !! z = Some o -> z <> pl -> h' !! z = Some o)
  /\ exists items', h' !! pl = Some (OList items').
Proof.
  intros Hl Hpl. unfold add_phone. unfold mbind at 1. unfold H_bind, bind.
  rewrite (getattr_phones _ _ _ _ _ Hl).
  unfold Phone_new, mbind, H_bind, bind, lift.
  destruct (Phone phone) as [p|e]; simpl; [| intros [= <- <-]; split; [done | by eexists]].
  unfold list_append, mbind, H_bind, bind, list_items, list_store, alloc.
  rewrite (lookup_app_l h) by (by eapply lookup_lt_Some). rewrite Hpl.
  rewrite (lookup_app_l h) by (by eapply lookup_lt_Some). rewrite Hpl.
  intros [= <- <-]. split.
  - intros z o Hz Hne. rewrite list_lookup_insert_ne by done.
    rewrite lookup_app_l; [done | by eapply lookup_lt_Some].
  - eexists. apply list_lookup_insert_eq. rewrite length_app.
    apply lookup_lt_Some in Hpl. lia.
Qed.

Lemma remove_phone_frame h l r pl items n b phone_value out h' :
  read_record h (VRef l) = Some r ->
  h !! l = Some (OInst CRecord [(attr_name, n); (attr_phones, VRef pl); (attr_birthday, b)]) ->
  h !! pl = Some (OList items) ->
  remove_phone (VRef l) phone_value h = (out, h') ->
  (forall z o, h !! z = Some o -> z <> pl -> h' !! z = Some o)
  /\ exists items', h' !! pl = Some (OList items').
Proof.
  intros Hr Hl Hpl.
  destruct (read_record_inv _ _ _ Hr) as (n0 & pl0 & items0 & b0 & Hl0 & Hn & Hpl0 & Hps & Hb).
  rewrite Hl in Hl0. injection Hl0 as <- <- <-. rewrite Hpl in Hpl0. injection Hpl0 as <-.
  unfold remove_phone, find_phone.
  unfold mbind, H_bind, bind. rewrite (getattr_phones _ _ _ _ _ Hl).
  unfold list_items at 1. rewrite Hpl.
  apply mapM_Some in Hps.
  destruct (filter_phones_run h phone_value items _ Hps) as (result & Hrun & Hres).
  rewrite Hrun. unfold mret, H_ret, ret.
  destruct (ContactRecord.first_with phone_value (ContactRecord.phones r)) as [f|] eqn:Ef.
  - destruct Hres as (p & rest & items' & -> & Hp & Hrm & Hall).
    assert (exists lp, p = VRef lp) as [lp ->].
    { unfold read_field in Hp. destruct p; try done. by eexists. }
    rewrite (getattr_phones _ _ _ _ _ Hl).
    unfold list_remove, mbind, H_bind, bind, list_items, list_store. rewrite Hpl, Hrm, Hpl.
    intros [= <- <-]. split.
    + intros z o Hz Hne. by rewrite list_lookup_insert_ne.
    + eexists. apply list_lookup_insert_eq. by eapply lookup_lt_Some.
  - subst result. intros [= <- <-]. split; [done | by eexists].
Qed.

Lemma add_birthday_frame h l n pl b birthday out h' :
  h !! l = Some (OInst CRecord [(attr_name, n); (attr_phones, VRef pl); (attr_birthday, b)]) ->
  add_birthday (VRef l) birthday h = (out, h') ->
  (forall z o, h !! z = Some o -> z <> l -> h' !! z = Some o)
  /\ exists b', h' !! l
       = Some (OInst CRecord [(attr_name, n); (attr_phones, VRef pl); (attr_birthday, b')]).
Proof.
  intros Hl. unfold add_birthday, Birthday_new, mbind, H_bind, bind, lift.
  destruct (Birthday birthday) as [p|e]; simpl; [| intros [= <- <-]; split; [done | by eexists]].
  unfold setattr, alloc.
  rewrite (lookup_app_l h) by (by eapply lookup_lt_Some). rewrite Hl.
  intros [= <- <-]. split.
  - intros z o Hz Hne. rewrite list_lookup_insert_ne by done.
    rewrite lookup_app_l; [done | by eapply lookup_lt_Some].
  - eexists. rewrite list_lookup_insert_eq; [reflexivity |].
    rewrite length_app. apply lookup_lt_Some in Hl. lia.
Qed.

Lemma run_mutation_frame h l r n pl b items mu out h' :
  read_record h (VRef l) = Some r ->
  h !! l = Some (OInst CRecord [(attr_name, n); (attr_phones, VRef pl); (attr_birthday, b)]) ->
  h !! pl = Some (OList items) ->
  run_mutation (VRef l) mu h = (out, h') ->
  framed h h' l pl n.
Proof.
  intros Hr Hl Hpl Hrun.
  assert (l <> pl) as Hlp by (intros ->; congruence).
  assert (forall phone o1 h1, add_phone (VRef l) phone h = (o1, h1) -> framed h h1 l pl n) as Hadd.
  { intros phone o1 h1 H1.
    destruct (add_phone_frame _ _ _ _ _ _ _ _ _ Hl Hpl H1) as [Hf Hp].
    split; [| split; [| done]]; [intros; by apply Hf | eexists; by apply Hf]. }
  assert (forall h0 r0 b0 items0 phone o1 h1,
            read_record h0 (VRef l) = Some r0 ->
            h0 !! l = Some (OInst CRecord
                              [(attr_name, n); (attr_phones, VRef pl); (attr_birthday, b0)]) ->
            h0 !! pl = Some (OList items0) ->
            remove_phone (VRef l) phone h0 = (o1, h1) -> framed h0 h1 l pl n) as Hrem.
  { intros h0 r0 b0 items0 phone o1 h1 Hr0 Hl0 Hpl0 H1.
    destruct (remove_phone_frame _ _ _ _ _ _ _ _ _ _ Hr0 Hl0 Hpl0 H1) as [Hf Hp].
    split; [| split; [| done]]; [intros; by apply Hf | eexists; by apply Hf]. }
  destruct mu as [phone | phone_value | old new | birthday]; simpl in Hrun.
  - by eapply Hadd.
  - by eapply Hrem.
  - unfold edit_phone in Hrun.
    destruct (find_phone_simulates h l r old Hr) as (p & Hfind & Hp).
    unfold mbind at 1 in Hrun. unfold H_bind, bind in Hrun. rewrite Hfind in Hrun.
    assert ((let '(o1, h1) := add_phone (VRef l) new h in
             match o1 with
             | Ok _ => remove_phone (VRef l) old h1
             | Raise e => (Raise e, h1)
             end) = (out, h') -> framed h h' l pl n) as Hboth.
    { destruct (add_phone (VRef l) new h) as [[[]|e] h1] eqn:Eadd.
      - intros Hrun'.
        destruct (Hadd _ _ _ Eadd) as (Hf1 & [b1 Hl1] & [items1 Hpl1]).
        destruct (add_phone_simulates h l r new Hr) as (h1' & Hadd' & Hr1).
        rewrite Eadd in Hadd'. injection Hadd' as _ <-.
        destruct (Hrem _ _ _ _ _ _ _ Hr1 Hl1 Hpl1 Hrun') as (Hf2 & Hl2 & Hpl2).
        split; [| done]. intros z o Hz Hzl Hzp. apply Hf2; [| done | done]. by apply Hf1.
      - intros [= <- <-]. by eapply Hadd. }
    destruct p as [| s |lp].
    + injection Hrun as <- <-. split; [done | split; by eexists].
    + apply Hboth. exact Hrun.
    + apply Hboth. exact Hrun.
  - destruct (add_birthday_frame _ _ _ _ _ _ _ _ Hl Hrun) as [Hf Hl'].
    split; [| split; [done |]]; [intros; by apply Hf | eexists; by apply Hf].
Qed.

Lemma read_field_frame c h h' l pl n v f :
  framed h h' l pl n ->
  (exists a1 a2 a3, h !! l = Some (OInst CRecord [a1; a2; a3])) ->
  (exists items, h !! pl = Some (OList items)) ->
  read_field c h v = Some f -> read_field c h' v = Some f.
Proof.
  intros (Hf & _ & _) (a1 & a2 & a3 & Hl) (items & Hpl). unfold read_field.
  destruct v as [| |z]; try done.
  destruct (h !! z) as [o|] eqn:Ez; [| done].
  destruct o as [c' [|[k [| s |]] [|]] | |]; try done.
  rewrite (Hf _ _ Ez); [done | congruence | congruence].
Qed.

(** A record object other than [l], with a list of phones other than [pl],
    reads as before. *)
Lemma read_record_frame h h' l pl n l2 pl2 r2 :
  framed h h' l pl n ->
  (exists a1 a2 a3, h !! l = Some (OInst CRecord [a1; a2; a3])) ->
  (exists items, h !! pl = Some (OList items)) ->
  read_record h (VRef l2) = Some r2 ->
  phones_of h (VRef l2) = Some pl2 ->
  l2 <> l -> pl2 <> pl ->
  read_record h' (VRef l2) = Some r2.
Proof.
  intros Hfr Hl Hpl Hr Hp Hne1 Hne2.
  destruct (read_record_inv _ _ _ Hr) as (n0 & pl0 & items0 & b0 & Hl0 & Hn & Hpl0 & Hps & Hb).
  unfold phones_of in Hp. rewrite (getattr_phones _ _ _ _ _ Hl0) in Hp. injection Hp as <-.
  destruct r2 as [fn fps fb]. simpl in *.
  pose proof Hfr as (Hf & _ & _).
  destruct Hl as (a1 & a2 & a3 & Hl). destruct Hpl as (items & Hpl).
  eapply read_record_intro.
  - apply Hf; [exact Hl0 | done |]. congruence.
  - eapply read_field_frame; eauto.
  - apply Hf; [exact Hpl0 | congruence | done].
  - eapply mapM_kept; [| exact Hps]. intros x y. eapply read_field_frame; eauto.
  - unfold read_optional_field in *. destruct b0 as [| s |lb]; try done.
    destruct (read_field CBirthday h (VRef lb)) eqn:E; [| done].
    by erewrite read_field_frame; eauto.
Qed.

Lemma mapM_lookup {A B} (f : A -> option B) (l : list A) (k : list B) (i : nat) (x : A) :
  mapM f l = Some k -> l !! i = Some x -> exists y, k !! i = Some y /\ f x = Some y.
Proof.
  intros Hm Hx. apply mapM_Some in Hm.
  destruct (Forall2_lookup_l _ _ _ _ _ Hm Hx) as (y & Hy & Hxy). by exists y.
Qed.

(** The other records of a separate book are other objects with other
    lists of phones. *)
Lemma separate_others h items pls key lr pl :
  NoDup (dict_keys items) ->
  mapM (phones_of h) (dict_values items) = Some pls ->
  NoDup pls ->
  dict_get key items = Some (VRef lr) ->
  phones_of h (VRef lr) = Some pl ->
  forall k v, (k, v) ∈ items -> k <> key ->
    exists l2 pl2, v = VRef l2 /\ phones_of h v = Some pl2 /\ l2 <> lr /\ pl2 <> pl.
Proof.
  intros Hkeys Hm Hnd Hget Hpl k v Hin Hne.
  apply dict_get_Some_elem in Hget.
  apply list_elem_of_lookup in Hget as [i Hi]. apply list_elem_of_lookup in Hin as [j Hj].
  assert (i <> j) as Hij by (intros ->; congruence).
  assert (dict_values items !! i = Some (VRef lr)) as Hvi.
  { unfold dict_values. rewrite list_lookup_fmap, Hi. done. }
  assert (dict_values items !! j = Some v) as Hvj.
  { unfold dict_values. rewrite list_lookup_fmap, Hj. done. }
  destruct (mapM_lookup _ _ _ _ _ Hm Hvi) as (pi & Hpi & Hfi).
  destruct (mapM_lookup _ _ _ _ _ Hm Hvj) as (pj & Hpj & Hfj).
  rewrite Hpl in Hfi. injection Hfi as <-.
  assert (pj <> pl) as Hp.
  { intros ->. apply Hij. by eapply NoDup_lookup. }
  assert (exists l2, v = VRef l2) as [l2 ->].
  { unfold phones_of, getattr in Hfj. destruct v; try done. by eexists. }
  exists l2, pj. repeat split; [done | | done].
  intros ->. congruence.
Qed.

(** The items read after the record under [key] has changed. *)
Lemma read_items_changed h h' items ritems key lr r' :
  mapM (read_item h) items = Some ritems ->
  NoDup (dict_keys items) ->
  dict_get key items = Some (VRef lr) ->
  read_record h' (VRef lr) = Some r' ->
  (forall k v r, (k, v) ∈ items -> k <> key ->
     read_record h v = Some r -> read_record h' v = Some r) ->
  mapM (read_item h') items = Some (dict_set key r' ritems).
Proof.
  intros Hm. apply mapM_Some in Hm.
  induction Hm as [|[k v] [k' r] items ritems Hkv Hm IH]; [done |].
  intros Hnd Hget Hr' Hothers.
  unfold read_item in Hkv. simpl in Hkv.
  destruct (read_record h v) as [rv|] eqn:Ev; [| done]. injection Hkv as <- <-.
  unfold dict_keys in Hnd. simpl in Hnd. apply NoDup_cons in Hnd as [Hk Hnd].
  simpl in Hget. apply mapM_Some. simpl.
  destruct (decide (k = key)) as [->|Hne].
  - injection Hget as ->. constructor.
    + unfold read_item. cbn [fst snd]. by rewrite Hr'.
    + apply mapM_Some. apply mapM_Some in Hm.
      eapply (mapM_kept_Forall (fun kv => kv ∈ items)); [| | exact Hm].
      * apply Forall_forall. done.
      * intros [k2 v2] y Hin Hy. unfold read_item in *. simpl in *.
        destruct (read_record h v2) as [r2|] eqn:E2; [| done].
        erewrite Hothers; [done | by right | | done].
        intros ->. apply Hk. apply list_elem_of_fmap. by exists (key, v2).
  - constructor.
    + unfold read_item. simpl. erewrite Hothers; [done | by left | done | done].
    + apply mapM_Some. apply IH; [done | done | done |].
      intros k2 v2 r2 Hin. apply Hothers. by right.
Qed.

Lemma read_items_get h items ritems key :
  mapM (read_item h) items = Some ritems ->
  match dict_get key ritems with
  | None => dict_get key items = None
  | Some r => exists v, dict_get key items = Some v /\ read_record h v = Some r
  end.
Proof.
  intros Hm. apply mapM_Some in Hm.
  induction Hm as [|[k v] [k' r] items ritems Hkv Hm IH]; [done |].
  unfold read_item in Hkv. simpl in Hkv.
  destruct (read_record h v) as [rv|] eqn:Ev; [| done]. injection Hkv as <- <-.
  simpl. destruct (decide (k = key)); [| exact IH]. by exists v.
Qed.

(** What [read_book] found. *)
Lemma read_book_inv h bk b :
  read_book h bk = Some b ->
  exists lb d items,
    bk = VRef lb
    /\ h !! lb = Some (OInst CAddressBook [(attr_data, VRef d)])
    /\ h !! d = Some (ODict items)
    /\ mapM (read_item h) items = Some (AddressBook.data b).
Proof.
  unfold read_book. destruct bk as [| |lb]; try done.
  destruct (h !! lb) as [o|] eqn:Elb; [| done].
  destruct o as [[] [|[k [| |d]] [|]] | |]; try done.
  destruct (decide _) as [->|]; [| done].
  destruct (h !! d) as [[| |items]|] eqn:Ed; try done.
  destruct (mapM (read_item h) items) as [ritems|] eqn:Em; [| done].
  intros [= <-]. by exists lb, d, items.
Qed.

(** X28: on a book object of the store that reads as the book [b] and whose
    records are separate (no key twice, no two records with the same list
    of phones), AddressBook.find returns None for a name that [b] does not
    have; for a name of [b] it returns the record object that reads as the
    record of [b], and add_phone, remove_phone, edit_phone or add_birthday
    called on that object returns or raises what the method on the value
    does, after which the book reads as [b] with the changed record under
    that name and every other record as before, and its records are still
    separate. *)
Theorem found_record_methods (h : heap) (bk : val) (b : AddressBook.t) (key : pystr) :
  read_book h bk = Some b ->
  separate h bk ->
  match AddressBook.find key b with
  | None => find bk key h = (Ok VNone, h)
  | Some r =>
      exists lr,
        find bk key h = (Ok (VRef lr), h)
        /\ read_record h (VRef lr) = Some r
        /\ forall mu, exists h',
             run_mutation (VRef lr) mu h = (fst (value_mutation mu r), h')
             /\ read_book h' bk = Some (changed key (snd (value_mutation mu r)) b)
             /\ separate h' bk
  end.
Proof.
  intros Hb (items0 & pls & Hitems & Hkeys & Hpls & Hnd).
  destruct (read_book_inv _ _ _ Hb) as (lb & d & items & -> & Hlb & Hd & Hm).
  assert (getattr (VRef lb) attr_data h = (Ok (VRef d), h)) as Hdata.
  { unfold getattr. rewrite Hlb. reflexivity. }
  unfold items_of in Hitems. rewrite Hdata, Hd in Hitems. injection Hitems as <-.
  pose proof (read_items_get _ _ _ key Hm) as Hget.
  unfold AddressBook.find. unfold find. rewrite Hdata, Hd.
  destruct (dict_get key (AddressBook.data b)) as [r|] eqn:Er; [| by rewrite Hget].
  destruct Hget as (v & Hget & Hr). rewrite Hget.
  assert (exists lr, v = VRef lr) as [lr ->].
  { unfold read_record in Hr. destruct v; try done. by eexists. }
  exists lr. split; [done |]. split; [done |]. intros mu.
  destruct (run_mutation_simulates h lr r mu Hr) as (h' & Hrun & Hr').
  exists h'. split; [exact Hrun |].
  destruct (read_record_inv _ _ _ Hr) as (n & pl & pitems & bd & Hl & Hn & Hpl & Hps & Hbd).
  pose proof (run_mutation_frame _ _ _ _ _ _ _ _ _ _ Hr Hl Hpl Hrun) as Hfr.
  pose proof Hfr as (Hf & [b' Hl'] & [pitems' Hpl']).
  assert (phones_of h (VRef lr) = Some pl) as Hphones.
  { unfold phones_of. by rewrite (getattr_phones _ _ _ _ _ Hl). }
  pose proof (separate_others _ _ _ _ _ _ Hkeys Hpls Hnd Hget Hphones) as Hoth.
  assert (h' !! lb = Some (OInst CAddressBook [(attr_data, VRef d)])) as Hlb'.
  { apply Hf; [done | congruence | congruence]. }
  assert (h' !! d = Some (ODict items)) as Hd'.
  { apply Hf; [done | congruence | congruence]. }
  split.
  - unfold read_book. rewrite Hlb'. rewrite decide_True by done. rewrite Hd'.
    erewrite read_items_changed; [reflexivity | exact Hm | exact Hkeys | exact Hget | exact Hr' |].
    intros k v r2 Hin Hne Hr2.
    destruct (Hoth _ _ Hin Hne) as (l2 & pl2 & -> & Hp2 & Hne1 & Hne2).
    eapply read_record_frame; eauto.
  - exists items, pls. split; [| split; [done | split; [| done]]].
    + assert (getattr (VRef lb) attr_data h' = (Ok (VRef d), h')) as Hdata'.
      { unfold getattr. rewrite Hlb'. reflexivity. }
      unfold items_of. by rewrite Hdata', Hd'.
    + eapply (mapM_kept_Forall (fun v => v ∈ dict_values items)); [| | exact Hpls].
      * apply Forall_forall. done.
      * intros v p Hin Hp. unfold dict_values in Hin.
        apply list_elem_of_fmap in Hin as ([k v'] & -> & Hin). simpl in *.
        destruct (decide (k = key)) as [->|Hne].
        -- assert (v' = VRef lr) as ->.
           { apply list_elem_of_lookup in Hin as [i Hi].
             apply dict_get_Some_elem in Hget. apply list_elem_of_lookup in Hget as [j Hj].
             assert (i = j) as ->; [| congruence].
             eapply NoDup_lookup; [exact Hkeys | |]; unfold dict_keys;
               rewrite list_lookup_fmap; [by rewrite Hi | by rewrite Hj]. }
           rewrite Hphones in Hp. injection Hp as <-.
           unfold phones_of. by rewrite (getattr_phones _ _ _ _ _ Hl').
        -- destruct (Hoth _ _ Hin Hne) as (l2 & pl2 & -> & Hp2 & Hne1 & Hne2).
           unfold phones_of, getattr in *.
           destruct (h !! l2) as [o|] eqn:E2; [| done].
           destruct o as [c attrs| |]; try done.
           rewrite (Hf _ _ E2); [| done | congruence]. by destruct (dict_get attr_phones attrs).
Qed.

Lemma found_record_methods_witness :
  let r := default (ContactRecord.init []) (AddressBook.find (pystr_of "Ann") two_book) in
  exists lr,
    find (VRef 1) (pystr_of "Ann") two_heap = (Ok (VRef lr), two_heap)
    /\ read_record two_heap (VRef lr) = Some r
    /\ forall mu, exists h',
         run_mutation (VRef lr) mu two_heap = (fst (value_mutation mu r), h')
         /\ read_book h' (VRef 1)
            = Some (changed (pystr_of "Ann") (snd (value_mutation mu r)) two_book)
         /\ separate h' (VRef 1).
Proof.
  apply (found_record_methods two_heap (VRef 1) two_book (pystr_of "Ann")).
  - reflexivity.
  - eexists _, _. split; [reflexivity |].
    split; [apply (bool_decide_unpack _); vm_compute; exact I |].
    split; [reflexivity |]. apply (bool_decide_unpack _). vm_compute. exact I.
Defined.

(** The lists of phones of the records of a book that reads are in the
    store. *)
Lemma phones_in_store h items ritems pls :
  mapM (read_item h) items = Some ritems ->
  mapM (phones_of h) (dict_values items) = Some pls ->
  Forall (fun p => p < length h) pls.
Proof.
  intros Hm Hpls. apply mapM_Some in Hm. apply mapM_Some in Hpls.
  apply Forall_forall. intros p Hp.
  apply list_elem_of_lookup in Hp as [i Hi].
  destruct (Forall2_lookup_r _ _ _ _ _ Hpls Hi) as (v & Hv & Hpv).
  unfold dict_values in Hv. rewrite list_lookup_fmap in Hv.
  destruct (items !! i) as [[k v']|] eqn:Ei; [| done]. injection Hv as ->.
  destruct (Forall2_lookup_l _ _ _ _ _ Hm Ei) as ([k' r] & _ & Hr).
  unfold read_item in Hr. simpl in Hr.
  destruct (read_record h v) as [rv|] eqn:Ev; [| done].
  assert (exists l, v = VRef l) as [l ->].
  { unfold read_record in Ev. destruct v; try done. by eexists. }
  destruct (read_record_inv _ _ _ Ev) as (n & pl & pitems & b & Hl & _ & Hpl & _).
  unfold phones_of in Hpv. rewrite (getattr_phones _ _ _ _ _ Hl) in Hpv. injection Hpv as <-.
  by eapply lookup_lt_Some.
Qed.

Lemma mapM_values_dict_set {B} (f : val -> option B) (items : pydict val) (pls : list B)
    (k : pystr) (v : val) (p : B) :
  mapM f (dict_values items) = Some pls ->
  f v = Some p ->
  exists pls',
    mapM f (dict_values (dict_set k v items)) = Some pls'
    /\ (forall x, x ∈ pls' -> x ∈ pls \/ x = p)
    /\ (NoDup pls -> p ∉ pls -> NoDup pls').
Proof.
  intros Hm Hv. apply mapM_Some in Hm. revert pls Hm.
  induction items as [|[k' v'] items IH]; intros pls Hm.
  - inversion Hm; subst. exists [p]. split; [| split].
    + apply mapM_Some. by repeat constructor.
    + intros x Hx. apply list_elem_of_singleton in Hx. by right.
    + intros _ _. apply NoDup_singleton.
  - unfold dict_values in Hm. simpl in Hm.
    apply Forall2_cons_inv_l in Hm as (q & pls0 & Hq & Hm & ->).
    simpl. destruct (decide (k' = k)) as [->|Hne].
    + exists (p :: pls0). split; [| split].
      * apply mapM_Some. unfold dict_values. simpl. by constructor.
      * intros x Hx. apply elem_of_cons in Hx as [->|Hx]; [by right | left; by right].
      * intros Hnd Hp. apply NoDup_cons in Hnd as [_ Hnd]. apply NoDup_cons. split; [| done].
        intros Hin. apply Hp. by right.
    + destruct (IH _ Hm) as (pls' & Hm' & Hsub & Hnd'). apply mapM_Some in Hm'.
      exists (q :: pls'). split; [| split].
      * apply mapM_Some. unfold dict_values. simpl. by constructor.
      * intros x Hx. apply elem_of_cons in Hx as [->|Hx]; [left; by left |].
        destruct (Hsub _ Hx) as [H|H]; [left; by right | by right].
      * intros Hnd Hp. apply NoDup_cons in Hnd as [Hq' Hnd]. apply NoDup_cons. split.
        -- intros Hin. destruct (Hsub _ Hin) as [H| ->]; [done |]. apply Hp. by left.
        -- apply Hnd'; [done |]. intros Hin. apply Hp. by right.
Qed.

(** X29: on a book object of the store that reads as the book [b] and whose
    records are separate, Record(name) followed by add_record of the new
    object returns, the new object reads as the record with that name, no
    phones and no birthday, the book then reads as [b] with that record
    stored under the name, and its records are still separate. *)
Theorem new_record_separate (h : heap) (bk : val) (b : AddressBook.t) (name : pystr) :
  read_book h bk = Some b ->
  separate h bk ->
  exists lr h1 h2,
    Record_new name h = (Ok (VRef lr), h1)
    /\ add_record bk (VRef lr) h1 = (Ok tt, h2)
    /\ read_record h2 (VRef lr) = Some (ContactRecord.init name)
    /\ read_book h2 bk = Some (AddressBook.add_record (ContactRecord.init name) b)
    /\ separate h2 bk.
Proof.
  intros Hb (items0 & pls & Hitems & Hkeys & Hpls & Hnd).
  destruct (read_book_inv _ _ _ Hb) as (lb & d & items & -> & Hlb & Hd & Hm).
  assert (getattr (VRef lb) attr_data h = (Ok (VRef d), h)) as Hdata.
  { unfold getattr. rewrite Hlb. reflexivity. }
  unfold items_of in Hitems. rewrite Hdata, Hd in Hitems. injection Hitems as <-.
  set (oN := OInst CName [(attr_value, VStr name)]).
  set (hN := h ++ [oN]).
  set (hL := hN ++ [OList []]).
  set (oR := OInst CRecord [(attr_name, VRef (length h)); (attr_phones, VRef (length hN));
                            (attr_birthday, VNone)]).
  set (h1 := hL ++ [oR]).
  set (h2 := <[d := ODict (dict_set name (VRef (length hL)) items)]> h1).
  assert (kept h h1) as Hk.
  { eapply kept_trans; [apply kept_alloc |]. eapply kept_trans; apply kept_alloc. }
  assert (h1 !! length h = Some oN) as HoN.
  { subst h1 hL hN. rewrite <- !app_assoc. by apply (list_lookup_middle h). }
  assert (h1 !! length hN = Some (OList [])) as HoL.
  { subst h1 hL. rewrite <- app_assoc. by apply (list_lookup_middle hN). }
  assert (h1 !! length hL = Some oR) as HoR.
  { subst h1. by apply list_lookup_middle. }
  assert (read_record h1 (VRef (length hL)) = Some (ContactRecord.init name)) as Hr1.
  { eapply (read_record_intro h1 _ _ _ [] _ (mkField name) [] None);
      [exact HoR | | exact HoL | reflexivity | reflexivity].
    unfold read_field. rewrite HoN. unfold oN. by rewrite decide_True. }
  assert (d < length h) as Hdlt by (by eapply lookup_lt_Some).
  assert (d <> length hL /\ d <> length hN /\ d <> length h) as (Hd1 & Hd2 & Hd3).
  { subst hL hN. rewrite !length_app. simpl. lia. }
  assert (forall v r, read_record h1 v = Some r -> read_record h2 v = Some r) as Hk2.
  { intros v r Hr. subst h2. eapply read_record_dict_update; [| exact Hr]. by apply Hk. }
  exists (length hL), h1, h2.
  split; [reflexivity |].
  split.
  { subst h2. unfold add_record, mbind, H_bind, bind, getattr. rewrite (Hk _ _ Hlb).
    cbn [dict_get]. rewrite decide_True by done.
    rewrite HoR. unfold oR. cbn [dict_get]. rewrite decide_True by done.
    rewrite HoN. unfold oN. cbn [dict_get]. rewrite decide_True by done.
    unfold dict_items, dict_store, mbind, H_bind, bind. rewrite (Hk _ _ Hd).
    cbv beta iota. by rewrite (Hk _ _ Hd). }
  split; [by apply Hk2 |].
  assert (h2 !! lb = Some (OInst CAddressBook [(attr_data, VRef d)])) as Hlb2.
  { subst h2. rewrite list_lookup_insert_ne; [by apply Hk |]. intros ->. congruence. }
  assert (h2 !! d = Some (ODict (dict_set name (VRef (length hL)) items))) as Hd2'.
  { subst h2. apply list_lookup_insert_eq. apply (lookup_lt_Some _ _ _ (Hk _ _ Hd)). }
  split.
  - unfold read_book. rewrite Hlb2. rewrite decide_True by done. rewrite Hd2'.
    erewrite (mapM_kept (read_item h1)); [reflexivity | |].
    + intros [kx vx] y. unfold read_item. simpl.
      destruct (read_record h1 vx) as [rx|] eqn:Ex; [| done]. by rewrite (Hk2 _ _ Ex).
    + apply (read_items_dict_set h1 items (AddressBook.data b) name _ (ContactRecord.init name));
        [| exact Hr1].
      eapply mapM_kept; [| exact Hm]. intros x y. by apply read_item_kept.
  - assert (forall v p, phones_of h v = Some p -> phones_of h2 v = Some p) as Hph.
    { intros v p. unfold phones_of, getattr. destruct v as [| |l]; try done.
      destruct (h !! l) as [o|] eqn:El; [| done]. destruct o as [c attrs| |]; try done.
      subst h2. rewrite list_lookup_insert_ne by (intros ->; congruence).
      rewrite (Hk _ _ El). by destruct (dict_get attr_phones attrs). }
    assert (phones_of h2 (VRef (length hL)) = Some (length hN)) as Hnew.
    { unfold phones_of, getattr. subst h2. rewrite list_lookup_insert_ne by done.
      rewrite HoR. reflexivity. }
    assert (mapM (phones_of h2) (dict_values items) = Some pls) as Hpls2.
    { eapply mapM_kept; [| exact Hpls]. exact Hph. }
    destruct (mapM_values_dict_set _ _ _ name _ _ Hpls2 Hnew) as (pls' & Hpls' & _ & Hnd').
    exists (dict_set name (VRef (length hL)) items), pls'.
    split; [| split; [by apply dict_set_NoDup | split; [done |]]].
    + assert (getattr (VRef lb) attr_data h2 = (Ok (VRef d), h2)) as Hdata2.
      { unfold getattr. rewrite Hlb2. reflexivity. }
      unfold items_of. by rewrite Hdata2, Hd2'.
    + apply Hnd'; [done |]. intros Hin.
      pose proof (phones_in_store _ _ _ _ Hm Hpls) as Hlt.
      rewrite Forall_forall in Hlt. apply Hlt in Hin.
      subst hN. rewrite length_app in Hin. simpl in Hin. lia.
Qed.

Lemma new_record_separate_witness :
  exists lr h1 h2,
    Record_new (pystr_of "Eve") two_heap = (Ok (VRef lr), h1)
    /\ add_record (VRef 1) (VRef lr) h1 = (Ok tt, h2)
    /\ read_record h2 (VRef lr) = Some (ContactRecord.init (pystr_of "Eve"))
    /\ read_book h2 (VRef 1)
       = Some (AddressBook.add_record (ContactRecord.init (pystr_of "Eve")) two_book)
    /\ separate h2 (VRef 1).
Proof.
  apply (new_record_separate two_heap (VRef 1) two_book (pystr_of "Eve")).
  - reflexivity.
  - eexists _, _. split; [reflexivity |].
    split; [apply (bool_decide_unpack _); vm_compute; exact I |].
    split; [reflexivity |]. apply (bool_decide_unpack _). vm_compute. exact I.
Defined.

End separate_facts.

(* ===================================================================== *)
(** ** Facts: the texts of a birthday                                   *)
(* ===================================================================== *)

Ltac re_invert :=
  repeat match goal with
         | H : re_lang (Alt _ _) _ |- _ => inversion H; subst; clear H
         | H : re_lang (Seq _ _) _ |- _ => inversion H; subst; clear H
         | H : re_lang (Chr _) _ |- _ => inversion H; subst; clear H
         end.

Lemma re_lang_day_text (d : pystr) : re_lang re_d d <-> day_text d = true.
Proof.
  split.
  - unfold re_d, lit, cls, re_digit. intros H. re_invert; cbn [app day_text];
      repeat match goal with
             | H : N.eqb _ _ = true |- _ => apply N.eqb_eq in H; subst
             end;
      repeat match goal with H : _ = true |- _ => rewrite H; clear H end;
      try reflexivity; rewrite ?orb_true_r; reflexivity.
  - unfold day_text. destruct d as [|a [|c [|]]]; try done.
    + intros H. do 3 apply lang_alt_r. apply lang_alt_l. by constructor.
    + intros H. repeat (apply orb_true_iff in H as [H|H]);
        apply andb_true_iff in H as [H1 H2].
      * apply N.eqb_eq in H1 as ->. do 2 apply lang_alt_r. apply lang_alt_l.
        apply (lang_seq _ _ [_] [_]); by constructor.
      * apply lang_alt_r, lang_alt_l. apply (lang_seq _ _ [_] [_]); by constructor.
      * apply N.eqb_eq in H1 as ->. apply lang_alt_l.
        apply (lang_seq _ _ [_] [_]); by constructor.
      * apply N.eqb_eq in H1 as ->. do 4 apply lang_alt_r.
        apply (lang_seq _ _ [_] [_]); by constructor.
Qed.

Lemma re_lang_month_text (m : pystr) : re_lang re_m m <-> month_text m = true.
Proof.
  split.
  - unfold re_m, lit, cls. intros H. re_invert; cbn [app month_text];
      repeat match goal with
             | H : N.eqb _ _ = true |- _ => apply N.eqb_eq in H; subst
             end;
      repeat match goal with H : _ = true |- _ => rewrite H; clear H end;
      try reflexivity; rewrite ?orb_true_r; reflexivity.
  - unfold month_text. destruct m as [|a [|c [|]]]; try done.
    + intros H. do 2 apply lang_alt_r. by constructor.
    + intros H. repeat (apply orb_true_iff in H as [H|H]);
        apply andb_true_iff in H as [H1 H2].
      * apply N.eqb_eq in H1 as ->. apply lang_alt_r, lang_alt_l.
        apply (lang_seq _ _ [_] [_]); by constructor.
      * apply N.eqb_eq in H1 as ->. apply lang_alt_l.
        apply (lang_seq _ _ [_] [_]); by constructor.
Qed.

Lemma re_lang_year_text (y : pystr) : re_lang re_Y y <-> year_text y = true.
Proof.
  rewrite re_lang_Y_digits. unfold year_text.
  rewrite andb_true_iff, bool_decide_eq_true, forallb_forall, Forall_forall.
  split; intros [H1 H2]; (split; [done |]); intros c Hc; apply H2;
    by apply list_elem_of_In.
Qed.

(** [int] on a text that it accepts gives the number the digits write. *)
Lemma int_digits_value (s : pystr) (acc n : Z) :
  int_digits acc s = Some n ->
  fold_left (fun acc c => acc * 10 + default 0 (decimal_value c)) s acc = n.
Proof.
  revert acc. induction s as [|c s IH]; intros acc; simpl; [congruence |].
  destruct (decimal_value c) as [v|]; [| done]. simpl. apply IH.
Qed.

Lemma text_value_skip_blanks (s : pystr) : text_value (skip_blanks s) = text_value s.
Proof.
  unfold text_value. induction s as [|c s IH]; [done |]. cbn [skip_blanks].
  destruct (c =? 32)%N eqn:E; [| done]. apply N.eqb_eq in E as ->. by rewrite IH.
Qed.

Lemma py_int_text_value (s : pystr) (n : Z) : py_int s = Ok n -> text_value s = n.
Proof.
  unfold py_int. rewrite <- text_value_skip_blanks.
  destruct (skip_blanks s) as [|c s'] eqn:E; [done |].
  destruct (int_digits 0 (c :: s')) as [k|] eqn:Ek; [| done].
  intros [= <-]. by apply int_digits_value.
Qed.

Lemma int_digits_decimal (s : pystr) (acc : Z) :
  forallb char_isdecimal s = true -> is_Some (int_digits acc s).
Proof.
  revert acc. induction s as [|c s IH]; intros acc; simpl; [done |].
  unfold char_isdecimal. destruct (decimal_value c) as [v|]; [| done]. apply IH.
Qed.

Lemma py_int_decimal (c : codepoint) (s : pystr) :
  forallb char_isdecimal (c :: s) = true -> py_int (c :: s) = Ok (text_value (c :: s)).
Proof.
  intros H.
  assert ((c =? 32)%N = false) as Hc.
  { apply N.eqb_neq. intros ->. done. }
  destruct (int_digits_decimal (c :: s) 0 H) as [n Hn].
  assert (py_int (c :: s) = Ok n) as Hp.
  { unfold py_int. cbn [skip_blanks]. rewrite Hc. by rewrite Hn. }
  rewrite Hp. f_equal. symmetry. by apply py_int_text_value.
Qed.

Lemma in_range_decimal (lo hi c : N) :
  (48 <= lo)%N -> (hi <= 57)%N -> in_range lo hi c = true -> char_isdecimal c = true.
Proof.
  intros Hlo Hhi H. apply ascii_digit_isdecimal. unfold ascii_digit, in_range in *.
  apply andb_true_iff in H as [H1 H2]. apply N.leb_le in H1, H2.
  apply andb_true_iff. split; apply N.leb_le; lia.
Qed.

Lemma py_int_blank (s : pystr) : py_int (32%N :: s) = py_int s.
Proof. reflexivity. Qed.

Lemma text_value_blank (s : pystr) : text_value (32%N :: s) = text_value s.
Proof. reflexivity. Qed.

Lemma day_text_int (d : pystr) : day_text d = true -> py_int d = Ok (text_value d).
Proof.
  unfold day_text. destruct d as [|a [|c [|]]]; try done.
  - intros H. apply py_int_decimal. cbn [forallb]. rewrite andb_true_r.
    by apply (in_range_decimal 0x31 0x39).
  - intros H. repeat (apply orb_true_iff in H as [H|H]);
      apply andb_true_iff in H as [H1 H2].
    + apply N.eqb_eq in H1 as ->. apply py_int_decimal. cbn [forallb].
      rewrite (in_range_decimal 0x31 0x39 c) by done. reflexivity.
    + apply py_int_decimal. cbn [forallb].
      rewrite (in_range_decimal 0x31 0x32 a) by done. by rewrite H2.
    + apply N.eqb_eq in H1 as ->. apply py_int_decimal. cbn [forallb].
      rewrite (in_range_decimal 0x30 0x31 c) by done. reflexivity.
    + apply N.eqb_eq in H1 as ->. rewrite py_int_blank, text_value_blank.
      apply py_int_decimal. cbn [forallb]. rewrite andb_true_r.
      by apply (in_range_decimal 0x31 0x39).
Qed.

Lemma month_text_int (m : pystr) : month_text m = true -> py_int m = Ok (text_value m).
Proof.
  unfold month_text. destruct m as [|a [|c [|]]]; try done.
  - intros H. apply py_int_decimal. cbn [forallb]. rewrite andb_true_r.
    by apply (in_range_decimal 0x31 0x39).
  - intros H. repeat (apply orb_true_iff in H as [H|H]);
      apply andb_true_iff in H as [H1 H2].
    + apply N.eqb_eq in H1 as ->. apply py_int_decimal. cbn [forallb].
      rewrite (in_range_decimal 0x31 0x39 c) by done. reflexivity.
    + apply N.eqb_eq in H1 as ->. apply py_int_decimal. cbn [forallb].
      rewrite (in_range_decimal 0x30 0x32 c) by done. reflexivity.
Qed.

Lemma year_text_int (y : pystr) : year_text y = true -> py_int y = Ok (text_value y).
Proof.
  unfold year_text. intros H. apply andb_true_iff in H as [H1 H2].
  apply bool_decide_eq_true in H1. destruct y as [|c y]; [done |]. by apply py_int_decimal.
Qed.

(** The plain description and the pattern say the same. *)
Lemma reads_as_parses_as (s : pystr) (dt : date) : reads_as s dt <-> parses_as s dt.
Proof.
  split.
  - intros (d & m & y & -> & Hd & Hm & Hy & -> & Hv). exists d, m, y.
    split; [done |].
    split; [by apply re_lang_day_text |].
    split; [by apply re_lang_month_text |].
    split; [by apply re_lang_year_text |].
    split; [by apply day_text_int |].
    split; [by apply month_text_int |].
    split; [by apply year_text_int | done].
  - intros (d & m & y & -> & Hd & Hm & Hy & Hid & Him & Hiy & Hv). exists d, m, y.
    split; [done |].
    split; [by apply re_lang_day_text |].
    split; [by apply re_lang_month_text |].
    split; [by apply re_lang_year_text |].
    split; [| done].
    apply py_int_text_value in Hid, Him, Hiy. rewrite Hid, Him, Hiy. by destruct dt.
Qed.

Lemma ascii_digit_char (c : codepoint) :
  ascii_digit c = true -> exists k, 0 <= k <= 9 /\ c = digit_char k /\ Z.of_N c - 48 = k.
Proof.
  unfold ascii_digit, in_range. intros H. apply andb_true_iff in H as [H1 H2].
  apply N.leb_le in H1, H2. exists (Z.of_N c - 48).
  split; [lia |]. split; [| done]. unfold digit_char.
  replace (48 + (Z.of_N c - 48)) with (Z.of_N c) by lia. by rewrite N2Z.id.
Qed.

Lemma digit_char_ascii (k : Z) :
  0 <= k <= 9 -> ascii_digit (digit_char k) = true /\ Z.of_N (digit_char k) - 48 = k.
Proof.
  intros H. unfold ascii_digit, in_range, digit_char. rewrite Z2N.id by lia. split; [| lia].
  apply andb_true_iff. split; apply N.leb_le; lia.
Qed.

(** The strict texts are the ten characters DD.MM.YYYY of a date of the
    calendar, written with '0'..'9'. *)
Lemma strict_date_spec (s : pystr) (dt : date) :
  strict_date s = Some dt
  <-> exists d1 d2 m1 m2 y1 y2 y3 y4,
        Forall (fun k => 0 <= k <= 9) [d1; d2; m1; m2; y1; y2; y3; y4]
        /\ s = [digit_char d1; digit_char d2; dot; digit_char m1; digit_char m2; dot;
                digit_char y1; digit_char y2; digit_char y3; digit_char y4]
        /\ dt = mkdate (1000 * y1 + 100 * y2 + 10 * y3 + y4) (10 * m1 + m2) (10 * d1 + d2)
        /\ valid_date dt = true.
Proof.
  split.
  - unfold strict_date.
    destruct s as [|c1 [|c2 [|p1 [|c3 [|c4 [|p2 [|c5 [|c6 [|c7 [|c8 [|]]]]]]]]]]]; try done.
    destruct (forallb ascii_digit _ && _ && _) eqn:E; [| done].
    apply andb_true_iff in E as [E Ep2]. apply andb_true_iff in E as [E Ep1].
    apply N.eqb_eq in Ep1 as ->, Ep2 as ->.
    cbn [forallb] in E.
    repeat (apply andb_true_iff in E as [?E E]).
    destruct (ascii_digit_char c1) as (d1 & ? & -> & Hd1); [done |].
    destruct (ascii_digit_char c2) as (d2 & ? & -> & Hd2); [done |].
    destruct (ascii_digit_char c3) as (m1 & ? & -> & Hm1); [done |].
    destruct (ascii_digit_char c4) as (m2 & ? & -> & Hm2); [done |].
    destruct (ascii_digit_char c5) as (y1 & ? & -> & Hy1); [done |].
    destruct (ascii_digit_char c6) as (y2 & ? & -> & Hy2); [done |].
    destruct (ascii_digit_char c7) as (y3 & ? & -> & Hy3); [done |].
    destruct (ascii_digit_char c8) as (y4 & ? & -> & Hy4); [done |].
    unfold ascii_number. cbn [fold_left].
    rewrite Hd1, Hd2, Hm1, Hm2, Hy1, Hy2, Hy3, Hy4.
    replace ((((0 * 10 + y1) * 10 + y2) * 10 + y3) * 10 + y4)
      with (1000 * y1 + 100 * y2 + 10 * y3 + y4) by lia.
    replace ((0 * 10 + m1) * 10 + m2) with (10 * m1 + m2) by lia.
    replace ((0 * 10 + d1) * 10 + d2) with (10 * d1 + d2) by lia.
    cbv zeta. destruct (valid_date _) eqn:Ev; [| done]. intros [= <-].
    exists d1, d2, m1, m2, y1, y2, y3, y4. split; [| done].
    repeat (apply Forall_cons_2; [done |]). constructor.
  - intros (d1 & d2 & m1 & m2 & y1 & y2 & y3 & y4 & Hk & -> & -> & Hv).
    repeat (apply Forall_cons in Hk as [?Hk Hk]). cbv beta in *.
    destruct (digit_char_ascii d1) as [Ea1 Eb1]; [done |].
    destruct (digit_char_ascii d2) as [Ea2 Eb2]; [done |].
    destruct (digit_char_ascii m1) as [Ea3 Eb3]; [done |].
    destruct (digit_char_ascii m2) as [Ea4 Eb4]; [done |].
    destruct (digit_char_ascii y1) as [Ea5 Eb5]; [done |].
    destruct (digit_char_ascii y2) as [Ea6 Eb6]; [done |].
    destruct (digit_char_ascii y3) as [Ea7 Eb7]; [done |].
    destruct (digit_char_ascii y4) as [Ea8 Eb8]; [done |].
    unfold strict_date. cbn [forallb].
    rewrite Ea1, Ea2, Ea3, Ea4, Ea5, Ea6, Ea7, Ea8, N.eqb_refl. cbn [andb].
    unfold ascii_number. cbn [fold_left].
    rewrite Eb1, Eb2, Eb3, Eb4, Eb5, Eb6, Eb7, Eb8.
    replace ((((0 * 10 + y1) * 10 + y2) * 10 + y3) * 10 + y4)
      with (1000 * y1 + 100 * y2 + 10 * y3 + y4) by lia.
    replace ((0 * 10 + m1) * 10 + m2) with (10 * m1 + m2) by lia.
    replace ((0 * 10 + d1) * 10 + d2) with (10 * d1 + d2) by lia.
    cbv zeta. by rewrite Hv.
Qed.

Lemma two_digit_chars (k1 k2 : Z) :
  0 <= k1 <= 9 -> 0 <= k2 <= 9 ->
  [digit_char k1; digit_char k2] = two_digits (10 * k1 + k2).
Proof.
  intros H1 H2. unfold two_digits.
  replace ((10 * k1 + k2) / 10) with k1 by (Z.div_mod_to_equations; lia).
  by replace ((10 * k1 + k2) mod 10) with k2 by (Z.div_mod_to_equations; lia).
Qed.

(** A strict text is a text of the pattern, for the same date. *)
Lemma strict_date_parses (s : pystr) (dt : date) :
  strict_date s = Some dt -> parses_as s dt.
Proof.
  intros H. apply strict_date_spec in H
    as (d1 & d2 & m1 & m2 & y1 & y2 & y3 & y4 & Hk & -> & -> & Hv).
  pose proof (valid_date_bounds _ Hv) as (Hy & Hm & Hd & Hd'). cbn [year month day] in *.
  pose proof Hk as Hk'.
  repeat (apply Forall_cons in Hk as [?Hk Hk]). cbv beta in *.
  exists [digit_char d1; digit_char d2], [digit_char m1; digit_char m2],
    (digit_char <$> [y1; y2; y3; y4]).
  split; [done |].
  rewrite !two_digit_chars by done.
  split; [apply re_lang_day; lia |].
  split; [apply re_lang_month; lia |].
  split.
  { apply re_lang_Y_digits. split; [done |]. apply Forall_fmap.
    repeat (apply Forall_cons_2; [by apply digit_char_isdecimal |]). constructor. }
  split; [apply py_int_two_digits; cbn [day]; lia |].
  split; [apply py_int_two_digits; cbn [month]; lia |].
  split; [| done].
  rewrite py_int_digits; [| done |].
  - cbn [fold_left year]. f_equal. lia.
  - repeat (apply Forall_cons_2; [done |]). constructor.
Qed.

(** From the year 1000 on, the strict text of a date is its formatted
    string. *)
Lemma strict_date_strftime (s : pystr) (dt : date) :
  strict_date s = Some dt -> 1000 <= year dt -> strftime dt = s.
Proof.
  intros H Hy. apply strict_date_spec in H
    as (d1 & d2 & m1 & m2 & y1 & y2 & y3 & y4 & Hk & -> & -> & Hv).
  repeat (apply Forall_cons in Hk as [?Hk Hk]). cbv beta in *. cbn [year month day] in *.
  unfold strftime. cbn [year month day].
  rewrite <- !two_digit_chars by done.
  rewrite year_digits_four by lia. cbn [fmap list_fmap app].
  repeat f_equal; Z.div_mod_to_equations; lia.
Qed.

Lemma strftime_strict (dt : date) :
  valid_date dt = true -> 1000 <= year dt -> strict_date (strftime dt) = Some dt.
Proof.
  intros Hv Hy. pose proof (valid_date_bounds dt Hv) as (Hy' & Hm & Hd & Hd').
  apply strict_date_spec.
  exists (day dt / 10), (day dt mod 10), (month dt / 10), (month dt mod 10),
    (year dt / 100 / 10), ((year dt / 100) mod 10), ((year dt mod 100) / 10),
    ((year dt mod 100) mod 10).
  split; [repeat (apply Forall_cons_2; [Z.div_mod_to_equations; lia |]); constructor |].
  split.
  { unfold strftime, two_digits. by rewrite year_digits_four by lia. }
  split; [| done].
  destruct dt as [y m d]. cbn [year month day] in *.
  f_equal; Z.div_mod_to_equations; lia.
Qed.

Lemma text_value_digit_chars (ks : list Z) :
  Forall (fun k => 0 <= k <= 9) ks ->
  text_value (digit_char <$> ks) = fold_left (fun acc k => acc * 10 + k) ks 0.
Proof.
  intros Hks. unfold text_value.
  assert (forall acc,
            fold_left (fun acc c => acc * 10 + default 0 (decimal_value c))
              (digit_char <$> ks) acc
            = fold_left (fun acc k => acc * 10 + k) ks acc) as H; [| apply H].
  induction Hks as [|k ks Hk Hks IH]; intros acc; [done |].
  cbn [fmap list_fmap fold_left]. destruct (digit_char_decimal k Hk) as [-> _]. apply IH.
Qed.

Lemma decimal_or_dot (c : codepoint) :
  char_isdecimal c = true -> ascii_digit c = true \/ c = dot -> ascii_digit c = true.
Proof. intros H [Ha | ->]; [done |]. by vm_compute in H. Qed.

(** A text that the code reads, of ten characters that are '0'..'9' or
    dots, is strict. *)
Lemma reads_as_strict (s : pystr) (dt : date) :
  reads_as s dt -> length s = 10%nat ->
  Forall (fun c => ascii_digit c = true \/ c = dot) s ->
  strict_date s = Some dt.
Proof.
  intros (d & m & y & -> & Hd & Hm & Hy & -> & Hv) Hlen Hall.
  unfold year_text in Hy. apply andb_true_iff in Hy as [Hy1 Hy2].
  apply bool_decide_eq_true in Hy1.
  assert (length d = 2 /\ length m = 2)%nat as [Hld Hlm].
  { rewrite !length_app in Hlen. simpl in Hlen.
    assert (length d <= 2)%nat by (unfold day_text in Hd; destruct d as [|? [|? [|]]]; simpl; first [lia | done]).
    assert (length m <= 2)%nat by (unfold month_text in Hm; destruct m as [|? [|? [|]]]; simpl; first [lia | done]).
    lia. }
  destruct d as [|a [|c [|]]]; try done. destruct m as [|e [|f [|]]]; try done.
  destruct y as [|c1 [|c2 [|c3 [|c4 [|]]]]]; try done.
  cbn [app] in Hall.
  apply Forall_cons in Hall as [Ha Hall]. apply Forall_cons in Hall as [Hc Hall].
  apply Forall_cons in Hall as [_ Hall].
  apply Forall_cons in Hall as [He Hall]. apply Forall_cons in Hall as [Hf Hall].
  apply Forall_cons in Hall as [_ Hall].
  apply Forall_cons in Hall as [H1 Hall]. apply Forall_cons in Hall as [H2 Hall].
  apply Forall_cons in Hall as [H3 Hall]. apply Forall_cons in Hall as [H4 _].
  cbn [forallb] in Hy2. repeat (apply andb_true_iff in Hy2 as [?Hy Hy2]).
  assert (char_isdecimal a = true /\ char_isdecimal c = true) as [Hda Hdc].
  { unfold day_text in Hd. repeat (apply orb_true_iff in Hd as [Hd|Hd]);
      apply andb_true_iff in Hd as [Hd1 Hd2].
    - apply N.eqb_eq in Hd1 as ->. split; [done | by apply (in_range_decimal 0x31 0x39)].
    - split; [by apply (in_range_decimal 0x31 0x32) | done].
    - apply N.eqb_eq in Hd1 as ->. split; [done | by apply (in_range_decimal 0x30 0x31)].
    - apply N.eqb_eq in Hd1 as ->. by destruct Ha as [Ha | Ha]. }
  assert (char_isdecimal e = true /\ char_isdecimal f = true) as [Hde Hdf].
  { unfold month_text in Hm. repeat (apply orb_true_iff in Hm as [Hm|Hm]);
      apply andb_true_iff in Hm as [Hm1 Hm2].
    - apply N.eqb_eq in Hm1 as ->. split; [done | by apply (in_range_decimal 0x31 0x39)].
    - apply N.eqb_eq in Hm1 as ->. split; [done | by apply (in_range_decimal 0x30 0x32)]. }
  destruct (ascii_digit_char a) as (k1 & ? & -> & _); [by apply decimal_or_dot |].
  destruct (ascii_digit_char c) as (k2 & ? & -> & _); [by apply decimal_or_dot |].
  destruct (ascii_digit_char e) as (k3 & ? & -> & _); [by apply decimal_or_dot |].
  destruct (ascii_digit_char f) as (k4 & ? & -> & _); [by apply decimal_or_dot |].
  destruct (ascii_digit_char c1) as (k5 & ? & -> & _); [by apply decimal_or_dot |].
  destruct (ascii_digit_char c2) as (k6 & ? & -> & _); [by apply decimal_or_dot |].
  destruct (ascii_digit_char c3) as (k7 & ? & -> & _); [by apply decimal_or_dot |].
  destruct (ascii_digit_char c4) as (k8 & ? & -> & _); [by apply decimal_or_dot |].
  apply strict_date_spec. exists k1, k2, k3, k4, k5, k6, k7, k8.
  split; [repeat (apply Forall_cons_2; [done |]); constructor |].
  split; [done |]. split; [| done].
  change [digit_char k5; digit_char k6; digit_char k7; digit_char k8]
    with (digit_char <$> [k5; k6; k7; k8]).
  change [digit_char k3; digit_char k4] with (digit_char <$> [k3; k4]).
  change [digit_char k1; digit_char k2] with (digit_char <$> [k1; k2]).
  rewrite !text_value_digit_chars by (repeat (apply Forall_cons_2; [done |]); constructor).
  cbn [fold_left]. f_equal; lia.
Qed.

(** C3, counterexample: Birthday accepts "8.6.1995", " 8.6.1995",
    " 8.06.1995" and a text with ARABIC-INDIC DIGIT ZERO (U+0660) in the
    day 10, none of which is a text of the fixed pattern DD.MM.YYYY; the
    date of "8.6.1995" is formatted as "08.06.1995", so the accepted text
    is not the formatted string of its date. [strptime] reads a day or a
    month of one digit, a blank before a day of one digit and, where its
    pattern has [\d], the decimal digits of every script. *)
Lemma Birthday_accepts_short_day :
  Birthday (pystr_of "8.6.1995") = Ok (mkField (pystr_of "8.6.1995"))
  /\ strict_date (pystr_of "8.6.1995") = None
  /\ Birthday (pystr_of " 8.6.1995") = Ok (mkField (pystr_of " 8.6.1995"))
  /\ strict_date (pystr_of " 8.6.1995") = None
  /\ strptime (pystr_of "8.6.1995") = Ok (mkdate 1995 6 8)
  /\ strftime (mkdate 1995 6 8) = pystr_of "08.06.1995"
  /\ strict_date (pystr_of "08.06.1995") = Some (mkdate 1995 6 8)
  /\ Birthday (pystr_of " 8.06.1995") = Ok (mkField (pystr_of " 8.06.1995"))
  /\ strict_date (pystr_of " 8.06.1995") = None
  /\ Birthday [0x31; 0x660; 46; 48; 54; 46; 50; 48; 50; 52]%N
     = Ok (mkField [0x31; 0x660; 46; 48; 54; 46; 50; 48; 50; 52]%N)
  /\ strict_date [0x31; 0x660; 46; 48; 54; 46; 50; 48; 50; 52]%N = None.
Proof. vm_compute. repeat split. Qed.

(** C3, amended: Birthday(s) succeeds, and stores [s] unchanged, exactly
    when [s] is a day, a dot, a month, a dot and a year as the directives
    %d, %m and %Y of [strptime] read them (a day '1'..'9', '01'..'31' or a
    blank and '1'..'9'; a month '1'..'9' or '01'..'12'; a year of four
    digits; the second digit of a day from 10 to 29 and the digits of the
    year may be decimal digits of any script) that name a date of the
    calendar; for every other [s] it raises the ValueError "Invalid date
    format. Use DD.MM.YYYY". Every text of the fixed pattern DD.MM.YYYY
    with the digits '0'..'9' that names a date of the calendar is accepted,
    for that date, and an accepted text of ten characters that are '0'..'9'
    or dots is of the fixed pattern. "30.02.2024" is rejected. The stored
    value is the given string. The formatted string of a date (years from
    1000 on) is of the fixed pattern, is accepted and parses back to that
    date, and a text of the fixed pattern (years from 1000 on) is the
    formatted string of its date. *)
Theorem Birthday_construction (s : pystr) :
  ((exists dt, reads_as s dt) -> Birthday s = Ok (mkField s))
  /\ (~ (exists dt, reads_as s dt) -> Birthday s = Raise InvalidFormat_birthday)
  /\ (forall dt, strptime s = Ok dt <-> reads_as s dt)
  /\ (forall dt, strict_date s = Some dt ->
        reads_as s dt /\ Birthday s = Ok (mkField s) /\ strptime s = Ok dt)
  /\ (forall dt, reads_as s dt -> length s = 10%nat ->
        Forall (fun c => ascii_digit c = true \/ c = dot) s -> strict_date s = Some dt)
  /\ Birthday (pystr_of "30.02.2024") = Raise InvalidFormat_birthday
  /\ (forall b, Birthday s = Ok b -> value b = s)
  /\ (forall dt, valid_date dt = true -> 1000 <= year dt -> s = strftime dt ->
        strict_date s = Some dt /\ Birthday s = Ok (mkField s) /\ strptime s = Ok dt)
  /\ (forall dt, strict_date s = Some dt -> 1000 <= year dt -> strftime dt = s).
Proof.
  assert (forall dt, strptime s = Ok dt <-> reads_as s dt) as Hiff.
  { intros dt. rewrite strptime_iff. symmetry. apply reads_as_parses_as. }
  assert ((exists dt, reads_as s dt) <-> Birthday s = Ok (mkField s)) as Hok.
  { rewrite Birthday_ok_iff. split; intros [dt H]; exists dt; by apply reads_as_parses_as. }
  assert (forall dt, strict_date s = Some dt ->
            reads_as s dt /\ Birthday s = Ok (mkField s) /\ strptime s = Ok dt) as Hstrict.
  { intros dt H. apply strict_date_parses, reads_as_parses_as in H.
    split; [done |]. split; [apply Hok; by exists dt | by apply Hiff]. }
  split; [apply Hok |]. split; [| split; [done |]; split; [done |]; split].
  - intros H. destruct (Birthday_cases s) as [E | E]; [| done].
    apply Hok in E. contradiction.
  - intros dt. apply reads_as_strict.
  - split; [by vm_compute |]. split; [| split].
    + intros b Hb. destruct (Birthday_cases s) as [E | E]; [| congruence].
      rewrite E in Hb. by injection Hb as <-.
    + intros dt Hv Hy ->. pose proof (strftime_strict dt Hv Hy) as H.
      split; [done |]. by apply Hstrict.
    + intros dt. apply strict_date_strftime.
Qed.

Lemma Birthday_construction_witness :
  strict_date (pystr_of "08.06.1995") = Some (mkdate 1995 6 8)
  /\ Birthday (pystr_of "08.06.1995") = Ok (mkField (pystr_of "08.06.1995"))
  /\ strptime (pystr_of "08.06.1995") = Ok (mkdate 1995 6 8).
Proof.
  apply (proj1 (proj2 (proj2 (proj2 (proj2 (proj2 (proj2 (proj2
           (Birthday_construction (pystr_of "08.06.1995")))))))))
           (mkdate 1995 6 8)); [reflexivity | simpl; lia | reflexivity].
Defined.

(* ===================================================================== *)
(** ** Facts: the deep copy of a book is independent                    *)
(* ===================================================================== *)

Section deepcopy_facts.
Import Store.
#[local] Open Scope nat_scope.

(** What [find] returns on a book that reads. *)
Lemma find_read_book (h : heap) (bk : val) (b : AddressBook.t) (key : pystr)
    (r : ContactRecord.t) :
  read_book h bk = Some b -> AddressBook.find key b = Some r ->
  exists rec, find bk key h = (Ok (VRef rec), h) /\ read_record h (VRef rec) = Some r.
Proof.
  intros Hb Hf.
  destruct (read_book_inv _ _ _ Hb) as (lb & d & items & -> & Hlb & Hd & Hm).
  pose proof (read_items_get _ _ _ key Hm) as Hget.
  unfold AddressBook.find in Hf. rewrite Hf in Hget. destruct Hget as (v & Hget & Hr).
  assert (exists rec, v = VRef rec) as [rec ->].
  { unfold read_record in Hr. destruct v; try done. by eexists. }
  exists rec. split; [| done].
  unfold find, getattr. rewrite Hlb. cbn [dict_get]. rewrite decide_True by done.
  by rewrite Hd, Hget.
Qed.

Lemma find_kept (h h' : heap) (bk : val) (key : pystr) (v : val) :
  kept h h' -> find bk key h = (Ok v, h) -> find bk key h' = (Ok v, h').
Proof.
  intros Hk. unfold find, getattr. destruct bk as [| |l]; try done.
  destruct (h !! l) as [o|] eqn:El; [| done]. rewrite (Hk _ _ El).
  destruct o as [c attrs| |]; try done.
  destruct (dict_get attr_data attrs) as [[| |d]|]; try done.
  destruct (h !! d) as [o|] eqn:Ed; [| done]. rewrite (Hk _ _ Ed).
  destruct o as [| |items]; try done. by intros [= <-].
Qed.

(** C8: for every store in which [book] reads as the address book [b],
    copy.deepcopy(book) returns (fuel 6 is enough) an object other than
    [book], and the original still reads as [b]; whatever record [find]
    returns from the copy, add_phone, remove_phone, edit_phone or
    add_birthday on it changes no object of the original store. When the
    keys of [b] are all different, as the keys of a dict are, the copy
    reads as [b] too, and for every name of [b], [find] on the copy returns
    a record object that the copy has made and that reads as the record of
    [b]; each of the four methods on it returns or raises what the method
    on the value does and changes that record of the copy, while [find] on
    the original still returns the object it returned before the copy,
    which still reads as the record of [b]. *)
Theorem deepcopy_independent (h : heap) (book : nat) (b : AddressBook.t) :
  read_book h (VRef book) = Some b ->
  (exists copy h1, deepcopy_top 6 (VRef book) h = Some (copy, h1))
  /\ forall fuel copy h1,
       deepcopy_top fuel (VRef book) h = Some (copy, h1) ->
       copy <> VRef book
       /\ read_book h1 (VRef book) = Some b
       /\ (forall key r' mu out h2,
             find copy key h1 = (Ok r', h1) ->
             run_mutation r' mu h1 = (out, h2) ->
             (forall l, l < length h -> h2 !! l = h !! l)
             /\ read_book h2 (VRef book) = Some b)
       /\ (NoDup (dict_keys (AddressBook.data b)) ->
           read_book h1 copy = Some b
           /\ forall key r,
                AddressBook.find key b = Some r ->
                exists orig rec,
                  find (VRef book) key h1 = (Ok (VRef orig), h1)
                  /\ find copy key h1 = (Ok (VRef rec), h1)
                  /\ orig < length h <= rec
                  /\ read_record h1 (VRef rec) = Some r
                  /\ forall mu, exists h2,
                       run_mutation (VRef rec) mu h1 = (fst (value_mutation mu r), h2)
                       /\ read_record h2 (VRef rec) = Some (snd (value_mutation mu r))
                       /\ (forall l, l < length h -> h2 !! l = h !! l)
                       /\ find (VRef book) key h2 = (Ok (VRef orig), h2)
                       /\ read_record h2 (VRef orig) = Some r
                       /\ read_book h2 (VRef book) = Some b).
Proof.
  intros Hb. split.
  - destruct (deepcopy_top_total h 5 (VRef book)) as [[copy h1] E].
    + by eapply read_book_closed.
    + by exists copy, h1.
  - intros fuel copy h1 Hcopy.
    destruct (deepcopy_top_apart _ _ _ _ _ Hcopy) as [Hap Hfresh].
    assert (forall key r' mu out h2,
              find copy key h1 = (Ok r', h1) ->
              run_mutation r' mu h1 = (out, h2) ->
              fresh_val (length h) r'
              /\ (forall l, l < length h -> h2 !! l = h !! l)
              /\ read_book h2 (VRef book) = Some b) as Hframe.
    { intros key r' mu out h2 Hfind Hmu.
      destruct (keeps_find (length h) h copy key Hfresh h1 _ _ Hap Hfind) as [_ Hr'].
      specialize (Hr' r' eq_refl).
      destruct (keeps_run_mutation (length h) h r' mu Hr' h1 _ _ Hap Hmu) as [Hap2 _].
      split; [done |]. split; [apply Hap2 |].
      eapply read_book_kept; [| exact Hb]. by apply apart_kept. }
    assert (read_book h1 (VRef book) = Some b) as Hb1.
    { eapply read_book_kept; [| exact Hb]. by apply apart_kept. }
    split; [| split; [done | split]].
    + intros ->. simpl in Hfresh.
      assert (is_Some (h !! book)) as Hs.
      { unfold read_book in Hb. destruct (h !! book); [done | discriminate]. }
      apply lookup_lt_is_Some in Hs. lia.
    + intros key r' mu out h2 Hfind Hmu.
      by destruct (Hframe key r' mu out h2 Hfind Hmu) as (_ & ? & ?).
    + intros Hnd.
      assert (read_book h1 copy = Some b) as Hcb.
      { destruct (read_book_tree h _ b Hb Hnd) as (t & Ht & Hback).
        eapply Hback. by eapply (deepcopy_top_tree h 5 fuel). }
      split; [done |]. intros key r Hkey.
      destruct (find_read_book _ _ _ _ _ Hb Hkey) as (orig & Hfo & Hro).
      destruct (find_read_book _ _ _ _ _ Hb1 Hkey) as (orig1 & Hfo1 & Hro1).
      destruct (find_read_book _ _ _ _ _ Hcb Hkey) as (rec & Hfr & Hrr).
      assert (orig < length h) as Horig.
      { unfold read_record in Hro. destruct (h !! orig) eqn:E; [| done].
        by eapply lookup_lt_Some. }
      assert (length h <= rec) as Hrec.
      { destruct (keeps_find (length h) h copy key Hfresh h1 _ _ Hap Hfr) as [_ Hr'].
        by apply (Hr' (VRef rec)). }
      exists orig, rec.
      split; [eapply find_kept; [by apply apart_kept | exact Hfo] |].
      split; [done |]. split; [lia |]. split; [done |]. intros mu.
      destruct (run_mutation_simulates h1 rec r mu Hrr) as (h2 & Hrun & Hr2).
      destruct (Hframe key (VRef rec) mu _ h2 Hfr Hrun) as (_ & Hsame & Hb2).
      assert (kept h h2) as Hk2.
      { intros l o Ho. rewrite Hsame; [done |]. by eapply lookup_lt_Some. }
      exists h2. split; [done |]. split; [done |]. split; [done |].
      split; [by eapply find_kept |].
      split; [by eapply read_record_kept | done].
Qed.

Lemma deepcopy_independent_witness :
  let ann := default (ContactRecord.init []) (AddressBook.find (pystr_of "Ann") sample_book) in
  exists copy h1 orig rec,
    deepcopy_top 6 (VRef 1) sample_heap = Some (copy, h1)
    /\ copy <> VRef 1
    /\ read_book h1 copy = Some sample_book
    /\ read_book h1 (VRef 1) = Some sample_book
    /\ find (VRef 1) (pystr_of "Ann") h1 = (Ok (VRef orig), h1)
    /\ find copy (pystr_of "Ann") h1 = (Ok (VRef rec), h1)
    /\ orig < length sample_heap <= rec
    /\ read_record h1 (VRef rec) = Some ann
    /\ forall mu, exists h2,
         run_mutation (VRef rec) mu h1 = (fst (value_mutation mu ann), h2)
         /\ read_record h2 (VRef rec) = Some (snd (value_mutation mu ann))
         /\ (forall l, l < length sample_heap -> h2 !! l = sample_heap !! l)
         /\ find (VRef 1) (pystr_of "Ann") h2 = (Ok (VRef orig), h2)
         /\ read_record h2 (VRef orig) = Some ann
         /\ read_book h2 (VRef 1) = Some sample_book.
Proof.
  destruct (deepcopy_independent sample_heap 1 sample_book eq_refl) as [(copy & h1 & E) H].
  destruct (H 6 copy h1 E) as (Hne & Hb1 & _ & Hcopy).
  destruct Hcopy as [Hcb Hfind]; [apply (bool_decide_unpack _); vm_compute; exact I |].
  destruct (Hfind (pystr_of "Ann") _ eq_refl) as (orig & rec & Hfo & Hfr & Hlt & Hrr & Hmu).
  exists copy, h1, orig, rec. repeat (split; [done |]). exact Hmu.
Defined.

End deepcopy_facts.
